(* ===== verification/_CoqProject ===== *)
-Q . S2P
Prelude.v
Floats.v
Model.v
Checkpoint.v
FileStore.v
ConfigMapStore.v
DynamoStore.v
Emit.v
Guard.v
OtlpEncode.v
OtlpEmitter.v
Limiter.v
Source.v
Runner.v
RunnerBatch.v
Scheduler.v
Coordinate.v
Fence.v
Lease.v
DynamoLock.v
Httpx.v
ConfigSecrets.v
Config.v
Helmgen.v
Cleanup.v
PortkeyStrip.v
PortkeyDownload.v
PortkeyUseCase.v
LogsExport.v
LogsSettings.v
PortkeyScope.v
PortkeyDerive.v
PortkeyAnalytics.v
PortkeyGroups.v
Portkey.v
LangsmithStrip.v
LangsmithPages.v
LangsmithRuns.v
LangsmithRunsSettings.v
LangsmithSessions.v
LangsmithUsage.v
Langsmith.v
App.v
AppGuard.v
Selfobs.v
Health.v
Probe.v
Preflight.v
Process.v
Startup.v
