(* ===== verification/Prelude.v ===== *)
(** * genai-otel-bridge: a verification development

    The program is a Go service that polls vendor APIs (Portkey, LangSmith)
    for usage data of language models and forwards it as OTLP metrics and logs.
    One replica leads at a time; per polling loop a durable watermark records
    how far data has been delivered.

    ** Parts and files

    Paths are under src/internal unless they start with cmd/.  Each file opens
    with what it holds.

    - [Prelude]: the shared vocabulary; [Floats]: rounding bounds for the
      float64 products of the pacing code and the configuration checks.

    - [Model] (model/model.go): samples, log records, batches, checkpoint keys,
      watermarks, the configuration fingerprint.
    - [Checkpoint], [FileStore], [ConfigMapStore], [DynamoStore] (checkpoint/):
      the monotonic epoch fence, the interface of a checkpoint store as a
      class with its laws, and the three stores as implementations that
      discharge it.
    - [Emit] (emit/emit.go, coalesce.go): the reject taxonomy and the cap of
      points per series and minute.  [OtlpEncode], [OtlpEmitter] (emit/otlp/):
      the encoding and the retrying, splitting HTTP emitter.
    - [Guard] (source/guard.go, content.go): label allow-list, content
      deny-list and floor, cardinality budget.  [Source] (source/source.go,
      capability.go): registry, series ownership, closed vocabularies.
    - [Limiter] (logging/limiter.go).
    - [Runner], [RunnerBatch], [Scheduler] (schedule/): the frontier and the
      degraded state of one loop, the processing of a batch, the tick and
      worker goroutines as a step relation.
    - [Coordinate], [Lease], [DynamoLock] (coordinate/): epochs in the context,
      the epoch read of the lease coordinator and its campaigns, the DynamoDB
      lock and a leadership term.  [Fence]: a replaced leader's runner against
      the two shared stores.  [Cleanup] (cleanup/): the uninstall hook.
    - [ConfigSecrets], [Config] (config/config.go): secret references, the
      configuration records, defaults and the validation gate.  [Helmgen]
      (config/gen/helmgen/): the generated regions and the ECS file.
    - [App], [AppGuard] (app/app.go): the composition root and what its guard
      lets through.  [Preflight] (app/validate.go): the configuration check.
    - [Selfobs], [Health] (selfobs/): the exported self-metrics, the health
      endpoints with the liveness threshold of cmd/.
    - [Probe], [Process], [Startup] (cmd/genai-otel-bridge/): the ECS helpers,
      the running process from [app.Run] to the exit, and [main] up to it.
    - [Httpx] (httpx/httpx.go): the outbound client.
    - [PortkeyStrip], [PortkeyDownload], [PortkeyUseCase], [LogsExport],
      [LogsSettings], [PortkeyScope], [PortkeyDerive], [PortkeyAnalytics],
      [PortkeyGroups], [Portkey] (source/portkey/): the record strip, the
      resumable download, use cases, the export state machine, its settings,
      the scope probe, the pure derivation and revision history, the
      time-bucketed loop, the group-by loop and the constructor of the source.
    - [LangsmithStrip], [LangsmithPages], [LangsmithRuns],
      [LangsmithRunsSettings], [LangsmithSessions], [LangsmithUsage],
      [Langsmith] (source/langsmith/): the run strip, the page loop three loops
      share, the windowed runs loop and its settings, the two snapshot loops,
      and the constructor of the source.

    A tick of [Scheduler] asks a source loop (a [Collect] of the Portkey or
    LangSmith files) for a batch since the watermark of [Runner], and hands it
    to [RunnerBatch], which splits it into minute buckets, applies [Guard] and [Emit], emits through [OtlpEmitter] and
    commits the watermark through a [Checkpoint] store under the epoch that
    [Coordinate] put into the context.  [Startup] loads a [Config], chooses the
    store and the coordinator and has [App] build the sources, the guard, the
    runners and the loop specifications; [Process] then runs the coordinator
    beside the health server, whose answers [Health] and [Probe] define.

    ** What the theorems show

    - Delivery: a commit never passes data that was not handled; every sample
      of a batch is emitted, dropped with a count, or retried; the analytics
      loop delivers every settled bucket of its API, the logs loop every line
      of every page of a window, the runs loop every page of a window's token
      chain (or counts the truncation), before the frontier passes them; a
      window of runs always closes; a page is delivered line by line exactly
      once over resumed downloads.
    - Snapshots: the sessions and usage loops return the gauges of the listed
      projects exactly, with every missing span count counted, or nothing.
    - Sources: a constructor builds exactly the enabled loops, under distinct
      checkpoint keys, emitting only declared series and allowed labels.
    - Fencing: no store accepts a write of a demoted leader, and what a
      replaced leader's runner does never touches the record; epochs increase;
      a term ends before its lock can expire, and a lease replica never runs
      two callbacks at once (given its goroutine is scheduled in time); the
      cleanup keeps the fence and the checkpoint together or removes both.
    - Configuration: every reference resolves verbatim and no error text leaks
      a secret; an accepted configuration has ordered leadership timings,
      windows that cover the longest gap between ticks, and sends credentials
      only over guarded endpoints; the offline check accepts what the gate
      accepts.
    - Composition: [Build] gives every loop its own checkpoint key, and the
      guard it installs passes exactly the fields the loops were opted into,
      loop by loop; a start goes through every gate of [main].
    - Liveness: while the loops of a leader keep their pace, in float64
      arithmetic with jitter, its probe answers 200; however the goroutines of
      the process interleave, its own steps alone take it to the exit, with the
      exit code and the flushes it should, once something has ended the run.
    - Content: what the strip and the guard let through, exactly, and that no
      accepted configuration opens a content field.
    - Egress: the client contacts only checked destinations, redirects
      included, and the emitter follows none; the egress predicate is a table of address ranges.
    - Termination and bounds: retry loops, redirects, paging, windows, caps.
    - Exactness of pure functions against reference definitions: coalescing,
      derivation, use-case resolution, group paging, address ranges, the fence.

    ** Conventions

    Stateful code is state passing or a small state monad with a trace of
    calls; goroutines are step relations; errors are values.  Code outside the
    repository (HTTP, DNS, Kubernetes, DynamoDB, JSON, protobuf, YAML, hashes,
    time formats, Unicode tables) is a class or a section variable, with the
    laws the code relies on as named hypotheses; each theorem that has one
    comes with a witness on a concrete instance.  Loops without a structural
    argument take fuel and return [None] without it; the theorems about them
    show the fuel given is enough: ten requests per HTTP call (the redirect
    hook refuses the tenth hop), one unit per byte for the line reader, the
    cap of rows or pages for paging (every page but the last adds a row), the
    attempt bounds of the code for retries.

    - An instant is the integer number of nanoseconds since Go's zero time
      (0001-01-01T00:00:00Z), so [IsZero] is [t = 0]; the location of a
      [time.Time] only changes how it prints, so instants carry none.
    - A [Duration] is an [int64] number of nanoseconds; [Sub] saturates and the
      products the code forms wrap, as in Go.
    - A Go string is a byte string: [string] over [ascii], compared bytewise.

    ** Not modelled

    The election itself, which is client-go's, and the set-up of the
    OpenTelemetry, Pyroscope, pprof, AWS and Kubernetes clients: library calls,
    whose outcome the models take as an answer of the environment.  The
    reflective part of the configuration generator (it walks Go types and doc
    comments and builds a YAML tree) and the documentation generator: build-time
    tools over reflection and the Go parser.  The signal tables and example
    values are data for documentation.  Log lines and tracing spans are left
    out unless a later decision reads them; metrics calls are trace events.

    This file holds the shared vocabulary: results, time arithmetic, byte
    strings, stable sorting, and the generic lemmas and tactics. *)

From stdpp Require Export base gmap strings list pretty sorting.
From Stdlib Require Export ZArith Lia SpecFloat.
From Stdlib Require Export Ascii.

Declare Scope go_scope.
Delimit Scope go_scope with go.
Open Scope go_scope.

(** ** Results *)

Inductive result (E A : Type) : Type :=
| Ok (a : A)
| Err (e : E).
Arguments Ok {E A} a.
Arguments Err {E A} e.

Notation "'let?' x ':=' c 'in' k" :=
  (match c with Ok x => k | Err e => Err e end)
  (at level 10, x pattern, c at level 100, k at level 200) : go_scope.

Definition is_ok {E A} (r : result E A) : bool :=
  match r with Ok _ => true | Err _ => false end.

(** ** Tactics *)

(** Turn boolean comparisons of [Z] and [nat] into propositions. *)
Ltac zbool :=
  repeat match goal with
  | H : context [Z.ltb ?a ?b] |- _ => destruct (Z.ltb_spec a b)
  | H : context [Z.leb ?a ?b] |- _ => destruct (Z.leb_spec a b)
  | H : context [Z.eqb ?a ?b] |- _ => destruct (Z.eqb_spec a b)
  | |- context [Z.ltb ?a ?b] => destruct (Z.ltb_spec a b)
  | |- context [Z.leb ?a ?b] => destruct (Z.leb_spec a b)
  | |- context [Z.eqb ?a ?b] => destruct (Z.eqb_spec a b)
  end.

(** Case analysis on every [match] in sight, keeping the equations. *)
Ltac crush_match :=
  repeat (case_match; simplify_eq/=; try done).

Create HintDb bridge.
Create Rewrite HintDb bridge_rw.

(** Peeling a chain of alternatives, or a parse, off a result. *)
Lemma if_some {A} P `{Decision P} (x y : option A) (Q : A -> Prop) :
  (forall a, x = Some a -> Q a) -> (forall a, y = Some a -> Q a) -> forall a, (if decide P then x else y) = Some a -> Q a.
Proof. case_decide; auto. Qed.

(** A fold that may fail keeps what every step keeps. *)
Lemma foldl_option_inv {A X} (P : A -> Prop) (f : A -> X -> option A) xs a a' :
  (forall a x a', P a -> f a x = Some a' -> P a') -> P a -> foldl (fun a x => a ← a; f a x) (Some a) xs = Some a' -> P a'.
Proof.
  intros Hstep. revert a. induction xs as [|x xs IH]; intros a Ha; simpl; [by intros [= <-]|].
  destruct (f a x) as [a1|] eqn:E; [eauto|]. intros Hn. exfalso. revert Hn. clear. by induction xs.
Qed.

Lemma bind_some {A B} (x : option A) (f : A -> option B) (Q : B -> Prop) :
  (forall a, x = Some a -> forall b, f a = Some b -> Q b) -> forall b, (x ≫= f) = Some b -> Q b.
Proof. destruct x; simpl; [eauto|done]. Qed.

(** ** Machine integers *)

Definition minInt64 : Z := - 2 ^ 63.
Definition maxInt64 : Z := 2 ^ 63 - 1.

(** Two's-complement wrap-around at 64 bits. *)
Definition wrap64 (z : Z) : Z := (z + 2 ^ 63) mod 2 ^ 64 - 2 ^ 63.

Definition in_int64 (z : Z) : Prop := (minInt64 <= z <= maxInt64)%Z.

(** The value an [int64] has when it is converted to [uint64]. *)
Definition to_uint64 (z : Z) : Z := z mod 2 ^ 64.

Lemma wrap64_id z : in_int64 z -> wrap64 z = z.
Proof.
  unfold in_int64, wrap64, minInt64, maxInt64. intros H.
  rewrite Z.mod_small; lia.
Qed.

Lemma wrap64_range z : in_int64 (wrap64 z).
Proof.
  unfold in_int64, wrap64, minInt64, maxInt64.
  pose proof (Z.mod_pos_bound (z + 2 ^ 63) (2 ^ 64)). lia.
Qed.

(** ** Time *)

Abbreviation Time := Z (only parsing).
Abbreviation Duration := Z (only parsing).

Definition Nanosecond : Duration := 1%Z.
Definition Millisecond : Duration := 1000000%Z.
Definition Second : Duration := 1000000000%Z.
Definition Minute : Duration := 60000000000%Z.
Definition Hour : Duration := 3600000000000%Z.
Definition Day : Duration := 86400000000000%Z.

(** Seconds from 0001-01-01T00:00:00Z to the Unix epoch. *)
Definition unixToInternal : Z := 62135596800%Z.

Definition zeroTime : Time := 0%Z.
Definition IsZero (t : Time) : bool := (t =? 0)%Z.
Definition Before (t u : Time) : bool := (t <? u)%Z.
Definition After (t u : Time) : bool := (u <? t)%Z.
Definition Equal (t u : Time) : bool := (t =? u)%Z.
Definition Add (t : Time) (d : Duration) : Time := (t + d)%Z.

(** [t.Sub(u)]: the difference, saturated at the [Duration] range. *)
Definition Sub (t u : Time) : Duration :=
  let d := (t - u)%Z in
  if (d <? minInt64)%Z then minInt64 else if (maxInt64 <? d)%Z then maxInt64 else d.

(** [t.Truncate(d)] rounds down, counting from the zero time. *)
Definition Truncate (t : Time) (d : Duration) : Time :=
  if (d <=? 0)%Z then t else (t - t mod d)%Z.

Definition UnixNano (t : Time) : Z := wrap64 (t - unixToInternal * Second).
Definition UnixMilli (t : Time) : Z := wrap64 (t / Millisecond - unixToInternal * 1000).
Definition Unix (t : Time) : Z := (t / Second - unixToInternal)%Z.

(** [t.Year()] in the proleptic Gregorian calendar (UTC): the day number is
    cut by 400-, 100-, 4- and 1-year cycles, the last century and the last year
    of a cycle taking its leap day. *)
Definition Year (t : Time) : Z :=
  let d := (t / Day)%Z in
  let n400 := (d / 146097)%Z in
  let d := (d - 146097 * n400)%Z in
  let n100 := Z.min 3 (d / 36524) in
  let d := (d - 36524 * n100)%Z in
  let n4 := (d / 1461)%Z in
  let d := (d - 1461 * n4)%Z in
  let n1 := Z.min 3 (d / 365) in
  (400 * n400 + 100 * n100 + 4 * n4 + n1 + 1)%Z.

(** The first instant of the year 10000. *)
Definition year10000 : Time := (3652059 * Day)%Z.

Lemma Year_bounds t : (1 <= Year t <= 9999)%Z <-> (0 <= t < year10000)%Z.
Proof.
  unfold Year, year10000, Day. split; intros H; Z.to_euclidean_division_equations; lia.
Qed.

Lemma Sub_exact t u : in_int64 (t - u) -> Sub t u = (t - u)%Z.
Proof. unfold in_int64, Sub. intros ?. zbool; lia. Qed.

Lemma Sub_sign t u : (0 < Sub t u)%Z <-> (u < t)%Z.
Proof. unfold Sub, minInt64, maxInt64. zbool; lia. Qed.

Lemma UnixNano_inj t u :
  in_int64 (t - unixToInternal * Second) -> in_int64 (u - unixToInternal * Second) ->
  UnixNano t = UnixNano u -> t = u.
Proof. unfold UnixNano. intros Ht Hu. rewrite !wrap64_id by done. lia. Qed.

(** ** Floating point *)

(** [float64] operations, at binary64 precision. *)
Definition f64_of_Z (z : Z) : spec_float := binary_normalize 53 1024 z 0 false.
Definition f64_add : spec_float -> spec_float -> spec_float := SFadd 53 1024.
Definition f64_sub : spec_float -> spec_float -> spec_float := SFsub 53 1024.
Definition f64_mul : spec_float -> spec_float -> spec_float := SFmul 53 1024.
Definition f64_div : spec_float -> spec_float -> spec_float := SFdiv 53 1024.

(** Conversion to [int64] truncates; Go leaves NaN and out-of-range values to
    the platform, here the amd64 result. *)
Definition int64_of_f64 (f : spec_float) : Z :=
  let z := match f with
           | S754_zero _ => 0%Z
           | S754_finite sg m e =>
               let mag := if (0 <=? e)%Z then (Z.pos m * 2 ^ e)%Z else (Z.pos m / 2 ^ (- e))%Z in
               if sg then (- mag)%Z else mag
           | _ => minInt64
           end in
  if ((minInt64 <=? z) && (z <=? maxInt64))%Z then z else minInt64.

(** ** Byte strings *)

Fixpoint has_prefix (p s : string) : bool :=
  match p, s with
  | EmptyString, _ => true
  | String a p', String b s' => if Ascii.eqb a b then has_prefix p' s' else false
  | String _ _, EmptyString => false
  end.

(** [strings.Contains]. *)
Fixpoint contains (s sub : string) : bool :=
  has_prefix sub s ||
  match s with EmptyString => false | String _ s' => contains s' sub end.

Definition byte_in (a : Ascii.ascii) (lo hi : N) : bool :=
  ((lo <=? Ascii.N_of_ascii a) && (Ascii.N_of_ascii a <=? hi))%N.

Fixpoint string_map (f : Ascii.ascii -> Ascii.ascii) (s : string) : string :=
  match s with EmptyString => "" | String a s' => String (f a) (string_map f s') end.

Fixpoint string_forallb (f : Ascii.ascii -> bool) (s : string) : bool :=
  match s with EmptyString => true | String a s' => f a && string_forallb f s' end.

Definition is_ascii (s : string) : bool := string_forallb (fun a => byte_in a 0 127) s.

Definition lower_byte (a : Ascii.ascii) : Ascii.ascii :=
  if byte_in a 65 90 then Ascii.ascii_of_N (Ascii.N_of_ascii a + 32) else a.

(** [strings.ToLower]: the all-ASCII fast path maps A-Z; any other string goes
    through the Unicode tables, which are the argument [uni]. *)
Definition ToLower (uni : string -> string) (s : string) : string :=
  if is_ascii s then string_map lower_byte s else uni s.

Fixpoint string_take (n : nat) (s : string) : string :=
  match n, s with
  | S n', String a s' => String a (string_take n' s')
  | _, _ => ""
  end.

Fixpoint string_drop (n : nat) (s : string) : string :=
  match n, s with
  | 0, _ => s
  | S _, EmptyString => ""
  | S n', String _ s' => string_drop n' s'
  end.

Abbreviation slen := String.length.

Lemma string_take_length n s : slen (string_take n s) = Nat.min n (slen s).
Proof. revert s; induction n; intros [|a s]; simpl; [done..|by rewrite IHn]. Qed.

Lemma has_prefix_spec p s : has_prefix p s = true <-> exists r, s = p +:+ r.
Proof.
  revert s. induction p as [|a p IH]; intros s; simpl.
  { split; [by exists s|done]. }
  destruct s as [|b s]; simpl; [split; [done|by intros [r Hr]]|].
  destruct (Ascii.eqb_spec a b) as [->|Hne]; [|split; [done|]].
  - rewrite IH. split; intros [r Hr]; exists r; [by rewrite Hr|by injection Hr].
  - intros [r Hr]. by injection Hr as ->.
Qed.

Lemma string_app_nil_r (s : string) : s +:+ "" = s.
Proof. induction s as [|a s IH]; [done|]. change (String a (s +:+ "") = String a s). by rewrite IH. Qed.

Lemma string_app_assoc (s t u : string) : (s +:+ t) +:+ u = s +:+ (t +:+ u).
Proof. induction s as [|a s IH]; [done|]. change (String a ((s +:+ t) +:+ u) = String a (s +:+ (t +:+ u))). by rewrite IH. Qed.

Lemma string_app_empty (s : string) : "" +:+ s = s.
Proof. reflexivity. Qed.

Lemma string_app_cons a (s t : string) : String a s +:+ t = String a (s +:+ t).
Proof. done. Qed.

Lemma string_app_length (s t : string) : slen (s +:+ t) = slen s + slen t.
Proof. induction s as [|a s IH]; [done|]. rewrite string_app_cons. simpl. by rewrite IH. Qed.

(** Two appends that agree and whose first halves have the same length have
    the same halves. *)
Lemma string_app_inj_length (s1 s2 t1 t2 : string) :
  slen s1 = slen s2 -> s1 +:+ t1 = s2 +:+ t2 -> s1 = s2 /\ t1 = t2.
Proof.
  revert s2. induction s1 as [|a s1 IH]; intros [|b s2]; simpl; try done.
  rewrite !string_app_cons. intros Hlen Heq. injection Heq as -> Heq.
  destruct (IH s2) as [-> ->]; auto.
Qed.

Lemma string_forallb_app f s t :
  string_forallb f (s +:+ t) = string_forallb f s && string_forallb f t.
Proof.
  induction s as [|a s IH]; [done|]. rewrite string_app_cons. simpl. by rewrite IH, andb_assoc.
Qed.

Lemma string_forallb_take f n s : string_forallb f s = true -> string_forallb f (string_take n s) = true.
Proof.
  revert n. induction s as [|a s IH]; intros [|n]; simpl; [done..|].
  intros [-> H]%andb_prop. simpl. by apply IH.
Qed.

Lemma string_forallb_map f g s :
  (forall a, f (g a) = true) -> string_forallb f (string_map g s) = true.
Proof. intros Hfg. induction s as [|a s IH]; simpl; [done|]. by rewrite Hfg. Qed.

Lemma string_map_length g s : slen (string_map g s) = slen s.
Proof. induction s as [|a s IH]; simpl; [done|by rewrite IH]. Qed.

Lemma string_take_app (s t : string) : string_take (slen s) (s +:+ t) = s.
Proof. induction s as [|a s IH]; [by destruct t|]. rewrite string_app_cons. simpl. by rewrite IH. Qed.

Lemma string_drop_app (s t : string) : string_drop (slen s) (s +:+ t) = t.
Proof. induction s as [|a s IH]; [done|]. rewrite string_app_cons. apply IH. Qed.

Lemma string_drop_length n s : slen (string_drop n s) = slen s - n.
Proof. revert n. induction s as [|a s IH]; intros [|n]; simpl; auto. Qed.

(** [strings.ReplaceAll] with a non-empty [old]; [fuel] bounds the scan by the
    length of [s]. *)
Fixpoint replace_all_go (fuel : nat) (s old new : string) : string :=
  match fuel, s with
  | 0, _ => s
  | _, EmptyString => ""
  | S fuel, String a s' =>
      if has_prefix old s then new +:+ replace_all_go fuel (string_drop (slen old) s) old new
      else String a (replace_all_go fuel s' old new)
  end.
Definition ReplaceAll (s old new : string) : string := replace_all_go (slen s) s old new.

Definition newline : Ascii.ascii := ascii_of_N 10.

(** [strings.Split] at a one-byte separator. *)
Fixpoint split_on (sep : Ascii.ascii) (s : string) : list string :=
  match s with
  | EmptyString => [""]
  | String a s' =>
      if Ascii.eqb a sep then "" :: split_on sep s'
      else match split_on sep s' with [] => [String a ""] | x :: xs => String a x :: xs end
  end.

(** [strings.Join] with a one-byte separator. *)
Definition join_with (sep : Ascii.ascii) (l : list string) : string := String.concat (String sep "") l.

Definition rev_string (s : string) : string :=
  String.string_of_list_ascii (rev (String.list_ascii_of_string s)).

(** Dropping the bytes that satisfy [f] at the start, and at both ends. *)
Fixpoint trim_left (f : Ascii.ascii -> bool) (s : string) : string :=
  match s with
  | String a s' => if f a then trim_left f s' else s
  | EmptyString => ""
  end.

Definition trim_by (f : Ascii.ascii -> bool) (s : string) : string :=
  rev_string (trim_left f (rev_string (trim_left f s))).

Lemma rev_string_app s t : rev_string (s +:+ t) = rev_string t +:+ rev_string s.
Proof.
  unfold rev_string. assert (forall u v, String.list_ascii_of_string (u +:+ v) = String.list_ascii_of_string u ++ String.list_ascii_of_string v) as Hl.
  { induction u; intros v; [done|]. rewrite string_app_cons. simpl. by rewrite IHu. }
  assert (forall u v, String.string_of_list_ascii (u ++ v) = String.string_of_list_ascii u +:+ String.string_of_list_ascii v) as Hs.
  { induction u; intros v; [done|]. simpl. by rewrite IHu, string_app_cons. }
  by rewrite Hl, rev_app_distr, Hs.
Qed.

Lemma rev_string_involutive s : rev_string (rev_string s) = s.
Proof. unfold rev_string. by rewrite String.list_ascii_of_string_of_list_ascii, rev_involutive, String.string_of_list_ascii_of_string. Qed.

Lemma split_on_app sep s (t : string) :
  string_forallb (fun a => negb (Ascii.eqb a sep)) s = true -> split_on sep (s +:+ String sep t) = s :: split_on sep t.
Proof.
  induction s as [|a s IH]; intros Hs; [by rewrite string_app_empty; simpl; rewrite Ascii.eqb_refl|].
  rewrite string_app_cons. simpl in *. apply andb_prop in Hs as [Ha Hs]. apply negb_true_iff in Ha. by rewrite Ha, IH.
Qed.

Lemma split_on_one sep s : string_forallb (fun a => negb (Ascii.eqb a sep)) s = true -> split_on sep s = [s].
Proof.
  induction s as [|a s IH]; intros Hs; [done|]. simpl in *. apply andb_prop in Hs as [Ha Hs]. apply negb_true_iff in Ha.
  by rewrite Ha, IH.
Qed.

(** What [io.LimitReader] lets through of a body. *)
Definition LimitReader (n : Z) (body : string) : string :=
  if (Z.of_nat (slen body) <=? n)%Z then body else string_take (Z.to_nat n) body.

Definition TrimPrefix (s p : string) : string := if has_prefix p s then string_drop (slen p) s else s.

(** ** Decimal numbers (strconv) *)

Definition is_digit (a : Ascii.ascii) : bool := byte_in a 48 57.
Definition digit_val (a : Ascii.ascii) : Z := (Z.of_N (N_of_ascii a) - 48)%Z.

Fixpoint parse_digits (s : string) (acc : Z) : option Z :=
  match s with
  | EmptyString => Some acc
  | String a s => if is_digit a then parse_digits s (acc * 10 + digit_val a)%Z else None
  end.

Definition parse_unsigned (s : string) : option Z :=
  match s with EmptyString => None | _ => parse_digits s 0 end.

(** [strconv.ParseInt(s, 10, 64)]. *)
Definition ParseInt (s : string) : option Z :=
  n ← match s with
      | String a s' => if Ascii.eqb a "-"%char then Z.opp <$> parse_unsigned s'
                       else if Ascii.eqb a "+"%char then parse_unsigned s' else parse_unsigned s
      | EmptyString => None
      end;
  if decide (minInt64 <= n <= maxInt64)%Z then Some n else None.

(** [strconv.FormatInt(n, 10)] and [%d]. *)
Definition FormatInt (z : Z) : string := pretty z.

Lemma pretty_N_char_digit d : (d < 10)%N ->
  is_digit (pretty_N_char d) = true /\ digit_val (pretty_N_char d) = Z.of_N d.
Proof.
  intros Hd. assert (d = 0 \/ d = 1 \/ d = 2 \/ d = 3 \/ d = 4 \/ d = 5 \/ d = 6 \/ d = 7 \/ d = 8 \/ d = 9)%N
    as Hcases by lia.
  repeat destruct Hcases as [->|Hcases]; try subst d; done.
Qed.

Lemma pretty_N_go_parse x s : parse_digits (pretty_N_go x s) 0 = parse_digits s (Z.of_N x).
Proof.
  revert s. induction (N.lt_wf_0 x) as [x _ IH]; intros s.
  destruct (decide (x = 0)%N) as [->|Hx]; [by rewrite pretty_N_go_0|].
  rewrite pretty_N_go_step by lia. rewrite IH by (apply N.div_lt; lia). simpl.
  pose proof (N.mod_lt x 10). destruct (pretty_N_char_digit (x mod 10)) as [-> ->]; [lia|].
  f_equal. rewrite <-(N2Z.inj_mul _ 10), <-N2Z.inj_add. f_equal.
  rewrite (N.div_mod x 10) at 3 by lia. lia.
Qed.

Lemma pretty_N_go_digits x s :
  string_forallb is_digit s = true -> string_forallb is_digit (pretty_N_go x s) = true.
Proof.
  revert s. induction (N.lt_wf_0 x) as [x _ IH]; intros s Hs.
  destruct (decide (x = 0)%N) as [->|Hx]; [by rewrite pretty_N_go_0|].
  rewrite pretty_N_go_step by lia. apply IH; [apply N.div_lt; lia|]. simpl.
  pose proof (N.mod_lt x 10). destruct (pretty_N_char_digit (x mod 10)) as [-> _]; [lia|done].
Qed.

Lemma pretty_N_digits (x : N) : string_forallb is_digit (pretty x) = true.
Proof. unfold pretty, pretty_N. case_decide; [done|]. by apply pretty_N_go_digits. Qed.

Lemma pretty_N_nonempty (x : N) : pretty x <> "".
Proof.
  unfold pretty, pretty_N. case_decide as Hx; [done|]. intros He.
  pose proof (pretty_N_go_parse x "") as Hp. rewrite He in Hp. simpl in Hp. injection Hp as Hp. lia.
Qed.

Lemma pretty_N_parse (x : N) : parse_unsigned (pretty x) = Some (Z.of_N x).
Proof.
  pose proof (pretty_N_nonempty x). unfold parse_unsigned.
  destruct (pretty x) eqn:E; [done|]. rewrite <-E.
  unfold pretty, pretty_N. case_decide; [by subst|]. by rewrite pretty_N_go_parse.
Qed.

Lemma ParseInt_range s z : ParseInt s = Some z -> in_int64 z.
Proof.
  unfold ParseInt, in_int64. intros H. apply bind_Some in H as (n & _ & H).
  case_decide; by simplify_eq.
Qed.

Lemma ParseInt_FormatInt_range z :
  ParseInt (FormatInt z) = if decide (minInt64 <= z <= maxInt64)%Z then Some z else None.
Proof.
  unfold ParseInt, FormatInt.
  assert (forall x : N, (match pretty x with
      | String a s' => if Ascii.eqb a "-"%char then Z.opp <$> parse_unsigned s'
                       else if Ascii.eqb a "+"%char then parse_unsigned s' else parse_unsigned (pretty x)
      | EmptyString => None end) = Some (Z.of_N x)) as HN.
  { intros x. pose proof (pretty_N_digits x) as Hd. pose proof (pretty_N_nonempty x) as Hn.
    pose proof (pretty_N_parse x) as Hp. destruct (pretty x) as [|a s]; [done|].
    simpl in Hd. apply andb_prop in Hd as [Hd _].
    destruct (Ascii.eqb_spec a "-"%char) as [->|_]; [done|].
    destruct (Ascii.eqb_spec a "+"%char) as [->|_]; [done|]. done. }
  destruct z as [|p|p].
  - done.
  - change (pretty (Z.pos p)) with (pretty (N.pos p)).
    specialize (HN (N.pos p)). destruct (pretty (N.pos p)) eqn:E; [done|]. by rewrite HN.
  - change (pretty (Z.neg p)) with (String "-"%char (pretty (N.pos p))).
    change (Ascii.eqb "-"%char "-"%char) with true. cbv iota. by rewrite pretty_N_parse.
Qed.

Lemma ParseInt_FormatInt z : in_int64 z -> ParseInt (FormatInt z) = Some z.
Proof. intros Hr. rewrite ParseInt_FormatInt_range. by rewrite decide_True. Qed.

Lemma ParseInt_FormatInt_inv z z' : ParseInt (FormatInt z) = Some z' -> z' = z.
Proof. rewrite ParseInt_FormatInt_range. case_decide; congruence. Qed.

(** A self-inverse textual form for any countable type: the concrete codec the
    examples use where the program calls a third-party serialiser. *)
Fixpoint pos_bits (p : positive) : string :=
  match p with
  | xH => ""
  | xO p => String "0"%char (pos_bits p)
  | xI p => String "1"%char (pos_bits p)
  end.

Fixpoint bits_pos (s : string) : option positive :=
  match s with
  | EmptyString => Some xH
  | String a s =>
      if Ascii.eqb a "0"%char then xO <$> bits_pos s
      else if Ascii.eqb a "1"%char then xI <$> bits_pos s else None
  end.

Definition str_encode {A} `{Countable A} (a : A) : string := pos_bits (encode a).
Definition str_decode {A} `{Countable A} (s : string) : option A := bits_pos s ≫= decode.

Lemma str_decode_encode {A} `{Countable A} (a : A) : str_decode (str_encode a) = Some a.
Proof.
  unfold str_decode, str_encode.
  assert (forall p, bits_pos (pos_bits p) = Some p) as ->.
  { induction p; simpl; [by rewrite IHp..|done]. }
  simpl. apply decode_encode.
Qed.

(** ** Sorting *)

(** [sort.Strings]. *)
Definition sort_strings (l : list string) : list string := merge_sort String.le l.

Section stable_sort.
Context {A : Type} (less : A -> A -> bool).

Fixpoint insert_stable (x : A) (l : list A) : list A :=
  match l with
  | [] => [x]
  | y :: l' => if less x y then x :: l else y :: insert_stable x l'
  end.

(** [sort.SliceStable]: every stable sort returns this list when [less] is a
    strict weak order. *)
Definition stable_sort (l : list A) : list A :=
  fold_left (fun acc x => insert_stable x acc) l [].

Lemma insert_stable_perm x l : insert_stable x l ≡ₚ x :: l.
Proof.
  induction l as [|y l IH]; simpl; [done|]. case_match; [done|].
  rewrite IH. apply Permutation_swap.
Qed.

Lemma stable_sort_perm l : stable_sort l ≡ₚ l.
Proof.
  unfold stable_sort.
  enough (forall acc, fold_left (fun acc x => insert_stable x acc) l acc ≡ₚ l ++ acc) as H.
  { by rewrite (H []), app_nil_r. }
  induction l as [|x l IH]; intros acc; simpl; [done|].
  rewrite IH, insert_stable_perm. by rewrite Permutation_middle.
Qed.

(** The result is ordered by every total preorder that the comparator respects. *)
Context (R : relation A) `{!Transitive R}.
Context (less_R : forall x y, less x y = true -> R x y) (not_less_R : forall x y, less x y = false -> R y x).

Lemma insert_stable_sorted x l :
  StronglySorted R l -> StronglySorted R (insert_stable x l).
Proof.
  induction 1 as [|y l Hl IH Hy]; simpl; [repeat constructor|].
  case_match eqn:Hxy.
  - constructor; [by constructor|]. constructor; [by apply less_R|].
    eapply Forall_impl; [exact Hy|]. intros z Hz. etrans; [by apply less_R|done].
  - constructor; [done|]. rewrite insert_stable_perm. constructor; [by apply not_less_R|done].
Qed.

Lemma stable_sort_sorted l : StronglySorted R (stable_sort l).
Proof.
  unfold stable_sort.
  enough (forall acc, StronglySorted R acc ->
    StronglySorted R (fold_left (fun acc x => insert_stable x acc) l acc)) as H.
  { apply H. constructor. }
  induction l as [|x l IH]; intros acc Hacc; simpl; [done|].
  apply IH, insert_stable_sorted, Hacc.
Qed.

End stable_sort.

(** ** Lists *)

Lemma elem_concat {A} (x : A) ls : x ∈ concat ls <-> exists l, x ∈ l /\ l ∈ ls.
Proof.
  induction ls as [|l ls IH]; simpl.
  - split; [by intros ?%elem_of_nil|]. by intros (l & _ & ?%elem_of_nil).
  - rewrite elem_of_app, IH. setoid_rewrite elem_of_cons. naive_solver.
Qed.

(** The images of concatenated lists are distinct when each list's are and a
    tag tells the lists apart. *)
Lemma NoDup_concat_tagged {A B P K} (f : A -> list B) (pt : B -> P) (key : A -> K) (kof : P -> K) (xs : list A) :
  NoDup (map key xs) -> (forall x b, b ∈ f x -> kof (pt b) = key x) -> (forall x, NoDup (map pt (f x))) ->
  NoDup (map pt (concat (map f xs))).
Proof.
  intros Hnd Hkey Hf. induction xs as [|x xs IH]; [constructor|]. cbn [map concat] in *. apply NoDup_cons in Hnd as [Hni Hnd].
  rewrite map_app. apply NoDup_app. split_and!; [apply Hf| |by apply IH].
  intros q (b & -> & Hb)%list_elem_of_fmap (b' & Hq & Hb')%list_elem_of_fmap. apply elem_concat in Hb' as (l & Hb' & Hl).
  apply list_elem_of_fmap in Hl as (y & -> & Hy). apply Hni, list_elem_of_fmap. exists y. split; [|done].
  by rewrite <-(Hkey _ _ Hb), <-(Hkey _ _ Hb'), Hq.
Qed.

Lemma existsb_false_elem {A} (p : A -> bool) l x : existsb p l = false -> x ∈ l -> p x = false.
Proof.
  intros Hf Hx. destruct (p x) eqn:Hp; [|done]. rewrite <-Hf. symmetry. apply existsb_exists. exists x.
  by rewrite <-list_elem_of_In.
Qed.

Fixpoint sum_list_Z (l : list Z) : Z :=
  match l with [] => 0%Z | x :: l' => (x + sum_list_Z l')%Z end.

Lemma sum_list_Z_app l k : sum_list_Z (l ++ k) = (sum_list_Z l + sum_list_Z k)%Z.
Proof. induction l; simpl; lia. Qed.

Lemma sort_strings_perm l : sort_strings l ≡ₚ l.
Proof. apply merge_sort_Permutation. Qed.

Lemma sort_strings_unique l k : l ≡ₚ k -> sort_strings l = sort_strings k.
Proof.
  intros H. apply (Sorted_unique String.le).
  1,2: apply Sorted_merge_sort, _.
  by rewrite !sort_strings_perm.
Qed.

Lemma sublist_full {A} (l k : list A) : l `sublist_of` k -> length k <= length l -> l = k.
Proof.
  induction 1 as [|x l k Hs IH|x l k Hs IH]; simpl; intros Hlen; [done|f_equal; apply IH; lia|].
  apply sublist_length in Hs. lia.
Qed.

Lemma Forall2_elem_l {A B} (P : A -> B -> Prop) l k x : Forall2 P l k -> x ∈ l -> exists y, y ∈ k /\ P x y.
Proof.
  intros HF [i Hi]%list_elem_of_lookup. destruct (Forall2_lookup_l _ _ _ _ _ HF Hi) as (y & Hy & HP).
  exists y. split; [by eapply list_elem_of_lookup_2|done].
Qed.

Lemma Forall2_elem_r {A B} (P : A -> B -> Prop) l k y : Forall2 P l k -> y ∈ k -> exists x, x ∈ l /\ P x y.
Proof. intros HF Hy. apply (Forall2_elem_l (fun y x => P x y) k l); [by apply Forall2_flip|done]. Qed.

Lemma StronglySorted_NoDup {A} (R : relation A) l : (forall x, ~ R x x) -> StronglySorted R l -> NoDup l.
Proof.
  intros Hirr. induction 1 as [|x l _ IH Hx]; constructor; [|done]. rewrite Forall_forall in Hx. intros Hin. by eapply Hirr, Hx.
Qed.

Lemma NoDup_fmap_inj {A B} (f : A -> B) l x y : NoDup (map f l) -> x ∈ l -> y ∈ l -> f x = f y -> x = y.
Proof.
  intros Hnd [i Hi]%list_elem_of_lookup [j Hj]%list_elem_of_lookup Heq.
  assert (i = j) as ->; [|congruence].
  eapply NoDup_lookup; [exact Hnd| |]; rewrite list_lookup_fmap; [by rewrite Hi|rewrite Hj; simpl; by f_equal].
Qed.

Lemma StronglySorted_take_drop {A} (R : relation A) n l x y :
  StronglySorted R l -> x ∈ take n l -> y ∈ drop n l -> R x y.
Proof.
  intros Hs. revert n. induction Hs as [|z l Hs IH Hz]; intros [|n]; simpl; try by intros ?%elem_of_nil.
  intros [->|Hx]%elem_of_cons Hy; [|by eapply IH].
  rewrite Forall_forall in Hz. apply Hz. rewrite <-(take_drop n l). apply elem_of_app. by right.
Qed.

(** ** Maps in sorted key order *)

(** [for k := range m] collected and sorted, then each key with its value. *)
Definition sorted_keys {V} (m : gmap string V) : list string := sort_strings (map_to_list m).*1.
Definition sorted_kvs (m : gmap string string) : list (string * string) :=
  (fun k => (k, default "" (m !! k))) <$> sorted_keys m.

Lemma sorted_keys_perm {V} (m : gmap string V) : sorted_keys m ≡ₚ (map_to_list m).*1.
Proof. apply sort_strings_perm. Qed.

(** Whatever order the map was ranged over, the sorted keys are the same. *)
Lemma sorted_keys_range_order {V} (m : gmap string V) ks :
  ks ≡ₚ (map_to_list m).*1 -> sort_strings ks = sorted_keys m.
Proof. apply sort_strings_unique. Qed.

Lemma sorted_kvs_perm m : sorted_kvs m ≡ₚ map_to_list m.
Proof.
  unfold sorted_kvs. rewrite sorted_keys_perm, <-list_fmap_compose.
  apply reflexive_eq. rewrite <-(list_fmap_id (map_to_list m)) at 2.
  apply list_fmap_ext. intros i [k v] Hi. simpl.
  apply list_elem_of_lookup_2, elem_of_map_to_list in Hi. by rewrite Hi.
Qed.

Lemma sorted_kvs_inj m1 m2 : sorted_kvs m1 = sorted_kvs m2 -> m1 = m2.
Proof.
  intros Heq. apply map_to_list_inj. by rewrite <-!sorted_kvs_perm, Heq.
Qed.

(** ** Length-prefixed strings *)

(** [fmt.Fprintf("%d:%s", len(s), s)]. *)
Definition lp (s : string) : string := FormatInt (Z.of_nat (slen s)) +:+ ":" +:+ s.

Fixpoint lp_pairs (l : list (string * string)) : string :=
  match l with [] => "" | (k, v) :: l' => lp k +:+ lp v +:+ lp_pairs l' end.

Lemma digits_split d1 d2 (t1 t2 : string) :
  string_forallb is_digit d1 = true -> string_forallb is_digit d2 = true ->
  d1 +:+ ":" +:+ t1 = d2 +:+ ":" +:+ t2 -> d1 = d2 /\ t1 = t2.
Proof.
  revert d2. induction d1 as [|a d1 IH]; intros [|b d2] H1 H2; rewrite ?string_app_cons; intros Heq;
    injection Heq; try (intros; subst; done).
  intros Heq' ->. simpl in *. apply andb_prop in H1 as [_ H1], H2 as [_ H2].
  destruct (IH d2) as [-> ->]; done.
Qed.

Lemma FormatInt_nat_digits n : string_forallb is_digit (FormatInt (Z.of_nat n)) = true.
Proof. destruct n; [done|]. apply (pretty_N_digits (N.of_nat (S n))). Qed.

(** A length-prefixed string is self-delimiting. *)
Lemma lp_inj s1 s2 (t1 t2 : string) : lp s1 +:+ t1 = lp s2 +:+ t2 -> s1 = s2 /\ t1 = t2.
Proof.
  unfold lp. rewrite !string_app_assoc. intros Heq.
  apply digits_split in Heq as [Hlen Heq]; [|apply FormatInt_nat_digits..].
  apply (inj pretty) in Hlen. apply string_app_inj_length in Heq; [done|lia].
Qed.

Lemma lp_nonempty s (t : string) : lp s +:+ t <> "".
Proof.
  unfold lp. intros Heq. apply (f_equal slen) in Heq. rewrite !string_app_length in Heq. simpl in Heq. lia.
Qed.

Lemma lp_pairs_inj l1 l2 : lp_pairs l1 = lp_pairs l2 -> l1 = l2.
Proof.
  revert l2. induction l1 as [|[k1 v1] l1 IH]; intros [|[k2 v2] l2]; simpl; intros Heq.
  - done.
  - symmetry in Heq. by apply lp_nonempty in Heq.
  - by apply lp_nonempty in Heq.
  - apply lp_inj in Heq as [-> Heq]. apply lp_inj in Heq as [-> Heq]. by rewrite (IH l2 Heq).
Qed.

Lemma lp_head s (t : string) : exists a r, lp s +:+ t = String a r /\ is_digit a = true.
Proof.
  unfold lp. rewrite !string_app_assoc. pose proof (FormatInt_nat_digits (slen s)) as Hd.
  destruct (FormatInt (Z.of_nat (slen s))) as [|a r] eqn:Hf.
  - exfalso. unfold FormatInt, pretty, pretty_Z in Hf. destruct (Z.of_nat (slen s)) eqn:Hz; [done| |lia].
    by apply pretty_N_nonempty in Hf.
  - simpl in Hd. apply andb_prop in Hd as [Ha _]. rewrite !string_app_cons. eauto.
Qed.

(** A list of pairs ends where a byte that is no digit follows. *)
Lemma lp_pairs_sep_inj l1 l2 a (t1 t2 : string) :
  is_digit a = false -> lp_pairs l1 +:+ String a t1 = lp_pairs l2 +:+ String a t2 -> l1 = l2 /\ t1 = t2.
Proof.
  intros Ha. assert (forall s (t u : string), lp s +:+ t <> String a u) as Hno.
  { intros s t u Heq. destruct (lp_head s t) as (b & r & Hb & Hd). rewrite Hb in Heq. injection Heq as -> _. congruence. }
  revert l2. induction l1 as [|[k1 v1] l1 IH]; intros [|[k2 v2] l2]; simpl; rewrite ?string_app_assoc; intros Heq.
  - by injection Heq.
  - symmetry in Heq. by apply Hno in Heq.
  - by apply Hno in Heq.
  - apply lp_inj in Heq as [-> Heq]. rewrite ?string_app_assoc in Heq. apply lp_inj in Heq as [-> Heq].
    by destruct (IH l2 Heq) as [-> ->].
Qed.

Lemma FormatInt_inj z z' : FormatInt z = FormatInt z' -> z = z'.
Proof. apply (inj pretty). Qed.

#[export] Hint Resolve wrap64_range : bridge.
#[export] Hint Rewrite @string_app_assoc string_app_length : bridge_rw.
