(* ===== verification/Floats.v ===== *)
(** * Rounding of [float64] products

    What the conversions [float64(n)] and [int64(x)] and one multiplication do
    to a positive integer: the product is never truncated below the product of
    the stored numbers. *)

From S2P Require Import Prelude.

#[local] Open Scope Z_scope.

Lemma digits2_bounds p : 2 ^ (Zpos (digits2_pos p) - 1) <= Zpos p < 2 ^ Zpos (digits2_pos p).
Proof.
  induction p as [p IH|p IH|]; cbn [digits2_pos]; [..|done];
    rewrite Pos2Z.inj_succ, (Z.pow_succ_r 2 (Zpos _)) by lia;
    replace (Z.succ (Zpos (digits2_pos p)) - 1) with (Z.succ (Zpos (digits2_pos p) - 1)) by lia;
    rewrite Z.pow_succ_r by lia; lia.
Qed.

Lemma digits2_eq p d : 2 ^ (d - 1) <= Zpos p < 2 ^ d -> Zpos (digits2_pos p) = d.
Proof.
  intros Hd. pose proof (digits2_bounds p) as Hb.
  destruct (Z.lt_trichotomy (Zpos (digits2_pos p)) d) as [Hlt|[?|Hlt]]; [exfalso|done|exfalso].
  - pose proof (Z.pow_le_mono_r 2 (Zpos (digits2_pos p)) (d - 1)). lia.
  - destruct (Z.lt_ge_cases d 0) as [Hneg|Hpos]; [rewrite (Z.pow_neg_r 2 d) in Hd by lia; lia|].
    pose proof (Z.pow_le_mono_r 2 d (Zpos (digits2_pos p) - 1)). lia.
Qed.

Lemma shr_1_half mrs : 0 <= shr_m mrs -> shr_m (shr_1 mrs) = shr_m mrs / 2.
Proof.
  destruct mrs as [m r s]. cbn [shr_m shr_1]. intros Hm. destruct m as [|[p|p|]|p]; try done; try lia; cbn [shr_m].
  - rewrite Pos2Z.inj_xI. apply (Z.div_unique _ 2 _ 1); lia.
  - rewrite Pos2Z.inj_xO. apply (Z.div_unique _ 2 _ 0); lia.
Qed.

Lemma div_pow_nonneg a n : 0 <= a -> 0 <= n -> 0 <= a / 2 ^ n.
Proof. intros Ha Hn. apply Z.div_pos; [done|]. by apply Z.pow_pos_nonneg. Qed.

Lemma pow_add2 a b : 0 <= a -> 0 <= b -> 2 ^ a * 2 ^ b = 2 ^ (a + b).
Proof. intros. by rewrite Z.pow_add_r. Qed.

Lemma iter_shr p mrs : 0 <= shr_m mrs -> shr_m (iter_pos shr_1 p mrs) = shr_m mrs / 2 ^ Zpos p.
Proof.
  revert mrs. induction p as [p IH|p IH|]; intros mrs Hm; cbn [iter_pos].
  - assert (0 <= shr_m (shr_1 mrs)) by (rewrite shr_1_half by done; apply Z.div_pos; lia).
    rewrite !IH, shr_1_half by (try rewrite IH; auto using div_pow_nonneg with lia).
    rewrite !Z.div_div, pow_add2 by (try apply Z.mul_pos_pos; try apply Z.pow_pos_nonneg; lia).
    f_equal. rewrite <-(Z.pow_succ_r 2) by lia. f_equal. lia.
  - rewrite !IH by (try rewrite IH; auto using div_pow_nonneg with lia).
    rewrite Z.div_div, pow_add2 by (try apply Z.pow_pos_nonneg; lia). do 2 f_equal. lia.
  - by apply shr_1_half.
Qed.

Lemma shr_value m e n : 0 <= m -> 0 <= n -> shr_m (shr (Build_shr_record m false false) e n).1 = m / 2 ^ n /\ (shr (Build_shr_record m false false) e n).2 = e + n.
Proof.
  intros Hm Hn. unfold shr. destruct n as [|p|p]; [|split; [by apply iter_shr|done]|lia].
  cbn [fst snd shr_m]. rewrite Z.div_1_r. split; [done|lia].
Qed.

Lemma round_ne_bounds m l : m <= round_nearest_even m l <= m + 1.
Proof. unfold round_nearest_even. destruct l as [|[]]; try lia. destruct (Z.even m); lia. Qed.

(** Rounding to 53 bits: the mantissa is the quotient or its successor, and a
    carry past 53 bits is renormalised. *)
Lemma binary_round_aux_value sx m e D :
  2 ^ (D - 1) <= Zpos m < 2 ^ D -> 53 <= D -> -1021 <= D + e <= 1000 ->
  exists m' m2 e2, Zpos m / 2 ^ (D - 53) <= m' <= Zpos m / 2 ^ (D - 53) + 1 /\
    binary_round_aux 53 1024 sx (Zpos m) e loc_Exact = S754_finite sx m2 e2 /\
    ((Zpos m2 = m' /\ m' < 2 ^ 53 /\ e2 = e + (D - 53)) \/ (m' = 2 ^ 53 /\ Zpos m2 = 2 ^ 52 /\ e2 = e + (D - 53) + 1)).
Proof.
  intros Hm HD He. set (q := Zpos m / 2 ^ (D - 53)).
  assert (2 ^ 52 <= q < 2 ^ 53) as Hq.
  { unfold q. split.
    - apply Z.div_le_lower_bound; [lia|]. rewrite <-Z.pow_add_r by lia. replace (D - 53 + 52) with (D - 1) by lia. lia.
    - apply Z.div_lt_upper_bound; [lia|]. rewrite <-Z.pow_add_r by lia. replace (D - 53 + 53) with D by lia. lia. }
  unfold binary_round_aux, shr_fexp. cbn [Zdigits2]. rewrite (digits2_eq m D Hm).
  replace (fexp 53 1024 (D + e) - e) with (D - 53) by (unfold fexp, SpecFloat.emin; lia). cbn [shr_record_of_loc].
  pose proof (shr_value (Zpos m) e (D - 53) ltac:(lia) ltac:(lia)) as [Hs1 Hs2].
  destruct (shr _ e (D - 53)) as [mrs e1]. cbn [fst snd] in Hs1, Hs2. fold q in Hs1. rewrite Hs1.
  pose proof (round_ne_bounds q (loc_of_shr_record mrs)) as Hr. set (m' := round_nearest_even q _) in *. exists m'.
  assert (0 < m') as Hpos by lia. destruct m' as [|p|p] eqn:Hm'; try lia.
  destruct (decide (Zpos p = 2 ^ 53)) as [H53|H53].
  - exists (2 ^ 52)%positive, (e1 + 1). assert (p = (2 ^ 53)%positive) as -> by lia. split; [lia|].
    assert (fexp 53 1024 (Zdigits2 (Zpos (2 ^ 53)) + e1) - e1 = 1) as -> by (unfold fexp, SpecFloat.emin; cbn [Zdigits2]; change (Zpos (digits2_pos (2 ^ 53))) with 54; lia).
    change (shr {| shr_m := Zpos (2 ^ 53); shr_r := false; shr_s := false |} e1 1) with (Build_shr_record (2 ^ 52) false false, e1 + 1). cbn [shr_m].
    change (2 ^ 52) with (Zpos (2 ^ 52)). rewrite (proj2 (Z.leb_le (e1 + 1) (1024 - 53))) by lia. split; [done|right]. split_and!; [done|done|lia].
  - exists p, e1. split; [lia|]. assert (2 ^ (53 - 1) <= Zpos p < 2 ^ 53) as Hp by lia.
    cbn [Zdigits2]. rewrite (digits2_eq p 53 Hp). replace (fexp 53 1024 (53 + e1) - e1) with 0 by (unfold fexp, SpecFloat.emin; lia).
    cbn [shr shr_m]. rewrite (proj2 (Z.leb_le e1 (1024 - 53))) by lia. split; [done|left]. split_and!; [done|lia|lia].
Qed.

(** A 53-bit mantissa is kept as it is. *)
Lemma binary_round_aux_exact sx m e :
  2 ^ 52 <= Zpos m < 2 ^ 53 -> -1074 <= e <= 971 -> binary_round_aux 53 1024 sx (Zpos m) e loc_Exact = S754_finite sx m e.
Proof.
  intros Hm He. assert (2 ^ (53 - 1) <= Zpos m < 2 ^ 53) as Hm' by lia.
  unfold binary_round_aux, shr_fexp. cbn [Zdigits2]. rewrite (digits2_eq m 53 Hm').
  replace (fexp 53 1024 (53 + e) - e) with 0 by (unfold fexp, SpecFloat.emin; lia). cbn [shr shr_record_of_loc loc_of_shr_record round_nearest_even shr_m].
  cbn [Zdigits2]. rewrite (digits2_eq m 53 Hm'). replace (fexp 53 1024 (53 + e) - e) with 0 by (unfold fexp, SpecFloat.emin; lia).
  cbn [shr shr_m]. by rewrite (proj2 (Z.leb_le e (1024 - 53))) by lia.
Qed.

Lemma iter_xO p d : Zpos (Pos.iter xO p d) = Zpos p * 2 ^ Zpos d.
Proof.
  induction d as [|d IH] using Pos.peano_ind; [cbn; lia|]. rewrite Pos.iter_succ, Pos2Z.inj_xO, IH, Pos2Z.inj_succ, Z.pow_succ_r by lia. lia.
Qed.

(** [float64(c)] of a positive integer below 2^53: [c] itself, scaled to 53
    bits. *)
Lemma f64_of_Z_pos c :
  0 < c < 2 ^ 53 -> exists m s, f64_of_Z c = S754_finite false m (- s) /\ 0 <= s <= 52 /\ Zpos m = c * 2 ^ s /\ 2 ^ 52 <= Zpos m < 2 ^ 53 /\
    2 ^ (52 - s) <= c < 2 ^ (53 - s).
Proof.
  intros Hc. destruct c as [|p|p]; try lia. set (D := Zpos (digits2_pos p)). pose proof (digits2_bounds p) as Hb. fold D in Hb.
  assert (1 <= D <= 53) as HD.
  { split; [lia|]. destruct (Z.le_gt_cases D 53); [done|]. pose proof (Z.pow_le_mono_r 2 53 (D - 1)). lia. }
  assert (exists m, Zpos m = Zpos p * 2 ^ (53 - D) /\ shl_align p 0 (fexp 53 1024 (D + 0)) = (m, - (53 - D))) as (m & Hm & Ha).
  { replace (fexp 53 1024 (D + 0)) with (- (53 - D)) by (unfold fexp, SpecFloat.emin; lia). unfold shl_align.
    destruct (- (53 - D) - 0) as [|x|x] eqn:E; [exists p; replace (53 - D) with 0 by lia; split; [lia|done]|lia|].
    exists (Pos.iter xO p x). split; [|done]. rewrite iter_xO. do 2 f_equal. lia. }
  assert (2 ^ 52 <= Zpos m < 2 ^ 53) as Hm53.
  { rewrite Hm. replace 52 with (D - 1 + (53 - D)) by lia. replace (2 ^ 53) with (2 ^ (D + (53 - D))) by (f_equal; lia).
    rewrite !Z.pow_add_r by lia. pose proof (Z.pow_pos_nonneg 2 (53 - D)). nia. }
  exists m, (53 - D). split_and!; try lia.
  - unfold f64_of_Z, binary_normalize, binary_round. fold D. rewrite Ha. apply binary_round_aux_exact; lia.
  - replace (52 - (53 - D)) with (D - 1) by lia. lia.
  - replace (53 - (53 - D)) with D by lia. lia.
Qed.

(** The conversion of a rounded product truncates, but not below the quotient
    of the exact one. *)
Lemma int64_of_product m e D :
  2 ^ (D - 1) <= Zpos m < 2 ^ D -> 53 <= D -> -1021 <= D + e <= 62 -> e + (D - 53) < 0 ->
  Zpos m / 2 ^ (- e) <= int64_of_f64 (binary_round_aux 53 1024 false (Zpos m) e loc_Exact) < 2 ^ 62 + 1.
Proof.
  intros Hm HD He Hneg. destruct (binary_round_aux_value false m e D Hm HD ltac:(lia)) as (m' & m2 & e2 & Hm' & -> & Hcase).
  set (k := D - 53) in *. set (E := - (e + k)).
  assert (0 < 2 ^ k) by (apply Z.pow_pos_nonneg; lia). assert (0 < 2 ^ E) by (apply Z.pow_pos_nonneg; lia).
  assert (m' / 2 ^ E <= m') as Hle by (apply Z.div_le_upper_bound; [done|]; pose proof (Z.div_pos (Zpos m) (2 ^ k)); nia).
  assert (Zpos m / 2 ^ (- e) <= m' / 2 ^ E) as Hlow.
  { replace (- e) with (k + E) by lia. rewrite Z.pow_add_r, <-Z.div_div by lia. apply Z.div_le_mono; lia. }
  assert (m' / 2 ^ E <= 2 ^ 62) as Hup.
  { apply Z.div_le_upper_bound; [done|]. rewrite <-Z.pow_add_r by lia. assert (Zpos m / 2 ^ k < 2 ^ (E + 62)) as Hq; [|lia].
    apply Z.div_lt_upper_bound; [done|]. rewrite <-Z.pow_add_r by lia.
    pose proof (Z.pow_le_mono_r 2 D (k + (E + 62))). lia. }
  assert (exists z, z = m' / 2 ^ E /\ int64_of_f64 (S754_finite false m2 e2) = z) as (z & -> & ->); [|lia].
  exists (m' / 2 ^ E). split; [done|]. unfold int64_of_f64.
  assert (0 <= m' / 2 ^ E) by (apply div_pow_nonneg; [pose proof (Z.div_pos (Zpos m) (2 ^ k)); lia|lia]).
  assert ((if 0 <=? e2 then Zpos m2 * 2 ^ e2 else Zpos m2 / 2 ^ (- e2)) = m' / 2 ^ E) as ->.
  { destruct Hcase as [(-> & _ & ->)|(-> & -> & ->)].
    - rewrite (proj2 (Z.leb_gt 0 (e + k))) by lia. done.
    - destruct (Z.leb_spec 0 (e + k + 1)) as [Hs|Hs].
      + assert (e + k = -1) as Hek by lia. unfold E. rewrite Hek. done.
      + replace E with (1 + - (e + k + 1)) by lia. rewrite Z.pow_add_r, <-Z.div_div by (try apply Z.pow_pos_nonneg; lia). done. }
  rewrite (proj2 (Z.leb_le minInt64 _)), (proj2 (Z.leb_le _ maxInt64)) by (unfold minInt64, maxInt64; lia). done.
Qed.

(** ** Magnitudes

    A finite number's magnitude in units of 2^-1200, and how far one rounding
    can raise it. *)

Definition unit_exp : Z := 1200.
Definition mag (x : spec_float) : Z := match x with S754_finite _ m e => Zpos m * 2 ^ (e + unit_exp) | _ => 0 end.

(** Zero, or a normal number whose exponent is in the given range. *)
Definition normal (lo hi : Z) (x : spec_float) : Prop :=
  match x with S754_zero _ => True | S754_finite _ m e => 2 ^ 52 <= Zpos m < 2 ^ 53 /\ lo <= e <= hi | _ => False end.

(** At most one part in 2^52 more than [v]. *)
Definition within_ulp (x : spec_float) (v : Z) : Prop := mag x * 2 ^ 52 <= v * (2 ^ 52 + 1).

Lemma round_aux_normal sx m e D :
  2 ^ (D - 1) <= Zpos m < 2 ^ D -> 53 <= D -> -900 <= D + e <= 900 -> -1100 <= e ->
  let x := binary_round_aux 53 1024 sx (Zpos m) e loc_Exact in
  normal (e + (D - 53)) (e + (D - 52)) x /\ within_ulp x (Zpos m * 2 ^ (e + unit_exp)).
Proof.
  intros Hm HD He Hlo x. destruct (binary_round_aux_value sx m e D Hm HD ltac:(lia)) as (m' & m2 & e2 & Hm' & Hx & Hcase).
  unfold x. rewrite Hx. set (k := D - 53) in *. assert (0 < 2 ^ k) by (apply Z.pow_pos_nonneg; lia).
  set (q := Zpos m / 2 ^ k) in *.
  assert (2 ^ 52 <= q < 2 ^ 53) as Hq.
  { unfold q. split; [apply Z.div_le_lower_bound; [lia|]|apply Z.div_lt_upper_bound; [lia|]]; rewrite <-Z.pow_add_r by lia;
      unfold k; [replace (D - 53 + 52) with (D - 1) by lia|replace (D - 53 + 53) with D by lia]; lia. }
  assert (2 ^ k * q <= Zpos m) as Hqm by (apply Z.mul_div_le; lia).
  assert (Zpos m2 * 2 ^ (e2 + unit_exp) = m' * 2 ^ (e + k + unit_exp)) as Hval.
  { destruct Hcase as [(-> & _ & ->)|(-> & -> & ->)]; [done|]. unfold unit_exp.
    replace (e + k + 1 + 1200) with (Z.succ (e + k + 1200)) by lia. rewrite Z.pow_succ_r by lia. lia. }
  split.
  - cbn [normal]. destruct Hcase as [(-> & ? & ->)|(-> & -> & ->)]; split; lia.
  - unfold within_ulp. cbn [mag]. rewrite Hval. replace (e + k + unit_exp) with (k + (e + unit_exp)) by lia.
    rewrite (Z.pow_add_r 2 k) by (unfold unit_exp; lia).
    assert (0 <= 2 ^ (e + unit_exp)) by (apply Z.pow_nonneg; lia). set (P := 2 ^ (e + unit_exp)) in *. clearbody P.
    assert (2 ^ k * 2 ^ 52 <= 2 ^ k * q) by (apply Z.mul_le_mono_nonneg_l; lia).
    assert (m' * 2 ^ k <= (q + 1) * 2 ^ k) by (apply Z.mul_le_mono_nonneg_r; lia).
    replace (m' * (2 ^ k * P) * 2 ^ 52) with (m' * 2 ^ k * 2 ^ 52 * P) by ring.
    replace (Zpos m * P * (2 ^ 52 + 1)) with (Zpos m * (2 ^ 52 + 1) * P) by ring. apply Z.mul_le_mono_nonneg_r; lia.
Qed.

Lemma normalize_normal z e :
  Z.abs z < 2 ^ 200 -> -300 <= e <= 300 ->
  let x := binary_normalize 53 1024 z e false in
  normal (e - 52) (e + 148) x /\ within_ulp x (Z.abs z * 2 ^ (e + unit_exp)).
Proof.
  intros Hz He x. assert (forall sx p, Zpos p = Z.abs z -> let y := binary_round 53 1024 sx p e in
    normal (e - 52) (e + 148) y /\ within_ulp y (Z.abs z * 2 ^ (e + unit_exp))) as Hpos.
  { intros sx p Hp y. subst y. rewrite <-Hp in *. clear Hp. set (D := Zpos (digits2_pos p)). pose proof (digits2_bounds p) as Hb. fold D in Hb.
    assert (1 <= D <= 200) as HD.
    { split; [lia|]. destruct (Z.le_gt_cases D 200); [done|]. pose proof (Z.pow_le_mono_r 2 200 (D - 1)). lia. }
    unfold binary_round. fold D. replace (fexp 53 1024 (D + e)) with (D + e - 53) by (unfold fexp, SpecFloat.emin; lia).
    destruct (Z.le_gt_cases 53 D) as [H53|H53].
    - unfold shl_align. assert (exists n, D + e - 53 - e = Z.of_nat n) as [n ->] by (exists (Z.to_nat (D - 53)); lia).
      destruct (Z.of_nat n) eqn:En; [..|lia]; (pose proof (round_aux_normal sx p e D Hb H53 ltac:(lia) ltac:(lia)) as [Hn Hw]);
        (split; [|done]); revert Hn; destruct (binary_round_aux _ _ _ _ _ _); cbn; lia.
    - assert (exists m, Zpos m = Zpos p * 2 ^ (53 - D) /\ shl_align p e (D + e - 53) = (m, e - (53 - D))) as (m & Hm & ->).
      { unfold shl_align. destruct (D + e - 53 - e) as [|n|n] eqn:E; [lia..|].
        exists (Pos.iter xO p n). split; [|f_equal; lia]. rewrite iter_xO. do 2 f_equal. lia. }
      assert (2 ^ 52 <= Zpos m < 2 ^ 53) as Hm53.
      { rewrite Hm. replace 52 with (D - 1 + (53 - D)) by lia. replace (2 ^ 53) with (2 ^ (D + (53 - D))) by (f_equal; lia).
        rewrite !Z.pow_add_r by lia. pose proof (Z.pow_pos_nonneg 2 (53 - D)). nia. }
      rewrite binary_round_aux_exact by lia. split; [cbn; lia|]. unfold within_ulp. cbn [mag]. rewrite Hm.
      assert (2 ^ (53 - D) * 2 ^ (e - (53 - D) + unit_exp) = 2 ^ (e + unit_exp)) as Hp
        by (rewrite <-Z.pow_add_r by (unfold unit_exp; lia); f_equal; lia).
      rewrite <-(Z.mul_assoc (Zpos p)), Hp. assert (0 <= Zpos p * 2 ^ (e + unit_exp)) by (apply Z.mul_nonneg_nonneg; [lia|apply Z.pow_nonneg; lia]). lia. }
  unfold x. destruct z as [|p|p]; cbn [binary_normalize]; [split; [done|]; unfold within_ulp; cbn [mag]; lia|by apply Hpos..].
Qed.

Lemma mul_normal lo hi lo' hi' x y :
  normal lo hi x -> normal lo' hi' y -> -500 <= lo -> hi <= 300 -> -500 <= lo' -> hi' <= 300 ->
  let z := f64_mul x y in
  normal (lo + lo' + 52) (hi + hi' + 54) z /\ mag z * 2 ^ 52 * 2 ^ unit_exp <= mag x * mag y * (2 ^ 52 + 1).
Proof.
  intros Hx Hy Hlo Hhi Hlo' Hhi' z. unfold z, f64_mul.
  destruct x as [| | |sx mx ex], y as [| | |sy my ey]; try done; cbn [SFmul normal mag] in *; [split; [done|lia]..|].
  destruct Hx as [Hmx Hex], Hy as [Hmy Hey].
  assert (exists D, 2 ^ (D - 1) <= Zpos (mx * my) < 2 ^ D /\ 105 <= D <= 106) as (D & HD & HD2).
  { rewrite Pos2Z.inj_mul. destruct (Z.lt_ge_cases (Zpos mx * Zpos my) (2 ^ 105)) as [Hlt|Hge];
      [exists 105|exists 106]; (split; [|lia]); split; try done.
    - change (2 ^ (105 - 1)) with (2 ^ 52 * 2 ^ 52). apply Z.mul_le_mono_nonneg; lia.
    - change (2 ^ 106) with (2 ^ 53 * 2 ^ 53). apply Z.mul_lt_mono_nonneg; lia. }
  destruct (round_aux_normal (xorb sx sy) (mx * my) (ex + ey) D HD ltac:(lia) ltac:(lia) ltac:(lia)) as [Hn Hw]. split.
  - revert Hn. destruct (binary_round_aux _ _ _ _ _ _); cbn; lia.
  - unfold within_ulp in Hw. rewrite Pos2Z.inj_mul in *.
    replace (Zpos mx * 2 ^ (ex + unit_exp) * (Zpos my * 2 ^ (ey + unit_exp)) * (2 ^ 52 + 1))
      with (Zpos mx * Zpos my * 2 ^ (ex + ey + unit_exp) * (2 ^ 52 + 1) * 2 ^ unit_exp); [by apply Z.mul_le_mono_nonneg_r; [apply Z.pow_nonneg|]|].
    assert (2 ^ (ex + ey + unit_exp) * 2 ^ unit_exp = 2 ^ (ex + unit_exp) * 2 ^ (ey + unit_exp)) as Hp
      by (rewrite <-!Z.pow_add_r by (unfold unit_exp; lia); f_equal; lia).
    transitivity (Zpos mx * Zpos my * (2 ^ 52 + 1) * (2 ^ (ex + ey + unit_exp) * 2 ^ unit_exp)); [ring|rewrite Hp; ring].
Qed.

(** ** Signs and truncation *)

Definition nonneg (x : spec_float) : Prop := match x with S754_finite s _ _ => s = false | _ => True end.

Lemma round_aux_sign sx m e l : match binary_round_aux 53 1024 sx m e l with S754_finite s _ _ => s = sx | _ => True end.
Proof.
  unfold binary_round_aux. destruct (shr_fexp _ _ m e l) as [mrs e']. destruct (shr_fexp _ _ _ e' loc_Exact) as [mrs' e''].
  destruct (shr_m mrs'); try done. by destruct (_ <=? _).
Qed.

Lemma normalize_nonneg z e : 0 <= z -> nonneg (binary_normalize 53 1024 z e false).
Proof.
  intros Hz. destruct z as [|p|p]; [done| |lia]. cbn [binary_normalize]. unfold binary_round. destruct (shl_align _ _ _) as [m e'].
  apply round_aux_sign.
Qed.

Lemma mul_nonneg x y : nonneg x -> nonneg y -> nonneg (f64_mul x y).
Proof.
  destruct x as [| | |sx mx ex], y as [| | |sy my ey]; try done. cbn. intros -> ->. apply round_aux_sign.
Qed.

Lemma int64_mag lo hi x : normal lo hi x -> -unit_exp <= lo -> mag x < 2 ^ 62 * 2 ^ unit_exp -> Z.abs (int64_of_f64 x) * 2 ^ unit_exp <= mag x.
Proof.
  intros Hn Hlo Hb. destruct x as [| | |s m e]; try done. cbn [normal mag] in *. destruct Hn as [Hm He].
  set (t := if 0 <=? e then Zpos m * 2 ^ e else Zpos m / 2 ^ (- e)).
  assert (0 <= t /\ t * 2 ^ unit_exp <= Zpos m * 2 ^ (e + unit_exp)) as [Ht0 Ht].
  { unfold t. destruct (Z.leb_spec 0 e) as [Hp|Hp].
    - split; [apply Z.mul_nonneg_nonneg; [lia|by apply Z.pow_nonneg]|]. rewrite Z.pow_add_r by (unfold unit_exp; lia). lia.
    - split; [apply div_pow_nonneg; lia|]. replace unit_exp with (- e + (e + unit_exp)) at 1 by lia.
      rewrite Z.pow_add_r, Z.mul_assoc by lia. apply Z.mul_le_mono_nonneg_r; [apply Z.pow_nonneg; lia|].
      rewrite Z.mul_comm. apply Z.mul_div_le, Z.pow_pos_nonneg; lia. }
  assert (t < 2 ^ 62) as Ht62.
  { apply (Z.mul_lt_mono_pos_r (2 ^ unit_exp)); [by apply Z.pow_pos_nonneg|]. lia. }
  assert (Z.abs (int64_of_f64 (S754_finite s m e)) = t) as ->; [|done].
  unfold int64_of_f64. fold t. clearbody t. clear -Ht0 Ht62. cbv zeta. unfold minInt64, maxInt64. destruct s;
    rewrite (proj2 (Z.leb_le (- 2 ^ 63) _)), (proj2 (Z.leb_le _ (2 ^ 63 - 1))) by lia; cbn [andb]; lia.
Qed.

(** One less: the magnitude of [t - 1] for [0 <= t <= 3]. *)
Lemma sub_one lo hi t :
  normal lo hi t -> nonneg t -> -140 <= lo -> mag t <= 3 * 2 ^ unit_exp ->
  let z := f64_sub t (f64_of_Z 1) in
  normal (-200) 100 z /\ mag z * 2 ^ 52 <= Z.max (2 ^ unit_exp) (mag t - 2 ^ unit_exp) * (2 ^ 52 + 1).
Proof.
  intros Hn Hs Hlo Hm z. unfold z. assert (f64_of_Z 1 = S754_finite false (2 ^ 52) (-52)) as -> by (vm_compute; reflexivity).
  destruct t as [| | |s m e]; try done; cbn [normal nonneg mag] in *.
  subst s. destruct Hn as [Hm53 He].
  unfold f64_sub, SFsub. cbn [cond_Zopp]. set (ez := Z.min e (-52)).
  assert (forall p x, ez <= x -> -unit_exp <= ez -> Zpos (shl_align p x ez).1 * 2 ^ (ez + unit_exp) = Zpos p * 2 ^ (x + unit_exp)) as Hal.
  { intros p x Hx Hez. unfold shl_align. destruct (ez - x) as [|n|n] eqn:E; [cbn [fst]; do 2 f_equal; lia|lia|].
    cbn [fst]. rewrite iter_xO, <-Z.mul_assoc, <-Z.pow_add_r by lia. do 2 f_equal. lia. }
  pose proof (Hal m e ltac:(lia) ltac:(unfold unit_exp; lia)) as Ha. pose proof (Hal (2 ^ 52)%positive (-52) ltac:(lia) ltac:(unfold unit_exp; lia)) as Hb.
  change (Zpos (2 ^ 52) * 2 ^ (-52 + unit_exp)) with (2 ^ unit_exp) in Hb.
  set (a := Zpos (shl_align m e ez).1) in *. set (b := Zpos (shl_align (2 ^ 52) (-52) ez).1) in *.
  assert (0 < 2 ^ (ez + unit_exp)) as Hpos by (apply Z.pow_pos_nonneg; unfold unit_exp; lia).
  assert (2 ^ unit_exp = 2 ^ (- ez) * 2 ^ (ez + unit_exp)) as Hu by (rewrite <-Z.pow_add_r by (unfold unit_exp; lia); f_equal; lia).
  assert (2 ^ (- ez) <= 2 ^ 140) by (apply Z.pow_le_mono_r; lia).
  assert (0 <= a <= 3 * 2 ^ (- ez) /\ b = 2 ^ (- ez)) as [Hra Hrb].
  { split; [split; [subst a; lia|]|].
    - apply (Z.mul_le_mono_pos_r _ _ (2 ^ (ez + unit_exp)) Hpos). rewrite Ha, <-Z.mul_assoc, <-Hu. done.
    - apply (Z.mul_reg_r _ _ (2 ^ (ez + unit_exp))); [lia|]. rewrite Hb. done. }
  destruct (normalize_normal (a - b) ez) as [Hnorm Hw]; [lia|lia|]. split.
  { revert Hnorm. destruct (binary_normalize _ _ _ _ _); cbn; lia. }
  etrans; [exact Hw|]. apply Z.mul_le_mono_nonneg_r; [lia|]. rewrite <-Ha, <-Hb.
  rewrite <-(Z.abs_eq (2 ^ (ez + unit_exp))) at 1 by lia. rewrite <-Z.abs_mul, Z.mul_sub_distr_r.
  assert (0 <= a * 2 ^ (ez + unit_exp)) by (apply Z.mul_nonneg_nonneg; lia). lia.
Qed.

(** ** Six roundings *)

Lemma cancel_le a b c : 0 < c -> a * c <= b * c -> a <= b.
Proof. intros Hc. apply Z.mul_le_mono_pos_r. done. Qed.

(** Doubling what is at most one, rounded. *)
Lemma double_bound N U r t :
  2 ^ 10 <= N -> 0 < U -> r * N <= U * (N + 1) -> t * N * U <= r * (2 * U) * (N + 1) -> t * N <= 2 * U * N + 5 * U.
Proof.
  intros HN HU Hr Hm2.
  assert (t * N * N <= 2 * U * (N + 1) * (N + 1)) as Ht1.
  { assert (t * N <= r * 2 * (N + 1)) as Ht0 by (apply (cancel_le _ _ U); lia).
    assert (t * N * N <= r * 2 * (N + 1) * N) by (apply Z.mul_le_mono_nonneg_r; lia).
    assert (r * N * (2 * (N + 1)) <= U * (N + 1) * (2 * (N + 1))) by (apply Z.mul_le_mono_nonneg_r; lia). lia. }
  apply (cancel_le _ _ N); [lia|]. assert (U * 2 <= U * N) by (apply (Z.mul_le_mono_nonneg_l 2 N U); lia). lia.
Qed.

(** [d * f * (2 r - 1)] with each step rounded, [f] a tenth and [r] at most
    one, is a tenth of [d] up to a few units. *)
Lemma tenth_bound N U d x f a r t s p :
  2 ^ 10 <= N -> 0 < U -> 0 <= d -> 10 * (d + 2) <= N -> 0 <= f -> 0 <= a -> 0 <= s ->
  x * N <= d * U * (N + 1) -> 10 * f * N <= U * (N + 1) -> a * N * U <= x * f * (N + 1) ->
  r * N <= U * (N + 1) -> t * N * U <= r * (2 * U) * (N + 1) -> s * N <= Z.max U (t - U) * (N + 1) ->
  p * N * U <= a * s * (N + 1) -> 10 * p <= (d + 3) * U.
Proof.
  intros HN HU Hd Hdn Hf Ha Hs Hx H10 Hm1 Hr Hm2 Hsub Hm3.
  assert (2 ^ 10 * N <= N * N) as HNN by (apply Z.mul_le_mono_nonneg_r; lia).
  assert (x <= (d + 1) * U) as Hx1.
  { apply (cancel_le _ _ N); [lia|]. assert (d * U <= N * U) by (apply Z.mul_le_mono_nonneg_r; lia). lia. }
  assert (10 * a * N <= (d + 1) * (10 * f) * (N + 1)) as Ha1.
  { apply (cancel_le _ _ U); [done|]. assert (x * (f * (N + 1)) <= (d + 1) * U * (f * (N + 1))) by (apply Z.mul_le_mono_nonneg_r; [apply Z.mul_nonneg_nonneg|]; lia). lia. }
  assert (10 * a <= (d + 2) * U) as Ha2.
  { apply (cancel_le _ _ (N * N)); [lia|].
    assert ((d + 1) * (N + 1) * (10 * f * N) <= (d + 1) * (N + 1) * (U * (N + 1))) by (apply Z.mul_le_mono_nonneg_l; [apply Z.mul_nonneg_nonneg|]; lia).
    assert (10 * a * N * N <= (d + 1) * (10 * f) * (N + 1) * N) by (apply Z.mul_le_mono_nonneg_r; lia).
    assert (10 * (d + 1) * (2 * N + 1) <= N * (2 * N + 1)) by (apply Z.mul_le_mono_nonneg_r; lia).
    assert ((d + 1) * (2 * N + 1) <= N * N) by lia.
    assert ((d + 1) * (2 * N + 1) * U <= N * N * U) by (apply Z.mul_le_mono_nonneg_r; lia). lia. }
  pose proof (double_bound N U r t HN HU Hr Hm2) as Ht.
  assert (s * N * N <= (U * N + 5 * U) * (N + 1)) as Hs1.
  { assert (Z.max U (t - U) * N <= U * N + 5 * U) by (destruct (Z.max_spec U (t - U)) as [[_ ->]|[_ ->]]; lia).
    assert (s * N * N <= Z.max U (t - U) * (N + 1) * N) by (apply Z.mul_le_mono_nonneg_r; lia).
    assert (Z.max U (t - U) * N * (N + 1) <= (U * N + 5 * U) * (N + 1)) by (apply Z.mul_le_mono_nonneg_r; lia). lia. }
  assert (s * N <= U * (N + 7)) as Hs2.
  { apply (cancel_le _ _ N); [lia|]. assert (U * 5 <= U * N) by (apply (Z.mul_le_mono_nonneg_l 5 N U); lia). lia. }
  assert (10 * p * N * N <= (d + 2) * U * (N + 7) * (N + 1)) as Hp1.
  { apply (cancel_le _ _ U); [done|].
    assert (10 * a * (s * N * (N + 1)) <= (d + 2) * U * (U * (N + 7) * (N + 1))) as H3.
    { apply Z.mul_le_mono_nonneg; [lia|done|apply Z.mul_nonneg_nonneg; [apply Z.mul_nonneg_nonneg|]; lia|apply Z.mul_le_mono_nonneg_r; lia]. }
    assert (p * N * U * (10 * N) <= a * s * (N + 1) * (10 * N)) by (apply Z.mul_le_mono_nonneg_r; lia). lia. }
  apply (cancel_le _ _ (N * N)); [lia|].
  assert (10 * (d + 2) * (8 * N + 7) <= N * (8 * N + 7)) by (apply Z.mul_le_mono_nonneg_r; lia).
  assert ((d + 2) * (8 * N + 7) <= N * N) by lia. assert ((d + 2) * (8 * N + 7) * U <= N * N * U) by (apply Z.mul_le_mono_nonneg_r; lia). lia.
Qed.
