(* ===== verification/Model.v ===== *)
(** * The vendor-neutral data model (internal/model/model.go)

    The types that cross the seam between sources, the scheduler, the
    checkpoint stores and the emitter.  A [float64] is a [spec_float], Go maps
    are finite maps, [time.Time] is an instant of [Prelude]. *)

From S2P Require Import Prelude.

Inductive MetricKind := Gauge | Sum.
Inductive Temporality := TempUnset | Delta | Cumulative.

Record Sample := mkSample {
  s_Name : string;
  s_Kind : MetricKind;
  s_Temporality : Temporality;
  s_Monotonic : bool;
  s_Unit : string;
  s_Labels : gmap string string;
  s_Value : spec_float;
  s_Timestamp : Time
}.

Record LogRecord := mkLogRecord {
  l_Timestamp : Time;
  l_Body : string;
  l_Severity : string;
  l_IndexedAttributes : gmap string string;
  l_RecordAttributes : gmap string string;
  l_TraceID : string
}.

Record CheckpointKey := mkKey {
  k_SourceInstance : string;
  k_Loop : string;
  k_OutputFingerprint : string
}.

Record Watermark := mkWm {
  wm_Time : Time;
  wm_Cursor : string;
  wm_Epoch : Z
}.

(** Go's zero value [model.Watermark{}]. *)
Definition zeroWm : Watermark := mkWm zeroTime "" 0.

Record Batch := mkBatch {
  b_Key : CheckpointKey;
  b_Samples : list Sample;
  b_Logs : list LogRecord;
  b_Watermark : Watermark
}.

#[export] Instance MetricKind_eq_dec : EqDecision MetricKind.
Proof. solve_decision. Defined.
#[export] Instance Temporality_eq_dec : EqDecision Temporality.
Proof. solve_decision. Defined.
#[export] Instance spec_float_eq_dec : EqDecision spec_float.
Proof. solve_decision. Defined.
#[export] Instance Sample_eq_dec : EqDecision Sample.
Proof. solve_decision. Defined.
#[export] Instance Sample_inhabited : Inhabited Sample :=
  populate (mkSample "" Gauge TempUnset false "" ∅ (S754_zero false) zeroTime).
#[export] Instance LogRecord_eq_dec : EqDecision LogRecord.
Proof. solve_decision. Defined.
#[export] Instance CheckpointKey_eq_dec : EqDecision CheckpointKey.
Proof. solve_decision. Defined.
#[export] Instance Watermark_eq_dec : EqDecision Watermark.
Proof. solve_decision. Defined.
#[export] Instance Batch_eq_dec : EqDecision Batch.
Proof. solve_decision. Defined.

#[export] Instance CheckpointKey_countable : Countable CheckpointKey.
Proof.
  apply (inj_countable' (fun k => (k_SourceInstance k, k_Loop k, k_OutputFingerprint k))
    (fun p => mkKey p.1.1 p.1.2 p.2)). by intros [].
Defined.

(** [CheckpointKey.String]. *)
Definition key_String (k : CheckpointKey) : string :=
  k_SourceInstance k +:+ "/" +:+ k_Loop k +:+ "/" +:+ k_OutputFingerprint k.

(** ** The output fingerprint *)

Section fingerprint.
(** [crypto/sha256] followed by [encoding/hex]. *)
Context (sha256_hex : string -> string).
(** [strings.TrimSpace] on a string with non-ASCII bytes. *)
Context (trim_uni : string -> string).

(** The ASCII white space of [strings.TrimSpace]. *)
Definition is_space (a : Ascii.ascii) : bool :=
  byte_in a 9 13 || byte_in a 32 32.

Definition TrimSpace (s : string) : string :=
  if is_ascii s then trim_by is_space s else trim_uni s.

Definition NUL : string := String (Ascii.ascii_of_N 0) "".

(** The bytes hashed: every name in sorted order, each followed by a NUL, then
    the trimmed naming config. *)
Fixpoint hash_names (l : list string) : string :=
  match l with [] => "" | n :: l' => n +:+ NUL +:+ hash_names l' end.

Definition fingerprint_input (seriesNames : list string) (namingConfig : string) : string :=
  hash_names (sort_strings seriesNames) +:+ TrimSpace namingConfig.

Definition Fingerprint (seriesNames : list string) (namingConfig : string) : string :=
  string_take 16 (sha256_hex (fingerprint_input seriesNames namingConfig)).

End fingerprint.

(** ** NUL-terminated name lists are uniquely decodable *)

Definition nul_free (s : string) : bool :=
  string_forallb (fun a => negb (Ascii.eqb a (Ascii.ascii_of_N 0))) s.

Lemma nul_split s1 s2 t1 t2 :
  nul_free s1 = true -> nul_free s2 = true ->
  s1 +:+ NUL +:+ t1 = s2 +:+ NUL +:+ t2 -> s1 = s2 /\ t1 = t2.
Proof.
  unfold NUL. revert s2. induction s1 as [|a s1 IH]; intros [|b s2] H1 H2;
    rewrite ?string_app_cons; intros Heq; injection Heq.
  - by intros.
  - intros _ <-. done.
  - intros _ ->. done.
  - intros Heq' ->. simpl in H1, H2. apply andb_prop in H1 as [_ H1], H2 as [_ H2].
    destruct (IH s2 H1 H2) as [-> ->]; done.
Qed.

Lemma nul_free_no_sep s (t r : string) : nul_free s = true -> s = t +:+ NUL +:+ r -> False.
Proof.
  revert t. induction s as [|a s IH]; intros [|b t] H; rewrite ?string_app_cons; try done.
  - intros Heq. injection Heq. intros _ ->. done.
  - intros Heq. injection Heq. intros Heq' ->. simpl in H. apply andb_prop in H as [_ H]. eauto.
Qed.

Lemma hash_names_inj l1 l2 (t1 t2 : string) :
  Forall (fun n => nul_free n = true) l1 -> Forall (fun n => nul_free n = true) l2 ->
  nul_free t1 = true -> nul_free t2 = true ->
  hash_names l1 +:+ t1 = hash_names l2 +:+ t2 -> l1 = l2 /\ t1 = t2.
Proof.
  intros H1. revert l2. induction H1 as [|n1 l1 Hn1 H1 IH]; intros l2 H2 Ht1 Ht2;
    destruct H2 as [|n2 l2 Hn2 H2]; simpl; rewrite ?string_app_assoc; intros Heq.
  - done.
  - exfalso. eauto using nul_free_no_sep.
  - exfalso. eauto using nul_free_no_sep.
  - apply nul_split in Heq as [-> Heq]; [|done..].
    destruct (IH l2) as [-> ->]; done.
Qed.

(** The bytes that are hashed determine the set of series (as a
    multiset) and the trimmed naming config: adding, removing or renaming a
    series always changes what is hashed, reordering the config never does. *)
Lemma fingerprint_input_spec trim l1 l2 c1 c2 :
  Forall (fun n => nul_free n = true) (l1 ++ l2) ->
  nul_free (TrimSpace trim c1) = true -> nul_free (TrimSpace trim c2) = true ->
  fingerprint_input trim l1 c1 = fingerprint_input trim l2 c2 <->
  l1 ≡ₚ l2 /\ TrimSpace trim c1 = TrimSpace trim c2.
Proof.
  intros [H1 H2]%Forall_app Hc1 Hc2. unfold fingerprint_input. split.
  - intros Heq. apply hash_names_inj in Heq as [Hs Hc]; try done.
    + by rewrite <-(sort_strings_perm l1), Hs, sort_strings_perm.
    + by rewrite sort_strings_perm.
    + by rewrite sort_strings_perm.
  - intros [Hp ->]. by rewrite (sort_strings_unique _ _ Hp).
Qed.
