(* ===== verification/Checkpoint.v ===== *)
(** * The checkpoint seam (internal/checkpoint/checkpoint.go)

    The write fence ([CheckMonotonic]), the encodability gate
    ([CheckEncodable]) and the [Checkpointer] interface.  [CheckpointerSpec] is
    what every backend promises to the scheduler: the durable watermark of a
    key only ever advances, whoever writes it.  The three backends
    ([FileStore], [ConfigMapStore], [DynamoStore]) discharge it; [Runner] and
    [Fence] are proved against it. *)

From S2P Require Import Prelude Model.

(** The errors a backend returns, by what [errors.Is] sees. *)
Inductive CpErr :=
| ErrStaleWrite
| ErrUnencodable
| CpOther (msg : string).

#[export] Instance CpErr_eq_dec : EqDecision CpErr.
Proof. solve_decision. Defined.

(** [CheckMonotonic]: [None] is Go's [nil]. *)
Definition CheckMonotonic (stored incoming : Watermark) : option CpErr :=
  if (wm_Epoch incoming <? wm_Epoch stored)%Z then Some ErrStaleWrite
  else if Before (wm_Time incoming) (wm_Time stored) then Some ErrStaleWrite
  else if Equal (wm_Time incoming) (wm_Time stored)
          && bool_decide (wm_Cursor incoming = wm_Cursor stored) then Some ErrStaleWrite
  else None.

Definition CheckEncodable (w : Watermark) : option CpErr :=
  let y := Year (wm_Time w) in
  if (y <? 1)%Z || (9999 <? y)%Z then Some ErrUnencodable else None.

(** The order the fence enforces: neither epoch nor time goes back. *)
Definition wm_le (a b : Watermark) : Prop :=
  (wm_Epoch a <= wm_Epoch b)%Z /\ (wm_Time a <= wm_Time b)%Z.

#[export] Instance wm_le_preorder : PreOrder wm_le.
Proof. split; unfold wm_le; [intros a; lia | intros a b c; lia]. Qed.

#[export] Instance wm_le_dec : RelDecision wm_le.
Proof. intros a b. unfold wm_le. apply _. Defined.

(** Forward progress: later, or the same time with a new cursor. *)
Definition wm_progress (a b : Watermark) : Prop :=
  (wm_Time a < wm_Time b)%Z \/ (wm_Time a = wm_Time b /\ wm_Cursor a <> wm_Cursor b).

(** ** The interface *)

Class Checkpointer (W : Type) := {
  cp_Load : CheckpointKey -> W -> result CpErr Watermark * W;
  cp_Save : CheckpointKey -> Watermark -> W -> option CpErr * W
}.

(** [durable w k] is the watermark a fresh reader would find in state [w];
    a call may be interleaved with other replicas' writes, so it is bounded
    from both sides instead of being fixed.  An epoch is an [int64]. *)
Class CheckpointerSpec (W : Type) `{Checkpointer W} := {
  durable : W -> CheckpointKey -> Watermark;
  cp_Load_mono k w r w' :
    cp_Load k w = (r, w') -> forall k', wm_le (durable w k') (durable w' k');
  cp_Load_fresh k w wm w' :
    cp_Load k w = (Ok wm, w') -> wm_le (durable w k) wm /\ wm_le wm (durable w' k);
  cp_Save_mono k wm w r w' :
    in_int64 (wm_Epoch wm) ->
    cp_Save k wm w = (r, w') -> forall k', wm_le (durable w k') (durable w' k');
  cp_Save_ok k wm w w' :
    in_int64 (wm_Epoch wm) ->
    cp_Save k wm w = (None, w') -> wm_le (durable w k) wm /\ wm_le wm (durable w' k)
}.

(** ** Facts about the fence *)

Lemma CheckMonotonic_None a b :
  CheckMonotonic a b = None <-> wm_le a b /\ wm_progress a b.
Proof.
  unfold CheckMonotonic, wm_le, wm_progress, Before, Equal.
  zbool; simpl; try case_bool_decide; split; try done; try lia;
    try (intros [? [?|[? ?]]]; (done || lia || congruence)); intros _; auto with lia.
Qed.

Lemma CheckMonotonic_le a b : CheckMonotonic a b = None -> wm_le a b.
Proof. by intros [? _]%CheckMonotonic_None. Qed.

Lemma CheckMonotonic_stale a b e : CheckMonotonic a b = Some e -> e = ErrStaleWrite.
Proof. unfold CheckMonotonic. intros. repeat case_match; congruence. Qed.

Lemma CheckEncodable_None w :
  CheckEncodable w = None <-> (0 <= wm_Time w < year10000)%Z.
Proof.
  unfold CheckEncodable. rewrite <-Year_bounds.
  zbool; simpl; split; try done; lia.
Qed.

(** The fence accepts exactly the writes of a non-demoted leader that make
    progress, and every other write is the benign [ErrStaleWrite]. *)
Theorem CheckMonotonic_exact stored incoming :
  (CheckMonotonic stored incoming = None <->
     (wm_Epoch stored <= wm_Epoch incoming)%Z /\
     ((wm_Time stored < wm_Time incoming)%Z \/
      (wm_Time stored = wm_Time incoming /\ wm_Cursor stored <> wm_Cursor incoming))) /\
  (CheckMonotonic stored incoming <> None ->
     CheckMonotonic stored incoming = Some ErrStaleWrite).
Proof.
  split.
  - rewrite CheckMonotonic_None. unfold wm_le, wm_progress. intuition lia.
  - destruct (CheckMonotonic stored incoming) eqn:H; [|done].
    intros _. by rewrite (CheckMonotonic_stale _ _ _ H).
Qed.

#[export] Hint Resolve CheckMonotonic_le : bridge.
