(* ===== verification/FileStore.v ===== *)
(** * The file-backed checkpoint store (internal/checkpoint/file/file.go)

    A map of records behind a YAML file that is replaced by write-temp-then-
    rename.  The file system is a finite map of paths whose mutating calls
    consume a fault script, so every error branch of [flushLocked] is
    reachable; the YAML codec is a parameter with its round-trip law, which
    holds of the times YAML can read back (years 1 to 9999).  The store has no
    gate of its own for the others. *)

From S2P Require Import Prelude Model Checkpoint.

(** ** The file system *)

(** What the next mutating call does: succeed, or fail and leave [left] as the
    content of the file it was writing ([None]: untouched). *)
Inductive fault := NoFault | Fault (left : option string).

Record FS := mkFS { fs_files : gmap string string; fs_faults : list fault; fs_unreadable : bool }.

Definition fs_next (fs : FS) : fault * FS :=
  match fs_faults fs with
  | [] => (NoFault, fs)
  | f :: rest => (f, mkFS (fs_files fs) rest (fs_unreadable fs))
  end.

Definition os_MkdirAll (fs : FS) : bool * FS :=
  let (f, fs) := fs_next fs in
  match f with NoFault => (true, fs) | Fault _ => (false, fs) end.

Definition os_WriteFile (p body : string) (fs : FS) : bool * FS :=
  let (f, fs) := fs_next fs in
  let put c := mkFS (<[p := c]> (fs_files fs)) (fs_faults fs) (fs_unreadable fs) in
  match f with
  | NoFault => (true, put body)
  | Fault (Some c) => (false, put c)
  | Fault None => (false, fs)
  end.

Definition os_Rename (src dst : string) (fs : FS) : bool * FS :=
  let (f, fs) := fs_next fs in
  match f, fs_files fs !! src with
  | NoFault, Some c =>
      (true, mkFS (<[dst := c]> (delete src (fs_files fs))) (fs_faults fs) (fs_unreadable fs))
  | _, _ => (false, fs)
  end.

Inductive read_result := ReadOk (b : string) | ReadNotExist | ReadErr.

Definition os_ReadFile (p : string) (fs : FS) : read_result :=
  if fs_unreadable fs then ReadErr
  else match fs_files fs !! p with Some b => ReadOk b | None => ReadNotExist end.

(** ** The store *)

Record record := mkRec { r_Time : Time; r_Cursor : string; r_Epoch : Z }.

Definition rec_wm (r : record) : Watermark := mkWm (r_Time r) (r_Cursor r) (r_Epoch r).
Definition wm_rec (w : Watermark) : record := mkRec (wm_Time w) (wm_Cursor w) (wm_Epoch w).

(** Go's zero [record{}], what indexing an absent key yields. *)
Definition zeroRec : record := mkRec zeroTime "" 0.

Record Store := mkStore { st_data : gmap string record; st_fs : FS }.

Section file_store.
Context (path : string).
(** gopkg.in/yaml.v3 on the record map. *)
Context (yaml_Marshal : gmap string record -> option string).
Context (yaml_Unmarshal : string -> option (gmap string record)).

(** [New]: [Err] is a refusal to start. *)
Definition file_New (ignoreInvalid : bool) (fs : FS) : result string Store :=
  match os_ReadFile path fs with
  | ReadNotExist => Ok (mkStore ∅ fs)
  | ReadErr => Err "checkpoint/file: read"
  | ReadOk b =>
      match yaml_Unmarshal b with
      | Some d => Ok (mkStore d fs)
      | None => if ignoreInvalid then Ok (mkStore ∅ fs) else Err "checkpoint/file: corrupt (refusing start)"
      end
  end.

Definition file_Load (key : CheckpointKey) (s : Store) : result CpErr Watermark * Store :=
  match st_data s !! key_String key with
  | None => (Ok zeroWm, s)
  | Some r => (Ok (rec_wm r), s)
  end.

Definition tmp_path : string := path +:+ ".tmp".

(** [flushLocked]: [None] is success. *)
Definition flushLocked (s : Store) : option CpErr * Store :=
  match yaml_Marshal (st_data s) with
  | None => (Some (CpOther "yaml"), s)
  | Some b =>
      let '(ok, fs) := os_MkdirAll (st_fs s) in
      if negb ok then (Some (CpOther "mkdir"), mkStore (st_data s) fs)
      else
        let '(ok, fs) := os_WriteFile tmp_path b fs in
        if negb ok then (Some (CpOther "write"), mkStore (st_data s) fs)
        else
          let '(ok, fs) := os_Rename tmp_path path fs in
          (if ok then None else Some (CpOther "rename"), mkStore (st_data s) fs)
  end.

Definition file_Save (key : CheckpointKey) (w : Watermark) (s : Store) : option CpErr * Store :=
  let k := key_String key in
  let prev := st_data s !! k in
  match CheckMonotonic (rec_wm (default zeroRec prev)) w with
  | Some e => (Some e, s)
  | None =>
      let s1 := mkStore (<[k := wm_rec w]> (st_data s)) (st_fs s) in
      match flushLocked s1 with
      | (Some e, s2) =>
          let rolled := match prev with
                        | Some p => <[k := p]> (st_data s2)
                        | None => delete k (st_data s2)
                        end in
          (Some e, mkStore rolled (st_fs s2))
      | (None, s2) => (None, s2)
      end
  end.

#[export] Instance FileCheckpointer : Checkpointer Store :=
  {| cp_Load := file_Load; cp_Save := file_Save |}.

(** What a reader of the store finds. *)
Definition file_durable (s : Store) (k : CheckpointKey) : Watermark :=
  rec_wm (default zeroRec (st_data s !! key_String k)).

(** ** Lemmas *)

Lemma tmp_path_ne : tmp_path <> path.
Proof.
  unfold tmp_path. intros H. apply (f_equal slen) in H.
  rewrite string_app_length in H. simpl in H. lia.
Qed.

Lemma flushLocked_data s r s' : flushLocked s = (r, s') -> st_data s' = st_data s.
Proof. unfold flushLocked. intros H. repeat case_match; by simplify_eq. Qed.

(** A failed flush never touches the live file; a successful one leaves exactly
    the marshalled map there. *)
Lemma flushLocked_file s r s' :
  flushLocked s = (r, s') ->
  match r with
  | None => exists b, yaml_Marshal (st_data s) = Some b /\ fs_files (st_fs s') !! path = Some b
  | Some _ => fs_files (st_fs s') !! path = fs_files (st_fs s) !! path
  end /\ fs_unreadable (st_fs s') = fs_unreadable (st_fs s).
Proof.
  pose proof tmp_path_ne as Hne.
  unfold flushLocked, os_MkdirAll, os_WriteFile, os_Rename, fs_next. intros H.
  repeat (case_match; simplify_eq/=); simplify_map_eq; eauto.
Qed.

Lemma file_Load_pure k s r s' : file_Load k s = (r, s') -> s' = s /\ r = Ok (file_durable s k).
Proof. unfold file_Load, file_durable. intros H. destruct (st_data s !! key_String k) eqn:E; by simplify_eq/=. Qed.

Lemma rec_wm_rec w : rec_wm (wm_rec w) = w.
Proof. by destruct w. Qed.

(** The whole behaviour of [Save] on the map: an error leaves it as it was. *)
Lemma file_Save_data k w s r s' :
  file_Save k w s = (r, s') ->
  match r with
  | None => CheckMonotonic (file_durable s k) w = None /\
            st_data s' = <[key_String k := wm_rec w]> (st_data s)
  | Some _ => st_data s' = st_data s
  end.
Proof.
  unfold file_Save, file_durable. intros H.
  destruct (CheckMonotonic _ w) eqn:Hm; [by simplify_eq|].
  destruct (flushLocked _) as [r2 s2] eqn:Hf. pose proof (flushLocked_data _ _ _ Hf) as Hd. simpl in Hd.
  destruct r2; simplify_eq/=; [|done]. rewrite Hd.
  destruct (st_data s !! key_String k) eqn:E.
  - rewrite insert_insert_eq. by rewrite insert_id.
  - rewrite delete_insert_eq. by rewrite delete_id.
Qed.

Lemma file_durable_insert s s' k k' w :
  st_data s' = <[key_String k := wm_rec w]> (st_data s) ->
  file_durable s' k' = if decide (key_String k = key_String k') then w else file_durable s k'.
Proof.
  intros E. unfold file_durable. rewrite E, lookup_insert.
  case_decide; [|done]. simpl. apply rec_wm_rec.
Qed.

#[export] Program Instance FileCheckpointerSpec : CheckpointerSpec Store :=
  {| durable := file_durable |}.
Next Obligation. intros k w r w' [-> _]%file_Load_pure k'. reflexivity. Qed.
Next Obligation.
  intros k w wm w' [-> [= ->]]%file_Load_pure. split; reflexivity.
Qed.
Next Obligation.
  intros k wm w r w' _ H k'. apply file_Save_data in H. destruct r.
  - unfold file_durable. by rewrite H.
  - destruct H as [Hm Hd]. rewrite (file_durable_insert _ _ _ k' _ Hd).
    case_decide as Heq; [|reflexivity].
    unfold file_durable at 1. rewrite <-Heq. by apply CheckMonotonic_le.
Qed.
Next Obligation.
  intros k wm w w' _ H. apply file_Save_data in H as [Hm Hd].
  rewrite (file_durable_insert _ _ _ k _ Hd), decide_True by done.
  split; [by apply CheckMonotonic_le | reflexivity].
Qed.

(** ** Durability across a restart *)

(** Every time of the map has a year YAML's timestamps can hold. *)
Definition encodable (d : gmap string record) : Prop := map_Forall (fun _ r => CheckEncodable (rec_wm r) = None) d.

Context (yaml_roundtrip : forall d b, encodable d -> yaml_Marshal d = Some b -> yaml_Unmarshal b = Some d).

(** The file holds the map: the state [New] establishes from an existing file
    and every later [Save] keeps. *)
Definition file_synced (s : Store) : Prop :=
  fs_unreadable (st_fs s) = false /\
  match fs_files (st_fs s) !! path with
  | Some b => yaml_Unmarshal b = Some (st_data s)
  | None => st_data s = ∅
  end.

Lemma file_Save_encodable k w s r s' :
  encodable (st_data s) -> CheckEncodable w = None -> file_Save k w s = (r, s') -> encodable (st_data s').
Proof.
  intros He Hw H. apply file_Save_data in H. destruct r; [by rewrite H|]. destruct H as [_ ->].
  apply map_Forall_insert_2; [by rewrite rec_wm_rec|done].
Qed.

Lemma file_Save_synced k w s r s' :
  file_synced s -> encodable (st_data s) -> CheckEncodable w = None -> file_Save k w s = (r, s') -> file_synced s'.
Proof.
  intros [Hu Hs] He Hw H. pose proof (file_Save_encodable _ _ _ _ _ He Hw H) as He'. pose proof (file_Save_data _ _ _ _ _ H) as Hd. revert H. unfold file_Save.
  destruct (CheckMonotonic _ w) eqn:Hm; [intros; simplify_eq; by split|].
  destruct (flushLocked _) as [r2 s2] eqn:Hf.
  destruct (flushLocked_file _ _ _ Hf) as [Hfile Hu2]. simpl in *.
  destruct r2; intros; simplify_eq; unfold file_synced; simpl in *; rewrite Hu2; split; try done.
  - rewrite Hfile. by rewrite Hd.
  - destruct Hfile as (b & Hb & ->). destruct Hd as [_ Hd]. rewrite Hd in *. by apply yaml_roundtrip.
Qed.

(** C20: a crash after any [Save], successful or not, and a restart gives
    back the store's map: a saved watermark survives, a failed save is rolled
    back in memory and never appears on disk.  It is stated for times of the
    years 1 to 9999, in the map and in the saved watermark, because YAML does
    not read others back and the store does not refuse them; the invariant is
    kept, so it holds after every further [Save] of such a time. *)
Theorem file_Save_restart k w s r s' ign :
  file_synced s -> encodable (st_data s) -> CheckEncodable w = None -> file_Save k w s = (r, s') ->
  file_New ign (st_fs s') = Ok s' /\
  st_data s' = (if r is None then <[key_String k := wm_rec w]> (st_data s) else st_data s) /\
  file_synced s' /\ encodable (st_data s').
Proof.
  intros Hs He Hw H. pose proof (file_Save_synced _ _ _ _ _ Hs He Hw H) as [Hu Hsync].
  pose proof (file_Save_encodable _ _ _ _ _ He Hw H) as He'. apply file_Save_data in H. split_and!; [| |done|done].
  - unfold file_New, os_ReadFile. rewrite Hu. destruct s' as [d fs]; simpl in *.
    destruct (fs_files fs !! path); [by rewrite Hsync|by subst].
  - destruct r; [done|by destruct H].
Qed.

(** [New] over an unreadable or corrupt file refuses to start unless the
    operator opted into a loud bootstrap, and never invents a watermark. *)
Theorem file_New_refuses b fs :
  fs_unreadable fs = false -> fs_files fs !! path = Some b -> yaml_Unmarshal b = None ->
  is_ok (file_New false fs) = false /\
  (exists s, file_New true fs = Ok s /\ forall k, file_durable s k = zeroWm).
Proof.
  intros Hu Hf Hy. unfold file_New, os_ReadFile. rewrite Hu, Hf, Hy. split; [done|].
  eexists; split; [done|]. intros k. unfold file_durable. simpl. by rewrite lookup_empty.
Qed.

End file_store.

(** ** A concrete file system and codec *)

#[global] Instance record_eq_dec : EqDecision record.
Proof. solve_decision. Defined.
#[global] Instance record_countable : Countable record.
Proof.
  apply (inj_countable' (fun r => (r_Time r, r_Cursor r, r_Epoch r)) (fun p => mkRec p.1.1 p.1.2 p.2)).
  by intros [].
Defined.

Module Sim.
Definition marshal (d : gmap string record) : option string := Some (str_encode d).
Definition unmarshal (s : string) : option (gmap string record) := str_decode s.

Lemma file_roundtrip d b : encodable d -> marshal d = Some b -> unmarshal b = Some d.
Proof. intros _ [= <-]. apply str_decode_encode. Qed.

Definition key0 : CheckpointKey := mkKey "pk" "analytics" "ab".
(** The rename of the first save fails, after the temp file was written. *)
Definition fs0 : FS := mkFS ∅ [NoFault; NoFault; Fault None] false.
Definition store0 : Store := mkStore ∅ fs0.
Definition wm1 : Watermark := mkWm 5 "" 1.
Definition save1 := file_Save "/data/cp.yaml" marshal key0 wm1 store0.
Definition corrupt : FS := mkFS {["/data/cp.yaml" := "?"]} [] false.
End Sim.

Lemma file_Save_restart_witness :
  file_New "/data/cp.yaml" Sim.unmarshal false (st_fs (snd Sim.save1)) = Ok (snd Sim.save1) /\
  fst Sim.save1 = Some (CpOther "rename").
Proof.
  split; [|vm_compute; reflexivity].
  pose proof (surjective_pairing Sim.save1) as Hrun. unfold Sim.save1 at 1 in Hrun.
  assert (file_synced "/data/cp.yaml" Sim.unmarshal Sim.store0) as Hs by (split; vm_compute; reflexivity).
  exact (proj1 (file_Save_restart "/data/cp.yaml" Sim.marshal Sim.unmarshal Sim.file_roundtrip Sim.key0 Sim.wm1
    Sim.store0 _ _ false Hs (map_Forall_empty _) eq_refl Hrun)).
Defined.

Lemma file_New_refuses_witness :
  is_ok (file_New "/data/cp.yaml" Sim.unmarshal false Sim.corrupt) = false.
Proof.
  refine (proj1 (file_New_refuses "/data/cp.yaml" Sim.unmarshal "?" Sim.corrupt _ _ _)); vm_compute; reflexivity.
Defined.

(** The file backend has no [CheckEncodable] gate: a watermark no durable
    encoding can represent is accepted by the fence and saved. *)
Lemma file_Save_accepts_unencodable :
  let w := mkWm year10000 "" 1 in
  CheckEncodable w = Some ErrUnencodable /\
  fst (file_Save "/data/cp.yaml" Sim.marshal Sim.key0 w (mkStore ∅ (mkFS ∅ [] false))) = None.
Proof. vm_compute. split; reflexivity. Qed.
