(* ===== verification/ConfigMapStore.v ===== *)
(** * The ConfigMap checkpoint store (internal/checkpoint/configmap/configmap.go)

    Every watermark lives under one data key of one ConfigMap and is written by
    a read-modify-write loop under the API server's resourceVersion check.  The
    API server and the JSON codec are parameters; [ConfigMapServer] states the
    documented optimistic-concurrency behaviour, under interference from other
    replicas that run this same program. *)

From S2P Require Import Prelude Model Checkpoint.

Definition maxConfigMapBytes : nat := 900 * 1024.

Record record := mkRec { r_Time : Time; r_Cursor : string; r_Epoch : Z }.
Definition zeroRec : record := mkRec zeroTime "" 0.
Definition rec_wm (r : record) : Watermark := mkWm (r_Time r) (r_Cursor r) (r_Epoch r).
Definition wm_rec (w : Watermark) : record := mkRec (wm_Time w) (wm_Cursor w) (wm_Epoch w).

(** The fields of a ConfigMap the store uses; a nil [Data] reads as empty. *)
Record CM := mkCM { cm_rv : Z; cm_data : gmap string string }.

Inductive APIErr := NotFound | Conflict | AlreadyExists | APIOther (msg : string).

Class ConfigMapAPI (W : Type) := {
  api_Get : W -> result APIErr CM * W;
  api_Create : gmap string string -> W -> option APIErr * W;
  api_Update : CM -> W -> option APIErr * W
}.

(** ** Data keys *)

Definition key_byte (a : Ascii.ascii) : bool :=
  byte_in a 97 122 || byte_in a 65 90 || byte_in a 48 57
  || byte_in a 45 45 || byte_in a 95 95 || byte_in a 46 46.

Section configmap.
Context (sha256_hex : string -> string).
Context (json_Marshal : record -> option string) (json_Unmarshal : string -> option record).

Definition dataKey (k : CheckpointKey) : string :=
  let s := key_String k in
  let prefix := string_map (fun c => if key_byte c then c else "_"%char) s in
  let prefix := if decide (200 < slen prefix) then string_take 200 prefix else prefix in
  prefix +:+ "." +:+ string_take 12 (sha256_hex s).

Definition dataBytes (d : gmap string string) : nat :=
  sum_list (map (fun kv => slen kv.1 + slen kv.2) (map_to_list d)).

(** ** Operations *)

Context {W : Type} `{ConfigMapAPI W}.

Definition cm_Load (key : CheckpointKey) (w : W) : result CpErr Watermark * W :=
  let '(g, w) := api_Get w in
  match g with
  | Err NotFound => (Ok zeroWm, w)
  | Err _ => (Err (CpOther "checkpoint/configmap: get"), w)
  | Ok cm =>
      match cm_data cm !! dataKey key with
      | None => (Ok zeroWm, w)
      | Some raw =>
          match json_Unmarshal raw with
          | None => (Err (CpOther "checkpoint/configmap: corrupt key (refusing)"), w)
          | Some r => (Ok (rec_wm r), w)
          end
      end
  end.

(** The stored record of a key; [None] when it is present but unreadable. *)
Definition stored_record (key : CheckpointKey) (d : gmap string string) : option record :=
  match d !! dataKey key with
  | Some raw => json_Unmarshal raw
  | None => Some zeroRec
  end.

(** The object an attempt starts from and whether it must be created; [None]
    when the read failed. *)
Definition read_object (g : result APIErr CM) : option (bool * CM) :=
  match g with
  | Ok cm => Some (false, cm)
  | Err NotFound => Some (true, mkCM 0 ∅)
  | Err _ => None
  end.

(** One write attempt on the object that was read ([create]: there was none).
    [None] asks for another attempt. *)
Definition write_attempt (key : CheckpointKey) (wm : Watermark) (create : bool) (cm : CM) (w : W)
    : option (option CpErr) * W :=
  match stored_record key (cm_data cm) with
  | None => (Some (Some (CpOther "checkpoint/configmap: refusing to overwrite corrupt key")), w)
  | Some stored =>
      match CheckMonotonic (rec_wm stored) wm with
      | Some e => (Some (Some e), w)
      | None =>
          match json_Marshal (wm_rec wm) with
          | None => (Some (Some (CpOther "checkpoint/configmap: encode watermark")), w)
          | Some enc =>
              let d := <[dataKey key := enc]> (cm_data cm) in
              if decide (maxConfigMapBytes < dataBytes d) then
                (Some (Some (CpOther "checkpoint/configmap: exceeds cap")), w)
              else
                let '(err, w) := if create then api_Create d w else api_Update (mkCM (cm_rv cm) d) w in
                match err with
                | None => (Some None, w)
                | Some Conflict | Some AlreadyExists => (None, w)
                | Some _ => (Some (Some (CpOther "checkpoint/configmap: write")), w)
                end
          end
      end
  end.

(** The retry loop: [attempts] is the number of iterations left. *)
Fixpoint rmw_loop (attempts : nat) (key : CheckpointKey) (wm : Watermark) (w : W) : option CpErr * W :=
  match attempts with
  | 0 => (Some (CpOther "checkpoint/configmap: exhausted RMW"), w)
  | S n =>
      let '(g, w) := api_Get w in
      match read_object g with
      | None => (Some (CpOther "checkpoint/configmap: get"), w)
      | Some (create, cm) =>
          match write_attempt key wm create cm w with
          | (Some r, w) => (r, w)
          | (None, w) => rmw_loop n key wm w
          end
      end
  end.

Definition cm_retries : nat := 5.

Definition cm_Save (key : CheckpointKey) (wm : Watermark) (w : W) : option CpErr * W :=
  match CheckEncodable wm with
  | Some e => (Some e, w)
  | None => rmw_loop (S cm_retries) key wm w
  end.

(** ** The server's contract *)

Definition view (o : option CM) (k : CheckpointKey) : Watermark :=
  rec_wm (default zeroRec (o ≫= fun cm => cm_data cm !! dataKey k ≫= json_Unmarshal)).

(** How the object changes under the writes of this program's replicas: it is
    never deleted, its version grows with every change, and no watermark goes
    back. *)
Definition evolves (a b : option CM) : Prop :=
  (forall k, wm_le (view a k) (view b k)) /\
  match a, b with
  | Some ca, Some cb => (cm_rv ca <= cm_rv cb)%Z /\ (cm_rv ca = cm_rv cb -> cm_data ca = cm_data cb)
  | Some _, None => False
  | None, _ => True
  end.

#[export] Instance evolves_preorder : PreOrder evolves.
Proof.
  split.
  - intros [a|]; by split.
  - intros a b c [Hab Hrv] [Hbc Hrv']. split; [intros k; etrans; [apply Hab | apply Hbc]|].
    destruct a, b, c; try done. destruct Hrv as [? Hab'], Hrv' as [? Hbc'].
    split; [lia|]. intros ?. rewrite Hab' by lia. apply Hbc'. lia.
Qed.

(** The write of [cm'] took effect on the object of the same version. *)
Definition applied (a : option CM) (cm' : CM) (b : option CM) : Prop :=
  exists cm0 rv', evolves a (Some cm0) /\ cm_rv cm0 = cm_rv cm' /\ (cm_rv cm0 < rv')%Z /\
    evolves (Some (mkCM rv' (cm_data cm'))) b.

Definition created (a : option CM) (d : gmap string string) (b : option CM) : Prop :=
  evolves a None /\ exists rv, evolves (Some (mkCM rv d)) b.

(** Documented API-server behaviour: a read returns a version the object has
    between the call's start and end; a create succeeds only when there is no
    object and an update only at the version it names; a failed write either
    had no effect or, when its response was lost, the full effect. *)
Class ConfigMapServer := {
  srv : W -> option CM;
  srv_Get_ok w cm w' :
    api_Get w = (Ok cm, w') -> evolves (srv w) (Some cm) /\ evolves (Some cm) (srv w');
  srv_Get_err w e w' : api_Get w = (Err e, w') -> evolves (srv w) (srv w') /\ (e = NotFound -> srv w = None);
  srv_Create_ok d w w' : api_Create d w = (None, w') -> created (srv w) d (srv w');
  srv_Create_err d w e w' :
    api_Create d w = (Some e, w') -> evolves (srv w) (srv w') \/ created (srv w) d (srv w');
  srv_Update_ok cm w w' : api_Update cm w = (None, w') -> applied (srv w) cm (srv w');
  srv_Update_err cm w e w' :
    api_Update cm w = (Some e, w') -> evolves (srv w) (srv w') \/ applied (srv w) cm (srv w')
}.

(** JSON keeps the time (for the years [CheckEncodable] admits) and the epoch. *)
Definition json_roundtrip : Prop :=
  forall w s, CheckEncodable w = None -> json_Marshal (wm_rec w) = Some s ->
  exists c, json_Unmarshal s = Some (mkRec (wm_Time w) c (wm_Epoch w)).

(** ** The fence holds through the API server *)

Context `{Srv : ConfigMapServer} (json_ok : json_roundtrip).

#[local] Abbreviation dur w k := (view (srv w) k) (only parsing).

Lemma evolves_view a b k : evolves a b -> wm_le (view a k) (view b k).
Proof. intros [Hv _]. apply Hv. Qed.

(** The data an accepted attempt writes is an evolution of the data it read. *)
Lemma put_evolves key wm enc o stored rv' :
  CheckEncodable wm = None -> json_Marshal (wm_rec wm) = Some enc ->
  stored_record key (default ∅ (cm_data <$> o)) = Some stored ->
  CheckMonotonic (rec_wm stored) wm = None ->
  (match o with Some cm => (cm_rv cm < rv')%Z | None => True end) ->
  let cm' := mkCM rv' (<[dataKey key := enc]> (default ∅ (cm_data <$> o))) in
  evolves o (Some cm') /\ wm_le (view o key) wm /\ wm_le wm (view (Some cm') key).
Proof.
  intros He Hm Hst Hmono Hrv cm'. destruct (json_ok _ _ He Hm) as [c Hc].
  assert (wm_le (view o key) wm) as Hle.
  { unfold view. unfold stored_record in Hst. destruct o as [cm|]; simpl in *.
    - destruct (cm_data cm !! dataKey key); simpl in *; [rewrite Hst|simplify_eq]; by apply CheckMonotonic_le.
    - rewrite lookup_empty in Hst. simplify_eq. by apply CheckMonotonic_le. }
  assert (forall k, dataKey k = dataKey key -> wm_le wm (view (Some cm') k)) as Hnew.
  { intros k Hk. unfold view, cm'; simpl. rewrite Hk, lookup_insert_eq; simpl. rewrite Hc. split; simpl; lia. }
  split_and!; [|done|by apply Hnew]. split.
  - intros k. destruct (decide (dataKey k = dataKey key)) as [Heq|Hne].
    + etrans; [|by apply Hnew]. etrans; [|done]. unfold view. by rewrite Heq.
    + unfold view, cm'; simpl. rewrite lookup_insert_ne by done.
      destruct o; simpl; [done|]. rewrite lookup_empty. done.
  - destruct o; simpl; [lia|done].
Qed.

(** The branches that return an error without touching the server. *)
#[local] Ltac ev_trans := first [done | reflexivity | by etrans | etrans; [eassumption|]; by etrans].
#[local] Ltac untouched := simplify_eq; split; [ev_trans | by intros; simplify_eq].

(** The promise of a write call made in state [w] by an operation that started
    in [w0]: the object evolves from what it is at the call and, on success,
    [wm] lies between what the server held at the start and what it holds now. *)
Definition write_ok (w0 w w1 : W) (key : CheckpointKey) (wm : Watermark) (ok : Prop) : Prop :=
  evolves (srv w) (srv w1) /\ (ok -> wm_le (dur w0 key) wm /\ wm_le wm (dur w1 key)).

Section attempt.
Context (key : CheckpointKey) (wm : Watermark) (enc : string) (stored : record) (w0 : W).
Context (Henc : CheckEncodable wm = None) (Hm : json_Marshal (wm_rec wm) = Some enc).
Context (Hmono : CheckMonotonic (rec_wm stored) wm = None).

Lemma create_spec w err w1 :
  stored_record key ∅ = Some stored -> evolves (srv w0) (srv w) ->
  api_Create (<[dataKey key := enc]> ∅) w = (err, w1) -> write_ok w0 w w1 key wm (err = None).
Proof.
  intros Hst H0 Hcall. set (d := <[dataKey key := enc]> ∅) in *.
  assert (created (srv w) d (srv w1) -> write_ok w0 w w1 key wm True) as Hc.
  { intros [[_ Hn] [rv Hev]]. unfold write_ok. destruct (srv w) eqn:Ew; [done|].
    destruct (srv w0) eqn:Ew0; [by destruct H0|].
    destruct (put_evolves key wm enc None stored rv) as (Hev1 & Hle & Hge); [done..|].
    split; [by etrans|]. split; [done|]. etrans; [exact Hge|]. by apply evolves_view. }
  destruct err.
  - destruct (srv_Create_err _ _ _ _ Hcall) as [|[? _]%Hc]; by split.
  - apply srv_Create_ok, Hc in Hcall as [? Hok]. by split; [|intros _; apply Hok].
Qed.

Lemma update_spec cm w err w1 :
  stored_record key (cm_data cm) = Some stored ->
  evolves (srv w0) (Some cm) -> evolves (Some cm) (srv w) ->
  api_Update (mkCM (cm_rv cm) (<[dataKey key := enc]> (cm_data cm))) w = (err, w1) ->
  write_ok w0 w w1 key wm (err = None).
Proof.
  intros Hst H0 Hcm Hcall. set (d := <[dataKey key := enc]> (cm_data cm)) in *.
  assert (applied (srv w) (mkCM (cm_rv cm) d) (srv w1) -> write_ok w0 w w1 key wm True) as Ha.
  { intros (cm0 & rv' & Hev & Hrv & Hlt & Hev'). simpl in *.
    (* the version is the one that was read, so the data is too *)
    assert (cm_data cm0 = cm_data cm) as Hd.
    { assert (evolves (Some cm) (Some cm0)) as [_ [_ Hd]] by (by etrans). symmetry. by apply Hd. }
    destruct (put_evolves key wm enc (Some cm0) stored rv') as (Hev1 & Hle & Hge);
      simpl; rewrite ?Hd; [done..|].
    simpl in *. rewrite Hd in *. split; [etrans; [exact Hev|]; by etrans|]. split.
    - etrans; [|exact Hle]. apply evolves_view. ev_trans.
    - etrans; [exact Hge|]. by apply evolves_view. }
  destruct err.
  - destruct (srv_Update_err _ _ _ _ Hcall) as [|[? _]%Ha]; by split.
  - apply srv_Update_ok, Ha in Hcall as [? Hok]. by split; [|intros _; apply Hok].
Qed.
End attempt.

(** One attempt: what it writes is monotone, and a success means [wm] is what
    the server holds. *)
Lemma write_attempt_spec key wm (create : bool) cm w0 w r w' :
  CheckEncodable wm = None ->
  (if create then cm = mkCM 0 ∅ else evolves (srv w0) (Some cm) /\ evolves (Some cm) (srv w)) ->
  evolves (srv w0) (srv w) ->
  write_attempt key wm create cm w = (r, w') -> write_ok w0 w w' key wm (r = Some None).
Proof.
  intros He Hcm H0 Hrun. unfold write_attempt in Hrun.
  destruct (stored_record key (cm_data cm)) as [stored|] eqn:Hst; [|by untouched].
  destruct (CheckMonotonic _ wm) eqn:Hmono; [by untouched|].
  destruct (json_Marshal _) as [enc|] eqn:Hm; [|by untouched].
  case_decide; [by untouched|].
  destruct (if create then _ else _) as [err w1] eqn:Hcall.
  assert (write_ok w0 w w1 key wm (err = None)) as [? Hok].
  { destruct create; [subst cm; by eapply create_spec|].
    destruct Hcm as [? ?]. by eapply (update_spec _ _ _ _ _ He Hm Hmono). }
  destruct err as [[]|]; simplify_eq; (split; [done|]); intros; simplify_eq; by apply Hok.
Qed.

Lemma rmw_loop_spec n key wm w0 w r w' :
  CheckEncodable wm = None -> evolves (srv w0) (srv w) ->
  rmw_loop n key wm w = (r, w') -> write_ok w0 w w' key wm (r = None).
Proof.
  intros He. revert w. induction n as [|n IH]; intros w H0 Hrun; simpl in Hrun; [by untouched|].
  destruct (api_Get w) as [g w1] eqn:Hg.
  assert (evolves (srv w) (srv w1)) as H1.
  { destruct g; [apply srv_Get_ok in Hg as [? ?]|apply srv_Get_err in Hg as [? _]]; ev_trans. }
  destruct (read_object g) as [[create cm]|] eqn:Hsel; [|by untouched].
  destruct (write_attempt key wm create cm w1) as [r1 w2] eqn:Ha.
  eapply (write_attempt_spec _ _ _ _ w0) in Ha as [Hev Hok]; [|done| |by etrans].
  - destruct r1; simplify_eq.
    + split; [by etrans|]. intros ->. by apply Hok.
    + apply IH in Hrun as [? Hok']; [|by repeat (etrans; [eassumption|])]. split; [ev_trans|done].
  - unfold read_object in Hsel. destruct g as [cm'|[]]; simplify_eq; [|done].
    apply srv_Get_ok in Hg as [? ?]. split; [by etrans|done].
Qed.

Lemma cm_Load_spec k w r w' :
  cm_Load k w = (r, w') -> evolves (srv w) (srv w') /\ (forall wm, r = Ok wm -> wm_le (dur w k) wm /\ wm_le wm (dur w' k)).
Proof.
  unfold cm_Load. destruct (api_Get w) as [g w1] eqn:Hg. intros Hrun.
  destruct g as [cm|e].
  - apply srv_Get_ok in Hg as [H0 H1].
    assert (w1 = w') as -> by (repeat case_match; by simplify_eq). split; [by etrans|].
    intros wm ->. assert (wm = view (Some cm) k) as ->; [|split; by apply evolves_view].
    unfold view; simpl. repeat (case_match; simplify_eq/=; try done).
  - apply srv_Get_err in Hg as [H0 H1].
    assert (w1 = w') as -> by (repeat case_match; by simplify_eq). split; [done|].
    intros wm ->. destruct e; simplify_eq. rewrite (H1 eq_refl). unfold view; simpl. split; [done|].
    rewrite H1 in H0 by done. apply (evolves_view _ _ k H0).
Qed.

#[export] Instance ConfigMapCheckpointer : Checkpointer W :=
  {| cp_Load := cm_Load; cp_Save := cm_Save |}.

Lemma cm_Save_spec key wm w r w' :
  cm_Save key wm w = (r, w') -> write_ok w w w' key wm (r = None).
Proof.
  unfold cm_Save. destruct (CheckEncodable wm) eqn:He; [intros; by untouched|].
  intros H'. by eapply rmw_loop_spec in H'.
Qed.

#[export] Program Instance ConfigMapCheckpointerSpec : CheckpointerSpec W :=
  {| durable := fun w k => dur w k |}.
Next Obligation. intros k w r w' [Hev _]%cm_Load_spec k'. by apply evolves_view. Qed.
Next Obligation. intros k w wm w' [_ Hok]%cm_Load_spec. by apply Hok. Qed.
Next Obligation. intros k wm w r w' _ [Hev _]%cm_Save_spec k'. by apply evolves_view. Qed.
Next Obligation. intros k wm w w' _ [_ Hok]%cm_Save_spec. by apply Hok. Qed.

(** C21: a successful [Save] through the API server is a fenced write even
    though other replicas write concurrently: the saved watermark is at or above
    what was durable before the call and at or below what is durable after it,
    and whatever the outcome no key's durable watermark goes back. *)
Theorem configmap_Save_fenced key wm w r w' :
  cm_Save key wm w = (r, w') ->
  (forall k, wm_le (view (srv w) k) (view (srv w') k)) /\
  (r = None -> CheckEncodable wm = None /\ wm_le (view (srv w) key) wm /\ wm_le wm (view (srv w') key)).
Proof.
  intros Hrun. pose proof (cm_Save_spec _ _ _ _ _ Hrun) as [Hev Hok]. split.
  - intros k. by apply evolves_view.
  - intros ->. split; [|by apply Hok]. unfold cm_Save in Hrun. by destruct (CheckEncodable wm).
Qed.

End configmap.

(** ** Refusals and bounds *)

Section refusals.
Context (sha256_hex : string -> string).
Context (json_Marshal : record -> option string) (json_Unmarshal : string -> option record).
Context {W : Type} `{ConfigMapAPI W}.

#[local] Abbreviation Save := (cm_Save sha256_hex json_Marshal json_Unmarshal).
#[local] Abbreviation Load := (cm_Load sha256_hex json_Unmarshal).

(** A present-but-unreadable key is never clobbered: [Load] and [Save] both
    refuse with an error, and [Save] issues no write (the state is the one the
    read left). *)
Theorem configmap_corrupt_refused key wm cm raw w w1 :
  api_Get w = (Ok cm, w1) -> cm_data cm !! dataKey sha256_hex key = Some raw ->
  json_Unmarshal raw = None -> CheckEncodable wm = None ->
  (exists e, Load key w = (Err e, w1)) /\ (exists e, e <> ErrStaleWrite /\ Save key wm w = (Some e, w1)).
Proof.
  intros Hg Hd Hj He. unfold cm_Load, cm_Save. rewrite He. simpl. rewrite Hg, Hd, Hj.
  split; [by eexists|]. unfold write_attempt, stored_record. simpl. rewrite Hd, Hj.
  eexists. split; [|reflexivity]. done.
Qed.

(** A server on which every write loses the version race. *)
Definition always_conflicts (cm : CM) (w : W) : Prop :=
  api_Get w = (Ok cm, w) /\ forall d, api_Update d w = (Some Conflict, w).

(** The retry loop terminates: after [retries + 1] lost version races it
    returns a loud (not benign) error. *)
Theorem configmap_rmw_bounded key wm cm enc w n :
  always_conflicts cm w -> json_Marshal (wm_rec wm) = Some enc ->
  cm_data cm !! dataKey sha256_hex key = None -> CheckMonotonic zeroWm wm = None ->
  (dataBytes (<[dataKey sha256_hex key := enc]> (cm_data cm)) <= maxConfigMapBytes)%nat ->
  rmw_loop sha256_hex json_Marshal json_Unmarshal n key wm w =
    (Some (CpOther "checkpoint/configmap: exhausted RMW"), w).
Proof.
  intros [Hg Hu] Hm Hd Hmono Hb. induction n as [|n IH]; simpl; [done|].
  rewrite Hg. simpl. unfold write_attempt, stored_record. simpl. rewrite Hd.
  change (rec_wm zeroRec) with zeroWm. rewrite Hmono, Hm.
  rewrite decide_False by lia. by rewrite Hu.
Qed.

(** Every data key is one the API server accepts ([-._a-zA-Z0-9]+, well
    under the 253-byte cap), whatever bytes the checkpoint key holds. *)
Theorem dataKey_valid k :
  (forall s, string_forallb key_byte (sha256_hex s) = true) ->
  string_forallb key_byte (dataKey sha256_hex k) = true /\
  (1 <= slen (dataKey sha256_hex k) <= 213)%nat.
Proof.
  intros Hhex. unfold dataKey.
  set (p := string_map _ _). set (q := if decide _ then _ else p).
  assert (string_forallb key_byte q = true /\ slen q <= 200) as [Hq Hl].
  { assert (string_forallb key_byte p = true) as Hp.
    { apply string_forallb_map. intros a. by destruct (key_byte a) eqn:E. }
    unfold q. case_decide; [|split; [done|lia]].
    split; [by apply string_forallb_take|]. rewrite string_take_length. lia. }
  rewrite !string_forallb_app, Hq, !string_app_length, string_take_length. split.
  - rewrite string_forallb_take by done. reflexivity.
  - change (slen ".") with 1. lia.
Qed.

End refusals.

(** ** A concrete API server *)

Module Sim.
Definition W := option CM.

Definition sim_Get (w : W) : result APIErr CM * W :=
  match w with Some cm => (Ok cm, w) | None => (Err NotFound, w) end.
Definition sim_Create (d : gmap string string) (w : W) : option APIErr * W :=
  match w with Some _ => (Some AlreadyExists, w) | None => (None, Some (mkCM 1 d)) end.
Definition sim_Update (cm : CM) (w : W) : option APIErr * W :=
  match w with
  | Some c => if (cm_rv c =? cm_rv cm)%Z then (None, Some (mkCM (cm_rv c + 1) (cm_data cm)))
              else (Some Conflict, w)
  | None => (Some NotFound, w)
  end.

#[global] Instance API : ConfigMapAPI W :=
  {| api_Get := sim_Get; api_Create := sim_Create; api_Update := sim_Update |}.

#[global] Program Instance Server sha jun : ConfigMapServer sha jun := {| srv := fun w => w |}.
Next Obligation. intros sha jun [c|] cm w' Hg; simplify_eq/=. split; reflexivity. Qed.
Next Obligation. intros sha jun [c|] e w' Hg; simplify_eq/=. by split. Qed.
Next Obligation.
  intros sha jun d [c|] w' Hg; simplify_eq/=. split; [reflexivity|]. exists 1%Z. reflexivity.
Qed.
Next Obligation. intros sha jun d [c|] e w' Hg; simplify_eq/=. left. reflexivity. Qed.
Next Obligation.
  intros sha jun cm [c|] w' Hg; simplify_eq/=. revert Hg. zbool; intros; simplify_eq.
  exists c, (cm_rv c + 1)%Z. split_and!; [reflexivity|done|lia|reflexivity].
Qed.
Next Obligation.
  intros sha jun cm [c|] e w' Hg; simplify_eq/=; [|left; reflexivity].
  revert Hg. zbool; intros; simplify_eq. left; reflexivity.
Qed.

#[global] Instance record_eq_dec : EqDecision record.
Proof. solve_decision. Defined.
#[global] Instance record_countable : Countable record.
Proof.
  apply (inj_countable' (fun r => (r_Time r, r_Cursor r, r_Epoch r)) (fun p => mkRec p.1.1 p.1.2 p.2)).
  by intros [].
Defined.

Definition marshal (r : record) : option string := Some (str_encode r).
Definition unmarshal (s : string) : option record := str_decode s.
Definition hex (s : string) : string := "0123456789abcdef".

Lemma record_roundtrip : json_roundtrip marshal unmarshal.
Proof.
  intros w s _ [= <-]. exists (wm_Cursor w). unfold unmarshal. by rewrite str_decode_encode.
Qed.

Definition key0 : CheckpointKey := mkKey "portkey/eu" "analytics" "0011223344556677".
Definition wm1 : Watermark := mkWm (2020 * 365 * Day) "" 3.
End Sim.

Definition sim_save := cm_Save Sim.hex Sim.marshal Sim.unmarshal Sim.key0 Sim.wm1 (None : Sim.W).

Lemma configmap_Save_fenced_witness :
  fst sim_save = None /\
  wm_le Sim.wm1 (view Sim.hex Sim.unmarshal (srv Sim.hex Sim.unmarshal (snd sim_save)) Sim.key0).
Proof.
  assert (fst sim_save = None) as Hok by (vm_compute; reflexivity). split; [exact Hok|].
  pose proof (surjective_pairing sim_save) as Hrun. unfold sim_save at 1 in Hrun.
  pose proof (configmap_Save_fenced Sim.hex Sim.marshal Sim.unmarshal Sim.record_roundtrip Sim.key0 Sim.wm1
    (None : Sim.W) (fst sim_save) (snd sim_save) Hrun) as [_ Hok'].
  exact (proj2 (proj2 (Hok' Hok))).
Defined.

Lemma configmap_corrupt_refused_witness :
  exists e, e <> ErrStaleWrite /\
    cm_Save Sim.hex Sim.marshal Sim.unmarshal Sim.key0 Sim.wm1
      (Some (mkCM 7 {[dataKey Sim.hex Sim.key0 := "not json"]})) =
    (Some e, Some (mkCM 7 {[dataKey Sim.hex Sim.key0 := "not json"]})).
Proof.
  refine (proj2 (configmap_corrupt_refused Sim.hex Sim.marshal Sim.unmarshal Sim.key0 Sim.wm1
    (mkCM 7 {[dataKey Sim.hex Sim.key0 := "not json"]}) "not json"
    (Some (mkCM 7 {[dataKey Sim.hex Sim.key0 := "not json"]})) _ eq_refl _ _ _)); vm_compute; reflexivity.
Defined.

(** A server that loses every race. *)
Definition StuckAPI : ConfigMapAPI unit :=
  {| api_Get := fun w => (Ok (mkCM 1 ∅), w);
     api_Create := fun _ w => (Some AlreadyExists, w);
     api_Update := fun _ w => (Some Conflict, w) |}.

Lemma configmap_rmw_bounded_witness :
  @rmw_loop Sim.hex Sim.marshal Sim.unmarshal unit StuckAPI 6 Sim.key0 Sim.wm1 tt =
    (Some (CpOther "checkpoint/configmap: exhausted RMW"), tt).
Proof.
  apply (@configmap_rmw_bounded Sim.hex Sim.marshal Sim.unmarshal unit StuckAPI Sim.key0 Sim.wm1
    (mkCM 1 ∅) (str_encode (wm_rec Sim.wm1)) tt 6).
  - split; [reflexivity|intros d; reflexivity].
  - reflexivity.
  - vm_compute. reflexivity.
  - vm_compute. reflexivity.
  - apply Nat.leb_le. vm_compute. reflexivity.
Defined.

Lemma dataKey_valid_witness :
  string_forallb key_byte (dataKey Sim.hex Sim.key0) = true /\
  dataKey Sim.hex Sim.key0 = "portkey_eu_analytics_0011223344556677.0123456789ab".
Proof.
  split; [|vm_compute; reflexivity].
  exact (proj1 (dataKey_valid Sim.hex Sim.key0 (fun s => eq_refl))).
Defined.
