(* ===== verification/DynamoStore.v ===== *)
(** * The DynamoDB checkpoint store (internal/checkpoint/dynamodb/dynamodb.go)

    One item per checkpoint key, replaced by a conditional PutItem whose
    condition pins the item's [version] attribute.  The table and the RFC3339
    time format are parameters; [DynamoTable] states the documented behaviour
    of strongly consistent reads and conditional writes under interference. *)

From S2P Require Import Prelude Model Checkpoint.

(** ** Items *)

Inductive AttributeValue := AS (s : string) | AN (s : string) | AOther.
#[export] Instance AttributeValue_eq_dec : EqDecision AttributeValue.
Proof. solve_decision. Defined.
Abbreviation Item := (gmap string AttributeValue).

Definition nstr (n : Z) : AttributeValue := AN (FormatInt n).
Definition sstr (v : string) : AttributeValue := AS v.

Definition numAttr (m : Item) (k : string) : option Z :=
  match m !! k with Some (AN v) => ParseInt v | _ => None end.

Definition strAttr (m : Item) (k : string) : option string :=
  match m !! k with Some (AS v) => Some v | _ => None end.

(** The three condition expressions [Save] sends. *)
Inductive Condition :=
| AttributeNotExistsPk
| VersionEquals (v : string)
| AttributeNotExistsVersion.

Definition condition_holds (c : Condition) (o : option Item) : bool :=
  match c with
  | AttributeNotExistsPk => bool_decide ((o ≫= fun it => it !! "pk") = None)
  | VersionEquals v =>
      match o ≫= fun it => it !! "version" with
      | Some (AN v') => bool_decide (ParseInt v' = ParseInt v /\ is_Some (ParseInt v))
      | _ => false
      end
  | AttributeNotExistsVersion => bool_decide ((o ≫= fun it => it !! "version") = None)
  end.

Inductive PutErr := ConditionalCheckFailed | PutOther (msg : string).

Class DynamoAPI (W : Type) := {
  db_GetItem : string -> W -> result string (option Item) * W;
  db_PutItem : string -> Item -> Condition -> W -> option PutErr * W
}.

Section dynamo.
Context (prefix : string).
(** [time.RFC3339Nano]. *)
Context (rfc3339_Format : Time -> string) (rfc3339_Parse : string -> option Time).

Definition pk (key : CheckpointKey) : string := prefix +:+ key_String key.

Definition encode (pk : string) (w : Watermark) (version : Z) : Item :=
  <["pk" := sstr pk]> (<["time" := sstr (rfc3339_Format (wm_Time w))]>
  (<["cursor" := sstr (wm_Cursor w)]> (<["epoch" := nstr (wm_Epoch w)]>
  (<["version" := nstr version]> ∅)))).

(** [None] is a decode error. *)
Definition decode (item : Item) : option (Watermark * Z) :=
  ts ← strAttr item "time";
  tm ← rfc3339_Parse ts;
  ep ← numAttr item "epoch";
  ver ← match item !! "version" with
        | None => Some 0%Z
        | Some (AN v) => ParseInt v
        | Some _ => None
        end;
  Some (mkWm tm (default "" (strAttr item "cursor")) ep, ver).

(** ** Operations *)

Context {W : Type} `{DynamoAPI W}.

Definition ddb_Load (key : CheckpointKey) (w : W) : result CpErr Watermark * W :=
  let '(g, w) := db_GetItem (pk key) w in
  match g with
  | Err _ => (Err (CpOther "checkpoint/dynamodb: get"), w)
  | Ok None => (Ok zeroWm, w)
  | Ok (Some item) =>
      match decode item with
      | None => (Err (CpOther "checkpoint/dynamodb: decode"), w)
      | Some (wm, _) => (Ok wm, w)
      end
  end.

(** What [Save] reads of the item: the stored watermark (zero when absent) and
    its version; [None] is a decode error. *)
Definition stored_state (o : option Item) : option (Watermark * Z) :=
  match o with None => Some (zeroWm, 0%Z) | Some item => decode item end.

Definition put_condition (o : option Item) (version : Z) : Condition :=
  match o with
  | None => AttributeNotExistsPk
  | Some item => match item !! "version" with
                 | Some _ => VersionEquals (FormatInt version)
                 | None => AttributeNotExistsVersion
                 end
  end.

(** The retry loop: [attempts] is the number of iterations left. *)
Fixpoint ddb_rmw (attempts : nat) (key : CheckpointKey) (wm : Watermark) (w : W) : option CpErr * W :=
  match attempts with
  | 0 => (Some (CpOther "checkpoint/dynamodb: exhausted RMW"), w)
  | S n =>
      let '(g, w) := db_GetItem (pk key) w in
      match g with
      | Err _ => (Some (CpOther "checkpoint/dynamodb: get"), w)
      | Ok o =>
          match stored_state o with
          | None => (Some (CpOther "checkpoint/dynamodb: decode"), w)
          | Some (stored, version) =>
              match CheckMonotonic stored wm with
              | Some e => (Some e, w)
              | None =>
                  let '(err, w) := db_PutItem (pk key) (encode (pk key) wm (wrap64 (version + 1)))
                                     (put_condition o version) w in
                  match err with
                  | None => (None, w)
                  | Some ConditionalCheckFailed => ddb_rmw n key wm w
                  | Some (PutOther _) => (Some (CpOther "checkpoint/dynamodb: put"), w)
                  end
              end
          end
      end
  end.

Definition ddb_retries : nat := 5.

Definition ddb_Save (key : CheckpointKey) (wm : Watermark) (w : W) : option CpErr * W :=
  match CheckEncodable wm with
  | Some e => (Some e, w)
  | None => ddb_rmw (S ddb_retries) key wm w
  end.

(** ** The table's contract *)

Definition view (t : string -> option Item) (k : CheckpointKey) : Watermark :=
  default zeroWm (fst <$> (t (pk k) ≫= decode)).

(** The version of an item; an item without one precedes every version. *)
Definition version (it : Item) : option Z := numAttr it "version".

Definition version_le (a b : option Z) : Prop :=
  match a, b with Some x, Some y => (x <= y)%Z | None, _ => True | Some _, None => False end.

(** How the table changes under this program's replicas: items are never
    deleted and keep their key attribute, a changed item has a new version, and
    no watermark goes back. *)
Definition evolves (a b : string -> option Item) : Prop :=
  (forall k, wm_le (view a k) (view b k)) /\
  (forall p it, a p = Some it -> exists it', b p = Some it' /\
     version_le (version it) (version it') /\ (version it = version it' -> it = it')).

#[export] Instance evolves_preorder : PreOrder evolves.
Proof.
  split.
  - intros a. split; [done|]. intros p it Ha. exists it. split_and!; [done| |done].
    unfold version_le. destruct (version it); lia.
  - intros a b c [Hab Hi] [Hbc Hi']. split; [intros k; etrans; [apply Hab|apply Hbc]|].
    intros p it Ha. destruct (Hi p it Ha) as (it1 & Hb & Hle & Heq).
    destruct (Hi' p it1 Hb) as (it2 & Hc & Hle' & Heq'). exists it2. unfold version_le in *.
    split_and!; [done| |].
    + destruct (version it), (version it1), (version it2); try done; lia.
    + intros E. rewrite E in *. destruct (version it1) eqn:E1, (version it2) eqn:E2; try done.
      * assert (z = z0) as -> by lia. rewrite Heq by done. by apply Heq'.
      * rewrite Heq by done. by apply Heq'.
Qed.

Definition table_put (t : string -> option Item) (p : string) (it : Item) : string -> option Item :=
  fun q => if decide (q = p) then Some it else t q.

Class DynamoTable := {
  tbl : W -> string -> option Item;
  (** every stored item carries its partition key, and version numbers have not
      reached the end of [int64] *)
  tbl_pk w p it : tbl w p = Some it -> is_Some (it !! "pk");
  tbl_room w p it v : tbl w p = Some it -> version it = Some v -> (v < maxInt64)%Z;
  tbl_Get_ok p w o w' : db_GetItem p w = (Ok o, w') ->
    exists w1, evolves (tbl w) (tbl w1) /\ tbl w1 p = o /\ evolves (tbl w1) (tbl w');
  tbl_Get_err p w e w' : db_GetItem p w = (Err e, w') -> evolves (tbl w) (tbl w');
  (** a successful put replaced an item of which its condition held; a failed
      one had no effect or, when its response was lost, that same effect *)
  tbl_Put p it c w e w' : db_PutItem p it c w = (e, w') ->
    (e <> None /\ evolves (tbl w) (tbl w')) \/
    exists w1, evolves (tbl w) (tbl w1) /\ condition_holds c (tbl w1 p) = true /\
               evolves (table_put (tbl w1) p it) (tbl w')
}.

(** RFC3339Nano reads back every time [CheckEncodable] admits. *)
Definition time_roundtrip : Prop :=
  forall t, (0 <= t < year10000)%Z -> rfc3339_Parse (rfc3339_Format t) = Some t.

(** ** Encode/decode *)

Lemma encode_version p wm v : in_int64 v -> version (encode p wm v) = Some v.
Proof.
  intros Hv. unfold version, numAttr, encode. simplify_map_eq. by apply ParseInt_FormatInt.
Qed.

Lemma decode_encode_item p wm v :
  time_roundtrip -> CheckEncodable wm = None -> in_int64 (wm_Epoch wm) -> in_int64 v ->
  decode (encode p wm v) = Some (wm, v).
Proof.
  intros Ht Hw He Hv. apply CheckEncodable_None in Hw.
  unfold decode, encode, strAttr, numAttr. simplify_map_eq.
  rewrite ?Ht by done. simpl. rewrite !ParseInt_FormatInt by done. simpl. by destruct wm.
Qed.

(** An item written by [encode] decodes to the watermark and version it was
    built from, and the same item without its [version] attribute (hand-seeded
    or migrated) still decodes to the watermark, at version 0. *)
Theorem ddb_encode_decode p wm v :
  time_roundtrip -> CheckEncodable wm = None -> in_int64 (wm_Epoch wm) -> in_int64 v ->
  decode (encode p wm v) = Some (wm, v) /\
  decode (delete "version" (encode p wm v)) = Some (wm, 0%Z).
Proof.
  intros Ht Hw He Hv. split; [by apply decode_encode_item|].
  apply CheckEncodable_None in Hw. unfold decode, encode, strAttr, numAttr.
  simplify_map_eq. rewrite ?Ht by done. simpl. rewrite ParseInt_FormatInt by done. simpl. by destruct wm.
Qed.

(** ** The fence holds through the table *)

Context `{Tab : DynamoTable} (time_ok : time_roundtrip).

#[local] Ltac ev_trans := first [done | reflexivity | by etrans | etrans; [eassumption|]; by etrans].

Lemma ddb_evolves_view a b k : evolves a b -> wm_le (view a k) (view b k).
Proof. intros [Hv _]. apply Hv. Qed.

Lemma decode_version it st v :
  decode it = Some (st, v) ->
  match it !! "version" with Some (AN s) => ParseInt s = Some v | Some _ => False | None => v = 0%Z end.
Proof.
  unfold decode. destruct (strAttr it "time"); simpl; [|done]. destruct (rfc3339_Parse s); simpl; [|done].
  destruct (numAttr it "epoch"); simpl; [|done].
  destruct (it !! "version") as [[]|]; simpl; intros Hd; try done; [|by simplify_eq].
  by destruct (ParseInt s0); simplify_eq/=.
Qed.

(** The item a successful conditional put replaced is the item that was read. *)
Lemma condition_pins t1 t p st v :
  evolves t1 t -> (forall it, t p = Some it -> is_Some (it !! "pk")) ->
  stored_state (t1 p) = Some (st, v) -> in_int64 v ->
  condition_holds (put_condition (t1 p) v) (t p) = true -> t p = t1 p.
Proof.
  intros [_ Hev] Hpk Hst Hv Hc. destruct (t1 p) as [it1|] eqn:E1.
  - destruct (Hev p it1 E1) as (it & E & Hle & Heq). rewrite E in Hc |- *. f_equal. symmetry. apply Heq.
    apply decode_version in Hst. unfold put_condition, condition_holds in Hc. unfold version, numAttr.
    destruct (it1 !! "version") as [[s|s|]|]; try done; simpl in Hc.
    + destruct (it !! "version") as [[s'|s'|]|]; try done.
      apply bool_decide_eq_true in Hc as [Hc _]. by rewrite Hc, ParseInt_FormatInt.
    + apply bool_decide_eq_true in Hc. by rewrite Hc.
  - unfold put_condition, condition_holds in Hc. apply bool_decide_eq_true in Hc.
    destruct (t p) as [it|] eqn:E; [|done]. simpl in Hc. destruct (Hpk it eq_refl). congruence.
Qed.

(** Writing the next version of an accepted watermark is an evolution. *)
Lemma ddb_put_evolves t key wm st v :
  CheckEncodable wm = None -> in_int64 (wm_Epoch wm) -> in_int64 v -> (v < maxInt64)%Z ->
  stored_state (t (pk key)) = Some (st, v) -> CheckMonotonic st wm = None ->
  let t' := table_put t (pk key) (encode (pk key) wm (wrap64 (v + 1))) in
  evolves t t' /\ wm_le (view t key) wm /\ wm_le wm (view t' key).
Proof.
  intros He Hep Hv Hroom Hst Hm t'.
  assert (in_int64 (v + 1)) as Hv1 by (unfold in_int64 in *; lia).
  assert (wrap64 (v + 1) = v + 1)%Z as Hw by (by apply wrap64_id).
  assert (wm_le (view t key) wm) as Hle.
  { unfold view. destruct (t (pk key)) as [it|]; simpl in *; [rewrite Hst|simplify_eq]; by apply CheckMonotonic_le. }
  assert (forall k, pk k = pk key -> view t' k = wm) as Hnew.
  { intros k Hk. unfold view, t', table_put. rewrite Hk, decide_True by done. simpl.
    by rewrite Hw, decode_encode_item. }
  split_and!; [|done|by rewrite Hnew]. split.
  - intros k. destruct (decide (pk k = pk key)) as [Heq|Hne].
    + rewrite (Hnew k Heq). etrans; [|exact Hle]. unfold view. by rewrite Heq.
    + unfold view, t', table_put. by rewrite decide_False.
  - intros p it Hp. unfold t', table_put. destruct (decide (p = pk key)) as [->|Hne].
    + eexists. split; [done|]. rewrite Hw, encode_version by done. rewrite Hp in Hst.
      apply decode_version in Hst. unfold version, numAttr, version_le.
      destruct (it !! "version") as [[]|]; try done. rewrite Hst. split; [lia|]. intros [=]. lia.
    + exists it. split_and!; [done| |done]. unfold version_le. by destruct (version it).
Qed.

Lemma stored_version t p st v w :
  t = tbl w -> stored_state (t p) = Some (st, v) -> in_int64 v /\ (v < maxInt64)%Z.
Proof.
  intros -> Hst. destruct (tbl w p) as [it|] eqn:E; simpl in Hst; [|simplify_eq; unfold in_int64, minInt64, maxInt64; lia].
  apply decode_version in Hst. destruct (it !! "version") as [[]|] eqn:Ev; try done.
  - split; [by eapply ParseInt_range|]. eapply tbl_room; [done|]. unfold version, numAttr. by rewrite Ev.
  - subst v. unfold in_int64, minInt64, maxInt64. lia.
Qed.

(** The promise of a call made in state [w] by an operation that began in [w0]. *)
Definition put_ok (w0 w w1 : W) (key : CheckpointKey) (wm : Watermark) (ok : Prop) : Prop :=
  evolves (tbl w) (tbl w1) /\ (ok -> wm_le (view (tbl w0) key) wm /\ wm_le wm (view (tbl w1) key)).

#[local] Ltac untouched := simplify_eq; split; [ev_trans | by intros; simplify_eq].

(** One conditional put against the item read in state [wr]. *)
Lemma put_spec key wm st v w0 wr w e w' :
  CheckEncodable wm = None -> in_int64 (wm_Epoch wm) ->
  stored_state (tbl wr (pk key)) = Some (st, v) -> CheckMonotonic st wm = None ->
  evolves (tbl w0) (tbl wr) -> evolves (tbl wr) (tbl w) ->
  db_PutItem (pk key) (encode (pk key) wm (wrap64 (v + 1))) (put_condition (tbl wr (pk key)) v) w = (e, w') ->
  put_ok w0 w w' key wm (e = None).
Proof.
  intros He Hep Hst Hm H0 Hr Hput. destruct (stored_version _ _ _ _ wr eq_refl Hst) as [Hv Hroom].
  destruct (tbl_Put _ _ _ _ _ _ Hput) as [[? ?]|(w1 & Hev & Hc & Hev')]; [by split|].
  assert (tbl w1 (pk key) = tbl wr (pk key)) as Hpin.
  { eapply condition_pins; [|intros; by eapply tbl_pk|done..]. by etrans. }
  destruct (ddb_put_evolves (tbl w1) key wm st v) as (Hstep & Hle & Hge); [done..| |done|]; [by rewrite Hpin|].
  split; [ev_trans|]. intros _. split.
  - etrans; [|exact Hle]. apply ddb_evolves_view. ev_trans.
  - etrans; [exact Hge|]. by apply ddb_evolves_view.
Qed.

Lemma ddb_rmw_spec n key wm w0 w r w' :
  CheckEncodable wm = None -> in_int64 (wm_Epoch wm) -> evolves (tbl w0) (tbl w) ->
  ddb_rmw n key wm w = (r, w') -> put_ok w0 w w' key wm (r = None).
Proof.
  intros He Hep. revert w. induction n as [|n IH]; intros w H0 Hrun; simpl in Hrun; [by untouched|].
  destruct (db_GetItem (pk key) w) as [[o|e] w1] eqn:Hg; [|apply tbl_Get_err in Hg; by untouched].
  apply tbl_Get_ok in Hg as (wr & Hr & <- & Hr').
  destruct (stored_state _) as [[st v]|] eqn:Hst; [|by untouched].
  destruct (CheckMonotonic st wm) eqn:Hm; [by untouched|].
  destruct (db_PutItem _ _ _ w1) as [e w2] eqn:Hput.
  eapply (put_spec key wm st v w0 wr) in Hput as [Hev Hok]; [|done..|by etrans|done].
  destruct e as [[]|]; simplify_eq.
  - apply IH in Hrun as [Hev' Hok']; [|by repeat (etrans; [eassumption|])].
    split; [|done]. etrans; [exact Hr|]. ev_trans.
  - by untouched.
  - split; [ev_trans|]. by intros _; apply Hok.
Qed.

Lemma ddb_Load_spec k w r w' :
  ddb_Load k w = (r, w') -> evolves (tbl w) (tbl w') /\
    (forall wm, r = Ok wm -> wm_le (view (tbl w) k) wm /\ wm_le wm (view (tbl w') k)).
Proof.
  unfold ddb_Load. destruct (db_GetItem (pk k) w) as [[o|e] w1] eqn:Hg; intros Hrun.
  - apply tbl_Get_ok in Hg as (wr & Hr & Ho & Hr').
    assert (w1 = w') as -> by (repeat case_match; by simplify_eq). split; [by etrans|].
    intros wm ->. assert (wm = view (tbl wr) k) as ->; [|split; by apply ddb_evolves_view].
    unfold view. rewrite Ho. repeat (case_match; simplify_eq/=; try done).
  - apply tbl_Get_err in Hg. by untouched.
Qed.

Lemma ddb_Save_spec key wm w r w' :
  in_int64 (wm_Epoch wm) -> ddb_Save key wm w = (r, w') -> put_ok w w w' key wm (r = None).
Proof.
  intros Hep. unfold ddb_Save. destruct (CheckEncodable wm) eqn:He; intros Hrun; [by untouched|].
  by eapply (ddb_rmw_spec _ _ _ w) in Hrun.
Qed.

#[export] Instance DynamoCheckpointer : Checkpointer W :=
  {| cp_Load := ddb_Load; cp_Save := ddb_Save |}.

#[export] Program Instance DynamoCheckpointerSpec : CheckpointerSpec W :=
  {| durable := fun w k => view (tbl w) k |}.
Next Obligation. intros k w r w' [Hev _]%ddb_Load_spec k'. by apply ddb_evolves_view. Qed.
Next Obligation. intros k w wm w' [_ Hok]%ddb_Load_spec. by apply Hok. Qed.
Next Obligation. intros k wm w r w' Hep [Hev _]%ddb_Save_spec k'; [|done]. by apply ddb_evolves_view. Qed.
Next Obligation. intros k wm w w' Hep [_ Hok]%ddb_Save_spec; [|done]. by apply Hok. Qed.

(** C22: a successful [Save] through the table is a fenced write under
    concurrent writers: the saved watermark is at or above what was durable
    when the call began and at or below what is durable when it returns, and
    whatever the outcome no key's durable watermark goes back. *)
Theorem dynamodb_Save_fenced key wm w r w' :
  in_int64 (wm_Epoch wm) -> ddb_Save key wm w = (r, w') ->
  (forall k, wm_le (view (tbl w) k) (view (tbl w') k)) /\
  (r = None -> wm_le (view (tbl w) key) wm /\ wm_le wm (view (tbl w') key)).
Proof.
  intros Hep Hrun. destruct (ddb_Save_spec _ _ _ _ _ Hep Hrun) as [Hev Hok].
  split; [intros k; by apply ddb_evolves_view|done].
Qed.

End dynamo.

(** ** A concrete table *)

Module Sim.
Abbreviation W := (gmap string Item).

(** Items without their key attribute or past the version range do not occur:
    the service refuses to store them. *)
Definition sim_ok (it : Item) : bool :=
  bool_decide (is_Some (it !! "pk")) &&
  match version it with Some v => (v <? maxInt64)%Z | None => true end.

Definition sim_tbl (w : W) (p : string) : option Item :=
  w !! p ≫= fun it => if sim_ok it then Some it else None.

Definition sim_Get (p : string) (w : W) : result string (option Item) * W := (Ok (sim_tbl w p), w).

Definition sim_Put (p : string) (it : Item) (c : Condition) (w : W) : option PutErr * W :=
  if condition_holds c (sim_tbl w p) then
    if sim_ok it then (None, <[p := it]> w) else (Some (PutOther "validation"), w)
  else (Some ConditionalCheckFailed, w).

#[global] Instance API : DynamoAPI W := {| db_GetItem := sim_Get; db_PutItem := sim_Put |}.

Lemma sim_tbl_put w p it : sim_ok it = true ->
  forall q, sim_tbl (<[p := it]> w) q = table_put (sim_tbl w) p it q.
Proof.
  intros Hok q. unfold sim_tbl, table_put. rewrite lookup_insert.
  destruct (decide (p = q)) as [->|]; [rewrite decide_True by done; simpl; by rewrite Hok|by rewrite decide_False].
Qed.

Lemma evolves_ext prefix prs a b : (forall q, a q = b q) -> evolves prefix prs a b.
Proof.
  intros Hab. split.
  - intros k. unfold view. by rewrite Hab.
  - intros p it Hp. exists it. rewrite <-Hab. split_and!; [done| |done].
    unfold version_le. by destruct (version it).
Qed.

#[global] Program Instance Table prefix prs : DynamoTable prefix prs := {| tbl := sim_tbl |}.
Next Obligation.
  intros prefix prs w p it. unfold sim_tbl. intros (it' & _ & Hit)%bind_Some.
  destruct (sim_ok it') eqn:E; simplify_eq. unfold sim_ok in E. apply andb_prop in E as [E _].
  by apply bool_decide_eq_true in E.
Qed.
Next Obligation.
  intros prefix prs w p it v. unfold sim_tbl. intros (it' & _ & Hit)%bind_Some Hv.
  destruct (sim_ok it') eqn:E; simplify_eq. unfold sim_ok in E. rewrite Hv in E.
  apply andb_prop in E as [_ E]. by apply Z.ltb_lt.
Qed.
Next Obligation.
  intros prefix prs p w o w' Hg. unfold db_GetItem in Hg; simpl in Hg. unfold sim_Get in Hg. simplify_eq. exists w'. split_and!; [reflexivity|done|reflexivity].
Qed.
Next Obligation. done. Qed.
Next Obligation.
  intros prefix prs p it c w e w' Hp. simpl in Hp. unfold sim_Put in Hp.
  destruct (condition_holds c (sim_tbl w p)) eqn:Hc; [|left; simplify_eq; by split].
  destruct (sim_ok it) eqn:Hok; [|left; simplify_eq; by split]. right. simplify_eq.
  exists w. split_and!; [reflexivity|done|]. apply evolves_ext. intros q. by rewrite sim_tbl_put.
Qed.

Definition fmt (t : Time) : string := str_encode t.
Definition prs (s : string) : option Time := str_decode s.

Lemma times : time_roundtrip fmt prs.
Proof. intros t _. apply str_decode_encode. Qed.

Definition key0 : CheckpointKey := mkKey "ls-eu" "runs" "00112233".
Definition wm1 : Watermark := mkWm (2020 * 365 * Day) "cur" 3.
(** An item that predates the [version] attribute. *)
Definition seeded : W :=
  {["ckpt#ls-eu/runs/00112233" := delete "version" (encode fmt "ckpt#ls-eu/runs/00112233" (mkWm 5 "" 2) 0)]}.
End Sim.

Lemma ddb_encode_decode_witness :
  decode Sim.prs (encode Sim.fmt "p" Sim.wm1 9) = Some (Sim.wm1, 9%Z).
Proof.
  refine (proj1 (ddb_encode_decode Sim.fmt Sim.prs "p" Sim.wm1 9 Sim.times _ _ _));
    [vm_compute; reflexivity | vm_compute; intuition discriminate | vm_compute; intuition discriminate].
Defined.

Definition sim_save := ddb_Save "ckpt#" Sim.fmt Sim.prs Sim.key0 Sim.wm1 Sim.seeded.

Lemma dynamodb_Save_fenced_witness :
  fst sim_save = None /\ wm_le Sim.wm1 (view "ckpt#" Sim.prs (tbl "ckpt#" Sim.prs (snd sim_save)) Sim.key0).
Proof.
  assert (fst sim_save = None) as Hok by (vm_compute; reflexivity). split; [exact Hok|].
  assert (in_int64 (wm_Epoch Sim.wm1)) as Hi by (unfold in_int64, minInt64, maxInt64; simpl; lia).
  pose proof (surjective_pairing sim_save) as Hrun. unfold sim_save at 1 in Hrun.
  pose proof (dynamodb_Save_fenced "ckpt#" Sim.fmt Sim.prs Sim.times Sim.key0 Sim.wm1
    Sim.seeded (fst sim_save) (snd sim_save) Hi Hrun) as [_ Hok'].
  exact (proj2 (Hok' Hok)).
Defined.
