(* ===== verification/Emit.v ===== *)
(** * The emitter seam and the data-points-per-minute cap
      (internal/emit/emit.go, internal/emit/coalesce.go)

    The error taxonomy the scheduler branches on, and [CoalesceDPM], which
    keeps at most [maxDPM] points of a series in a minute, the newest first. *)

From S2P Require Import Prelude Model.

(** ** Errors *)

Inductive RejectReason :=
| ReasonNone
| ReasonDuplicateTimestamp
| ReasonTooOld
| ReasonPayloadTooLarge
| ReasonBadEncoding
| ReasonUnknown.

#[export] Instance RejectReason_eq_dec : EqDecision RejectReason.
Proof. solve_decision. Defined.

Record RejectError := mkReject { re_Reason : RejectReason; re_Status : Z; re_Msg : string }.
Record RetryableError := mkRetryable { rt_Status : Z; rt_Err : string }.

(** What [Emit] returns when it is not nil. *)
Inductive EmitErr :=
| ERejected (e : RejectError)
| ERetryable (e : RetryableError)
| EOther (msg : string).

Definition AdvancesPast (e : RejectError) : bool :=
  match re_Reason e with
  | ReasonDuplicateTimestamp | ReasonTooOld | ReasonPayloadTooLarge => true
  | _ => false
  end.

(** ** Series identity *)

(** [seriesKey]: name, unit and sorted labels, each length-prefixed. *)
Definition seriesKey (s : Sample) : string :=
  lp (s_Name s) +:+ lp (s_Unit s) +:+ lp_pairs (sorted_kvs (s_Labels s)).

(** [seriesKey] never merges two series: equal keys mean equal name, unit
    and label set. *)
Theorem seriesKey_injective s1 s2 :
  seriesKey s1 = seriesKey s2 <->
  s_Name s1 = s_Name s2 /\ s_Unit s1 = s_Unit s2 /\ s_Labels s1 = s_Labels s2.
Proof.
  unfold seriesKey. split; [|by intros (-> & -> & ->)].
  intros Heq. apply lp_inj in Heq as [-> Heq]. apply lp_inj in Heq as [-> Heq].
  split_and!; [done..|]. by apply sorted_kvs_inj, lp_pairs_inj.
Qed.

(** ** CoalesceDPM *)

(** The grouping key: series and 60s-aligned timestamp. *)
Definition dpm_key (s : Sample) : string * Z :=
  (seriesKey s, UnixNano (Truncate (s_Timestamp s) Minute)).

(** [groups[k] = append(groups[k], i)] over the samples in order. *)
Fixpoint group_indices {K} `{Countable K} (ks : list K) (i : nat) (m : gmap K (list nat)) : gmap K (list nat) :=
  match ks with
  | [] => m
  | k :: ks => group_indices ks (S i) (<[k := default [] (m !! k) ++ [i]]> m)
  end.

(** The comparator: newest first, then larger value. *)
Definition newer (a b : Sample) : bool :=
  if negb (Equal (s_Timestamp a) (s_Timestamp b)) then After (s_Timestamp a) (s_Timestamp b)
  else SFltb (s_Value b) (s_Value a).

Definition newer_idx (samples : list Sample) (i j : nat) : bool :=
  newer (samples !!! i) (samples !!! j).

(** The indices of a group that survive. *)
Definition survivors (samples : list Sample) (maxDPM : nat) (idxs : list nat) : list nat :=
  if decide (length idxs <= maxDPM) then idxs
  else take maxDPM (stable_sort (newer_idx samples) idxs).

Definition cap_of (maxDPM : Z) : nat := if (maxDPM <? 1)%Z then 1 else Z.to_nat maxDPM.

Lemma cap_of_Z maxDPM : Z.of_nat (cap_of maxDPM) = Z.max 1 maxDPM.
Proof. unfold cap_of. zbool; lia. Qed.

(** The samples whose index is kept, in input order. *)
Fixpoint select_from (keep : gset nat) (i : nat) (samples : list Sample) : list Sample :=
  match samples with
  | [] => []
  | s :: rest => if decide (i ∈ keep) then s :: select_from keep (S i) rest
                 else select_from keep (S i) rest
  end.

Definition CoalesceDPM (samples : list Sample) (maxDPM : Z) : list Sample * nat :=
  let n := cap_of maxDPM in
  match samples with
  | [] => ([], 0)
  | _ =>
      let groups := (map_to_list (group_indices (dpm_key <$> samples) 0 ∅)).*2 in
      let keep := list_to_set (mbind (survivors samples n) groups) : gset nat in
      let capped := sum_list_with (fun g => length g - n) groups in
      if decide (capped = 0) then (samples, 0) else (select_from keep 0 samples, capped)
  end.

(** ** Grouping lemmas *)

Section grouping.
Context {K : Type} `{Countable K}.
Implicit Types (ks : list K) (m : gmap K (list nat)).

(** The positions, counted from [i], at which [k] occurs. *)
Fixpoint positions (k : K) (ks : list K) (i : nat) : list nat :=
  match ks with
  | [] => []
  | k' :: ks => if decide (k' = k) then i :: positions k ks (S i) else positions k ks (S i)
  end.

Lemma group_indices_lookup ks i m k :
  default [] (group_indices ks i m !! k) = default [] (m !! k) ++ positions k ks i.
Proof.
  revert i m. induction ks as [|k' ks IH]; intros i m; simpl; [by rewrite app_nil_r|].
  rewrite IH. destruct (decide (k' = k)) as [->|Hne].
  - rewrite lookup_insert_eq. simpl. by rewrite <-app_assoc.
  - by rewrite lookup_insert_ne.
Qed.

Lemma group_indices_perm ks i m :
  concat (map_to_list (group_indices ks i m)).*2 ≡ₚ concat (map_to_list m).*2 ++ seq i (length ks).
Proof.
  revert i m. induction ks as [|k ks IH]; intros i m; simpl; [by rewrite app_nil_r|].
  rewrite IH. replace (i :: seq (S i) (length ks)) with ([i] ++ seq (S i) (length ks)) by done.
  rewrite app_assoc. f_equiv.
  rewrite <-insert_delete_eq, map_to_list_insert by apply lookup_delete_eq. simpl.
  destruct (m !! k) as [l|] eqn:E; simpl.
  - rewrite <-(map_to_list_delete m k l E). simpl. rewrite <-!app_assoc. f_equiv. apply Permutation_app_comm.
  - rewrite delete_id by done. apply (Permutation_app_comm [i]).
Qed.

Lemma positions_spec k ks i j : j ∈ positions k ks i <-> i <= j /\ ks !! (j - i) = Some k.
Proof.
  revert i. induction ks as [|k' ks IH]; intros i; simpl.
  { rewrite lookup_nil. split; [by intros []%elem_of_nil|by intros [_ ?]]. }
  assert (j ∈ positions k ks (S i) <-> i < j /\ (k' :: ks) !! (j - i) = Some k) as Hrest.
  { rewrite IH. split; intros [Hle Hl]; (split; [lia|]).
    - replace (j - i) with (S (j - S i)) by lia. done.
    - replace (j - i) with (S (j - S i)) in Hl by lia. done. }
  case_decide as Hk; rewrite ?elem_of_cons, Hrest; split.
  - intros [->|[? ?]]; [|split; [lia|done]]. split; [done|]. replace (i - i) with 0 by lia. simpl. by subst.
  - intros [Hle Hl]. destruct (decide (j = i)) as [->|]; [by left|]. right. split; [lia|done].
  - intros [? ?]. split; [lia|done].
  - intros [Hle Hl]. destruct (decide (j = i)) as [->|]; [|split; [lia|done]].
    replace (i - i) with 0 in Hl by lia. simpl in Hl. congruence.
Qed.

(** Every group is the list of positions of one key. *)
Lemma group_is_positions ks g :
  g ∈ (map_to_list (group_indices ks 0 ∅)).*2 ->
  exists k, g = positions k ks 0.
Proof.
  intros ((k & g') & -> & Hin)%list_elem_of_fmap. apply elem_of_map_to_list in Hin.
  exists k. pose proof (group_indices_lookup ks 0 ∅ k) as Hl.
  rewrite Hin, lookup_empty in Hl. done.
Qed.

End grouping.

(** ** What survives *)

Lemma survivors_subset samples n g i : i ∈ survivors samples n g -> i ∈ g.
Proof.
  unfold survivors. case_decide; [done|]. intros [j [Hj _]%lookup_take_Some]%list_elem_of_lookup.
  apply list_elem_of_lookup_2 in Hj. by rewrite stable_sort_perm in Hj.
Qed.

Lemma survivors_length samples n g : length (survivors samples n g) = Nat.min n (length g).
Proof.
  unfold survivors. case_decide; [lia|]. by rewrite length_take, stable_sort_perm.
Qed.

Lemma survivors_NoDup samples n g : NoDup g -> NoDup (survivors samples n g).
Proof.
  unfold survivors. case_decide; [done|]. intros Hg.
  apply (sublist_NoDup _ (stable_sort (newer_idx samples) g)); [by rewrite stable_sort_perm|].
  apply sublist_take.
Qed.

Lemma select_from_sublist keep i samples : select_from keep i samples `sublist_of` samples.
Proof.
  revert i. induction samples as [|s ss IH]; intros i; simpl; [done|].
  case_decide; by constructor.
Qed.

Lemma select_from_length keep i samples :
  length (select_from keep i samples) = length (filter (fun j => j ∈ keep) (seq i (length samples))).
Proof.
  revert i. induction samples as [|s ss IH]; intros i; simpl; [done|].
  rewrite filter_cons. case_decide; simpl; by rewrite IH.
Qed.

Lemma select_from_count keep i samples k :
  length (filter (fun s => dpm_key s = k) (select_from keep i samples)) =
  length (filter (fun j => j ∈ keep) (positions k (dpm_key <$> samples) i)).
Proof.
  revert i. induction samples as [|s ss IH]; intros i; simpl; [done|].
  destruct (decide (i ∈ keep)) as [Hi|Hi], (decide (dpm_key s = k)) as [Hk|Hk]; rewrite ?filter_cons.
  all: rewrite ?(decide_True _ _ Hi), ?(decide_False _ _ Hi), ?(decide_True _ _ Hk), ?(decide_False _ _ Hk).
  all: simpl; by rewrite IH.
Qed.

Section coalesce.
Context (samples : list Sample) (n : nat).

Definition dpm_groups : list (list nat) := (map_to_list (group_indices (dpm_key <$> samples) 0 ∅)).*2.
Definition dpm_keep : list nat := mbind (survivors samples n) dpm_groups.
Definition dpm_capped : nat := sum_list_with (fun g => length g - n) dpm_groups.

Lemma dpm_groups_perm : concat dpm_groups ≡ₚ seq 0 (length samples).
Proof.
  unfold dpm_groups. rewrite group_indices_perm, map_to_list_empty. simpl. by rewrite length_fmap.
Qed.

Lemma bind_survivors (gs : list (list nat)) :
  NoDup (concat gs) ->
  NoDup (gs ≫= survivors samples n) /\ (gs ≫= survivors samples n) ⊆ concat gs /\
  length (gs ≫= survivors samples n) + sum_list_with (fun g => length g - n) gs = length (concat gs).
Proof.
  induction gs as [|g gs IH]; simpl.
  { intros _. split_and!; [constructor|by intros ?|done]. }
  intros (Hg & Hdisj & Hgs)%NoDup_app. destruct (IH Hgs) as (Hnd & Hsub & Hlen).
  split_and!.
  - apply NoDup_app. split_and!; [by apply survivors_NoDup| |done].
    intros i Hi Hi'. eapply Hdisj; [by eapply survivors_subset|by apply Hsub].
  - intros i [Hi|Hi]%elem_of_app; apply elem_of_app; [left; by eapply survivors_subset|right; by apply Hsub].
  - rewrite !length_app, survivors_length. unfold mbind in Hlen. lia.
Qed.

Lemma dpm_keep_spec :
  NoDup dpm_keep /\ (forall i, i ∈ dpm_keep -> i < length samples) /\
  length dpm_keep + dpm_capped = length samples.
Proof.
  destruct (bind_survivors dpm_groups) as (Hnd & Hsub & Hlen).
  { rewrite dpm_groups_perm. apply NoDup_seq. }
  split_and!; [done| |].
  - intros i Hi%Hsub. rewrite dpm_groups_perm in Hi. apply elem_of_seq in Hi. lia.
  - unfold dpm_keep, dpm_capped. rewrite Hlen, dpm_groups_perm. apply length_seq.
Qed.

Lemma dpm_select_length :
  length (select_from (list_to_set dpm_keep) 0 samples) = length dpm_keep.
Proof.
  destruct dpm_keep_spec as (Hnd & Hlt & _). rewrite select_from_length.
  apply Permutation_length, NoDup_Permutation; [apply NoDup_filter, NoDup_seq|done|].
  intros i. rewrite list_elem_of_filter, elem_of_list_to_set, elem_of_seq. split; [by intros []|].
  intros Hi. split; [done|]. specialize (Hlt i Hi). lia.
Qed.

(** The kept indices of one key are the survivors of its group. *)
Lemma dpm_keep_of_key k :
  length (filter (fun j => j ∈ (list_to_set dpm_keep : gset nat)) (positions k (dpm_key <$> samples) 0)) <= n.
Proof.
  etrans; [|apply (Nat.le_min_l n (length (positions k (dpm_key <$> samples) 0)))].
  rewrite <-(survivors_length samples). apply submseteq_length, NoDup_submseteq.
  { apply NoDup_filter. generalize 0. induction (dpm_key <$> samples) as [|k' ks IH]; intros i; simpl; [constructor|].
    case_decide; [|done]. constructor; [|done]. intros [? _]%positions_spec. lia. }
  intros i. rewrite list_elem_of_filter, elem_of_list_to_set. intros [Hk Hi].
  apply list_elem_of_bind in Hk as (g & Hig & Hg). unfold dpm_groups in Hg.
  destruct (group_is_positions _ _ Hg) as [k' ->].
  pose proof (survivors_subset _ _ _ _ Hig) as Hi'.
  apply positions_spec in Hi as [_ Hi], Hi' as [_ Hi']. congruence.
Qed.

End coalesce.

Lemma CoalesceDPM_unfold samples maxDPM :
  CoalesceDPM samples maxDPM =
  (if decide (dpm_capped samples (cap_of maxDPM) = 0) then (samples, 0)
   else (select_from (list_to_set (dpm_keep samples (cap_of maxDPM))) 0 samples,
         dpm_capped samples (cap_of maxDPM))).
Proof. destruct samples; [|done]. reflexivity. Qed.

Lemma CoalesceDPM_count samples maxDPM kept capped :
  CoalesceDPM samples maxDPM = (kept, capped) ->
  kept `sublist_of` samples /\ length kept + capped = length samples.
Proof.
  rewrite CoalesceDPM_unfold. destruct (dpm_keep_spec samples (cap_of maxDPM)) as (_ & _ & Hlen).
  case_decide; intros [= <- <-]; [split; [done|lia]|].
  split; [apply select_from_sublist|]. by rewrite dpm_select_length.
Qed.

(** Nothing is lost silently and nothing is reordered: the survivors are a
    sublist of the input and survivors plus suppressed make up the input. *)
Theorem CoalesceDPM_accounts samples maxDPM :
  let '(kept, capped) := CoalesceDPM samples maxDPM in
  kept `sublist_of` samples /\ length kept + capped = length samples.
Proof. destruct (CoalesceDPM samples maxDPM) eqn:E. by apply CoalesceDPM_count in E. Qed.

Lemma select_from_elem keep i samples s :
  s ∈ select_from keep i samples <-> exists j, samples !! j = Some s /\ i + j ∈ keep.
Proof.
  revert i. induction samples as [|s' ss IH]; intros i; simpl.
  { split; [by intros ?%elem_of_nil|]. intros (j & Hj & _). by rewrite lookup_nil in Hj. }
  assert (s ∈ select_from keep (S i) ss <-> exists j, (s' :: ss) !! S j = Some s /\ i + S j ∈ keep) as Hrest.
  { rewrite IH. split; intros (j & Hj & Hk); exists j; (split; [done|]);
      [by rewrite Nat.add_succ_r | by rewrite Nat.add_succ_r in Hk]. }
  case_decide as Hi; rewrite ?elem_of_cons, Hrest; split.
  - intros [->|(j & Hj & Hk)]; [exists 0; rewrite Nat.add_0_r; done|eauto].
  - intros ([|j] & Hj & Hk); [left; by simplify_eq/=|right; eauto].
  - intros (j & Hj & Hk). eauto.
  - intros ([|j] & Hj & Hk); [by rewrite Nat.add_0_r in Hk|eauto].
Qed.

(** When nothing was capped the selection is the whole input. *)
Lemma dpm_select_all samples n :
  dpm_capped samples n = 0 -> select_from (list_to_set (dpm_keep samples n)) 0 samples = samples.
Proof.
  intros Hc. destruct (dpm_keep_spec samples n) as (_ & _ & Hlen).
  apply sublist_full; [apply select_from_sublist|]. rewrite dpm_select_length. lia.
Qed.

Lemma CoalesceDPM_kept samples maxDPM kept capped :
  CoalesceDPM samples maxDPM = (kept, capped) ->
  kept = select_from (list_to_set (dpm_keep samples (cap_of maxDPM))) 0 samples.
Proof.
  rewrite CoalesceDPM_unfold. case_decide; intros [= <- _]; [by rewrite dpm_select_all|done].
Qed.

(** The cap is hard: of every series and minute at most [max(1, maxDPM)]
    points survive. *)
Theorem CoalesceDPM_cap samples maxDPM kept capped k :
  CoalesceDPM samples maxDPM = (kept, capped) ->
  (Z.of_nat (length (filter (fun s => dpm_key s = k) kept)) <= Z.max 1 maxDPM)%Z.
Proof.
  intros ->%CoalesceDPM_kept. rewrite select_from_count.
  pose proof (dpm_keep_of_key samples (cap_of maxDPM) k) as Hle.
  rewrite <-cap_of_Z. lia.
Qed.

(** ** The newest points survive *)

Definition ts_desc (samples : list Sample) (i j : nat) : Prop :=
  (s_Timestamp (samples !!! j) <= s_Timestamp (samples !!! i))%Z.

#[local] Instance ts_desc_trans samples : Transitive (ts_desc samples).
Proof. intros i j k. unfold ts_desc. lia. Qed.

Lemma newer_ts a b :
  (newer a b = true -> (s_Timestamp b <= s_Timestamp a)%Z) /\
  (newer a b = false -> (s_Timestamp a <= s_Timestamp b)%Z).
Proof. unfold newer, Equal, After. zbool; simpl; split; intros; done || lia. Qed.

(** A group that was cut keeps exactly [n] indices, none older than one it lost. *)
Lemma survivors_newest samples n g i j :
  i ∈ g -> i ∉ survivors samples n g -> j ∈ survivors samples n g ->
  n < length g /\ ts_desc samples j i.
Proof.
  unfold survivors. case_decide as Hle; [done|]. intros Hi Hni Hj. split; [lia|].
  eapply StronglySorted_take_drop; [|exact Hj|].
  - apply stable_sort_sorted; [apply _|..]; intros x y; apply newer_ts.
  - rewrite <-(stable_sort_perm (newer_idx samples)) in Hi.
    rewrite <-(take_drop n (stable_sort _ _)) in Hi. by apply elem_of_app in Hi as [?|?].
Qed.

Lemma positions_NoDup {K} `{Countable K} (k : K) ks i : NoDup (positions k ks i).
Proof.
  revert i. induction ks as [|k' ks IH]; intros i; simpl; [constructor|].
  case_decide; [|done]. constructor; [|done]. intros [? _]%positions_spec. lia.
Qed.

(** A kept index of key [k] is a survivor of the group of [k], and conversely. *)
Lemma dpm_keep_iff samples n k i :
  i ∈ positions k (dpm_key <$> samples) 0 ->
  i ∈ dpm_keep samples n <-> i ∈ survivors samples n (positions k (dpm_key <$> samples) 0).
Proof.
  intros Hi. unfold dpm_keep. rewrite list_elem_of_bind. split.
  - intros (g & Hig & Hg). destruct (group_is_positions _ _ Hg) as [k' ->].
    pose proof (survivors_subset _ _ _ _ Hig) as Hi'.
    apply positions_spec in Hi as [_ Hi], Hi' as [_ Hi']. congruence.
  - intros Hs. exists (positions k (dpm_key <$> samples) 0). split; [done|].
    unfold dpm_groups. apply list_elem_of_fmap. exists (k, positions k (dpm_key <$> samples) 0).
    split; [done|]. apply elem_of_map_to_list.
    pose proof (group_indices_lookup (dpm_key <$> samples) 0 ∅ k) as Hl. rewrite lookup_empty in Hl. simpl in Hl.
    destruct (group_indices _ 0 ∅ !! k); simpl in Hl; [by subst|]. rewrite <-Hl in Hi. by apply elem_of_nil in Hi.
Qed.

(** Last write wins: a suppressed point left exactly [max(1, maxDPM)]
    survivors of its series and minute, none of them older than it. *)
Theorem CoalesceDPM_newest samples maxDPM kept capped s :
  CoalesceDPM samples maxDPM = (kept, capped) -> s ∈ samples -> s ∉ kept ->
  let same := filter (fun s' => dpm_key s' = dpm_key s) kept in
  Z.of_nat (length same) = Z.max 1 maxDPM /\
  Forall (fun s' => (s_Timestamp s <= s_Timestamp s')%Z) same.
Proof.
  intros ->%CoalesceDPM_kept Hs Hns same. set (n := cap_of maxDPM) in *.
  set (g := positions (dpm_key s) (dpm_key <$> samples) 0).
  apply list_elem_of_lookup in Hs as [i Hi].
  assert (i ∈ g) as Hig. { apply positions_spec. split; [lia|]. by rewrite Nat.sub_0_r, list_lookup_fmap, Hi. }
  assert (i ∉ survivors samples n g) as Hnk.
  { intros Hk. apply Hns, select_from_elem. exists i. split; [done|].
    apply elem_of_list_to_set. by eapply dpm_keep_iff. }
  assert (length same = length (survivors samples n g)) as Hlen.
  { unfold same. rewrite select_from_count. apply Permutation_length, NoDup_Permutation.
    - apply NoDup_filter, positions_NoDup.
    - apply survivors_NoDup, positions_NoDup.
    - intros j. rewrite list_elem_of_filter, elem_of_list_to_set. split.
      + intros [Hk Hj]. by eapply dpm_keep_iff.
      + intros Hj. pose proof (survivors_subset _ _ _ _ Hj). split; [|done]. by eapply dpm_keep_iff. }
  split.
  - rewrite Hlen, survivors_length. assert (n < length g) as Hn.
    { pose proof (survivors_length samples n g). unfold survivors in Hnk. case_decide; [done|]. lia. }
    rewrite <-cap_of_Z. fold n. lia.
  - apply Forall_forall. intros s' [Hkey Hs']%list_elem_of_filter.
    apply select_from_elem in Hs' as (j & Hj & Hk). apply elem_of_list_to_set in Hk.
    assert (j ∈ g) as Hjg. { apply positions_spec. split; [lia|]. by rewrite Nat.sub_0_r, list_lookup_fmap, Hj, <-Hkey. }
    apply (dpm_keep_iff _ _ _ _ Hjg) in Hk. destruct (survivors_newest _ _ _ _ _ Hig Hnk Hk) as [_ Hts].
    unfold ts_desc in Hts. by rewrite !(list_lookup_total_correct _ _ _ Hi), (list_lookup_total_correct _ _ _ Hj) in Hts.
Qed.

(** ** A concrete batch *)

Module Sim.
(** Two points of one series in one minute, the newer first, and another series. *)
Definition point (name : string) (ts : Time) : Sample :=
  mkSample name Gauge TempUnset false "1" {[ "org" := "acme" ]} (f64_of_Z 3) (unixToInternal * Second + ts).
Definition older : Sample := point "tokens" (70 * Second).
Definition fresh : Sample := point "tokens" (80 * Second).
Definition other : Sample := point "cost" (75 * Second).
Definition samples : list Sample := [fresh; other; older].

Lemma coalesced : CoalesceDPM samples 1 = ([fresh; other], 1).
Proof. vm_compute. reflexivity. Qed.
End Sim.

Lemma CoalesceDPM_cap_witness :
  CoalesceDPM Sim.samples 1 = ([Sim.fresh; Sim.other], 1) /\
  (Z.of_nat (length (filter (fun s => dpm_key s = dpm_key Sim.older) [Sim.fresh; Sim.other])) <= Z.max 1 1)%Z.
Proof. split; [exact Sim.coalesced|exact (CoalesceDPM_cap _ _ _ _ _ Sim.coalesced)]. Defined.

Lemma CoalesceDPM_newest_witness :
  (Sim.older ∈ Sim.samples) /\ (Sim.older ∉ [Sim.fresh; Sim.other]) /\
  Forall (fun s' => s_Timestamp Sim.older <= s_Timestamp s')%Z
    (filter (fun s' => dpm_key s' = dpm_key Sim.older) [Sim.fresh; Sim.other]).
Proof.
  assert (Sim.older ∈ Sim.samples) as H1 by (apply (bool_decide_eq_true_1 _); vm_compute; reflexivity).
  assert (Sim.older ∉ [Sim.fresh; Sim.other]) as H2 by (apply (bool_decide_eq_true_1 _); vm_compute; reflexivity).
  split; [exact H1|]. split; [exact H2|].
  exact (proj2 (CoalesceDPM_newest _ _ _ _ _ Sim.coalesced H1 H2)).
Defined.
