(* ===== verification/Guard.v ===== *)
(** * Content governance (internal/source/guard.go, internal/source/content.go)

    The guard between derive and emit: a label allow-list, a content deny-list
    with a floor that no configuration can lift, and a per-series cardinality
    budget kept in [g_seen]. *)

From S2P Require Import Prelude Model.

(** ** The content floor *)

Definition AbsoluteNeverDenyKeys : list string :=
  ["gen_ai.prompt"; "gen_ai.completion"; "gen_ai.input.messages"; "gen_ai.output.messages";
   "gen_ai.system_instructions"; "input.value"; "output.value";
   "request"; "response"; "inputs"; "outputs"; "messages";
   "inputs_preview"; "outputs_preview";
   "metadata"; "portkeyHeaders"].

Definition genAIContentPrefixes : list string :=
  ["gen_ai.prompt"; "gen_ai.completion";
   "gen_ai.input.messages"; "gen_ai.output.messages"; "gen_ai.system_instructions"].

Definition IsContentFloorKey (k : string) : bool :=
  bool_decide (k ∈ AbsoluteNeverDenyKeys) || existsb (fun p => has_prefix p k) genAIContentPrefixes.

(** ** Label signatures *)

(** [labelSigReplacer]. *)
Fixpoint escape (s : string) : string :=
  match s with
  | EmptyString => ""
  | String a s' =>
      if (Ascii.eqb a "\"%char || Ascii.eqb a "="%char || Ascii.eqb a ";"%char)
      then String "\"%char (String a (escape s'))
      else String a (escape s')
  end.

Fixpoint sig_pairs (l : list (string * string)) : string :=
  match l with
  | [] => ""
  | (k, v) :: l' => escape k +:+ "=" +:+ escape v +:+ ";" +:+ sig_pairs l'
  end.

Definition labelSig (m : gmap string string) : string := sig_pairs (sorted_kvs m).

(** ** The guard *)

Record GuardConfig := mkGuardConfig {
  AllowLabelKeys : list string;
  DenyFieldKeys : list string;
  DenyFieldKeysByLoop : gmap string (list string);
  PerSeriesBudget : Z;
  HasOnNewLabelValue : bool
}.

Record Guard := mkGuard {
  g_allow : gset string;
  g_deny : gset string;
  g_budget : Z;
  g_hook : bool;
  g_denyByLoop : gmap string (gset string);
  g_seen : gmap string (gset string)
}.

Definition NewGuard (cfg : GuardConfig) : Guard :=
  mkGuard (list_to_set (AllowLabelKeys cfg)) (list_to_set (DenyFieldKeys cfg))
    (PerSeriesBudget cfg) (HasOnNewLabelValue cfg)
    ((fun ks => list_to_set ks) <$> DenyFieldKeysByLoop cfg) ∅.

Definition with_seen (g : Guard) (seen : gmap string (gset string)) : Guard :=
  mkGuard (g_allow g) (g_deny g) (g_budget g) (g_hook g) (g_denyByLoop g) seen.

(** Whether a predicate holds of every key of a map. *)
Definition all_keys (p : string -> bool) (m : gmap string string) : bool :=
  forallb (fun kv => p kv.1) (map_to_list m).

Definition floor_or_denied (deny : gset string) (k : string) : bool :=
  bool_decide (k ∈ deny) || IsContentFloorKey k.

(** The shared tail of [ok] and [okLog]: the budget on distinct signatures.
    Returns the verdict, the new guard and the series the early-warning hook
    was called with. *)
Definition admit_labels (g : Guard) (series : string) (labels : gmap string string)
    : bool * Guard * list string :=
  if (g_budget g <=? 0)%Z then (true, g, [])
  else
    let sig := labelSig labels in
    let set := default ∅ (g_seen g !! series) in
    let g0 := with_seen g (<[series := set]> (g_seen g)) in
    if decide (sig ∈ set) then (true, g0, [])
    else
      let ev := if g_hook g then [series] else [] in
      if (g_budget g <=? Z.of_nat (size set))%Z then (false, g0, ev)
      else (true, with_seen g (<[series := {[sig]} ∪ set]> (g_seen g)), ev).

Definition guard_ok (g : Guard) (s : Sample) : bool * Guard * list string :=
  if all_keys (fun k => negb (floor_or_denied (g_deny g) k) && bool_decide (k ∈ g_allow g)) (s_Labels s)
  then admit_labels g (s_Name s) (s_Labels s)
  else (false, g, []).

Definition loop_deny (g : Guard) (loop : string) : gset string :=
  match g_denyByLoop g !! loop with Some d => d | None => g_deny g end.

Definition okLog (g : Guard) (loop : string) (lr : LogRecord) : bool * Guard * list string :=
  let deny := loop_deny g loop in
  if all_keys (fun k => negb (floor_or_denied deny k)) (l_IndexedAttributes lr)
     && all_keys (fun k => negb (floor_or_denied deny k)) (l_RecordAttributes lr)
     && all_keys (fun k => bool_decide (k ∈ g_allow g)) (l_IndexedAttributes lr)
  then admit_labels g ("logs:" +:+ loop) (l_IndexedAttributes lr)
  else (false, g, []).

(** The loop shared by [Sanitize] and [SanitizeLogs]. *)
Fixpoint sanitize {A} (ok : Guard -> A -> bool * Guard * list string) (g : Guard) (l : list A)
    : list A * nat * Guard * list string :=
  match l with
  | [] => ([], 0, g, [])
  | x :: l =>
      let '(b, g, ev) := ok g x in
      let '(kept, dropped, g, ev') := sanitize ok g l in
      if b then (x :: kept, dropped, g, ev ++ ev') else (kept, S dropped, g, ev ++ ev')
  end.

Definition Sanitize (g : Guard) (b : Batch) : Batch * nat * Guard * list string :=
  let '(kept, dropped, g, ev) := sanitize guard_ok g (b_Samples b) in
  (mkBatch (b_Key b) kept (b_Logs b) (b_Watermark b), dropped, g, ev).

Definition strip_body (lr : LogRecord) : LogRecord :=
  mkLogRecord (l_Timestamp lr) "" (l_Severity lr) (l_IndexedAttributes lr) (l_RecordAttributes lr) (l_TraceID lr).

Definition SanitizeLogs (g : Guard) (loop : string) (logs : list LogRecord)
    : list LogRecord * nat * Guard * list string :=
  sanitize (fun g lr => okLog g loop lr) g (strip_body <$> logs).

(** ** Lemmas on signatures *)

Lemma escape_split (sep : Ascii.ascii) s1 s2 (t1 t2 : string) :
  sep = "="%char \/ sep = ";"%char ->
  escape s1 +:+ String sep t1 = escape s2 +:+ String sep t2 -> s1 = s2 /\ t1 = t2.
Proof.
  intros Hsep. revert s2. induction s1 as [|a s1 IH]; intros [|b s2]; simpl.
  - intros Heq. by injection Heq.
  - intros Heq. exfalso. destruct (Ascii.eqb_spec b "\"%char), (Ascii.eqb_spec b "="%char),
      (Ascii.eqb_spec b ";"%char); simpl in Heq; rewrite ?string_app_cons in Heq; injection Heq;
      destruct Hsep; congruence.
  - intros Heq. exfalso. destruct (Ascii.eqb_spec a "\"%char), (Ascii.eqb_spec a "="%char),
      (Ascii.eqb_spec a ";"%char); simpl in Heq; rewrite ?string_app_cons in Heq; injection Heq;
      destruct Hsep; congruence.
  - intros Heq.
    destruct (Ascii.eqb_spec a "\"%char), (Ascii.eqb_spec a "="%char), (Ascii.eqb_spec a ";"%char),
      (Ascii.eqb_spec b "\"%char), (Ascii.eqb_spec b "="%char), (Ascii.eqb_spec b ";"%char);
      simpl in Heq; rewrite ?string_app_cons in Heq; simplify_eq/=; try done;
      match goal with H : _ +:+ _ = _ +:+ _ |- _ => apply IH in H as [-> ->] end; done.
Qed.

Lemma sig_pairs_inj l1 l2 : sig_pairs l1 = sig_pairs l2 -> l1 = l2.
Proof.
  revert l2. induction l1 as [|[k1 v1] l1 IH]; intros [|[k2 v2] l2]; simpl; intros Heq; [done|..].
  - exfalso. apply (f_equal slen) in Heq. rewrite !string_app_length in Heq. simpl in Heq. lia.
  - exfalso. apply (f_equal slen) in Heq. rewrite !string_app_length in Heq. simpl in Heq. lia.
  - apply (escape_split "="%char) in Heq as [-> Heq]; [|auto].
    apply (escape_split ";"%char) in Heq as [-> Heq]; [|auto]. by rewrite (IH l2).
Qed.

Lemma labelSig_inj m1 m2 : labelSig m1 = labelSig m2 -> m1 = m2.
Proof. intros Heq. by apply sorted_kvs_inj, sig_pairs_inj. Qed.

(** The cardinality signature is injective, however the label text is
    chosen: no label value can forge another label set's budget slot. *)
Theorem labelSig_injective m1 m2 : labelSig m1 = labelSig m2 <-> m1 = m2.
Proof. split; [apply labelSig_inj|by intros ->]. Qed.

(** ** Lemmas on admission *)

Definition same_config (g g' : Guard) : Prop := g = with_seen g' (g_seen g).

Definition seen_of (g : Guard) (series : string) : gset string := default ∅ (g_seen g !! series).

(** No series holds more signatures than the budget. *)
Definition within_budget (g : Guard) : Prop :=
  (0 < g_budget g)%Z -> forall series, (Z.of_nat (size (seen_of g series)) <= g_budget g)%Z.

(** [g'] comes after [g]: same configuration, and signatures are only added. *)
Definition guard_le (g g' : Guard) : Prop :=
  same_config g g' /\ forall series, seen_of g series ⊆ seen_of g' series.

#[export] Instance guard_le_preorder : PreOrder guard_le.
Proof.
  split.
  - intros [] . by split.
  - intros g1 g2 g3 [H1 S1] [H2 S2]. split; [|intros s; etrans; [apply S1|apply S2]].
    unfold same_config in *. destruct g1, g2, g3; unfold with_seen in *; simpl in *. congruence.
Qed.

Lemma seen_of_insert g series set s' :
  seen_of (with_seen g (<[series := set]> (g_seen g))) s' = if decide (series = s') then set else seen_of g s'.
Proof. unfold seen_of, with_seen; simpl. rewrite lookup_insert. by case_decide. Qed.

(** Everything there is to know about one admission. *)
Lemma admit_spec g series labels b g' ev :
  admit_labels g series labels = (b, g', ev) ->
  guard_le g g' /\ (within_budget g -> within_budget g') /\
  (b = true -> (0 < g_budget g)%Z -> labelSig labels ∈ seen_of g' series) /\
  (labelSig labels ∈ seen_of g series -> b = true).
Proof.
  unfold admit_labels. destruct (Z.leb_spec (g_budget g) 0); [intros [= <- <- <-]; split_and!; try done; lia|].
  fold (seen_of g series).
  assert (forall set, guard_le g (with_seen g (<[series := set]> (g_seen g))) <-> seen_of g series ⊆ set) as Hle.
  { intros set. split; [intros [_ Hs]; specialize (Hs series); by rewrite seen_of_insert, decide_True in Hs|].
    intros Hs. split; [by destruct g|]. intros s'. rewrite seen_of_insert. case_decide; by subst. }
  case_decide as Hin; [|destruct (Z.leb_spec (g_budget g) (Z.of_nat (size (seen_of g series))))].
  - intros [= <- <- <-]. split_and!; [by apply Hle| | |done].
    + intros Hb _ s'. rewrite seen_of_insert. case_decide; [subst|]; by apply Hb.
    + intros _ _. by rewrite seen_of_insert, decide_True.
  - intros [= <- <- <-]. split_and!; [by apply Hle| |done|done].
    intros Hb _ s'. rewrite seen_of_insert. case_decide; [subst|]; by apply Hb.
  - intros [= <- <- <-]. split_and!; [apply Hle; set_solver| | |done].
    + intros Hb _ s'. rewrite seen_of_insert. case_decide; [subst|by apply Hb].
      rewrite size_union, size_singleton by set_solver. simpl. lia.
    + intros _ _. rewrite seen_of_insert, decide_True by done. set_solver.
Qed.

Lemma all_keys_spec p m : all_keys p m = true <-> forall k, is_Some (m !! k) -> p k = true.
Proof.
  unfold all_keys. rewrite forallb_forall. split.
  - intros Hf k [v Hv]. apply (Hf (k, v)). by apply list_elem_of_In, elem_of_map_to_list.
  - intros Hf [k v] Hin%list_elem_of_In%elem_of_map_to_list. apply Hf. by eexists.
Qed.

(** Keys that may leave on the indexed tier. *)
Definition clean_keys (deny allow : gset string) (m : gmap string string) : Prop :=
  forall k, is_Some (m !! k) -> k ∈ allow /\ (k ∉ deny) /\ IsContentFloorKey k = false.

Definition uncontent_keys (deny : gset string) (m : gmap string string) : Prop :=
  forall k, is_Some (m !! k) -> (k ∉ deny) /\ IsContentFloorKey k = false.

Lemma floor_or_denied_false deny k :
  negb (floor_or_denied deny k) = true <-> (k ∉ deny) /\ IsContentFloorKey k = false.
Proof.
  unfold floor_or_denied. rewrite negb_true_iff, orb_false_iff, bool_decide_eq_false. done.
Qed.

Lemma guard_ok_spec g s b g' ev :
  guard_ok g s = (b, g', ev) ->
  guard_le g g' /\ (within_budget g -> within_budget g') /\
  (b = true -> clean_keys (g_deny g) (g_allow g) (s_Labels s) /\
     ((0 < g_budget g)%Z -> labelSig (s_Labels s) ∈ seen_of g' (s_Name s))).
Proof.
  unfold guard_ok. destruct (all_keys _ _) eqn:Hk; [|by intros [= <- <- <-]].
  intros (Hle & Hb & Hin & _)%admit_spec. split_and!; [done..|]. intros ->. split; [|by apply Hin].
  intros k Hsome. rewrite all_keys_spec in Hk. specialize (Hk k Hsome).
  apply andb_prop in Hk as [Hd Ha]. apply floor_or_denied_false in Hd as [? ?].
  by apply bool_decide_eq_true in Ha.
Qed.

Lemma okLog_spec g loop lr b g' ev :
  okLog g loop lr = (b, g', ev) ->
  guard_le g g' /\ (within_budget g -> within_budget g') /\
  (b = true -> clean_keys (loop_deny g loop) (g_allow g) (l_IndexedAttributes lr) /\
     uncontent_keys (loop_deny g loop) (l_RecordAttributes lr) /\
     ((0 < g_budget g)%Z -> labelSig (l_IndexedAttributes lr) ∈ seen_of g' ("logs:" +:+ loop))).
Proof.
  unfold okLog. destruct (all_keys _ _ && _ && _) eqn:Hk; [|by intros [= <- <- <-]].
  intros (Hle & Hb & Hin & _)%admit_spec. split_and!; [done..|]. intros ->.
  apply andb_prop in Hk as [[Hi Hr]%andb_prop Ha]. rewrite all_keys_spec in Hi, Hr, Ha.
  split_and!; [| |by apply Hin].
  - intros k Hs. specialize (Hi k Hs). specialize (Ha k Hs).
    apply floor_or_denied_false in Hi. apply bool_decide_eq_true in Ha. naive_solver.
  - intros k Hs. by apply floor_or_denied_false, Hr.
Qed.

(** ** The sanitize loop *)

Section sanitize.
Context {A : Type} (ok : Guard -> A -> bool * Guard * list string).
Context (P : Guard -> Guard -> A -> Prop).
Context (step : forall g x b g' ev, ok g x = (b, g', ev) ->
  guard_le g g' /\ (within_budget g -> within_budget g') /\ (b = true -> P g g' x)).
(** the admission fact survives later admissions *)
Context (P_mono : forall g0 g g1 g' x, guard_le g0 g -> guard_le g1 g' -> P g g1 x -> P g0 g' x).

Lemma sanitize_spec g l kept dropped g' ev :
  sanitize ok g l = (kept, dropped, g', ev) ->
  guard_le g g' /\ (within_budget g -> within_budget g') /\
  Forall (P g g') kept /\ kept `sublist_of` l /\ length kept + dropped = length l.
Proof.
  revert g kept dropped g' ev. induction l as [|x l IH]; intros g kept dropped g' ev; simpl.
  { intros [= <- <- <- <-]. split_and!; done || constructor. }
  destruct (ok g x) as [[b g1] ev1] eqn:Hok. destruct (step _ _ _ _ _ Hok) as (Hle & Hb & HP).
  destruct (sanitize ok g1 l) as [[[kept' dropped'] g2] ev2] eqn:Hl.
  destruct (IH _ _ _ _ _ Hl) as (Hle' & Hb' & HF & Hsub & Hlen).
  assert (Forall (P g g2) kept') as HF' by (eapply Forall_impl; [exact HF|]; intros y; by apply P_mono).
  destruct b; intros [= <- <- <- <-]; split_and!; try (by etrans); auto; simpl; try lia.
  - constructor; [|done]. eapply P_mono; [reflexivity|exact Hle'|by apply HP].
  - by constructor.
  - by constructor.
Qed.
End sanitize.

Lemma guard_le_config g g' :
  guard_le g g' -> g_deny g = g_deny g' /\ g_allow g = g_allow g' /\ g_budget g = g_budget g' /\
                   g_denyByLoop g = g_denyByLoop g'.
Proof. intros [-> _]. done. Qed.

(** What a kept sample satisfies. *)
Definition sample_admitted (g g' : Guard) (s : Sample) : Prop :=
  clean_keys (g_deny g) (g_allow g) (s_Labels s) /\
  ((0 < g_budget g)%Z -> labelSig (s_Labels s) ∈ seen_of g' (s_Name s)).

Definition log_admitted (loop : string) (g g' : Guard) (lr : LogRecord) : Prop :=
  clean_keys (loop_deny g loop) (g_allow g) (l_IndexedAttributes lr) /\
  uncontent_keys (loop_deny g loop) (l_RecordAttributes lr) /\
  ((0 < g_budget g)%Z -> labelSig (l_IndexedAttributes lr) ∈ seen_of g' ("logs:" +:+ loop)).

Lemma Sanitize_spec g b b' dropped g' ev :
  Sanitize g b = (b', dropped, g', ev) ->
  guard_le g g' /\ (within_budget g -> within_budget g') /\
  Forall (sample_admitted g g') (b_Samples b') /\ b_Samples b' `sublist_of` b_Samples b /\
  length (b_Samples b') + dropped = length (b_Samples b).
Proof.
  unfold Sanitize. destruct (sanitize guard_ok g (b_Samples b)) as [[[kept d] g1] ev1] eqn:Hs.
  intros [= <- <- <- <-]. simpl. eapply (sanitize_spec _ sample_admitted); [apply guard_ok_spec| |exact Hs].
  intros g0 g2 g3 g4 s Hle [_ H34]. unfold sample_admitted.
  destruct (guard_le_config _ _ Hle) as (-> & -> & -> & _). intros [Hc Hin]. split; [done|].
  intros Hb. by apply H34, Hin.
Qed.

Lemma SanitizeLogs_spec g loop logs kept dropped g' ev :
  SanitizeLogs g loop logs = (kept, dropped, g', ev) ->
  guard_le g g' /\ (within_budget g -> within_budget g') /\
  Forall (log_admitted loop g g') kept /\ kept `sublist_of` (strip_body <$> logs) /\
  length kept + dropped = length logs.
Proof.
  unfold SanitizeLogs. intros Hs. rewrite <-(length_fmap strip_body logs).
  eapply (sanitize_spec _ (log_admitted loop)); [..|exact Hs].
  - intros g0 x b0 g1 ev0. apply okLog_spec.
  - intros g0 g2 g3 g4 s Hle [_ H34]. unfold log_admitted, loop_deny.
    destruct (guard_le_config _ _ Hle) as (-> & -> & -> & ->). intros (Hc & Hu & Hin).
    split_and!; [done..|]. intros Hb. by apply H34, Hin.
Qed.

(** What [Sanitize] lets through: every kept sample carries only
    allow-listed label keys, none of them denied or on the content floor
    (whatever the configured deny-list says), in input order, and every other
    sample is counted as dropped. *)
Theorem Sanitize_clean g b b' dropped g' ev :
  Sanitize g b = (b', dropped, g', ev) ->
  (forall s k, s ∈ b_Samples b' -> is_Some (s_Labels s !! k) ->
     (k ∈ g_allow g) /\ (k ∉ g_deny g) /\ IsContentFloorKey k = false) /\
  b_Samples b' `sublist_of` b_Samples b /\
  length (b_Samples b') + dropped = length (b_Samples b).
Proof.
  intros (_ & _ & HF & Hsub & Hlen)%Sanitize_spec. split_and!; [|done..].
  intros s k Hs Hk. rewrite Forall_forall in HF. destruct (HF s Hs) as [Hc _]. by apply Hc.
Qed.

(** C39: what [SanitizeLogs] lets through: the body is always empty, no key of
    either attribute tier is denied for this loop or on the content floor, and
    indexed keys are allow-listed. *)
Theorem SanitizeLogs_content_free g loop logs kept dropped g' ev :
  SanitizeLogs g loop logs = (kept, dropped, g', ev) ->
  length kept + dropped = length logs /\
  forall lr, lr ∈ kept -> l_Body lr = "" /\
    (forall k, is_Some (l_IndexedAttributes lr !! k) -> k ∈ g_allow g) /\
    (forall k, is_Some (l_IndexedAttributes lr !! k) \/ is_Some (l_RecordAttributes lr !! k) ->
       (k ∉ loop_deny g loop) /\ IsContentFloorKey k = false).
Proof.
  intros (_ & _ & HF & Hsub & Hlen)%SanitizeLogs_spec. split; [done|]. intros lr Hlr.
  rewrite Forall_forall in HF. destruct (HF lr Hlr) as (Hc & Hu & _). split_and!.
  - eapply elem_of_submseteq in Hlr; [|by apply sublist_submseteq].
    by apply list_elem_of_fmap in Hlr as (lr0 & -> & _).
  - intros k Hk. by apply Hc.
  - intros k [Hk|Hk]; [by apply Hc|by apply Hu].
Qed.

(** One loop's opt-in cannot widen another loop's set: a loop without an entry
    of its own is policed by the global deny-list. *)
Lemma loop_deny_scoped cfg loop :
  DenyFieldKeysByLoop cfg !! loop = None ->
  loop_deny (NewGuard cfg) loop = list_to_set (DenyFieldKeys cfg).
Proof. intros Hn. unfold loop_deny, NewGuard; simpl. by rewrite lookup_fmap, Hn. Qed.

(** ** The budget over a whole history *)

(** The samples a guard lets through over a sequence of batches. *)
Fixpoint sanitize_batches (g : Guard) (bs : list Batch) : list Sample * Guard :=
  match bs with
  | [] => ([], g)
  | b :: bs =>
      let '(b', _, g, _) := Sanitize g b in
      let '(kept, g) := sanitize_batches g bs in (b_Samples b' ++ kept, g)
  end.

Lemma sanitize_batches_spec g bs kept g' :
  sanitize_batches g bs = (kept, g') ->
  guard_le g g' /\ (within_budget g -> within_budget g') /\ Forall (sample_admitted g g') kept.
Proof.
  revert g kept g'. induction bs as [|b bs IH]; intros g kept g'; simpl.
  { intros [= <- <-]. split_and!; done || constructor. }
  destruct (Sanitize g b) as [[[b' d] g1] ev] eqn:Hb. destruct (Sanitize_spec _ _ _ _ _ _ Hb) as (Hle & Hw & HF & _).
  destruct (sanitize_batches g1 bs) as [k2 g2] eqn:Hbs. destruct (IH _ _ _ Hbs) as (Hle' & Hw' & HF').
  intros [= <- <-]. split_and!; [by etrans|auto|]. apply Forall_app. split.
  - eapply Forall_impl; [exact HF|]. intros s [Hc Hin]. split; [done|]. intros ?. by apply Hle', Hin.
  - destruct (guard_le_config _ _ Hle) as (Hd & Ha & Hbud & _). eapply Forall_impl; [exact HF'|].
    intros s. unfold sample_admitted. by rewrite <-Hd, <-Ha, <-Hbud.
Qed.

(** The cardinality budget is global to the guard's life: over any
    sequence of batches, the samples of one series that were ever let through
    carry at most [PerSeriesBudget] distinct label sets. *)
Theorem guard_budget cfg bs kept g' name :
  (0 < PerSeriesBudget cfg)%Z -> sanitize_batches (NewGuard cfg) bs = (kept, g') ->
  (Z.of_nat (size (list_to_set (s_Labels <$> filter (fun s => s_Name s = name) kept) : gset (gmap string string)))
   <= PerSeriesBudget cfg)%Z.
Proof.
  intros Hpos (Hle & Hw & HF)%sanitize_batches_spec.
  assert (within_budget g') as Hb.
  { apply Hw. intros _ s. unfold seen_of; simpl. rewrite lookup_empty.
    change (Z.of_nat (size (default ∅ None))) with 0%Z. lia. }
  destruct (guard_le_config _ _ Hle) as (_ & _ & Hbud & _). simpl in Hbud.
  assert (0 < g_budget g')%Z as Hpos' by (rewrite <-Hbud; lia).
  rewrite Hbud. etrans; [|apply (Hb Hpos' name)].
  apply inj_le. set (X := list_to_set _). unfold size, set_size. simpl.
  rewrite <-(length_fmap labelSig (elements X)). apply submseteq_length, NoDup_submseteq.
  - apply NoDup_fmap_2_strong; [|apply NoDup_elements]. intros m1 m2 _ _. apply labelSig_inj.
  - intros sig (m & -> & Hm)%list_elem_of_fmap. apply elem_of_elements.
    apply elem_of_elements, elem_of_list_to_set, list_elem_of_fmap in Hm as (s & -> & [<- Hs]%list_elem_of_filter).
    rewrite Forall_forall in HF. destruct (HF s Hs) as [_ Hin]. by apply Hin.
Qed.

(** ** A concrete guard *)

Module Sim.
Definition cfg : GuardConfig :=
  mkGuardConfig ["org"; "model"] ["user"] ∅ 1 true.
Definition sample (k v : string) : Sample :=
  mkSample "tokens" Gauge TempUnset false "1" {[ k := v ]} (f64_of_Z 1) (unixToInternal * Second).
(** Admitted; denied; over the budget. *)
Definition batch : Batch :=
  mkBatch (mkKey "i" "l" "f") [sample "org" "a"; sample "user" "u"; sample "org" "b"] [] zeroWm.
Definition log (k : string) : LogRecord := mkLogRecord 0 "the body" "info" {[ "org" := "a" ]} {[ k := "v" ]} "".
Definition logs : list LogRecord := [log "status"; log "gen_ai.prompt.0"].
Definition run := Sanitize (NewGuard cfg) batch.
Definition log_run := SanitizeLogs (NewGuard cfg) "i/l/f" logs.
End Sim.

Lemma Sanitize_clean_witness :
  b_Samples Sim.run.1.1.1 = [Sim.sample "org" "a"] /\
  length (b_Samples Sim.run.1.1.1) + Sim.run.1.1.2 = length (b_Samples Sim.batch).
Proof.
  assert (Sanitize (NewGuard Sim.cfg) Sim.batch = (Sim.run.1.1.1, Sim.run.1.1.2, Sim.run.1.2, Sim.run.2)) as Hrun
    by (vm_compute; reflexivity).
  split; [vm_compute; reflexivity|].
  exact (proj2 (proj2 (Sanitize_clean _ _ _ _ _ _ Hrun))).
Defined.

Lemma SanitizeLogs_content_free_witness :
  length Sim.log_run.1.1.1 = 1 /\ length Sim.log_run.1.1.1 + Sim.log_run.1.1.2 = length Sim.logs.
Proof.
  assert (SanitizeLogs (NewGuard Sim.cfg) "i/l/f" Sim.logs =
    (Sim.log_run.1.1.1, Sim.log_run.1.1.2, Sim.log_run.1.2, Sim.log_run.2)) as Hrun by (vm_compute; reflexivity).
  split; [vm_compute; reflexivity|].
  exact (proj1 (SanitizeLogs_content_free _ _ _ _ _ _ _ Hrun)).
Defined.

Lemma guard_budget_witness :
  let kept := (sanitize_batches (NewGuard Sim.cfg) [Sim.batch; Sim.batch]).1 in
  length kept = 2 /\
  (Z.of_nat (size (list_to_set (s_Labels <$> filter (fun s => s_Name s = "tokens") kept) : gset (gmap string string))) <= 1)%Z.
Proof.
  split; [vm_compute; reflexivity|].
  refine (guard_budget Sim.cfg [Sim.batch; Sim.batch] _ _ "tokens" _ (surjective_pairing _)).
  vm_compute. reflexivity.
Defined.
