(* ===== verification/OtlpEncode.v ===== *)
(** * OTLP encoding (internal/emit/otlp/encode.go, logs_encode.go)

    The metric and log payloads as structured messages in the order the code
    builds them; the protobuf library ([proto.Marshal], [protowire]) that turns
    a message into bytes is a parameter. *)

From S2P Require Import Prelude Model.

Definition scopeName : string := "genai-otel-bridge".

(** ** Messages *)

Record KeyValue := mkKV { kv_Key : string; kv_StringValue : string }.

Record NumberDataPoint := mkDP {
  dp_Attributes : list KeyValue; dp_TimeUnixNano : Z; dp_AsDouble : spec_float }.
Record Metric := mkMetric { m_Name : string; m_Unit : string; m_Gauge : list NumberDataPoint }.
Record ResourceMetrics := mkRM { rm_Attributes : list KeyValue; rm_Scope : string; rm_Metrics : list Metric }.

Record OtlpLog := mkOtlpLog {
  ol_TimeUnixNano : Z; ol_SeverityText : string; ol_Attributes : list KeyValue;
  ol_TraceId : option string; ol_Body : option string }.
Record ResourceLogs := mkRL { rl_Attributes : list KeyValue; rl_Scope : string; rl_Records : list OtlpLog }.

Definition sortedKVs (m : gmap string string) : list KeyValue :=
  (fun kv => mkKV kv.1 kv.2) <$> sorted_kvs m.

(** [labelKey]; the empty map short-circuits to the same empty string. *)
Definition labelKey (m : gmap string string) : string := lp_pairs (sorted_kvs m).

(** ** Metrics *)

(** [<] on Go strings. *)
Definition string_lt (a b : string) : bool := String.leb a b && negb (bool_decide (a = b)).

(** The comparator of [Encode]. *)
Definition sample_less (a b : Sample) : bool :=
  if negb (bool_decide (s_Name a = s_Name b)) then string_lt (s_Name a) (s_Name b)
  else if negb (bool_decide (s_Unit a = s_Unit b)) then string_lt (s_Unit a) (s_Unit b)
  else if negb (bool_decide (labelKey (s_Labels a) = labelKey (s_Labels b)))
       then string_lt (labelKey (s_Labels a)) (labelKey (s_Labels b))
  else Before (s_Timestamp a) (s_Timestamp b).

Definition data_point (s : Sample) : NumberDataPoint :=
  mkDP (sortedKVs (s_Labels s)) (to_uint64 (UnixNano (s_Timestamp s))) (s_Value s).

(** The grouping loop: [done_] holds the finished metrics in reverse, [cur] the
    open one (its data points in reverse).  [Err] carries the offending name. *)
Fixpoint build_metrics (l : list Sample) (done_ : list Metric) (cur : option Metric) : result string (list Metric) :=
  let close := fun cur => match cur with
    | Some m => mkMetric (m_Name m) (m_Unit m) (rev (m_Gauge m)) :: done_
    | None => done_
    end in
  match l with
  | [] => Ok (rev (close cur))
  | s :: l =>
      if decide (s_Temporality s = Delta) then Err (s_Name s)
      else if decide (s_Kind s <> Gauge) then Err (s_Name s)
      else
        let dp := data_point s in
        match cur with
        | Some m =>
            if decide (m_Name m = s_Name s /\ m_Unit m = s_Unit s)
            then build_metrics l done_ (Some (mkMetric (m_Name m) (m_Unit m) (dp :: m_Gauge m)))
            else build_metrics l (close cur) (Some (mkMetric (s_Name s) (s_Unit s) [dp]))
        | None => build_metrics l done_ (Some (mkMetric (s_Name s) (s_Unit s) [dp]))
        end
  end.

Definition encode_metrics (identity : gmap string string) (samples : list Sample) : result string ResourceMetrics :=
  let sorted := stable_sort sample_less samples in
  let? ms := build_metrics sorted [] None in
  Ok (mkRM (sortedKVs identity) scopeName ms).

(** ** Logs *)

Definition log_less (a b : LogRecord) : bool :=
  if negb (Equal (l_Timestamp a) (l_Timestamp b)) then Before (l_Timestamp a) (l_Timestamp b)
  else if negb (bool_decide (l_Severity a = l_Severity b)) then string_lt (l_Severity a) (l_Severity b)
  else if negb (bool_decide (labelKey (l_RecordAttributes a) = labelKey (l_RecordAttributes b)))
       then string_lt (labelKey (l_RecordAttributes a)) (labelKey (l_RecordAttributes b))
  else string_lt (l_TraceID a) (l_TraceID b).

(** [groups]: indexed attribute set and records, by [labelKey]. *)
Fixpoint group_logs (logs : list LogRecord) (groups : gmap string (gmap string string * list LogRecord))
    : gmap string (gmap string string * list LogRecord) :=
  match logs with
  | [] => groups
  | lr :: logs =>
      let k := labelKey (l_IndexedAttributes lr) in
      let '(indexed, recs) := default (l_IndexedAttributes lr, []) (groups !! k) in
      group_logs logs (<[k := (indexed, recs ++ [lr])]> groups)
  end.

Definition encode_log (r : LogRecord) : OtlpLog :=
  mkOtlpLog (to_uint64 (UnixNano (l_Timestamp r))) (l_Severity r) (sortedKVs (l_RecordAttributes r))
    (if decide (slen (l_TraceID r) = 16) then Some (l_TraceID r) else None)
    (if decide (l_Body r = "") then None else Some (l_Body r)).

(** [mergeAttrs]: [b] wins. *)
Definition mergeAttrs (a b : gmap string string) : gmap string string := b ∪ a.

Definition encode_group (identity : gmap string string) (g : gmap string string * list LogRecord) : ResourceLogs :=
  mkRL (sortedKVs (mergeAttrs identity g.1)) scopeName (encode_log <$> stable_sort log_less g.2).

Definition encode_logs (identity : gmap string string) (logs : list LogRecord) : list ResourceLogs :=
  let groups := group_logs logs ∅ in
  omap (fun k => encode_group identity <$> groups !! k) (sorted_keys groups).

(** ** Bytes *)

Section bytes.
Context (marshal_RM : ResourceMetrics -> option string) (marshal_RL : ResourceLogs -> option string).
(** [protowire.AppendTag(_, 1, BytesType)] then [AppendBytes]. *)
Context (field1 : string -> string).

Definition Encode (identity : gmap string string) (samples : list Sample) : result string string :=
  let? rm := encode_metrics identity samples in
  match marshal_RM rm with None => Err "otlp: marshal ResourceMetrics" | Some body => Ok (field1 body) end.

Fixpoint wrap_logs (l : list ResourceLogs) (wrapped : string) : result string string :=
  match l with
  | [] => Ok wrapped
  | rl :: l => match marshal_RL rl with
               | None => Err "otlp: marshal ResourceLogs"
               | Some body => wrap_logs l (wrapped +:+ field1 body)
               end
  end.

Definition EncodeLogs (identity : gmap string string) (logs : list LogRecord) : result string string :=
  wrap_logs (encode_logs identity logs) "".
End bytes.

(** ** The comparators are lexicographic orders *)

Lemma labelKey_inj m1 m2 : labelKey m1 = labelKey m2 <-> m1 = m2.
Proof. split; [|by intros ->]. intros Heq. by apply sorted_kvs_inj, lp_pairs_inj. Qed.

Lemma string_lt_spec a b :
  (string_lt a b = true -> String.le a b /\ a <> b) /\ (string_lt a b = false -> String.le b a).
Proof.
  unfold string_lt. pose proof (total String.le a b) as Htot. unfold String.le in *.
  destruct (String.leb a b) eqn:Hab; simpl.
  - case_bool_decide as Heq; simpl; split; try done. intros _. by subst.
  - split; [done|]. intros _. by destruct Htot.
Qed.

(** Order by [f] first, then by [R]. *)
Definition lex {A B} (f : A -> B) (le : relation B) (R : relation A) : relation A :=
  fun x y => (f x <> f y /\ le (f x) (f y)) \/ (f x = f y /\ R x y).

Lemma lex_trans {A B} (f : A -> B) le (R : relation A) :
  PartialOrder le -> Transitive R -> Transitive (lex f le R).
Proof.
  intros [? Hanti] HR x y z [[H1 H2]|[H1 H2]] [[H3 H4]|[H3 H4]].
  - left. split; [|by etrans]. intros Heq. rewrite <-Heq in H4. by apply H1, (anti_symm le).
  - left. by rewrite <-H3.
  - left. by rewrite H1.
  - right. split; [congruence|by etrans].
Qed.

Lemma lex_antisym {A B} (f : A -> B) le (R : relation A) x y :
  PartialOrder le -> lex f le R x y -> lex f le R y x -> f x = f y /\ R x y /\ R y x.
Proof.
  intros [? Hanti] [[H1 H2]|[H1 H2]] [[H3 H4]|[H3 H4]]; try congruence; [|done].
  destruct H1. by apply (anti_symm le).
Qed.

Definition sample_le : relation Sample :=
  lex s_Name String.le (lex s_Unit String.le (lex (fun s => labelKey (s_Labels s)) String.le
    (fun a b => (s_Timestamp a <= s_Timestamp b)%Z))).

Definition log_le : relation LogRecord :=
  lex l_Timestamp Z.le (lex l_Severity String.le (lex (fun r => labelKey (l_RecordAttributes r)) String.le
    (fun a b => String.le (l_TraceID a) (l_TraceID b)))).

#[local] Instance Zle_trans' {A} (f : A -> Z) : Transitive (fun a b => (f a <= f b)%Z).
Proof. intros a b c. lia. Qed.
#[local] Instance strle_trans' {A} (f : A -> string) : Transitive (fun a b => String.le (f a) (f b)).
Proof. intros a b c ? ?. by etrans. Qed.

#[export] Instance sample_le_trans : Transitive sample_le.
Proof. repeat (apply lex_trans; [apply _|]). apply _. Qed.
#[export] Instance log_le_trans : Transitive log_le.
Proof. repeat (apply lex_trans; [apply _|]). apply _. Qed.

(** A comparator agrees with an order when it is true only upwards and false
    only downwards. *)
Definition agrees {A} (lt : bool) (R : relation A) (a b : A) : Prop :=
  (lt = true -> R a b) /\ (lt = false -> R b a).

Lemma agrees_lex {A} (f : A -> string) (rest : bool) (R : relation A) a b :
  agrees rest R a b ->
  agrees (if negb (bool_decide (f a = f b)) then string_lt (f a) (f b) else rest) (lex f String.le R) a b.
Proof.
  intros [Ht Hf]. case_bool_decide as Heq; simpl.
  - split; intros Hr; right; [by split; [|apply Ht] | by split; [|apply Hf]].
  - destruct (string_lt_spec (f a) (f b)) as [H1 H2].
    split; intros Hr; left; [by destruct (H1 Hr) | split; [congruence|by apply H2]].
Qed.

Lemma sample_less_agrees a b : agrees (sample_less a b) sample_le a b.
Proof.
  unfold sample_less, sample_le. apply agrees_lex, agrees_lex, (agrees_lex (fun s => labelKey (s_Labels s))).
  unfold Before. split; zbool; intros; done || lia.
Qed.

Lemma log_less_agrees a b : agrees (log_less a b) log_le a b.
Proof.
  unfold log_less, log_le, Equal, Before.
  assert (agrees (if negb (bool_decide (l_Severity a = l_Severity b)) then string_lt (l_Severity a) (l_Severity b)
    else if negb (bool_decide (labelKey (l_RecordAttributes a) = labelKey (l_RecordAttributes b)))
         then string_lt (labelKey (l_RecordAttributes a)) (labelKey (l_RecordAttributes b))
    else string_lt (l_TraceID a) (l_TraceID b))
    (lex l_Severity String.le (lex (fun r => labelKey (l_RecordAttributes r)) String.le
      (fun a b => String.le (l_TraceID a) (l_TraceID b)))) a b) as [Ht Hf].
  { apply agrees_lex, (agrees_lex (fun s => labelKey (l_RecordAttributes s))).
    destruct (string_lt_spec (l_TraceID a) (l_TraceID b)) as [H1 H2]. split; [naive_solver|done]. }
  split; destruct (Z.eqb_spec (l_Timestamp a) (l_Timestamp b)); simpl; intros Hl.
  - right. by split; [|apply Ht].
  - left. apply Z.ltb_lt in Hl. lia.
  - right. by split; [|apply Hf].
  - left. apply Z.ltb_ge in Hl. lia.
Qed.

(** ** Determinism *)

(** Sorting by a comparator gives the same list for every order of the input
    when elements the order cannot tell apart are equal. *)
Lemma stable_sort_canonical {A} (less : A -> A -> bool) (R : relation A) `{!Transitive R} (l k : list A) :
  (forall a b, agrees (less a b) R a b) ->
  (forall a b, a ∈ l -> b ∈ l -> R a b -> R b a -> a = b) ->
  l ≡ₚ k -> stable_sort less l = stable_sort less k.
Proof.
  intros Hag Heq Hp.
  assert (forall l, StronglySorted R (stable_sort less l)) as Hs.
  { intros l'. apply stable_sort_sorted; [done|..]; intros a b; apply Hag. }
  eapply StronglySorted_unique_strong; [|apply Hs..|by rewrite !stable_sort_perm].
  intros a b Ha Hb. rewrite stable_sort_perm in Ha, Hb. rewrite <-Hp in Hb. by apply Heq.
Qed.

(** No two samples share series and timestamp (the state [CoalesceDPM] and the
    per-bucket split leave a settled batch in). *)
Definition distinct_points (l : list Sample) : Prop :=
  forall a b, a ∈ l -> b ∈ l -> s_Name a = s_Name b -> s_Unit a = s_Unit b ->
    s_Labels a = s_Labels b -> s_Timestamp a = s_Timestamp b -> a = b.

Lemma sorted_samples_canonical l k :
  distinct_points l -> l ≡ₚ k -> stable_sort sample_less l = stable_sort sample_less k.
Proof.
  intros Hd. apply (stable_sort_canonical _ sample_le); [apply sample_less_agrees|].
  intros a b Ha Hb Hab Hba.
  apply lex_antisym in Hab as (Hn & Hab & Hba'); [|apply _|done]. clear Hba.
  apply lex_antisym in Hab as (Hu & Hab & Hba); [|apply _|done]. clear Hba'.
  apply lex_antisym in Hab as (Hl & Hab & Hba'); [|apply _|done].
  apply labelKey_inj in Hl. apply Hd; try done. lia.
Qed.

(** Re-emitting a settled batch is byte-identical: whatever order the
    samples arrive in (and whatever order Go ranges over label maps), [Encode]
    returns the same bytes, or the same error. *)
Theorem Encode_deterministic marshal_RM field1 identity samples samples' :
  distinct_points samples -> samples ≡ₚ samples' ->
  Encode marshal_RM field1 identity samples = Encode marshal_RM field1 identity samples'.
Proof.
  intros Hd Hp. unfold Encode, encode_metrics. by rewrite (sorted_samples_canonical _ _ Hd Hp).
Qed.

(** ** One metric per name and unit *)

Definition sample_id (s : Sample) : string * string := (s_Name s, s_Unit s).
Definition metric_id (m : Metric) : string * string := (m_Name m, m_Unit m).

(** The order is convex: what lies between two samples of a metric belongs to
    it too. *)
Lemma sample_le_convex a b c :
  sample_le a b -> sample_le b c -> sample_id a = sample_id c -> sample_id a = sample_id b.
Proof.
  unfold sample_id. intros Hab Hbc [= Hn Hu].
  assert (lex s_Name String.le (lex s_Unit String.le (fun _ _ => True)) a b) as Hab'
    by (destruct Hab as [?|[? [?|[? ?]]]]; [by left|by right; split; [|left]|by right; split; [|right]]).
  assert (lex s_Name String.le (lex s_Unit String.le (fun _ _ => True)) b a) as Hba'.
  { unfold lex. rewrite Hn, Hu. destruct Hbc as [?|[? [?|[? ?]]]]; auto 6. }
  apply lex_antisym in Hab' as (-> & Hab' & Hba''); [|apply _|done].
  by apply lex_antisym in Hab' as (-> & _ & _); [|apply _|].
Qed.

(** The state of the grouping loop: finished metrics and the open one are
    pairwise distinct, and none of the finished ones can come back. *)
Definition open_id (cur : option Metric) : list (string * string) :=
  match cur with Some m => [metric_id m] | None => [] end.

Definition points_of (done_ : list Metric) (cur : option Metric) : list NumberDataPoint :=
  mjoin (m_Gauge <$> rev done_) ++ match cur with Some m => rev (m_Gauge m) | None => [] end.

Lemma build_metrics_points l done_ cur ms :
  build_metrics l done_ cur = Ok ms ->
  mjoin (m_Gauge <$> ms) = points_of done_ cur ++ (data_point <$> l).
Proof.
  revert done_ cur. induction l as [|s l IH]; intros done_ cur; simpl.
  - intros [= <-]. unfold points_of. rewrite app_nil_r. destruct cur; simpl; [|by rewrite app_nil_r].
    rewrite fmap_app, join_app. simpl. by rewrite app_nil_r.
  - case_decide; [done|]. case_decide; [done|].
    destruct cur as [m|]; [case_decide|]; intros H'%IH; rewrite H'; unfold points_of; simpl.
    + by rewrite <-!app_assoc.
    + rewrite fmap_app, join_app. simpl. by rewrite app_nil_r, <-!app_assoc.
    + by rewrite <-!app_assoc.
Qed.

Lemma build_metrics_ids l done_ cur ms :
  StronglySorted sample_le l ->
  NoDup (open_id cur ++ (metric_id <$> done_)) ->
  (forall s, s ∈ l -> sample_id s ∉ metric_id <$> done_) ->
  (forall m, cur = Some m -> exists s0, sample_id s0 = metric_id m /\ Forall (sample_le s0) l) ->
  build_metrics l done_ cur = Ok ms -> NoDup (metric_id <$> ms).
Proof.
  intros Hs. revert done_ cur. induction Hs as [|s l Hs IH Hle]; intros done_ cur Hnd Hdone Hcur; simpl.
  - intros [= <-]. rewrite <-Permutation_rev. by destruct cur.
  - case_decide; [done|]. case_decide; [done|].
    assert (forall s', s' ∈ l -> sample_id s' ∉ metric_id <$> done_) as Hdone' by (intros; apply Hdone; by right).
    destruct cur as [m|]; [case_decide as Hsame|].
    + apply IH; [done|done|]. intros m' [= <-]. destruct (Hcur m eq_refl) as (s0 & Hid & HF).
      exists s0. split; [done|]. by inversion HF.
    + destruct (Hcur m eq_refl) as (s0 & Hid & HF). inversion HF as [|? ? Hs0 HF']; subst.
      assert (sample_id s <> metric_id m) as Hne by (intros [= ? ?]; by apply Hsame).
      apply IH.
      * simpl. constructor; [|done]. rewrite elem_of_cons. intros [Heq|Hin]; [done|].
        eapply (Hdone s); [left|done].
      * simpl. intros s' Hs'. rewrite elem_of_cons. intros [Heq|Hin]; [|by eapply Hdone'].
        change (sample_id s' = metric_id m) in Heq. rewrite <-Hid in Heq.
        rewrite Forall_forall in Hle. rewrite (sample_le_convex s0 s s') in Hid; [done|done|by apply Hle|done].
      * intros m' [= <-]. by exists s.
    + apply IH; [|done|].
      * simpl. constructor; [|done]. eapply (Hdone s). left.
      * intros m' [= <-]. by exists s.
Qed.

(** An encoded batch has one Metric per (name, unit) and carries every
    sample exactly once, in the sorted order. *)
Theorem encode_metrics_grouped identity samples rm :
  encode_metrics identity samples = Ok rm ->
  NoDup (metric_id <$> rm_Metrics rm) /\
  mjoin (m_Gauge <$> rm_Metrics rm) = data_point <$> stable_sort sample_less samples /\
  mjoin (m_Gauge <$> rm_Metrics rm) ≡ₚ data_point <$> samples.
Proof.
  unfold encode_metrics. destruct (build_metrics _ [] None) as [ms|] eqn:Hb; [|done]. intros [= <-]. simpl.
  pose proof (build_metrics_points _ _ _ _ Hb) as Hp. simpl in Hp.
  split_and!; [|done|by rewrite Hp, stable_sort_perm].
  apply (build_metrics_ids _ [] None ms) in Hb; [done| |constructor|set_solver|done].
  apply stable_sort_sorted; [apply _|..]; intros a b; apply sample_less_agrees.
Qed.

(** ** Logs *)

Lemma group_logs_lookup logs groups k :
  group_logs logs groups !! k =
  match filter (fun lr => labelKey (l_IndexedAttributes lr) = k) logs with
  | [] => groups !! k
  | lr :: rest => let '(ix, recs) := default (l_IndexedAttributes lr, []) (groups !! k) in
                  Some (ix, recs ++ lr :: rest)
  end.
Proof.
  revert groups. induction logs as [|lr logs IH]; intros groups; simpl; [done|].
  rewrite filter_cons.
  destruct (default (l_IndexedAttributes lr, []) (groups !! labelKey (l_IndexedAttributes lr))) as [ix recs] eqn:E.
  rewrite IH. destruct (decide (labelKey (l_IndexedAttributes lr) = k)) as [<-|Hne].
  - rewrite E, lookup_insert_eq. destruct (filter _ logs); [done|]. simpl. by rewrite <-app_assoc.
  - by rewrite lookup_insert_ne.
Qed.

(** The group of a key: its attribute set and the records that carry it. *)
Lemma group_logs_empty logs k :
  group_logs logs ∅ !! k =
  match filter (fun lr => labelKey (l_IndexedAttributes lr) = k) logs with
  | [] => None
  | lr :: rest => Some (l_IndexedAttributes lr, lr :: rest)
  end.
Proof. rewrite group_logs_lookup, lookup_empty. by destruct (filter _ logs). Qed.

(** Records that agree in everything but the body are equal once the guard has
    emptied the bodies. *)
Lemma log_le_antisym a b :
  l_Body a = "" -> l_Body b = "" -> l_IndexedAttributes a = l_IndexedAttributes b ->
  log_le a b -> log_le b a -> a = b.
Proof.
  intros Ba Bb Hi Hab Hba.
  apply lex_antisym in Hab as (Ht & Hab & Hba'); [|apply _|done]. clear Hba.
  apply lex_antisym in Hab as (Hs & Hab & Hba); [|apply _|done]. clear Hba'.
  apply lex_antisym in Hab as (Hl & Hab & Hba'); [|apply _|done].
  apply labelKey_inj in Hl. apply (anti_symm String.le) in Hab; [|done].
  destruct a, b; simpl in *; congruence.
Qed.

Lemma encode_group_canonical identity logs logs' k :
  Forall (fun lr => l_Body lr = "") logs -> logs ≡ₚ logs' ->
  encode_group identity <$> group_logs logs ∅ !! k = encode_group identity <$> group_logs logs' ∅ !! k.
Proof.
  intros HB Hp. rewrite !group_logs_empty.
  set (P := fun lr => labelKey (l_IndexedAttributes lr) = k).
  assert (filter P logs ≡ₚ filter P logs') as Hf by (by rewrite Hp).
  assert (forall a, a ∈ filter P logs -> labelKey (l_IndexedAttributes a) = k /\ l_Body a = "") as Hin.
  { intros a [Ha Hin]%list_elem_of_filter. rewrite Forall_forall in HB. split; [done|by apply HB]. }
  destruct (filter P logs) as [|a l] eqn:E1, (filter P logs') as [|b l'] eqn:E2; try done.
  { by apply Permutation_nil_l in Hf. } { by apply Permutation_nil_r in Hf. }
  simpl. f_equal. unfold encode_group; simpl.
  assert (l_IndexedAttributes a = l_IndexedAttributes b) as ->.
  { apply labelKey_inj. destruct (Hin a) as [-> _]; [left|]. destruct (Hin b) as [-> _]; [|done]. rewrite Hf. left. }
  do 2 f_equal. apply (stable_sort_canonical _ log_le); [apply log_less_agrees| |done].
  intros x y [Hx Hbx]%Hin [Hy Hby]%Hin. apply log_le_antisym; [done..|]. apply labelKey_inj. congruence.
Qed.

(** A re-emitted log chunk is byte-identical: for guard-sanitised records
    (empty bodies) [EncodeLogs] does not depend on their order. *)
Theorem EncodeLogs_deterministic marshal_RL field1 identity logs logs' :
  Forall (fun lr => l_Body lr = "") logs -> logs ≡ₚ logs' ->
  EncodeLogs marshal_RL field1 identity logs = EncodeLogs marshal_RL field1 identity logs'.
Proof.
  intros HB Hp. unfold EncodeLogs. f_equal. unfold encode_logs.
  assert (sorted_keys (group_logs logs ∅) = sorted_keys (group_logs logs' ∅)) as ->.
  { apply sort_strings_unique. assert (forall l, (map_to_list (group_logs l ∅)).*1 ≡ₚ elements (dom (group_logs l ∅))) as Hd.
    { intros l. apply NoDup_Permutation; [apply NoDup_fst_map_to_list|apply NoDup_elements|].
      intros k. rewrite elem_of_elements, elem_of_dom, list_elem_of_fmap. split.
      - intros ([k' v] & -> & Hkv%elem_of_map_to_list). by eexists.
      - intros [v Hv]. exists (k, v). split; [done|]. by apply elem_of_map_to_list. }
    rewrite !Hd. apply NoDup_Permutation; [apply NoDup_elements..|]. intros k.
    rewrite !elem_of_elements, !elem_of_dom, <-!(fmap_is_Some (encode_group identity)).
    by rewrite (encode_group_canonical _ _ _ _ HB Hp). }
  apply list_omap_ext, Forall_Forall2_diag, Forall_forall. intros k _. by apply encode_group_canonical.
Qed.

(** ** A concrete batch *)

Module Sim.
Definition point (name label : string) (ts : Time) : Sample :=
  mkSample name Gauge TempUnset false "1" {[ "org" := label ]} (f64_of_Z 3) (unixToInternal * Second + ts).
Definition samples : list Sample := [point "tokens" "b" 60; point "cost" "a" 60; point "tokens" "a" 60].
Definition shuffled : list Sample := [point "tokens" "a" 60; point "tokens" "b" 60; point "cost" "a" 60].
Definition log (sev : string) : LogRecord := mkLogRecord (unixToInternal * Second) "" sev {[ "org" := "a" ]} {[ "k" := "v" ]} "".
Definition logs : list LogRecord := [log "warn"; log "info"].
Definition identity : gmap string string := {[ "service.name" := "bridge" ]}.
(** A printer that lists the metric and record identities. *)
Definition marshal_RM (rm : ResourceMetrics) : option string := Some (String.concat "," (m_Name <$> rm_Metrics rm)).
Definition marshal_RL (rl : ResourceLogs) : option string := Some (String.concat "," (ol_SeverityText <$> rl_Records rl)).
Definition field1 (s : string) : string := "#" +:+ lp s.
Definition metrics : ResourceMetrics :=
  match encode_metrics identity samples with Ok rm => rm | Err _ => mkRM [] "" [] end.
End Sim.

Lemma Encode_deterministic_witness :
  Encode Sim.marshal_RM Sim.field1 Sim.identity Sim.samples = Ok "#11:cost,tokens" /\
  Encode Sim.marshal_RM Sim.field1 Sim.identity Sim.samples = Encode Sim.marshal_RM Sim.field1 Sim.identity Sim.shuffled.
Proof.
  split; [vm_compute; reflexivity|]. apply Encode_deterministic.
  - intros a b Ha Hb. unfold Sim.samples in Ha, Hb. rewrite !elem_of_cons, elem_of_nil in Ha, Hb.
    intros Hn _ Hl _. apply (f_equal (lookup "org")) in Hl.
    destruct Ha as [->|[->|[->|[]]]]; destruct Hb as [->|[->|[->|[]]]]; solve [reflexivity|discriminate Hn|discriminate Hl].
  - exact (Permutation_app_comm [Sim.point "tokens" "b" 60; Sim.point "cost" "a" 60] [Sim.point "tokens" "a" 60]).
Defined.

Lemma encode_metrics_grouped_witness :
  (metric_id <$> rm_Metrics Sim.metrics) = [("cost", "1"); ("tokens", "1")] /\
  NoDup (metric_id <$> rm_Metrics Sim.metrics).
Proof.
  split; [vm_compute; reflexivity|].
  assert (encode_metrics Sim.identity Sim.samples = Ok Sim.metrics) as Hrun by (vm_compute; reflexivity).
  exact (proj1 (encode_metrics_grouped _ _ _ Hrun)).
Defined.

Lemma EncodeLogs_deterministic_witness :
  EncodeLogs Sim.marshal_RL Sim.field1 Sim.identity Sim.logs = Ok "#9:info,warn" /\
  EncodeLogs Sim.marshal_RL Sim.field1 Sim.identity Sim.logs =
  EncodeLogs Sim.marshal_RL Sim.field1 Sim.identity (rev Sim.logs).
Proof.
  split; [vm_compute; reflexivity|]. apply EncodeLogs_deterministic.
  - repeat constructor.
  - exact (Permutation_rev Sim.logs).
Defined.
