(* ===== verification/OtlpEmitter.v ===== *)
(** * The OTLP/HTTP emitter (internal/emit/otlp/otlp.go, partial_success.go)

    Encoding, size-driven splitting, the retry loop and the classification of
    the gateway's answers.  One HTTP round trip, the clock, the timer, the
    random source and the hooks are operations of a world [W]; the client's
    timeout and redirect policy are the emitter's.  The protobuf, gzip, base64
    and Unicode libraries are parameters. *)

From S2P Require Import Prelude Model Emit OtlpEncode.

(** ** Strings *)

Fixpoint trim_right_slash (s : string) : string :=
  match s with
  | EmptyString => ""
  | String a s' =>
      match trim_right_slash s' with
      | EmptyString => if Ascii.eqb a "/"%char then "" else String a ""
      | r => String a r
      end
  end.

Definition trunc (s : string) : string := if decide (256 < slen s) then string_take 256 s else s.

(** ** Configuration *)

Record RetryPolicy := mkRetryPolicy {
  InitialDelay : Duration; MaxDelay : Duration; MaxElapsed : Duration;
  Multiplier : spec_float; Jitter : spec_float }.

Definition f_1_5 : spec_float := Eval vm_compute in f64_div (f64_of_Z 3) (f64_of_Z 2).
Definition f_0_5 : spec_float := Eval vm_compute in f64_div (f64_of_Z 1) (f64_of_Z 2).

Definition DefaultRetryPolicy : RetryPolicy :=
  mkRetryPolicy (5 * Second) (30 * Second) (5 * Minute) f_1_5 f_0_5.

Record Config := mkConfig {
  Endpoint : string; InstanceID : string; Token : string;
  Identity : gmap string string; MaxBytes : Z; Retry : RetryPolicy;
  HasObserver : bool; HasOnPartialReject : bool }.

(** What a [CheckRedirect] of [http.Client] answers: [http.ErrUseLastResponse],
    or nil to follow the redirect. *)
Inductive RedirectVerdict := ErrUseLastResponse | FollowRedirect.

(** [hc_Timeout] and [hc_CheckRedirect] are the fields of its [http.Client]. *)
Record Emitter := mkEmitter {
  e_cfg : Config; e_url : string; e_logsURL : string; e_auth : string;
  hc_Timeout : Duration; hc_CheckRedirect : RedirectVerdict }.

(** [cfg.Retry == (RetryPolicy{})]. *)
Definition policy_unset (p : RetryPolicy) : bool :=
  ((InitialDelay p =? 0) && (MaxDelay p =? 0) && (MaxElapsed p =? 0))%Z
  && SFeqb (Multiplier p) (S754_zero false) && SFeqb (Jitter p) (S754_zero false).

Definition with_retry (cfg : Config) (p : RetryPolicy) : Config :=
  mkConfig (Endpoint cfg) (InstanceID cfg) (Token cfg) (Identity cfg) (MaxBytes cfg) p
    (HasObserver cfg) (HasOnPartialReject cfg).

Definition new_emitter (base64 : string -> string) (cfg : Config) : Emitter :=
  let cfg := if policy_unset (Retry cfg) then with_retry cfg DefaultRetryPolicy else cfg in
  let base := trim_right_slash (Endpoint cfg) in
  let auth := if decide (InstanceID cfg <> "" \/ Token cfg <> "")
              then "Basic " +:+ base64 (InstanceID cfg +:+ ":" +:+ Token cfg) else "" in
  mkEmitter cfg (base +:+ "/v1/metrics") (base +:+ "/v1/logs") auth (30 * Second) ErrUseLastResponse.

(** ** Classification *)

Definition redactSecrets (e : Emitter) (s : string) : string :=
  fold_left (fun s secret => if decide (1 < slen secret) then ReplaceAll s secret "[REDACTED]" else s)
    [TrimPrefix (e_auth e) "Basic "; Token (e_cfg e); InstanceID (e_cfg e) +:+ ":" +:+ Token (e_cfg e)] s.

Definition isRetryable (status : Z) (transport_err : bool) : bool :=
  transport_err || (status =? 429)%Z || (status =? 502)%Z || (status =? 503)%Z || (status =? 504)%Z.

Definition dup_strings : list string :=
  ["err-mimir-sample-duplicate-timestamp"; "duplicate-timestamp"; "duplicate sample"].
Definition old_strings : list string :=
  ["err-mimir-sample-out-of-order"; "err-mimir-sample-timestamp-too-old"; "err-mimir-sample-out-of-bounds";
   "out-of-order"; "out of order"; "too old"; "too-old"; "too far in past";
   "entry out of order"; "too far behind"; "greater than max age"; "max_age"].
Definition bad_strings : list string :=
  ["failed to parse"; "malformed"; "proto:"; "invalid request body"; "bad request body"].

Definition classify (uni : string -> string) (status : Z) (body : string) : RejectError :=
  if (status =? 413)%Z then mkReject ReasonPayloadTooLarge 413 (trunc body)
  else
    let low := ToLower uni body in
    let has := existsb (fun s => contains low s) in
    if has dup_strings then mkReject ReasonDuplicateTimestamp status (trunc body)
    else if has old_strings then mkReject ReasonTooOld status (trunc body)
    else if has bad_strings then mkReject ReasonBadEncoding status (trunc body)
    else mkReject ReasonUnknown status (trunc body).

(** [strconv.Atoi] on a 64-bit platform. *)
Definition Atoi (s : string) : option Z := ParseInt s.

Definition parseRetryAfter (trim_uni : string -> string) (http_ParseTime : string -> option Time)
    (v : string) (now : Time) : Duration :=
  let v := TrimSpace trim_uni v in
  if decide (v = "") then 0%Z
  else match Atoi v with
       | Some secs => if (secs <=? 0)%Z then 0%Z else wrap64 (secs * Second)
       | None => match http_ParseTime v with
                 | Some t => let d := Sub t now in if (0 <? d)%Z then d else 0%Z
                 | None => 0%Z
                 end
       end.

(** The jittered wait, [r] being the value [rand.Float64()] returned. *)
Definition jitter_by (d : Duration) (j r : spec_float) : Duration :=
  wrap64 (d + int64_of_f64 (f64_mul (f64_mul (f64_of_Z d) j) (f64_sub (f64_mul r (f64_of_Z 2)) (f64_of_Z 1)))).

Definition next_delay (p : RetryPolicy) (delay : Duration) : Duration :=
  let d := int64_of_f64 (f64_mul (f64_of_Z delay) (Multiplier p)) in
  if (MaxDelay p <? d)%Z then MaxDelay p else d.

(** ** Partial success *)

Section partial_success.
(** google.golang.org/protobuf/encoding/protowire: field number, wire type and
    consumed length; [None] for a negative length. *)
Context (ConsumeTag : string -> option (Z * Z * nat)).
Context (ConsumeVarint : string -> option (Z * nat)).
Context (ConsumeBytes : string -> option (string * nat)).
Context (ConsumeFieldValue : Z -> Z -> string -> option nat).

Definition VarintType : Z := 0.
Definition BytesType : Z := 2.

(** [fieldBytes]; every iteration consumes a tag, so the length bounds them. *)
Fixpoint fieldBytes (fuel : nat) (b : string) (num : Z) (out : option string) : option string :=
  match fuel with
  | 0 => out
  | S fuel =>
      if decide (b = "") then out else
      match ConsumeTag b with
      | None => out
      | Some (n, typ, tl) =>
          let b := string_drop tl b in
          if ((n =? num) && (typ =? BytesType))%Z then
            match ConsumeBytes b with
            | None => out
            | Some (v, vl) => fieldBytes fuel (string_drop vl b) num (Some v)
            end
          else
            match ConsumeFieldValue n typ b with
            | None => out
            | Some vl => fieldBytes fuel (string_drop vl b) num out
            end
      end
  end.

Fixpoint decode_sub (fuel : nat) (sub : string) (rejected : Z) (msg : string) : Z * string :=
  match fuel with
  | 0 => (rejected, msg)
  | S fuel =>
      if decide (sub = "") then (rejected, msg) else
      match ConsumeTag sub with
      | None => (0%Z, "")
      | Some (num, typ, tl) =>
          let sub := string_drop tl sub in
          if ((num =? 1) && (typ =? VarintType))%Z then
            match ConsumeVarint sub with
            | None => (0%Z, "")
            | Some (v, vl) => decode_sub fuel (string_drop vl sub) (wrap64 v) msg
            end
          else if ((num =? 2) && (typ =? BytesType))%Z then
            match ConsumeBytes sub with
            | None => (0%Z, "")
            | Some (b, vl) => decode_sub fuel (string_drop vl sub) rejected b
            end
          else
            match ConsumeFieldValue num typ sub with
            | None => (0%Z, "")
            | Some vl => decode_sub fuel (string_drop vl sub) rejected msg
            end
      end
  end.

Definition decodePartialSuccess (body : string) : Z * string :=
  match fieldBytes (S (slen body)) body 1 None with
  | None => (0%Z, "")
  | Some sub => decode_sub (S (slen sub)) sub 0%Z ""
  end.

Context (tag_consumes : forall b r, ConsumeTag b = Some r -> 1 <= r.2).

Lemma nonempty_length s : s <> "" -> 1 <= slen s.
Proof. destruct s; simpl; [done|lia]. Qed.

(** The length of the message bounds the iterations: more fuel changes nothing. *)
Lemma decode_sub_fuel f1 f2 sub rej msg :
  slen sub < f1 -> slen sub < f2 -> decode_sub f1 sub rej msg = decode_sub f2 sub rej msg.
Proof.
  revert f2 sub rej msg. induction f1 as [|f1 IH]; intros [|f2] sub rej msg H1 H2; try lia. simpl.
  case_decide as Hne; [done|]. apply nonempty_length in Hne.
  destruct (ConsumeTag sub) as [[[n t] tl]|] eqn:Ht; [|done]. apply tag_consumes in Ht. simpl in Ht.
  repeat case_match; try done; apply IH; rewrite !string_drop_length; lia.
Qed.

(** A body whose tail is malformed still reports the reject that precedes the
    garbage. *)
Lemma decodePartialSuccess_malformed_tail body tl v vl :
  body <> "" -> ConsumeTag body = Some (1%Z, BytesType, tl) ->
  ConsumeBytes (string_drop tl body) = Some (v, vl) ->
  string_drop vl (string_drop tl body) <> "" -> ConsumeTag (string_drop vl (string_drop tl body)) = None ->
  decodePartialSuccess body = decode_sub (S (slen v)) v 0%Z "".
Proof.
  intros Hb Ht Hv Hr Hm. unfold decodePartialSuccess. simpl. rewrite decide_False by done. rewrite Ht. simpl. rewrite Hv.
  apply nonempty_length in Hb. destruct (slen body) as [|n]; [lia|]. simpl. rewrite decide_False by done. by rewrite Hm.
Qed.

End partial_success.

(** ** The retry loop *)

Inductive HttpResult :=
| RequestErr                                            (* http.NewRequest failed *)
| TransportErr                                          (* client.Do failed *)
| Response (status : Z) (body : string) (retryAfter : string).

Inductive EmitEvent :=
| Observed (plane : string) (status : Z) (transport_err : bool)
| PartialReject (plane : string) (rejected : Z) (msg : string).

(** What one POST comes back with; [Redirected] is a 3xx answer that names a
    location the client may follow. *)
Inductive RoundTrip :=
| Answered (r : HttpResult)
| Redirected (r : HttpResult) (location : string).

Class HttpWorld (W : Type) := {
  http_Post : Duration -> string -> string -> string -> W -> RoundTrip * W;  (* timeout, url, auth, body *)
  http_Follow : Duration -> string -> W -> HttpResult * W;      (* what a redirect that is followed ends with *)
  clock : W -> Time;
  ctx_sleep : Duration -> W -> bool * W;                        (* false: cancelled *)
  rand_Float64 : W -> spec_float * W;
  notify : EmitEvent -> W -> W
}.

Section emitter.
Context (uni : string -> string) (trim_uni : string -> string) (http_ParseTime : string -> option Time).
Context (decode_partial : string -> Z * string).
Context (e : Emitter).
Context {W : Type} `{HttpWorld W}.

Definition plane_of (url : string) : string := if decide (url = e_logsURL e) then "logs" else "metrics".

Definition jittered (d : Duration) (j : spec_float) (w : W) : Duration * W :=
  if SFleb j (S754_zero false) then (d, w)
  else let '(r, w) := rand_Float64 w in (jitter_by d j r, w).

(** [e.hc.Do]: the redirect policy decides what a 3xx with a location becomes. *)
Definition hc_Do (url gz : string) (w : W) : HttpResult * W :=
  match http_Post (hc_Timeout e) url (e_auth e) gz w with
  | (Answered r, w) => (r, w)
  | (Redirected r location, w) =>
      match hc_CheckRedirect e with
      | ErrUseLastResponse => (r, w)
      | FollowRedirect => http_Follow (hc_Timeout e) location w
      end
  end.

(** Status, body, Retry-After, whether the attempt failed in transport. *)
Definition doOnce (url gz : string) (w : W) : Z * string * Duration * bool * W :=
  match hc_Do url gz w with
  | (RequestErr, w) => (0%Z, "", 0%Z, true, w)
  | (TransportErr, w) =>
      let w := if HasObserver (e_cfg e) then notify (Observed (plane_of url) 0 true) w else w in
      (0%Z, "", 0%Z, true, w)
  | (Response status body ra, w) =>
      let w := if HasObserver (e_cfg e) then notify (Observed (plane_of url) status false) w else w in
      (status, string_take 4096 body, parseRetryAfter trim_uni http_ParseTime ra (clock w), false, w)
  end.

(** What one attempt decides: return, or wait and try again. *)
Inductive Verdict := Return (r : option EmitErr) | Again.

Definition judge (url : string) (status : Z) (rawBody : string) (err : bool) (w : W) : Verdict * W :=
  let respBody := redactSecrets e rawBody in
  if negb err && (200 <=? status)%Z && (status <? 300)%Z then
    let '(n, msg) := decode_partial rawBody in
    let w := if HasOnPartialReject (e_cfg e) && (0 <? n)%Z
             then notify (PartialReject (plane_of url) n (redactSecrets e msg)) w else w in
    (Return None, w)
  else if (400 <=? status)%Z && (status <? 500)%Z && negb (status =? 429)%Z then
    (Return (Some (ERejected (classify uni status respBody))), w)
  else if isRetryable status err then (Again, w)
  else (Return (Some (ERetryable (mkRetryable status "non-retryable-inline status"))), w).

(** The loop of [post]; [None] when [fuel] ran out. *)
Fixpoint post_loop (fuel : nat) (url gz : string) (delay : Duration) (deadline : Time) (w : W)
    : option (option EmitErr) * W :=
  match fuel with
  | 0 => (None, w)
  | S fuel =>
      let p := Retry (e_cfg e) in
      let '(status, rawBody, retryAfter, err, w) := doOnce url gz w in
      match judge url status rawBody err w with
      | (Return r, w) => (Some r, w)
      | (Again, w) =>
          let now := clock w in
          if After now deadline then
            (Some (Some (ERetryable (mkRetryable status "retry budget exhausted"))), w)
          else
            let '(sleep, w) := jittered delay (Jitter p) w in
            let throttled := (status =? 429)%Z && (0 <? retryAfter)%Z in
            if throttled && (Sub deadline now <? retryAfter)%Z then
              (Some (Some (ERetryable (mkRetryable status "429 Retry-After exceeds remaining retry budget"))), w)
            else
              let sleep := if throttled && (sleep <? retryAfter)%Z then retryAfter else sleep in
              match ctx_sleep sleep w with
              | (false, w) => (Some (Some (ERetryable (mkRetryable status "context cancelled"))), w)
              | (true, w) => post_loop fuel url gz (next_delay p delay) deadline w
              end
      end
  end.

Definition post (fuel : nat) (url gz : string) (w : W) : option (option EmitErr) * W :=
  let p := Retry (e_cfg e) in
  post_loop fuel url gz (InitialDelay p) (Add (clock w) (MaxElapsed p)) w.

(** The gateway answered [url] with [status] and (limited) [body]. *)
Definition answered (url gz : string) (status : Z) (body : string) : Prop :=
  exists w ra w', doOnce url gz w = (status, body, ra, false, w').

(** [url] itself answered the POST with [status] and (limited) [body], within
    thirty seconds. *)
Definition posted (url gz : string) (status : Z) (body : string) : Prop :=
  exists w full ra, body = string_take 4096 full /\
    ((http_Post (30 * Second) url (e_auth e) gz w).1 = Answered (Response status full ra) \/
     exists location, (http_Post (30 * Second) url (e_auth e) gz w).1 = Redirected (Response status full ra) location).

(** Of an emitter that [New] built. *)
Lemma answered_posted base64 cfg url gz status body :
  e = new_emitter base64 cfg -> answered url gz status body -> posted url gz status body.
Proof.
  intros He (w & ra & w' & Hd). unfold doOnce, hc_Do in Hd.
  assert (hc_Timeout e = (30 * Second)%Z /\ hc_CheckRedirect e = ErrUseLastResponse) as [Ht Hr] by (by rewrite He).
  rewrite Ht, Hr in Hd. exists w. clear He Ht Hr.
  destruct (http_Post _ url _ gz w) as [[r|r location] w1]; destruct r as [| |st full ra']; simplify_eq; eauto 6.
Qed.

Definition accepted (url gz : string) : Prop :=
  exists status body, answered url gz status body /\ (200 <= status < 300)%Z.

(** What a returned result says about the gateway's last answer. *)
Lemma post_loop_outcome fuel url gz delay deadline w r w' :
  post_loop fuel url gz delay deadline w = (Some r, w') ->
  match r with
  | None => accepted url gz
  | Some (ERejected re) => exists st body, answered url gz st body /\ (400 <= st < 500)%Z /\ st <> 429%Z /\
                             re = classify uni st (redactSecrets e body)
  | Some (ERetryable _) => True
  | Some (EOther _) => False
  end.
Proof.
  revert delay w. induction fuel as [|fuel IH]; intros delay w; [done|]. cbn [post_loop].
  destruct (doOnce url gz w) as [[[[st body] ra] err] w1] eqn:H1.
  destruct (judge url st body err w1) as [v w2] eqn:H2. unfold judge in H2.
  destruct (decode_partial body) as [n msg].
  destruct (negb err && (200 <=? st)%Z && (st <? 300)%Z) eqn:Hok.
  { apply andb_prop in Hok as [[He%negb_true_iff Hlo%Z.leb_le]%andb_prop Hhi%Z.ltb_lt]. subst err.
    assert (answered url gz st body) by (by exists w, ra, w1).
    simplify_eq. intros [= <- _]. exists st, body. split; [done|lia]. }
  destruct ((400 <=? st)%Z && (st <? 500)%Z && negb (st =? 429)%Z) eqn:Hrej.
  { apply andb_prop in Hrej as [[Hlo%Z.leb_le Hhi%Z.ltb_lt]%andb_prop Hne%negb_true_iff%Z.eqb_neq].
    assert (answered url gz st body) as Hans.
    { exists w, ra, w1. assert (err = false) as <-; [|done].
      unfold doOnce in H1. repeat case_match; simplify_eq; done || lia. }
    simplify_eq. intros [= <- _]. by exists st, body. }
  destruct (isRetryable st err); simplify_eq; [|by intros [= <- _]].
  destruct (After _ _); [by intros [= <- _]|].
  destruct (jittered _ _ w2) as [sl w3]. destruct (_ && (Sub _ _ <? _)%Z); [by intros [= <- _]|].
  destruct (ctx_sleep _ w3) as [[] w4]; [apply IH|by intros [= <- _]].
Qed.

(** ** Splitting *)

Section split.
Context {A : Type} (enc : list A -> result string string) (gzip : string -> option string).
Context (url : string) (post_fuel : nat).

Definition too_large (r : option EmitErr) : bool :=
  match r with
  | Some (ERejected re) => bool_decide (re_Reason re = ReasonPayloadTooLarge)
  | _ => false
  end.

(** [emitSamples]/[emitLogs]; [fuel] bounds the halvings.  The list returned
    with the result records the chunks whose POST was accepted, in order. *)
Fixpoint emit_items (fuel : nat) (items : list A) (w : W) : option (option EmitErr) * list (list A) * W :=
  match fuel with
  | 0 => (None, [], w)
  | S fuel =>
      match enc items with
      | Err msg => (Some (Some (ERejected (mkReject ReasonBadEncoding 0 msg))), [], w)
      | Ok body =>
          match gzip body with
          | None => (Some (Some (EOther "otlp: gzip")), [], w)
          | Some gz =>
              let mid := length items / 2 in
              let halves := fun w =>
                match emit_items fuel (take mid items) w with
                | (Some None, acc, w) =>
                    let '(r, acc', w) := emit_items fuel (drop mid items) w in (r, acc ++ acc', w)
                | (r, acc, w) => (r, acc, w)
                end in
              if (0 <? MaxBytes (e_cfg e))%Z && (MaxBytes (e_cfg e) <? Z.of_nat (slen gz))%Z
                 && bool_decide (1 < length items)
              then halves w
              else
                match post post_fuel url gz w with
                | (None, w) => (None, [], w)
                | (Some r, w) =>
                    if too_large r && bool_decide (1 < length items) then halves w
                    else (Some r, if r is None then [items] else [], w)
                end
          end
      end
  end.

(** *** What a result says about the chunks *)

(** A chunk reached the gateway: its encoding was POSTed and answered 2xx. *)
Definition delivered (items : list A) : Prop :=
  exists body gz, enc items = Ok body /\ gzip body = Some gz /\ accepted url gz.

(** The accepted chunks are delivered, and make up a prefix of the batch: all
    of it when the result is nil. *)
Definition chunks_ok (items : list A) (r : option (option EmitErr)) (acc : list (list A)) : Prop :=
  concat acc `prefix_of` items /\ (r = Some None -> concat acc = items) /\ Forall delivered acc.

Lemma chunks_none items r : r <> Some None -> chunks_ok items r [].
Proof. intros Hr. split_and!; [apply prefix_nil|done|constructor]. Qed.

Lemma emit_items_chunks fuel items w r acc w' :
  emit_items fuel items w = (r, acc, w') -> chunks_ok items r acc.
Proof.
  revert items w r acc w'. induction fuel as [|fuel IH]; intros items w r acc w'; simpl.
  { intros [= <- <- <-]. by apply chunks_none. }
  destruct (enc items) as [body|] eqn:Henc; [|intros [= <- <- <-]; by apply chunks_none].
  destruct (gzip body) as [gz|] eqn:Hgz; [|intros [= <- <- <-]; by apply chunks_none].
  set (mid := length items / 2).
  assert (forall w r acc w', (match emit_items fuel (take mid items) w with
      | (Some None, acc, w) => let '(r, acc', w) := emit_items fuel (drop mid items) w in (r, acc ++ acc', w)
      | (r, acc, w) => (r, acc, w) end) = (r, acc, w') -> chunks_ok items r acc) as Hhalves.
  { clear w r acc w'. intros w r acc w'. destruct (emit_items fuel (take mid items) w) as [[r1 a1] w1] eqn:E1.
    apply IH in E1 as (Hp & Hfull & Hacc).
    assert (concat a1 `prefix_of` items) as Hp' by (etrans; [exact Hp|apply prefix_take]).
    destruct r1 as [[err|]|]; [by intros [= <- <- <-]| |by intros [= <- <- <-]].
    destruct (emit_items fuel (drop mid items) w1) as [[r2 a2] w2] eqn:E2. apply IH in E2 as (Hp2 & Hfull2 & Hacc2).
    intros [= <- <- <-]. unfold chunks_ok. rewrite concat_app, (Hfull eq_refl). split_and!.
    - rewrite <-(take_drop mid items) at 2. by apply prefix_app.
    - intros ->. by rewrite Hfull2, take_drop.
    - by apply Forall_app. }
  destruct (_ && _ && _); [apply Hhalves|].
  destruct (post post_fuel url gz w) as [[r1|] w1] eqn:Hpost; [|intros [= <- <- <-]; by apply chunks_none].
  destruct (too_large r1 && _); [apply Hhalves|]. intros [= <- <- <-].
  destruct r1; [by apply chunks_none|]. apply post_loop_outcome in Hpost.
  unfold chunks_ok; simpl. rewrite app_nil_r. split_and!; [done..|]. repeat constructor. by exists body, gz.
Qed.

Context (post_total : forall gz w, fst (post post_fuel url gz w) <> None).

(** Halving stops: the length of the batch bounds the recursion. *)
Lemma emit_items_total fuel items w :
  length items < fuel -> fst (fst (emit_items fuel items w)) <> None.
Proof.
  revert items w. induction fuel as [|fuel IH]; intros items w Hlen; [lia|]. simpl.
  destruct (enc items) as [body|]; [|done]. destruct (gzip body) as [gz|]; [|done].
  set (mid := length items / 2).
  assert (1 < length items -> forall w, fst (fst (match emit_items fuel (take mid items) w with
      | (Some None, acc, w) => let '(r, acc', w) := emit_items fuel (drop mid items) w in (r, acc ++ acc', w)
      | (r, acc, w) => (r, acc, w) end)) <> None) as Hhalves.
  { intros Hl w0. assert (0 < mid < length items) as Hmid.
    { unfold mid. split; [apply Nat.div_str_pos; lia|apply Nat.div_lt; lia]. }
    pose proof (IH (take mid items) w0) as H1. rewrite length_take in H1. specialize (H1 ltac:(lia)).
    destruct (emit_items fuel (take mid items) w0) as [[[[err|]|] a1] w1]; try done.
    pose proof (IH (drop mid items) w1) as H2. rewrite length_drop in H2. specialize (H2 ltac:(lia)).
    by destruct (emit_items fuel (drop mid items) w1) as [[r2 a2] w2]. }
  destruct (_ && _ && bool_decide (1 < length items)) eqn:Hc.
  - apply andb_prop in Hc as [_ Hc]. apply Hhalves. by apply bool_decide_eq_true in Hc.
  - specialize (post_total gz w). destruct (post post_fuel url gz w) as [[r1|] w1]; [|done].
    destruct (too_large r1 && _) eqn:Hc'; [|done].
    apply andb_prop in Hc' as [_ Hc']. apply Hhalves. by apply bool_decide_eq_true in Hc'.
Qed.
End split.

(** [Emit]: samples to /v1/metrics, then logs to /v1/logs. *)
Definition Emit (encS : list Sample -> result string string) (encL : list LogRecord -> result string string)
    (gzip : string -> option string) (post_fuel : nat) (b : Batch) (w : W) : option (option EmitErr) * W :=
  let logs := fun w =>
    match b_Logs b with
    | [] => (Some None, w)
    | ls => let '(r, _, w) := emit_items encL gzip (e_logsURL e) post_fuel (S (length ls)) ls w in (r, w)
    end in
  match b_Samples b with
  | [] => logs w
  | ss => match emit_items encS gzip (e_url e) post_fuel (S (length ss)) ss w with
          | (Some None, _, w) => logs w
          | (r, _, w) => (r, w)
          end
  end.

(** A batch part was cut into delivered chunks that make it up in order. *)
Definition all_delivered {A} (enc : list A -> result string string) (gzip : string -> option string)
    (url : string) (items : list A) : Prop :=
  exists chunks, concat chunks = items /\ Forall (delivered enc gzip url) chunks.

(** C16: [Emit] returning nil means delivery: the samples and the logs were each
    cut, in order and without loss or duplication, into chunks whose encoding
    was POSTed to its own endpoint and answered 2xx (never a redirect, never a
    retry that was given up).  And whatever an emitter that [New] built takes for
    an answer of an endpoint is that endpoint's own answer to the POST, within
    the client's thirty seconds: its redirect policy never takes the answer of
    another one. *)
Theorem Emit_nil_delivers encS encL gzip post_fuel b w w' :
  Emit encS encL gzip post_fuel b w = (Some None, w') ->
  all_delivered encS gzip (e_url e) (b_Samples b) /\ all_delivered encL gzip (e_logsURL e) (b_Logs b) /\
  (forall base64 cfg url gz status body, e = new_emitter base64 cfg -> answered url gz status body -> posted url gz status body).
Proof.
  intros Hrun. rewrite (assoc and). split; [|intros; by eapply answered_posted]. revert Hrun.
  assert (forall {A} (enc : list A -> result string string) url items w w' acc,
    emit_items enc gzip url post_fuel (S (length items)) items w = (Some None, acc, w') ->
    all_delivered enc gzip url items) as Hpart.
  { intros A enc url items w0 w1 acc (_ & Hfull & Hacc)%emit_items_chunks. exists acc. by rewrite Hfull. }
  assert (forall {A} enc url, all_delivered (A:=A) enc gzip url []) as Hnil by (intros; by exists []).
  unfold Emit. intros Hrun.
  assert (all_delivered encS gzip (e_url e) (b_Samples b) /\ exists w1,
    match b_Logs b with [] => (Some None, w1)
    | ls => let '(r, _, w) := emit_items encL gzip (e_logsURL e) post_fuel (S (length ls)) ls w1 in (r, w)
    end = (Some None, w')) as [HS [w1 Hlogs]].
  { destruct (b_Samples b) as [|s ss]; [by split; [|exists w]|].
    destruct (emit_items encS gzip (e_url e) _ _ (s :: ss) w) as [[[[]|] acc] w1] eqn:E; try done.
    split; [by eapply Hpart|]. by exists w1. }
  split; [done|]. destruct (b_Logs b) as [|l ls]; [done|].
  cbv zeta in Hlogs.
  destruct (emit_items encL gzip (e_logsURL e) post_fuel (S (length (l :: ls))) (l :: ls) w1) as [[r acc] w2] eqn:E.
  simplify_eq. by eapply Hpart.
Qed.

(** A reject is only ever a request-level 4xx answer other than 429,
    classified from its (redacted) body; 3xx, 429, 5xx, transport failures and
    cancellation never produce one, so they never advance the watermark. *)
Theorem post_reject_is_4xx fuel url gz w re w' :
  post fuel url gz w = (Some (Some (ERejected re)), w') ->
  exists st body, answered url gz st body /\ (400 <= st < 500)%Z /\ st <> 429%Z /\
    re = classify uni st (redactSecrets e body).
Proof. apply (post_loop_outcome fuel). Qed.

(** ** The retry budget *)

(** Time does not run backwards and a completed sleep lasts at least as long as
    asked. *)
Class ClockLaws : Prop := {
  clock_Post t u a b w : (clock w <= clock (snd (http_Post t u a b w)))%Z;
  clock_Follow t u w : (clock w <= clock (snd (http_Follow t u w)))%Z;
  clock_rand w : (clock w <= clock (snd (rand_Float64 w)))%Z;
  clock_notify ev w : (clock w <= clock (notify ev w))%Z;
  clock_sleep d w w' : ctx_sleep d w = (true, w') -> (clock w + d <= clock w')%Z
}.
Context `{Laws : ClockLaws}.

Lemma clock_Do url gz w : (clock w <= clock (snd (hc_Do url gz w)))%Z.
Proof.
  unfold hc_Do. pose proof (clock_Post (hc_Timeout e) url (e_auth e) gz w) as Hp.
  destruct (http_Post _ _ _ _ w) as [[r|r location] w1]; [done|]. destruct (hc_CheckRedirect e); [done|].
  etrans; [exact Hp|apply clock_Follow].
Qed.

Lemma clock_doOnce url gz w st body ra err w' :
  doOnce url gz w = (st, body, ra, err, w') -> (clock w <= clock w')%Z.
Proof.
  unfold doOnce. pose proof (clock_Do url gz w). destruct (hc_Do _ _ w) as [[] w1]; simpl in *;
    intros; simplify_eq; try done; destruct (HasObserver _); try done;
    (etrans; [eassumption|apply clock_notify]).
Qed.

Lemma clock_judge url st body err w v w' : judge url st body err w = (v, w') -> (clock w <= clock w')%Z.
Proof.
  unfold judge. destruct (decode_partial body) as [n msg]. intros.
  repeat case_match; simplify_eq; try lia; apply clock_notify.
Qed.

(** [delay] after [n] backoffs. *)
Definition delay_after (n : nat) : Duration := Nat.iter n (next_delay (Retry (e_cfg e))) (InitialDelay (Retry (e_cfg e))).

Context (minSleep : Duration) (minSleep_pos : (0 < minSleep)%Z).
Context (sleeps : forall n w, (minSleep <= (jittered (delay_after n) (Jitter (Retry (e_cfg e))) w).1)%Z).

Lemma clock_jittered d j w : (clock w <= clock (jittered d j w).2)%Z.
Proof.
  unfold jittered. destruct (SFleb _ _); [simpl; lia|].
  pose proof (clock_rand w). by destruct (rand_Float64 w).
Qed.

Lemma post_loop_total fuel n url gz deadline w :
  (deadline - clock w < minSleep * (Z.of_nat fuel - 1))%Z -> 1 <= fuel ->
  fst (post_loop fuel url gz (delay_after n) deadline w) <> None.
Proof.
  revert n w. induction fuel as [|fuel IH]; intros n w Hm Hf; [lia|]. cbn [post_loop].
  destruct (doOnce url gz w) as [[[[st body] ra] err] w1] eqn:H1. apply clock_doOnce in H1.
  destruct (judge url st body err w1) as [v w2] eqn:H2. apply clock_judge in H2.
  destruct v as [r|]; [done|]. unfold After. destruct (Z.ltb_spec deadline (clock w2)); [done|].
  pose proof (clock_jittered (delay_after n) (Jitter (Retry (e_cfg e))) w2) as H3. pose proof (sleeps n w2) as Hj.
  destruct (jittered _ _ w2) as [sj w3]. simpl in H3, Hj.
  destruct (_ && (Sub _ _ <? _)%Z); [done|].
  set (sl := if _ && _ then ra else _).
  assert (minSleep <= sl)%Z as Hsl.
  { unfold sl. destruct (_ && _) eqn:E; [|done].
    apply andb_prop in E as [_ E]. apply Z.ltb_lt in E. lia. }
  destruct (ctx_sleep sl w3) as [[] w4] eqn:H4; [|done]. apply clock_sleep in H4.
  apply (IH (S n)); nia.
Qed.

(** C40: the retry loop is bounded by its time budget: with every backoff at
    least [minSleep], [post] returns within [MaxElapsed / minSleep + 2]
    attempts, whatever the gateway answers. *)
Theorem post_terminates fuel url gz w :
  (0 <= MaxElapsed (Retry (e_cfg e)))%Z ->
  (MaxElapsed (Retry (e_cfg e)) / minSleep + 2 <= Z.of_nat fuel)%Z ->
  exists r w', post fuel url gz w = (Some r, w').
Proof.
  intros Hpos Hf. unfold post.
  pose proof (post_loop_total fuel 0 url gz (Add (clock w) (MaxElapsed (Retry (e_cfg e)))) w) as Ht.
  unfold delay_after in Ht. simpl in Ht.
  assert (MaxElapsed (Retry (e_cfg e)) < minSleep * (MaxElapsed (Retry (e_cfg e)) / minSleep + 1))%Z.
  { pose proof (Z.mul_succ_div_gt (MaxElapsed (Retry (e_cfg e))) minSleep). lia. }
  assert (0 <= MaxElapsed (Retry (e_cfg e)) / minSleep)%Z by (apply Z.div_pos; lia).
  destruct (post_loop _ _ _ _ _ w) as [[r|] w']; [eauto|]. exfalso. apply Ht; [unfold Add; nia|lia|done].
Qed.
End emitter.

(** [classify] advances past exactly the known per-sample rejects: a 413,
    or a body naming a duplicate, out-of-order or too-old sample; everything
    else halts the loop (bad encoding or unknown). *)
Theorem classify_advances uni status body :
  let low := ToLower uni body in
  AdvancesPast (classify uni status body) = true <->
  status = 413%Z \/ exists s, s ∈ dup_strings ++ old_strings /\ contains low s = true.
Proof.
  intros low. unfold classify. fold low. clearbody low.
  assert (forall l, existsb (fun s => contains low s) l = true <-> exists s, s ∈ l /\ contains low s = true) as Hex.
  { intros l. rewrite existsb_exists. by setoid_rewrite list_elem_of_In. }
  setoid_rewrite elem_of_app.
  destruct (Z.eqb_spec status 413) as [->|Hne]; [split; intros; [by left|done]|].
  destruct (existsb (fun s => contains low s) dup_strings) eqn:Hd.
  { split; [|done]. intros _. right. apply Hex in Hd as (s & ? & ?). eauto. }
  destruct (existsb (fun s => contains low s) old_strings) eqn:Ho.
  { split; [|done]. intros _. right. apply Hex in Ho as (s & ? & ?). eauto. }
  split; [by destruct (existsb _ bad_strings)|]. intros [?|(s & [Hs|Hs] & Hc)]; [done|..].
  - assert (existsb (fun s => contains low s) dup_strings = true) by (apply Hex; eauto). congruence.
  - assert (existsb (fun s => contains low s) old_strings = true) by (apply Hex; eauto). congruence.
Qed.

(** A delay-seconds value beyond the range of [time.Duration] wraps to a
    negative wait instead of being clamped. *)
Theorem parseRetryAfter_overflows trim_uni http_ParseTime now :
  (parseRetryAfter trim_uni http_ParseTime "9223372037" now < 0)%Z.
Proof. vm_compute. reflexivity. Qed.

(** ** A scripted gateway *)

Module Sim.
Record World := mkWorld { answers : list HttpResult; time : Time; events : list EmitEvent }.

(** A 302 names another place, which accepts anything. *)
Definition round_trip (a : HttpResult) : RoundTrip :=
  match a with Response 302 _ _ => Redirected a "https://elsewhere" | _ => Answered a end.

#[global] Instance world : HttpWorld World := {|
  http_Post _ _ _ _ w := match answers w with
                         | a :: l => (round_trip a, mkWorld l (time w + Second) (events w))
                         | [] => (Answered TransportErr, mkWorld [] (time w + Second) (events w))
                         end;
  http_Follow _ _ w := (Response 200 "" "", w);
  clock := time;
  ctx_sleep d w := (true, mkWorld (answers w) (time w + Z.max 0 d) (events w));
  rand_Float64 w := (S754_zero false, w);
  notify ev w := mkWorld (answers w) (time w) (ev :: events w)
|}.

#[global] Instance laws : ClockLaws (W:=World).
Proof.
  split; simpl.
  - intros. destruct (answers w); simpl; unfold Second; lia.
  - lia.
  - lia.
  - lia.
  - intros d w w' [= <-]. simpl. lia.
Qed.

(** Five seconds between attempts, one minute in all. *)
Definition policy : RetryPolicy := mkRetryPolicy (5 * Second) (5 * Second) Minute f_1_5 (S754_zero false).
Definition emitter : Emitter :=
  new_emitter (fun s => s) (mkConfig "https://gw/otlp/" "42" "secret" ∅ 0 policy true true).
Definition enc {A} (l : list A) : result string string := Ok (FormatInt (Z.of_nat (length l))).
Definition gzip (s : string) : option string := Some s.
Definition no_reject (_ : string) : Z * string := (0%Z, "").
Definition http_date (_ : string) : option Time := None.
Definition id (s : string) : string := s.

Definition sample : Sample := mkSample "tokens" Gauge TempUnset false "1" ∅ (f64_of_Z 1) 0.
Definition log : LogRecord := mkLogRecord 0 "" "info" ∅ ∅ "".
Definition batch : Batch := mkBatch (mkKey "i" "l" "f") [sample; sample; sample] [log] zeroWm.

(** The whole batch is too large; its halves are accepted, the second after a
    503. *)
Definition start : World :=
  mkWorld [Response 413 "" ""; Response 200 "" ""; Response 503 "" ""; Response 200 "" ""; Response 200 "" ""] 0 [].
Definition run := Emit id id http_date no_reject emitter enc enc gzip 20 batch start.

Definition rejected := post id id http_date no_reject emitter 20 (e_url emitter) "gz"
  (mkWorld [Response 429 "" "1"; Response 400 "duplicate sample" ""] 0 []).
End Sim.

(** A redirect is an error of the emit, not a delivery. *)
Example redirect_not_followed :
  fst (post Sim.id Sim.id Sim.http_date Sim.no_reject Sim.emitter 20 (e_url Sim.emitter) "gz" (Sim.mkWorld [Response 302 "" ""] 0 [])) =
  Some (Some (ERetryable (mkRetryable 302 "non-retryable-inline status"))).
Proof. vm_compute. reflexivity. Qed.

Lemma Emit_nil_delivers_witness :
  fst Sim.run = Some None /\
  all_delivered Sim.id Sim.http_date Sim.emitter (W:=Sim.World) Sim.enc Sim.gzip (e_url Sim.emitter) (b_Samples Sim.batch).
Proof.
  assert (fst Sim.run = Some None) as Hok by (vm_compute; reflexivity).
  split; [exact Hok|]. pose proof (surjective_pairing Sim.run) as Hrun. rewrite Hok in Hrun. unfold Sim.run at 1 in Hrun.
  exact (proj1 (Emit_nil_delivers _ _ _ _ _ _ _ _ _ _ _ _ Hrun)).
Defined.

Lemma post_reject_is_4xx_witness :
  exists st body, answered Sim.id Sim.http_date Sim.emitter (W:=Sim.World) (e_url Sim.emitter) "gz" st body /\
    (400 <= st < 500)%Z /\ st <> 429%Z /\
    mkReject ReasonDuplicateTimestamp 400 "duplicate sample" = classify Sim.id st (redactSecrets Sim.emitter body).
Proof.
  assert (fst Sim.rejected = Some (Some (ERejected (mkReject ReasonDuplicateTimestamp 400 "duplicate sample")))) as Hrej
    by (vm_compute; reflexivity).
  pose proof (surjective_pairing Sim.rejected) as Hrun. rewrite Hrej in Hrun. unfold Sim.rejected at 1 in Hrun.
  exact (post_reject_is_4xx _ _ _ _ _ _ _ _ _ _ _ Hrun).
Defined.

Lemma post_terminates_witness :
  exists r w', post Sim.id Sim.id Sim.http_date Sim.no_reject Sim.emitter 14 (e_url Sim.emitter) "gz"
    (Sim.mkWorld [] 0 []) = (Some r, w').
Proof.
  apply (post_terminates _ _ _ _ _ (5 * Second)%Z).
  - reflexivity.
  - intros n w0. assert (delay_after Sim.emitter n = 5 * Second)%Z as ->.
    { induction n as [|n IH]; [reflexivity|].
      change (delay_after Sim.emitter (S n)) with (next_delay Sim.policy (delay_after Sim.emitter n)).
      rewrite IH. vm_compute. reflexivity. }
    vm_compute. discriminate.
  - vm_compute. discriminate.
  - vm_compute. discriminate.
Defined.
