(* ===== verification/Limiter.v ===== *)
(** * Log throttling (internal/logging/limiter.go)

    [Limiter] lets a key through at most once per [every].  The clock is an
    argument: [Allow] is given the instant [l.now()] returned. *)

From S2P Require Import Prelude.

Record Limiter := mkLimiter { lim_last : gmap string Time; lim_every : Duration }.

Definition NewLimiter (every : Duration) : Limiter := mkLimiter ∅ every.

Definition Allow (l : Limiter) (key : string) (now : Time) : bool * Limiter :=
  match lim_last l !! key with
  | Some prev => if (Sub now prev <? lim_every l)%Z then (false, l)
                 else (true, mkLimiter (<[key := now]> (lim_last l)) (lim_every l))
  | None => (true, mkLimiter (<[key := now]> (lim_last l)) (lim_every l))
  end.

(** The answers to a sequence of calls, each with its clock reading. *)
Fixpoint allow_all (l : Limiter) (calls : list (string * Time)) : list bool :=
  match calls with
  | [] => []
  | (key, now) :: calls => let '(b, l) := Allow l key now in b :: allow_all l calls
  end.

Lemma Allow_every l key now : lim_every (snd (Allow l key now)) = lim_every l.
Proof. unfold Allow. by repeat case_match. Qed.

(** Once [key] was let through at [t], it is let through again only [every]
    later, whatever other keys did in between. *)
Lemma allow_all_spaced l calls key t j now :
  (exists t', lim_last l !! key = Some t' /\ (t <= t')%Z) ->
  (lim_every l <= maxInt64)%Z ->
  calls !! j = Some (key, now) -> allow_all l calls !! j = Some true ->
  (forall i k n, i <= j -> calls !! i = Some (k, n) -> (t <= n)%Z) ->
  (lim_every l <= now - t)%Z.
Proof.
  intros Hlast Hev. revert l j Hlast Hev. induction calls as [|[k n] calls IH]; intros l j Hlast Hev; [done|].
  destruct j as [|j]; simpl; destruct (Allow l k n) as [b l1] eqn:Ha; simpl; intros Hc Hb Ht.
  - simplify_eq. unfold Allow in Ha. destruct Hlast as (t' & Hl & Hle). rewrite Hl in Ha.
    destruct (Z.ltb_spec (Sub now t') (lim_every l)); simplify_eq.
    pose proof (Ht 0 key now (Nat.le_refl 0) eq_refl). unfold Sub, minInt64, maxInt64 in *. zbool; lia.
  - assert (lim_every l1 = lim_every l) as He by (by rewrite <-(Allow_every l k n), Ha).
    rewrite <-He. apply (IH l1 j); [|lia|done..|].
    + destruct Hlast as (t' & Hl & Hle). unfold Allow in Ha.
      assert (t <= n)%Z by (apply (Ht 0 k); [lia|done]).
      destruct (decide (k = key)) as [->|Hne].
      * rewrite Hl in Ha. destruct (_ <? _)%Z; simplify_eq/=; [eauto|]. exists n. by rewrite lookup_insert_eq.
      * exists t'. split; [|done]. repeat case_match; simplify_eq/=; rewrite ?lookup_insert_ne; done.
    + intros i k' n' Hi Hk. by apply (Ht (S i) k'); [lia|].
Qed.

(** The limiter keeps its promise on every call sequence with a clock that
    does not run backwards: two allowed lines of one key are at least [every]
    apart, and the first line of a key is always allowed. *)
Theorem Limiter_spacing every calls :
  (every <= maxInt64)%Z ->
  (forall i j k1 n1 k2 n2, i <= j -> calls !! i = Some (k1, n1) -> calls !! j = Some (k2, n2) -> (n1 <= n2)%Z) ->
  (forall i j key t now, i < j ->
    calls !! i = Some (key, t) -> allow_all (NewLimiter every) calls !! i = Some true ->
    calls !! j = Some (key, now) -> allow_all (NewLimiter every) calls !! j = Some true ->
    (every <= now - t)%Z) /\
  (forall i key t, calls !! i = Some (key, t) -> (forall j t', j < i -> calls !! j <> Some (key, t')) ->
    allow_all (NewLimiter every) calls !! i = Some true).
Proof.
  intros Hev Hmono. change every with (lim_every (NewLimiter every)) in Hev.
  change (every <= ?x)%Z with (lim_every (NewLimiter every) <= x)%Z.
  assert (forall key, lim_last (NewLimiter every) !! key = None) as Hnone by (intros; apply lookup_empty).
  split.
  - clear Hnone. revert Hev Hmono. generalize (NewLimiter every) as l.
    induction calls as [|[k n] calls IH]; intros l Hev Hmono i j key t now Hij; [done|].
    destruct j as [|j]; [lia|]. simpl. destruct (Allow l k n) as [b l1] eqn:Ha.
    assert (lim_every l1 = lim_every l) as He by (by rewrite <-(Allow_every l k n), Ha).
    destruct i as [|i]; simpl.
    + intros [= -> ->] [= ->] Hc Hb. rewrite <-He. eapply (allow_all_spaced l1); [|lia|exact Hc|exact Hb|].
      * exists t. split; [|done]. unfold Allow in Ha. repeat case_match; simplify_eq/=; apply lookup_insert_eq.
      * intros i k' n' Hi Hk. by apply (Hmono 0 (S i) key t k' n'); [lia|..].
    + intros. rewrite <-He. eapply (IH l1); [lia| |apply Nat.succ_lt_mono, Hij|done..].
      intros i2 j2 k1 n1 k2 n2 Hle Hc1 Hc2. by apply (Hmono (S i2) (S j2) k1 n1 k2 n2); [lia|..].
  - intros i key. specialize (Hnone key). revert Hnone. clear Hmono Hev. generalize (NewLimiter every) as l. revert i.
    induction calls as [|[k n] calls IH]; intros i l Hn t Hc Hfst; [done|]. simpl.
    destruct (Allow l k n) as [b l1] eqn:Ha. unfold Allow in Ha. destruct i as [|i]; simpl in *.
    + simplify_eq. rewrite Hn in Ha. by simplify_eq.
    + apply (IH i l1 ) with (t := t); [|done|].
      * assert (k <> key) by (intros ->; by apply (Hfst 0 n); [lia|]).
        repeat case_match; simplify_eq/=; rewrite ?lookup_insert_ne; done.
      * intros j t' Hj. apply (Hfst (S j) t'). lia.
Qed.

Lemma Limiter_spacing_witness :
  allow_all (NewLimiter Minute) [("k", 0%Z); ("k", Second); ("k", Minute)] = [true; false; true] /\
  (Minute <= Minute - 0)%Z.
Proof.
  split; [vm_compute; reflexivity|].
  eapply (proj1 (Limiter_spacing Minute [("k", 0%Z); ("k", Second); ("k", Minute)] _ _)) with (i := 0) (j := 2);
    try (vm_compute; reflexivity); [lia].
  Unshelve. vm_compute. discriminate.
  intros [|[|[|i]]] [|[|[|j]]] k1 n1 k2 n2 Hij Hi Hj; simpl in *; simplify_eq; unfold Second, Minute; lia.
Defined.
