(* ===== verification/Source.v ===== *)
(** * The source seam (internal/source/source.go, capability.go)

    The registry of vendor constructors, the startup check that two loops never
    own the same series, and the closed vocabularies a source reports with.  A
    source is what the composition root sees of it: its loops, each with a
    checkpoint key and, when it implements [SeriesDeclarer], its series names. *)

From S2P Require Import Prelude Model.

(** ** Sentinel outcomes of [Collect] *)

Inductive CollectErr :=
| ErrQuotaExceeded
| ErrGranularityUnexpected
| CollectOther (msg : string).

#[export] Instance CollectErr_eq_dec : EqDecision CollectErr.
Proof. solve_decision. Defined.

Definition IsAuthStatus (code : Z) : bool := (code =? 401)%Z || (code =? 403)%Z.

(** ** Capabilities *)

Definition AllCapabilityStates : list string :=
  ["endpoint-absent"; "plan-unsupported"; "permission-denied"; "no-data"; "transient-404"; "schema-changed"].
Definition CapabilityState_Valid (s : string) : bool :=
  bool_decide (s = "endpoint-absent") || bool_decide (s = "plan-unsupported") || bool_decide (s = "permission-denied")
  || bool_decide (s = "no-data") || bool_decide (s = "transient-404") || bool_decide (s = "schema-changed").

Definition AllIncompleteReasons : list string :=
  ["window_truncated"; "sessions_truncated"; "backfill_skipped"; "window_oversize"; "span_stats_unavailable";
   "duplicate_dimension"; "trace_id_unparsed"; "line_oversize"; "line_unparseable"; "export_stuck"; "export_failed"].
Definition IncompleteReason_Valid (s : string) : bool :=
  existsb (fun r => bool_decide (s = r))
    ["window_truncated"; "sessions_truncated"; "backfill_skipped"; "window_oversize"; "span_stats_unavailable";
     "duplicate_dimension"; "trace_id_unparsed"; "line_oversize"; "line_unparseable"; "export_stuck"; "export_failed"].

(** ** The registry *)

Section registry.
(** [Constructor] and what it builds. *)
Context {Cfg Deps Src : Type} (cfg_Type : Cfg -> string).
Abbreviation Constructor := (Cfg -> Deps -> result string Src).
Abbreviation Registry := (gmap string Constructor).

Definition NewRegistry : Registry := ∅.

(** [Err] is the panic. *)
Definition Register (typ : string) (c : Constructor) (r : Registry) : result string Registry :=
  match r !! typ with
  | Some _ => Err "source: duplicate registration of type"
  | None => Ok (<[typ := c]> r)
  end.

Definition Known (r : Registry) : gset string := dom r.

Definition Build (r : Registry) (cfg : Cfg) (deps : Deps) : result string Src :=
  match r !! cfg_Type cfg with
  | None => Err "source: unknown type"
  | Some c => c cfg deps
  end.

(** Registrations in order, as the composition root makes them. *)
Fixpoint register_all (l : list (string * Constructor)) (r : Registry) : result string Registry :=
  match l with
  | [] => Ok r
  | (typ, c) :: l => let? r' := Register typ c r in register_all l r'
  end.

Lemma register_all_lookup l r r' :
  register_all l r = Ok r' ->
  NoDup l.*1 /\ (forall typ, typ ∈ l.*1 -> r !! typ = None) /\
  (forall typ, r' !! typ = match list_find (fun kv => kv.1 = typ) l with Some (_, kv) => Some kv.2 | None => r !! typ end).
Proof.
  revert r. induction l as [|[typ c] l IH]; intros r; simpl.
  { intros [= ->]. split_and!; [constructor|by intros ? ?%elem_of_nil|done]. }
  unfold Register. destruct (r !! typ) eqn:Hr; [done|]. intros Hl. apply IH in Hl as (Hnd & Hfree & Hlook).
  assert (typ ∉ l.*1) as Hni.
  { intros Hin. specialize (Hfree _ Hin). by rewrite lookup_insert_eq in Hfree. }
  split_and!.
  - by constructor.
  - intros typ' [->|Hin]%elem_of_cons; [done|]. specialize (Hfree _ Hin).
    by apply lookup_insert_None in Hfree as [? _].
  - intros typ'. rewrite Hlook. case_decide as Ht; simpl in *.
    + subst typ'. destruct (list_find _ l) as [[i [k v]]|] eqn:Hf; [|by rewrite lookup_insert_eq].
      apply list_find_Some in Hf as (Hi & Hk & _). simpl in Hk. subst k. destruct Hni.
      apply list_elem_of_fmap. exists (typ, v). split; [done|]. by eapply list_elem_of_lookup_2.
    + destruct (list_find _ l) as [[i kv]|]; [done|]. by rewrite lookup_insert_ne.
Qed.

(** The registry never shadows a vendor: registering a list of types
    succeeds only when they are distinct, and then every source is built by the
    constructor that was registered under its own type, and an unknown type is
    refused. *)
Theorem registry_builds_own l r typ c cfg deps :
  register_all l NewRegistry = Ok r ->
  NoDup l.*1 /\
  ((typ, c) ∈ l -> cfg_Type cfg = typ -> Build r cfg deps = c cfg deps) /\
  (cfg_Type cfg ∉ l.*1 -> Build r cfg deps = Err "source: unknown type") /\
  Known r = list_to_set l.*1.
Proof.
  intros (Hnd & _ & Hlook)%register_all_lookup. split_and!; [done|..].
  - intros Hin Ht. unfold Build. rewrite Hlook. destruct (list_find _ l) as [[i [k v]]|] eqn:Hf.
    + apply list_find_Some in Hf as (Hi & Hk & _). simpl in *. rewrite Ht in Hk. subst k.
      apply list_elem_of_lookup in Hin as [j Hj].
      assert (i = j) as ->.
      { eapply (NoDup_lookup l.*1); [done|by rewrite list_lookup_fmap, Hi|by rewrite list_lookup_fmap, Hj]. }
      congruence.
    + apply list_find_None in Hf. rewrite Forall_forall in Hf. by destruct (Hf _ Hin).
  - intros Hni. unfold Build. rewrite Hlook. destruct (list_find _ l) as [[i [k v]]|] eqn:Hf.
    + apply list_find_Some in Hf as (Hi & Hk & _). simpl in Hk. subst k. destruct Hni.
      apply list_elem_of_fmap. exists (cfg_Type cfg, v). split; [done|]. by eapply list_elem_of_lookup_2.
    + unfold NewRegistry. by rewrite lookup_empty.
  - apply set_eq. intros k. unfold Known. rewrite elem_of_dom, Hlook, elem_of_list_to_set, list_elem_of_fmap.
    destruct (list_find _ l) as [[i [k' v]]|] eqn:Hf.
    + apply list_find_Some in Hf as (Hi & Hk & _). simpl in Hk. subst k'. split; [|by eexists].
      intros _. exists (k, v). split; [done|]. by eapply list_elem_of_lookup_2.
    + unfold NewRegistry. rewrite lookup_empty. split; [by intros []|]. intros ([k' v] & -> & Hin).
      apply list_find_None in Hf. rewrite Forall_forall in Hf. by destruct (Hf _ Hin).
Qed.
End registry.

(** ** Series ownership *)

Section ownership.
Context (uni : string -> string).   (* [strings.ToLower] beyond ASCII *)

Definition NormalizeSeriesName (n : string) : string := ToLower uni (ReplaceAll n "." "_").

Record LoopDecl := mkLoopDecl { ld_Key : CheckpointKey; ld_SeriesNames : option (list string) }.

(** The inner loop over one loop's names. *)
Fixpoint own_names (key : string) (names : list string) (owner : gmap string string) : result string (gmap string string) :=
  match names with
  | [] => Ok owner
  | n :: names =>
      let norm := NormalizeSeriesName n in
      match owner !! norm with
      | Some prev => if decide (prev <> key) then Err ("series owned by both " +:+ prev +:+ " and " +:+ key)
                     else own_names key names (<[norm := key]> owner)
      | None => own_names key names (<[norm := key]> owner)
      end
  end.

Fixpoint own_loops (loops : list LoopDecl) (owner : gmap string string) : result string (gmap string string) :=
  match loops with
  | [] => Ok owner
  | lp :: loops =>
      match ld_SeriesNames lp with
      | None => Err ("loop does not declare its series: " +:+ key_String (ld_Key lp))
      | Some names => let? owner := own_names (key_String (ld_Key lp)) names owner in own_loops loops owner
      end
  end.

(** A source is the list of its loops; [None] is success. *)
Definition ValidateOwnership (sources : list (list LoopDecl)) : option string :=
  match own_loops (concat sources) ∅ with Ok _ => None | Err e => Some e end.

(** [lp] declares a series whose normalised name is [norm]. *)
Definition declares (lp : LoopDecl) (norm : string) : Prop :=
  exists names n, ld_SeriesNames lp = Some names /\ n ∈ names /\ NormalizeSeriesName n = norm.

Lemma own_names_spec key names owner :
  match own_names key names owner with
  | Ok owner' =>
      (forall n, n ∈ names -> default key (owner !! NormalizeSeriesName n) = key) /\
      (forall norm, owner' !! norm =
         if decide (norm ∈ NormalizeSeriesName <$> names) then Some key else owner !! norm)
  | Err _ => exists n, n ∈ names /\ default key (owner !! NormalizeSeriesName n) <> key
  end.
Proof.
  revert owner. induction names as [|n names IH]; intros owner; cbn [own_names].
  { split; [by intros ? ?%elem_of_nil|done]. }
  destruct (decide (default key (owner !! NormalizeSeriesName n) = key)) as [Hown|Hown].
  2:{ destruct (owner !! NormalizeSeriesName n) as [prev|] eqn:Hp; [|done]. simpl in Hown.
      rewrite decide_True by done. exists n. split; [by left|by rewrite Hp]. }
  assert ((match owner !! NormalizeSeriesName n with
    | Some prev => if decide (prev <> key) then Err ("series owned by both " +:+ prev +:+ " and " +:+ key)
                   else own_names key names (<[NormalizeSeriesName n := key]> owner)
    | None => own_names key names (<[NormalizeSeriesName n := key]> owner) end) =
    own_names key names (<[NormalizeSeriesName n := key]> owner)) as ->.
  { destruct (owner !! NormalizeSeriesName n); [|done]. simpl in Hown. by rewrite decide_False by (by intros []). }
  specialize (IH (<[NormalizeSeriesName n := key]> owner)).
  assert (forall m, default key (<[NormalizeSeriesName n := key]> owner !! m) = key <-> default key (owner !! m) = key) as Hsame.
  { intros m. destruct (decide (NormalizeSeriesName n = m)) as [<-|Hne]; [by rewrite lookup_insert_eq|].
    by rewrite lookup_insert_ne. }
  destruct (own_names key names _) as [owner'|e].
  - destruct IH as [H1 H2]. split.
    + intros m [->|Hm]%elem_of_cons; [done|]. by apply Hsame, H1.
    + intros norm. rewrite H2. destruct (decide (norm ∈ NormalizeSeriesName <$> names)) as [Hin|Hni].
      * rewrite decide_True; [done|]. by right.
      * destruct (decide (norm = NormalizeSeriesName n)) as [->|Hne].
        -- rewrite lookup_insert_eq, decide_True; [done|left].
        -- rewrite lookup_insert_ne, decide_False; [done|by intros [?|?]%elem_of_cons|done].
  - destruct IH as (m & Hm & Hne). exists m. split; [by right|]. by rewrite <-Hsame.
Qed.

(** Who owns what after the loops [seen]. *)
Definition owned (seen : list LoopDecl) (owner : gmap string string) : Prop :=
  forall norm key, owner !! norm = Some key <-> exists lp, lp ∈ seen /\ declares lp norm /\ key_String (ld_Key lp) = key.

Definition ownership_ok (loops : list LoopDecl) : Prop :=
  (forall lp, lp ∈ loops -> is_Some (ld_SeriesNames lp)) /\
  (forall lp1 lp2 norm, lp1 ∈ loops -> lp2 ∈ loops -> declares lp1 norm -> declares lp2 norm ->
     key_String (ld_Key lp1) = key_String (ld_Key lp2)).

Lemma own_loops_spec seen loops owner :
  owned seen owner -> ownership_ok seen ->
  match own_loops loops owner with
  | Ok _ => ownership_ok (seen ++ loops)
  | Err _ => ~ ownership_ok (seen ++ loops)
  end.
Proof.
  revert seen owner. induction loops as [|lp loops IH]; intros seen owner Hown Hok; cbn [own_loops].
  { by rewrite app_nil_r. }
  destruct (ld_SeriesNames lp) as [names|] eqn:Hn.
  2:{ intros [Hdecl _]. destruct (Hdecl lp) as [? ?]; [set_solver|congruence]. }
  pose proof (own_names_spec (key_String (ld_Key lp)) names owner) as Hspec.
  destruct (own_names _ names owner) as [owner'|e].
  - destruct Hspec as [Hfree Hlook]. rewrite cons_middle, app_assoc. apply IH.
    + intros norm key. rewrite Hlook. case_decide as Hin.
      * apply list_elem_of_fmap in Hin as (n & -> & Hin). specialize (Hfree n Hin). split.
        -- intros [= <-]. exists lp. split_and!; [set_solver| |done]. by exists names, n.
        -- intros (lp' & Hlp & Hd & <-). f_equal. apply elem_of_app in Hlp as [Hlp| ->%list_elem_of_singleton]; [|done].
           assert (owner !! NormalizeSeriesName n = Some (key_String (ld_Key lp'))) as Ho by (apply Hown; eauto).
           by rewrite Ho in Hfree.
      * rewrite (Hown norm key). split.
        -- intros (lp' & Hlp & ?). exists lp'. split; [set_solver|done].
        -- intros (lp' & Hlp & Hd & Hk). apply elem_of_app in Hlp as [Hlp| ->%list_elem_of_singleton]; [by exists lp'|].
           destruct Hd as (names' & n & Hn' & Hin' & <-). destruct Hin. apply list_elem_of_fmap. exists n. split; [done|].
           congruence.
    + destruct Hok as [Hdecl Huniq].
      assert (forall lp' norm, lp' ∈ seen -> declares lp norm -> declares lp' norm ->
        key_String (ld_Key lp') = key_String (ld_Key lp)) as Hcross.
      { intros lp' norm Hlp (names' & n & Hn' & Hin & <-) Hd. assert (names' = names) as -> by congruence.
        assert (owner !! NormalizeSeriesName n = Some (key_String (ld_Key lp'))) as Ho by (apply Hown; eauto).
        specialize (Hfree n Hin). by rewrite Ho in Hfree. }
      split.
      * intros lp' [?| ->%list_elem_of_singleton]%elem_of_app; [auto|by rewrite Hn].
      * intros lp1 lp2 norm [?| ->%list_elem_of_singleton]%elem_of_app [?| ->%list_elem_of_singleton]%elem_of_app H1 H2;
          [by eapply Huniq|by eapply Hcross|symmetry; by eapply Hcross|done].
  - destruct Hspec as (n & Hin & Hne). intros [_ Huniq].
    destruct (owner !! NormalizeSeriesName n) as [k|] eqn:Ho; [|done]. simpl in Hne.
    apply Hown in Ho as (lp' & Hlp & Hd & <-). apply Hne, (Huniq lp' lp (NormalizeSeriesName n)); [set_solver..|done|].
    by exists names, n.
Qed.

(** The startup check is exact: it passes precisely when every loop
    declares its series and no post-gateway series name belongs to loops with
    different checkpoint keys, whatever order the sources are listed in. *)
Theorem ValidateOwnership_exact sources :
  ValidateOwnership sources = None <-> ownership_ok (concat sources).
Proof.
  unfold ValidateOwnership. pose proof (own_loops_spec [] (concat sources) ∅) as Hspec. simpl in Hspec.
  destruct (own_loops (concat sources) ∅) as [?|e]; split; try done.
  - intros _. apply Hspec.
    + intros norm key. rewrite lookup_empty. split; [done|]. by intros (? & ?%elem_of_nil & _).
    + split; [by intros ? ?%elem_of_nil|by intros ? ? ? ?%elem_of_nil].
  - intros Hok. destruct Hspec; [| |done].
    + intros norm key. rewrite lookup_empty. split; [done|]. by intros (? & ?%elem_of_nil & _).
    + split; [by intros ? ?%elem_of_nil|by intros ? ? ? ?%elem_of_nil].
Qed.
End ownership.

(** ** The closed vocabularies *)

(** A report is valid exactly when it is enumerated. *)
Lemma vocabularies_closed s :
  (CapabilityState_Valid s = true <-> s ∈ AllCapabilityStates) /\
  (IncompleteReason_Valid s = true <-> s ∈ AllIncompleteReasons).
Proof.
  unfold CapabilityState_Valid, AllCapabilityStates, IncompleteReason_Valid, AllIncompleteReasons. simpl.
  rewrite !orb_true_iff, !bool_decide_eq_true, !elem_of_cons, elem_of_nil. intuition done.
Qed.

(** ** A concrete registry *)

Module Sim.
Definition pk (_ : string) (_ : unit) : result string string := Ok "portkey source".
Definition ls (_ : string) (_ : unit) : result string string := Ok "langsmith source".
Definition types := [("portkey", pk); ("langsmith", ls)].
Definition registry := match register_all types NewRegistry with Ok r => r | Err _ => ∅ end.
End Sim.

Lemma registry_builds_own_witness : Build (fun c => c) Sim.registry "langsmith" tt = Ok "langsmith source".
Proof.
  assert (register_all Sim.types NewRegistry = Ok Sim.registry) as Hrun by reflexivity.
  refine (proj1 (proj2 (registry_builds_own (fun c => c) Sim.types Sim.registry "langsmith" Sim.ls "langsmith" tt Hrun)) _ eq_refl).
  right. left.
Defined.
