(* ===== verification/Runner.v ===== *)
(** * The loop runner (internal/schedule/runner.go, metrics.go)

    One loop's emit worker: it splits a collected batch into buckets, decides
    per bucket whether the watermark may move, and commits once.  The
    checkpoint store, the emitter, the leadership context, the clock and the
    (shared) cardinality guard are operations of a world [W]; every call to one
    of them and every self-metric is recorded in the trace of the operation,
    in order.  The store is used through [Checkpointer] and reasoned about
    through [CheckpointerSpec] alone.  Tracing spans are not modelled. *)

From S2P Require Import Prelude Model Checkpoint Emit Guard Limiter Source.

(** ** State *)

Record LoopRunner := mkRunner {
  r_key : CheckpointKey;          (* loop.Key() *)
  r_cap : nat;                    (* cap(q) *)
  r_name : string;
  r_maxDPM : Z;
  r_lim : Limiter;
  r_q : list Batch;
  r_busy : bool;
  r_frontier : Watermark;
  r_hasFront : bool;
  r_saveFails : Z;
  r_degraded : bool;
  r_degradeReason : string;
  r_firstOK : bool;
  r_backfillCountedWm : Time;
  r_backfillCountedFloor : Time
}.

Definition checkpointFailThreshold : Z := 5.

Definition NewLoopRunner (key : CheckpointKey) (queueDepth maxDPM : Z) : LoopRunner :=
  let queueDepth := if (queueDepth <? 1)%Z then 1%Z else queueDepth in
  let maxDPM := if (maxDPM <? 1)%Z then 1%Z else maxDPM in
  mkRunner key (Z.to_nat queueDepth) (k_Loop key) maxDPM (NewLimiter Minute) []
    false zeroWm false 0 false "" false zeroTime zeroTime.

Definition with_lim (l : Limiter) (r : LoopRunner) : LoopRunner :=
  mkRunner (r_key r) (r_cap r) (r_name r) (r_maxDPM r) l (r_q r) (r_busy r) (r_frontier r) (r_hasFront r)
    (r_saveFails r) (r_degraded r) (r_degradeReason r) (r_firstOK r) (r_backfillCountedWm r) (r_backfillCountedFloor r).
Definition with_q (q : list Batch) (r : LoopRunner) : LoopRunner :=
  mkRunner (r_key r) (r_cap r) (r_name r) (r_maxDPM r) (r_lim r) q (r_busy r) (r_frontier r) (r_hasFront r)
    (r_saveFails r) (r_degraded r) (r_degradeReason r) (r_firstOK r) (r_backfillCountedWm r) (r_backfillCountedFloor r).
Definition with_busy (b : bool) (r : LoopRunner) : LoopRunner :=
  mkRunner (r_key r) (r_cap r) (r_name r) (r_maxDPM r) (r_lim r) (r_q r) b (r_frontier r) (r_hasFront r)
    (r_saveFails r) (r_degraded r) (r_degradeReason r) (r_firstOK r) (r_backfillCountedWm r) (r_backfillCountedFloor r).
Definition with_front (f : Watermark) (has : bool) (r : LoopRunner) : LoopRunner :=
  mkRunner (r_key r) (r_cap r) (r_name r) (r_maxDPM r) (r_lim r) (r_q r) (r_busy r) f has
    (r_saveFails r) (r_degraded r) (r_degradeReason r) (r_firstOK r) (r_backfillCountedWm r) (r_backfillCountedFloor r).
Definition with_saveFails (n : Z) (r : LoopRunner) : LoopRunner :=
  mkRunner (r_key r) (r_cap r) (r_name r) (r_maxDPM r) (r_lim r) (r_q r) (r_busy r) (r_frontier r) (r_hasFront r)
    n (r_degraded r) (r_degradeReason r) (r_firstOK r) (r_backfillCountedWm r) (r_backfillCountedFloor r).
Definition with_degraded (d : bool) (reason : string) (r : LoopRunner) : LoopRunner :=
  mkRunner (r_key r) (r_cap r) (r_name r) (r_maxDPM r) (r_lim r) (r_q r) (r_busy r) (r_frontier r) (r_hasFront r)
    (r_saveFails r) d reason (r_firstOK r) (r_backfillCountedWm r) (r_backfillCountedFloor r).
Definition with_firstOK (b : bool) (r : LoopRunner) : LoopRunner :=
  mkRunner (r_key r) (r_cap r) (r_name r) (r_maxDPM r) (r_lim r) (r_q r) (r_busy r) (r_frontier r) (r_hasFront r)
    (r_saveFails r) (r_degraded r) (r_degradeReason r) b (r_backfillCountedWm r) (r_backfillCountedFloor r).
Definition with_backfill (wm floor : Time) (r : LoopRunner) : LoopRunner :=
  mkRunner (r_key r) (r_cap r) (r_name r) (r_maxDPM r) (r_lim r) (r_q r) (r_busy r) (r_frontier r) (r_hasFront r)
    (r_saveFails r) (r_degraded r) (r_degradeReason r) (r_firstOK r) wm floor.

(** ** The trace *)

(** The [Metrics] seam; the loop name is the event's own. *)
Inductive Metric :=
| EmittedSamples (n : nat)
| EmittedLogs (n : nat)
| SamplesSkipped (reason : string) (n : Z)
| EmitError (kind : string)
| GuardDropped (n : nat)
| QueueDepth (depth : nat)
| LastSuccess (t : Time)
| WindowLag (lag : Duration)
| NewLabelValue (series : string)
| SamplesCapped (n : nat)
| LoopDegraded (reason : string) (degraded : bool).

Inductive Ev :=
| EvMetric (loop : string) (m : Metric)
| EvLog (level msg : string)
| EvCtx (cancelled : bool)
| EvGuard (b sub : Batch)
| EvEmit (b : Batch) (r : option EmitErr)
| EvSave (k : CheckpointKey) (w : Watermark) (r : option CpErr)
| EvLoad (k : CheckpointKey) (r : result CpErr Watermark)
| EvBeat
| EvCollect (since : Watermark) (r : result CollectErr Batch).

(** ** The world and the monad *)

Class RunnerWorld (W : Type) := {
  em_Emit : Batch -> W -> option EmitErr * W;
  ctx_Err : W -> bool * W;
  time_Now : W -> Time * W;
  get_guard : W -> Guard;
  put_guard : Guard -> W -> W
}.

Section runner.
Context {W : Type} `{RunnerWorld W} `{Checkpointer W}.

Record St := mkSt { st_r : LoopRunner; st_w : W }.

Definition M (A : Type) : Type := St -> A * St * list Ev.

#[global] Instance M_ret : MRet M := fun _ a s => (a, s, []).
#[global] Instance M_bind : MBind M := fun _ _ k m s =>
  let '(a, s, t) := m s in let '(b, s, t') := k a s in (b, s, t ++ t').

Definition tell (e : Ev) : M unit := fun s => (tt, s, [e]).
Definition metric (m : Metric) : M unit := fun s => (tt, s, [EvMetric (r_name (st_r s)) m]).
Definition gets {A} (f : LoopRunner -> A) : M A := fun s => (f (st_r s), s, []).
Definition modify (f : LoopRunner -> LoopRunner) : M unit := fun s => (tt, mkSt (f (st_r s)) (st_w s), []).
Definition world {A} (f : W -> A * W) (ev : A -> list Ev) : M A := fun s =>
  let '(a, w) := f (st_w s) in (a, mkSt (st_r s) w, ev a).
Definition when (c : bool) (m : M unit) : M unit := if c then m else mret tt.

Definition CtxErr : M bool := world ctx_Err (fun c => [EvCtx c]).
Definition DoEmit (b : Batch) : M (option EmitErr) := world (em_Emit b) (fun e => [EvEmit b e]).
Definition DoSave (k : CheckpointKey) (w : Watermark) : M (option CpErr) :=
  world (cp_Save k w) (fun e => [EvSave k w e]).
Definition DoLoad (k : CheckpointKey) : M (result CpErr Watermark) :=
  world (cp_Load k) (fun r => [EvLoad k r]).

(** [r.lim.Allow(key)] guarding one log line. *)
Definition throttled_log (key level msg : string) : M unit :=
  now ← world time_Now (fun _ => []);
  '(ok, l) ← gets (fun r => Allow (r_lim r) key now);
  modify (with_lim l);; when ok (tell (EvLog level msg)).

Definition new_label_events (loop : string) (series : list string) : list Ev :=
  (fun s => EvMetric loop (NewLabelValue s)) <$> series.

(** [r.guard.Sanitize(b)] and [r.guard.SanitizeLogs(...)]. *)
Definition GuardSanitize (b : Batch) : M (Batch * nat) := fun s =>
  let '(sub, dropped, g, ev) := Sanitize (get_guard (st_w s)) b in
  ((sub, dropped), mkSt (st_r s) (put_guard g (st_w s)), EvGuard b sub :: new_label_events "" ev).
Definition GuardSanitizeLogs (loop : string) (b : Batch) : M (list LogRecord * nat) := fun s =>
  let '(kept, dropped, g, ev) := SanitizeLogs (get_guard (st_w s)) loop (b_Logs b) in
  ((kept, dropped), mkSt (st_r s) (put_guard g (st_w s)),
   EvGuard b (mkBatch (b_Key b) [] kept zeroWm) :: new_label_events "" ev).

(** ** Small operations *)

Definition Busy : M bool := gets r_busy.
Definition Degraded : M bool := gets r_degraded.

Definition Since : M (result CpErr Watermark) :=
  has ← gets r_hasFront;
  if has : bool then f ← gets r_frontier; mret (Ok f)
  else key ← gets r_key; DoLoad key.

(** The minutes to count, and the new record of what was counted. *)
Definition backfill_minutes (countedWm countedFloor wm floor : Time) : Z * Time * Time :=
  let from := if Equal countedWm wm && After countedFloor wm then countedFloor else wm in
  let mins := (Sub floor from ÷ Minute)%Z in
  if (mins <=? 0)%Z then (0%Z, countedWm, countedFloor)
  else (mins, wm, Add from (wrap64 (mins * Minute))).

Definition BackfillUnstorableMinutes (wm floor : Time) : M Z :=
  '(mins, cw, cf) ← gets (fun r => backfill_minutes (r_backfillCountedWm r) (r_backfillCountedFloor r) wm floor);
  modify (with_backfill cw cf);; mret mins.

Definition Reset : M unit :=
  modify (with_q []);;
  deg ← gets r_degraded;
  when deg (reason ← gets r_degradeReason;
            metric (LoopDegraded reason false);;
            modify (fun r => with_degraded (r_degraded r) "" r));;
  modify (fun r => with_backfill zeroTime zeroTime (with_firstOK false
    (with_degraded false (r_degradeReason r) (with_saveFails 0 (with_front zeroWm false (with_busy false r)))))).

Definition enterDegraded (reason : string) : M unit :=
  deg ← gets r_degraded;
  when (negb deg) (modify (with_degraded true reason);;
                   metric (LoopDegraded reason true);;
                   tell (EvLog "error" "loop degraded (loud halt, scheduler will back off)")).

Definition Degrade (reason : string) : M unit := enterDegraded reason.

(** ** Error classification *)

Definition isAdvancePast (err : EmitErr) : bool :=
  match err with ERejected re => AdvancesPast re | _ => false end.

Definition isTerminalHalt (err : EmitErr) : bool :=
  match err with
  | ERejected re => match re_Reason re with ReasonBadEncoding | ReasonUnknown => true | _ => false end
  | _ => false
  end.

Definition rejectReason (err : EmitErr) : string :=
  match err with
  | ERejected re =>
      match re_Reason re with
      | ReasonDuplicateTimestamp => "duplicate_timestamp"
      | ReasonTooOld => "too_old"
      | ReasonPayloadTooLarge => "payload_too_large"
      | ReasonBadEncoding => "bad_encoding"
      | ReasonUnknown => "unknown_4xx"
      | ReasonNone => "unknown"
      end
  | _ => "unknown"
  end.

(** ** Buckets *)

(** [groups[ns] = append(groups[ns], s)]. *)
Fixpoint bucket_groups (samples : list Sample) (m : gmap Z (list Sample)) : gmap Z (list Sample) :=
  match samples with
  | [] => m
  | s :: samples =>
      let ns := UnixNano (s_Timestamp s) in
      bucket_groups samples (<[ns := default [] (m !! ns) ++ [s]]> m)
  end.

Definition splitByBucket (b : Batch) : list Batch :=
  let groups := bucket_groups (b_Samples b) ∅ in
  let keys := stable_sort Z.ltb (map_to_list groups).*1 in
  (fun k => mkBatch (b_Key b) (default [] (groups !! k)) [] zeroWm) <$> keys.

(** ** Commit *)

Definition commit (key : CheckpointKey) (t : Time) (cursor : string) (epoch : Z) : M unit :=
  cancelled ← CtxErr;
  if cancelled : bool then mret tt
  else
    let w := mkWm t cursor epoch in
    err ← DoSave key w;
    match err with
    | Some ErrStaleWrite =>
        stored ← DoLoad key;
        match stored with
        | Ok stored =>
            when (Before (wm_Time stored) t)
              (metric (EmitError "checkpoint_fenced");;
               tell (EvLog "warn" "checkpoint forward-write fenced (stale-epoch or concurrent leader); not advancing"));;
            modify (with_front stored true)
        | Err _ => mret tt
        end
    | Some _ =>
        modify (fun r => with_saveFails (r_saveFails r + 1) r);;
        metric (EmitError "checkpoint_save");;
        fails ← gets r_saveFails; deg ← gets r_degraded; name ← gets r_name;
        if (checkpointFailThreshold <=? fails)%Z && negb deg then
          modify (with_degraded true "checkpoint-save failures");;
          metric (LoopDegraded "checkpoint-save failures" true);;
          tell (EvLog "error" "loop degraded: repeated checkpoint-save failures")
        else throttled_log ("save:" +:+ name) "warn" "checkpoint save failed"
    | None =>
        modify (with_saveFails 0);;
        deg ← gets r_degraded; reason ← gets r_degradeReason;
        when deg (metric (LoopDegraded reason false);; modify (with_degraded true ""));;
        modify (fun r => with_degraded false (r_degradeReason r) r);;
        ok ← gets r_firstOK;
        when (negb ok) (modify (with_firstOK true);;
                        tell (EvLog "info" "loop committed first watermark advance (leader healthy)"));;
        has ← gets r_hasFront; f ← gets r_frontier;
        when (negb has || After t (wm_Time f)
              || (Equal t (wm_Time f) && bool_decide (cursor <> "") && bool_decide (cursor <> wm_Cursor f)))
          (modify (with_front w true))
    end.

(** ** Processing a batch *)

(** [processLogs]: true to proceed to the shared commit. *)
Definition processLogs (b : Batch) : M bool :=
  key ← gets r_key; name ← gets r_name;
  '(kept, dropped) ← GuardSanitizeLogs (key_String key) b;
  when (bool_decide (0 < dropped)) (metric (GuardDropped dropped));;
  match kept with
  | [] => mret true
  | _ =>
      err ← DoEmit (mkBatch (b_Key b) [] kept zeroWm);
      match err with
      | None =>
          metric (EmittedLogs (length kept));;
          when (negb (IsZero (wm_Time (b_Watermark b)))) (metric (LastSuccess (wm_Time (b_Watermark b))));;
          mret true
      | Some e =>
          if isAdvancePast e then
            metric (SamplesSkipped (rejectReason e) (Z.of_nat (length kept)));;
            throttled_log ("skip:" +:+ name +:+ ":" +:+ rejectReason e) "warn"
              "log records skipped (advancing past, counted gap)";;
            mret true
          else if isTerminalHalt e then
            metric (EmitError (rejectReason e));;
            enterDegraded "terminal emit reject (logs)";;
            mret false
          else
            metric (EmitError "retryable_exhausted");;
            throttled_log ("retry:" +:+ name) "warn" "emit failed after retries; will re-pull next tick (logs)";;
            mret false
      end
  end.

(** What one bucket's guard pass and emit decide. *)
Inductive Verdict := Handled | Halt | Retry.

(** The body of the bucket loop, up to the watermark decision. *)
Definition emit_bucket (bucket : Batch) : M Verdict :=
  name ← gets r_name;
  let bucketTime := s_Timestamp (b_Samples bucket !!! 0) in
  '(sub, dropped) ← GuardSanitize bucket;
  when (bool_decide (0 < dropped)) (metric (GuardDropped dropped));;
  match b_Samples sub with
  | [] => mret Handled
  | _ =>
      err ← DoEmit sub;
      match err with
      | None =>
          metric (EmittedSamples (length (b_Samples sub)));;
          metric (LastSuccess bucketTime);;
          mret Handled
      | Some e =>
          if isAdvancePast e then
            metric (SamplesSkipped (rejectReason e) (Z.of_nat (length (b_Samples sub))));;
            throttled_log ("skip:" +:+ name +:+ ":" +:+ rejectReason e) "warn"
              "samples skipped (advancing past, counted gap)";;
            mret Handled
          else if isTerminalHalt e then
            metric (EmitError (rejectReason e));; mret Halt
          else
            metric (EmitError "retryable_exhausted");;
            throttled_log ("retry:" +:+ name) "warn" "emit failed after retries; will re-pull next tick";;
            mret Retry
      end
  end.

(** The bucket loop and the commit that ends it. *)
Fixpoint process_buckets (epoch : Z) (b : Batch) (buckets : list Batch) (frontier : Time) (advanced : bool) : M unit :=
  match buckets with
  | [] =>
      let target := wm_Time (b_Watermark b) in
      when (advanced || negb (IsZero target) || bool_decide (wm_Cursor (b_Watermark b) <> ""))
        (commit (b_Key b) target (wm_Cursor (b_Watermark b)) epoch)
  | bucket :: rest =>
      v ← emit_bucket bucket;
      match v with
      | Handled => process_buckets epoch b rest (s_Timestamp (b_Samples bucket !!! 0)) true
      | Halt => when advanced (commit (b_Key b) frontier "" epoch);; enterDegraded "terminal emit reject"
      | Retry => when advanced (commit (b_Key b) frontier "" epoch)
      end
  end.

(** [ProcessBatch] without its deferred [busy = false]; [epoch] is the value
    [coordinate.EpochFromContext] finds in the leader context. *)
Definition process (epoch : Z) (b : Batch) : M unit :=
  cancelled ← CtxErr;
  if cancelled : bool then mret tt
  else
    proceed ← (match b_Logs b with [] => mret true | _ => processLogs b end);
    if negb proceed then mret tt
    else
      maxDPM ← gets r_maxDPM;
      let '(samples, capped) := CoalesceDPM (b_Samples b) maxDPM in
      when (bool_decide (0 < capped)) (metric (SamplesCapped capped));;
      let b := mkBatch (b_Key b) samples (b_Logs b) (b_Watermark b) in
      process_buckets epoch b (splitByBucket b) zeroTime false.

Definition ProcessBatch (epoch : Z) (b : Batch) : M unit :=
  process epoch b;; modify (with_busy false).

(** ** The queue *)

(** [Enqueue] raises [busy] and then blocks in a [select]; the two halves are
    separate steps, because the worker runs between them. *)
Definition enqueue_begin : M unit := modify (with_busy true).

(** The send, possible while the queue has room. *)
Definition enqueue_send (b : Batch) : M bool :=
  q ← gets r_q; cap ← gets r_cap;
  if decide (length q < cap) then
    modify (with_q (q ++ [b]));; metric (QueueDepth (S (length q)));; mret true
  else mret false.

(** The context ended first. *)
Definition enqueue_cancel : M unit := modify (with_busy false).

(** One iteration of [Run] that took a batch from the queue: false when the
    worker returns instead of processing it. *)
Definition run_dequeue (epoch : Z) : M bool :=
  q ← gets r_q;
  match q with
  | [] => mret true
  | b :: q =>
      modify (with_q q);;
      cancelled ← CtxErr;
      if cancelled : bool then mret false
      else metric (QueueDepth (length q));; ProcessBatch epoch b;; mret true
  end.

(** ** Reasoning about operations *)

(** A relation between the state before, the trace and the state after that is
    closed under sequencing; an operation obeys it when every run does. *)
Class TraceRel (R : St -> list Ev -> St -> Prop) : Prop := {
  tr_refl s : R s [] s;
  tr_trans s t s' t' s'' : R s t s' -> R s' t' s'' -> R s (t ++ t') s''
}.

Definition obeys (R : St -> list Ev -> St -> Prop) {A} (m : M A) : Prop :=
  forall s a s' t, m s = (a, s', t) -> R s t s'.

Section obeys.
Context (R : St -> list Ev -> St -> Prop) `{!TraceRel R}.

Lemma obeys_ret {A} (a : A) : obeys R (mret a).
Proof. intros s a' s' t [= <- <- <-]. apply tr_refl. Qed.

Lemma obeys_bind {A B} (m : M A) (k : A -> M B) :
  obeys R m -> (forall a, obeys R (k a)) -> obeys R (m ≫= k).
Proof.
  intros Hm Hk s b s' t. unfold mbind, M_bind.
  destruct (m s) as [[a s1] t1] eqn:E1. destruct (k a s1) as [[b' s2] t2] eqn:E2.
  intros [= <- <- <-]. eapply tr_trans; [by eapply Hm|by eapply Hk].
Qed.

Lemma obeys_gets {A} (f : LoopRunner -> A) : obeys R (gets f).
Proof. intros s a' s' t [= <- <- <-]. apply tr_refl. Qed.

Lemma obeys_when c m : (c = true -> obeys R m) -> obeys R (when c m).
Proof. destruct c; intros Hm; [by apply Hm|apply obeys_ret]. Qed.
End obeys.

End runner.

(** Sequencing, branching and the structural steps of an [obeys] goal; the
    primitives come from the hints of [runner]. *)
Create HintDb runner.
Ltac obey :=
  repeat match goal with
  | |- forall _, _ => intros ?
  | |- obeys _ (mbind _ _) => apply obeys_bind; [apply _| |]
  | |- obeys _ (mret _) => apply obeys_ret; apply _
  | |- obeys _ (gets _) => apply obeys_gets; apply _
  | |- obeys _ (when _ _) => apply obeys_when; [apply _|intros _]
  | |- obeys _ (let '(_, _) := ?x in _) => destruct x
  | |- obeys _ (if ?c then _ else _) => destruct c
  | |- obeys _ (match ?x with _ => _ end) => destruct x
  | |- obeys _ _ => solve [eauto with runner nocore]
  end.

Section laws.
Context {W : Type} `{RunnerWorld W} `{Checkpointer W}.
#[local] Abbreviation St := (@St W).
#[local] Abbreviation M := (@M W).

(** What the world promises besides the store's contract: no other call
    reaches into the checkpoint except through the store. *)
Class RunnerLaws `{!CheckpointerSpec W} : Prop := {
  emit_durable b w e w' : em_Emit b w = (e, w') -> forall k, wm_le (durable w k) (durable w' k);
  ctx_durable w c w' : ctx_Err w = (c, w') -> forall k, wm_le (durable w k) (durable w' k);
  now_durable w n w' : time_Now w = (n, w') -> forall k, wm_le (durable w k) (durable w' k);
  guard_durable g w k : wm_le (durable w k) (durable (put_guard g w) k)
}.

Section theory.
Context `{Spec : !CheckpointerSpec W} `{Laws : !RunnerLaws}.
Implicit Types (s : St) (t : list Ev) (b : Batch).

(** *** Quiet operations *)

(** Events of an operation that neither saves nor touches the degraded gauge. *)
Definition quiet_ev (e : Ev) : bool :=
  match e with EvSave _ _ _ | EvMetric _ (LoopDegraded _ _) => false | _ => true end.

(** Events that, besides, neither count samples nor call the guard or the
    emitter. *)
Definition plain_ev (e : Ev) : bool :=
  match e with
  | EvEmit _ _ | EvGuard _ _ | EvSave _ _ _ => false
  | EvMetric _ (EmittedSamples _ | GuardDropped _ | SamplesCapped _ | SamplesSkipped _ _ | LoopDegraded _ _) => false
  | _ => true
  end.

Lemma plain_quiet t : Forall plain_ev t -> Forall quiet_ev t.
Proof. intros Hp. eapply Forall_impl; [exact Hp|]. by intros [? []| | | | | | | |]. Qed.

Definition world_le (w w' : W) : Prop := forall k, wm_le (durable w k) (durable w' k).

#[local] Instance world_le_preorder : PreOrder world_le.
Proof. split; [by intros w k|]. intros w1 w2 w3 H1 H2 k. etrans; [apply H1|apply H2]. Qed.

(** Only the log limiter and the world changed. *)
Definition quiet s t s' : Prop :=
  (exists l, st_r s' = with_lim l (st_r s)) /\ Forall quiet_ev t /\ world_le (st_w s) (st_w s').

#[local] Instance quiet_rel : TraceRel quiet.
Proof.
  split.
  - intros [r w]. split_and!; [exists (r_lim r); by destruct r|constructor|done].
  - intros s1 t1 s2 t2 s3 ([l1 H1] & F1 & D1) ([l2 H2] & F2 & D2). split_and!.
    + exists l2. by rewrite H2, H1.
    + by apply Forall_app.
    + by etrans.
Qed.

Lemma quiet_metric m : (forall reason d, m <> LoopDegraded reason d) -> obeys quiet (metric m).
Proof.
  intros Hm [r w] a s' t [= <- <- <-]. split_and!; simpl; [exists (r_lim r); by destruct r| |done].
  repeat constructor. by destruct m; try done; exfalso; eapply Hm.
Qed.

Lemma quiet_tell e : quiet_ev e -> obeys quiet (tell e).
Proof.
  intros He [r w] a s' t [= <- <- <-]. split_and!; simpl; [exists (r_lim r); by destruct r| |done]. by repeat constructor.
Qed.

Lemma quiet_lim l : obeys quiet (modify (with_lim l)).
Proof. intros [r w] a s' t [= <- <- <-]. split_and!; simpl; [by exists l|constructor|done]. Qed.

Lemma quiet_world {A} (f : W -> A * W) ev :
  (forall w a w', f w = (a, w') -> world_le w w') -> (forall a, Forall quiet_ev (ev a)) ->
  obeys quiet (world f ev).
Proof.
  intros Hf Hev [r w] a s' t. unfold world. simpl. destruct (f w) as [a' w'] eqn:E.
  intros [= <- <- <-]. split_and!; simpl; [exists (r_lim r); by destruct r|done|by eapply Hf].
Qed.

Lemma quiet_ctx : obeys quiet CtxErr.
Proof. apply quiet_world; [intros ?????; by eapply ctx_durable|by repeat constructor]. Qed.
Lemma quiet_emit b : obeys quiet (DoEmit b).
Proof. apply quiet_world; [intros ?????; by eapply emit_durable|by repeat constructor]. Qed.
Lemma quiet_load k : obeys quiet (DoLoad k).
Proof. apply quiet_world; [intros ?????; by eapply cp_Load_mono|by repeat constructor]. Qed.

Lemma quiet_labels ev : Forall quiet_ev (new_label_events "" ev).
Proof. apply Forall_fmap, Forall_true. by intros. Qed.

Lemma quiet_sanitize b : obeys quiet (GuardSanitize b).
Proof.
  intros [r w] a s' t. unfold GuardSanitize. simpl. destruct (Sanitize _ b) as [[[sub d] g] ev].
  intros [= <- <- <-]. split_and!; simpl; [exists (r_lim r); by destruct r| |intros k; apply guard_durable].
  constructor; [done|apply quiet_labels].
Qed.
Lemma quiet_sanitize_logs loop b : obeys quiet (GuardSanitizeLogs loop b).
Proof.
  intros [r w] a s' t. unfold GuardSanitizeLogs. simpl. destruct (SanitizeLogs _ loop _) as [[[sub d] g] ev].
  intros [= <- <- <-]. split_and!; simpl; [exists (r_lim r); by destruct r| |intros k; apply guard_durable].
  constructor; [done|apply quiet_labels].
Qed.

#[local] Hint Resolve quiet_metric quiet_tell quiet_lim quiet_ctx quiet_emit quiet_load
  quiet_sanitize quiet_sanitize_logs : runner.
#[local] Hint Extern 1 (forall _ _, _ <> LoopDegraded _ _) => done : runner.
#[local] Hint Extern 1 (Is_true (quiet_ev _)) => exact I : runner.

Lemma quiet_now : obeys quiet (world time_Now (fun _ => [])).
Proof. apply quiet_world; [intros ?????; by eapply now_durable|constructor]. Qed.
#[local] Hint Resolve quiet_now : runner.

Lemma quiet_throttled key level msg : obeys quiet (throttled_log key level msg).
Proof. unfold throttled_log. obey. Qed.
#[local] Hint Resolve quiet_throttled : runner.

Lemma emit_bucket_quiet bucket : obeys quiet (emit_bucket bucket).
Proof. unfold emit_bucket. obey. Qed.
#[local] Hint Resolve emit_bucket_quiet : runner.

Lemma Since_quiet : obeys quiet Since.
Proof. unfold Since. obey. Qed.

(** *** The in-memory frontier *)

(** [Since()] never runs ahead of what the store holds. *)
Definition front_ok s : Prop :=
  r_hasFront (st_r s) = true -> wm_le (r_frontier (st_r s)) (durable (st_w s) (r_key (st_r s))).

(** For the loop of [key]: the durable watermark advances, the frontier stays
    behind it and advances too. *)
Definition front_step (key : CheckpointKey) s t s' : Prop :=
  r_key (st_r s) = key ->
  r_key (st_r s') = key /\ world_le (st_w s) (st_w s') /\
  (front_ok s -> front_ok s' /\
    (r_hasFront (st_r s) = true ->
       r_hasFront (st_r s') = true /\ wm_le (r_frontier (st_r s)) (r_frontier (st_r s')))).

#[local] Instance front_step_rel key : TraceRel (front_step key).
Proof.
  split; [by intros s Hk|]. intros s1 t1 s2 t2 s3 H1 H2 Hk.
  destruct (H1 Hk) as (Hk2 & D1 & F1). destruct (H2 Hk2) as (Hk3 & D2 & F2).
  split_and!; [done|by etrans|]. intros Hf. destruct (F1 Hf) as [Hf2 M1]. destruct (F2 Hf2) as [Hf3 M2].
  split; [done|]. intros Hh. destruct (M1 Hh) as [Hh2 L1]. destruct (M2 Hh2) as [Hh3 L2].
  split; [done|by etrans].
Qed.

(** The frontier did not move. *)
Lemma front_stay key s t s' :
  r_key (st_r s') = r_key (st_r s) -> r_hasFront (st_r s') = r_hasFront (st_r s) ->
  r_frontier (st_r s') = r_frontier (st_r s) -> world_le (st_w s) (st_w s') -> front_step key s t s'.
Proof.
  intros Hk' Hh' Hf' D Hk. unfold front_ok. rewrite Hk', Hh', Hf'. split_and!; [done..|].
  intros Hf. split; [|done]. intros Hh. etrans; [by apply Hf|apply D].
Qed.

Lemma quiet_front key s t s' : quiet s t s' -> front_step key s t s'.
Proof. intros ([l Hr] & _ & D). apply front_stay; [by rewrite Hr..|done]. Qed.

Lemma obeys_weaken (R R' : St -> list Ev -> St -> Prop) {A} (m : M A) :
  (forall s t s', R s t s' -> R' s t s') -> obeys R m -> obeys R' m.
Proof. intros HR Hm s a s' t E. by eapply HR, Hm. Qed.

(** Unfold an operation into the calls it makes. *)
Ltac run :=
  unfold CtxErr, DoSave, DoLoad, DoEmit, when, mbind, M_bind, mret, M_ret, gets, modify, metric, tell, world in *;
  simpl in *.

(** The runs of [commit], branch by branch. *)
Inductive commit_ran (key : CheckpointKey) (wm : Watermark) (s : St) : St -> list Ev -> Prop :=
| commit_lost w1 :
    ctx_Err (st_w s) = (true, w1) -> commit_ran key wm s (mkSt (st_r s) w1) [EvCtx true]
| commit_saved w1 w2 rest :
    ctx_Err (st_w s) = (false, w1) -> cp_Save key wm w1 = (None, w2) ->
    Forall plain_ev rest ->
    let r := st_r s in
    let r1 := with_firstOK true (with_degraded false (if r_degraded r then "" else r_degradeReason r) (with_saveFails 0 r)) in
    let ahead := negb (r_hasFront r) || After (wm_Time wm) (wm_Time (r_frontier r))
        || (Equal (wm_Time wm) (wm_Time (r_frontier r)) && bool_decide (wm_Cursor wm <> "")
            && bool_decide (wm_Cursor wm <> wm_Cursor (r_frontier r))) in
    commit_ran key wm s (mkSt (if ahead then with_front wm true r1 else r1) w2)
      (EvCtx false :: EvSave key wm None ::
         (if r_degraded r then [EvMetric (r_name r) (LoopDegraded (r_degradeReason r) false)] else []) ++ rest)
| commit_stale w1 w2 w3 stored rest :
    ctx_Err (st_w s) = (false, w1) -> cp_Save key wm w1 = (Some ErrStaleWrite, w2) ->
    cp_Load key w2 = (stored, w3) -> Forall plain_ev rest ->
    commit_ran key wm s
      (mkSt (match stored with Ok f => with_front f true (st_r s) | Err _ => st_r s end) w3)
      (EvCtx false :: EvSave key wm (Some ErrStaleWrite) :: rest)
| commit_failed_degrades w1 w2 e :
    ctx_Err (st_w s) = (false, w1) -> cp_Save key wm w1 = (Some e, w2) -> e <> ErrStaleWrite ->
    (checkpointFailThreshold <= r_saveFails (st_r s) + 1)%Z -> r_degraded (st_r s) = false ->
    let name := r_name (st_r s) in
    commit_ran key wm s
      (mkSt (with_degraded true "checkpoint-save failures" (with_saveFails (r_saveFails (st_r s) + 1) (st_r s))) w2)
      [EvCtx false; EvSave key wm (Some e); EvMetric name (EmitError "checkpoint_save");
       EvMetric name (LoopDegraded "checkpoint-save failures" true);
       EvLog "error" "loop degraded: repeated checkpoint-save failures"]
| commit_failed w1 w2 w3 e l rest :
    ctx_Err (st_w s) = (false, w1) -> cp_Save key wm w1 = (Some e, w2) -> e <> ErrStaleWrite ->
    ((r_saveFails (st_r s) + 1 < checkpointFailThreshold)%Z \/ r_degraded (st_r s) = true) ->
    world_le w2 w3 -> Forall plain_ev rest ->
    commit_ran key wm s (mkSt (with_lim l (with_saveFails (r_saveFails (st_r s) + 1) (st_r s))) w3)
      (EvCtx false :: EvSave key wm (Some e) :: rest).

Lemma throttled_plain key level msg s a s' t :
  throttled_log key level msg s = (a, s', t) -> Forall plain_ev t.
Proof.
  unfold throttled_log. run. destruct (time_Now _). destruct (Allow _ _ _) as [[] ?]; run; intros [= <- <- <-];
    by repeat constructor.
Qed.

Lemma commit_inv key (tm : Time) cursor epoch s a s' t :
  commit key tm cursor epoch s = (a, s', t) -> commit_ran key (mkWm tm cursor epoch) s s' t.
Proof.
  destruct s as [r w]. unfold commit. run.
  destruct (ctx_Err w) as [c w1] eqn:Ec. destruct c; run; [intros [= <- <- <-]; by constructor|].
  destruct (cp_Save key (mkWm tm cursor epoch) w1) as [e w2] eqn:Es. destruct e as [e|].
  - destruct (decide (e = ErrStaleWrite)) as [->|Hne].
    + run. destruct (cp_Load key w2) as [[f|] w3] eqn:El; simpl.
      * destruct (Before _ _); simpl; intros [= <- <- <-];
          eapply (commit_stale _ _ (mkSt r w) w1 w2 w3 (Ok f)); try done; by repeat constructor.
      * intros [= <- <- <-]. eapply (commit_stale _ _ (mkSt r w) w1 w2 w3 (Err e)); try done; by repeat constructor.
    + destruct e as [| |msg]; [done|..]; run.
      all: destruct ((checkpointFailThreshold <=? r_saveFails r + 1)%Z && negb (r_degraded r)) eqn:Hthr; run.
      1,3: apply andb_prop in Hthr as [Hthr%Z.leb_le Hdeg%negb_true_iff]; intros [= <- <- <-];
        by eapply (commit_failed_degrades _ _ (mkSt r w)).
      all: apply andb_false_iff in Hthr as Hthr'; rewrite negb_false_iff in Hthr'.
      all: match goal with |- context [throttled_log ?k ?lv ?m ?s] =>
        destruct (throttled_log k lv m s) as [[u s4] t4] eqn:El;
        apply throttled_plain in El as Hpl; apply quiet_throttled in El as ([l Hr] & _ & D) end.
      all: destruct s4 as [r4 w4]; simpl in *; subst r4; intros [= <- <- <-];
        eapply (commit_failed _ _ (mkSt r w)); try done; [simpl; destruct Hthr' as [?%Z.leb_gt|?]; auto with lia|].
      all: by repeat constructor.
  - run. destruct (r_degraded r) eqn:Hdeg; run; destruct (r_firstOK r) eqn:Hfirst; run;
      match goal with |- context [if ?c then _ else _] => destruct c eqn:Hah end; run; intros [= <- <- <-].
    all: pose proof (fun rest => commit_saved key (mkWm tm cursor epoch) (mkSt r w) w1 w2 rest Ec Es) as C;
      simpl in C; rewrite Hdeg, Hah in C; destruct r; simpl in *; subst.
    all: first [exact (C [] (Forall_nil_2 _)) | apply (C [_]); by repeat constructor].
Qed.

(** Whatever happens in [commit], the frontier follows the store. *)
Lemma commit_front key tm cursor epoch : in_int64 epoch -> obeys (front_step key) (commit key tm cursor epoch).
Proof.
  intros Hep s a s' t Hrun. apply commit_inv in Hrun. destruct s as [r w].
  destruct Hrun as [w1 Ec|w1 w2 rest Ec Es _ r0 r1 ahead|w1 w2 w3 stored rest Ec Es El _
    |w1 w2 e Ec Es _ _ _ name|w1 w2 w3 e l rest Ec Es _ _ D3 _]; simpl in *;
    pose proof (ctx_durable _ _ _ Ec : world_le w w1) as D1; [by apply front_stay|..];
    assert (world_le w1 w2) as D2 by (exact (cp_Save_mono _ (mkWm tm cursor epoch) _ _ _ Hep Es)).
  - pose proof (cp_Save_ok _ (mkWm tm cursor epoch) _ _ Hep Es) as [Hlo Hhi]. intros Hk. simpl in Hk.
    split_and!; [by destruct ahead|by etrans|]. unfold front_ok; simpl. rewrite Hk. intros Hf.
    assert (r_hasFront r = true -> wm_le (r_frontier r) (mkWm tm cursor epoch)) as Hup.
    { intros Hh. etrans; [by apply Hf|]. etrans; [apply D1|done]. }
    subst r1 r0. destruct ahead; simpl; rewrite Hk.
    + split; [done|]. intros Hh. split; [done|by apply Hup].
    + split; [|done]. intros Hh. etrans; [by apply Hup|done].
  - assert (world_le w2 w3) as D3 by (intros k; by eapply cp_Load_mono).
    destruct stored as [f|]; [|apply front_stay; simpl; [done..|]; etrans; [done|by etrans]].
    apply cp_Load_fresh in El as [Hlo Hhi]. intros Hk. simpl in Hk.
    split_and!; [done|etrans; [done|by etrans]|]. unfold front_ok; simpl. rewrite Hk. intros Hf.
    split; [done|]. intros Hh. split; [done|]. etrans; [by apply Hf|]. etrans; [apply D1|]. etrans; [apply D2|done].
  - apply front_stay; simpl; [done..|by etrans].
  - apply front_stay; simpl; [done..|]. etrans; [done|by etrans].
Qed.

Lemma enterDegraded_inv reason s a s' t :
  enterDegraded reason s = (a, s', t) ->
  (r_degraded (st_r s) = true /\ s' = s /\ t = []) \/
  (r_degraded (st_r s) = false /\ s' = mkSt (with_degraded true reason (st_r s)) (st_w s) /\
   t = [EvMetric (r_name (st_r s)) (LoopDegraded reason true);
        EvLog "error" "loop degraded (loud halt, scheduler will back off)"]).
Proof.
  destruct s as [r w]. unfold enterDegraded. run. destruct (r_degraded r); run; intros [= <- <- <-]; auto.
Qed.

(** The structure every batch-level fact follows: a relation that quiet steps,
    [commit] and [enterDegraded] obey is obeyed by [ProcessBatch]. *)
Section batch.
Context (R : St -> list Ev -> St -> Prop) `{!TraceRel R} (b : Batch) (epoch : Z).
Context (HRquiet : forall s t s', quiet s t s' -> R s t s').
Context (HRcommit : forall tm cursor, obeys R (commit (b_Key b) tm cursor epoch)).
Context (HRdegrade : forall reason, obeys R (enterDegraded reason)).

Lemma obeys_quiet {A} (m : M A) : obeys quiet m -> obeys R m.
Proof. by apply obeys_weaken. Qed.

#[local] Hint Resolve HRcommit HRdegrade : runner.
#[local] Hint Extern 2 (obeys R _) => apply obeys_quiet : runner.

Lemma processLogs_obeys b' : obeys R (processLogs b').
Proof using Type*. unfold processLogs. obey. Qed.

Lemma process_buckets_obeys samples buckets frontier advanced :
  obeys R (process_buckets epoch (mkBatch (b_Key b) samples (b_Logs b) (b_Watermark b)) buckets frontier advanced).
Proof using Type*.
  revert frontier advanced. induction buckets as [|bucket rest IH]; intros frontier advanced; cbn [process_buckets]; obey.
Qed.

Lemma process_obeys : obeys R (process epoch b).
Proof using Type*.
  pose proof processLogs_obeys. pose proof process_buckets_obeys.
  unfold process. obey.
Qed.
End batch.

Lemma enterDegraded_front key reason : obeys (front_step key) (enterDegraded reason).
Proof.
  intros s a s' t [(_ & -> & ->)|(_ & -> & ->)]%enterDegraded_inv; [apply tr_refl|]. by apply front_stay.
Qed.

(** C17: the in-memory frontier never runs ahead of the durable watermark and
    never goes back: processing any batch of the loop, whatever the emitter,
    the store and other replicas do, keeps the frontier behind what the store
    holds, and moves both only forward. *)
Theorem ProcessBatch_frontier epoch b s s' a t :
  in_int64 epoch -> b_Key b = r_key (st_r s) -> front_ok s ->
  ProcessBatch epoch b s = (a, s', t) ->
  front_ok s' /\
  (forall k, wm_le (durable (st_w s) k) (durable (st_w s') k)) /\
  (r_hasFront (st_r s) = true ->
     r_hasFront (st_r s') = true /\ wm_le (r_frontier (st_r s)) (r_frontier (st_r s'))).
Proof.
  intros Hep Hk Hf Hrun.
  assert (obeys (front_step (b_Key b)) (ProcessBatch epoch b)) as Hob.
  { apply obeys_bind; [apply _|apply process_obeys; [apply _|apply quiet_front| |apply enterDegraded_front]|].
    - intros. by apply commit_front.
    - intros _ s1 a1 s2 t1 [= <- <- <-]. by apply front_stay. }
  destruct (Hob _ _ _ _ Hrun) as (_ & D & HF); [done|]. destruct (HF Hf) as [Hf' Hm]. auto.
Qed.

(** *** The degraded gauge *)

(** The value of the [{loop, reason}] gauge after the events of a trace. *)
Definition set_gauge (g : gmap (string * string) bool) (e : Ev) : gmap (string * string) bool :=
  match e with EvMetric n (LoopDegraded reason d) => <[(n, reason) := d]> g | _ => g end.
Definition degraded_gauge (g : gmap (string * string) bool) (t : list Ev) : gmap (string * string) bool :=
  foldl set_gauge g t.

(** The gauge shows exactly the current degrade, and five consecutive save
    failures are a degrade. *)
Definition gauge_ok (r : LoopRunner) (g : gmap (string * string) bool) : Prop :=
  forall reason, g !! (r_name r, reason) = Some true <-> r_degraded r = true /\ r_degradeReason r = reason.
Definition degrade_ok (r : LoopRunner) (g : gmap (string * string) bool) : Prop :=
  gauge_ok r g /\ ((checkpointFailThreshold <= r_saveFails r)%Z -> r_degraded r = true).

Definition degrade_step s t s' : Prop :=
  r_name (st_r s') = r_name (st_r s) /\
  forall g, degrade_ok (st_r s) g -> degrade_ok (st_r s') (degraded_gauge g t).

#[local] Instance degrade_step_rel : TraceRel degrade_step.
Proof.
  split; [by intros s|]. intros s1 t1 s2 t2 s3 [N1 H1] [N2 H2]. split; [by rewrite N2|].
  intros g Hg. unfold degraded_gauge. rewrite foldl_app. by apply H2, H1.
Qed.

Lemma quiet_gauge g t : Forall quiet_ev t -> degraded_gauge g t = g.
Proof.
  unfold degraded_gauge. induction 1 as [|e t He _ IH]; simpl; [done|].
  assert (set_gauge g e = g) as -> by (by destruct e as [? []| | | | | | | |]). done.
Qed.

Lemma quiet_degrade s t s' : quiet s t s' -> degrade_step s t s'.
Proof. intros ([l Hr] & Hq & _). split; [by rewrite Hr|]. intros g. by rewrite quiet_gauge, Hr. Qed.

(** Setting and clearing the gauge on the runner's own series. *)
Lemma degrade_ok_set r g reason :
  gauge_ok r g -> r_degraded r = false ->
  degrade_ok (with_degraded true reason r) (<[(r_name r, reason) := true]> g).
Proof.
  unfold gauge_ok. intros Hg Hd. split; [|done]. intros reason'. simpl.
  destruct (decide (reason' = reason)) as [->|Hne]; [by rewrite lookup_insert_eq|].
  rewrite lookup_insert_ne by congruence. rewrite Hg, Hd. intuition congruence.
Qed.

Lemma degrade_ok_clear r g reason n :
  degrade_ok r g -> (n < checkpointFailThreshold)%Z ->
  degrade_ok (with_degraded false reason (with_saveFails n r))
    (if r_degraded r then <[(r_name r, r_degradeReason r) := false]> g else g).
Proof.
  unfold degrade_ok, gauge_ok. intros [Hg _] Hn. split; [|simpl; lia]. intros reason'. simpl. split; [|by intros []].
  destruct (r_degraded r) eqn:Hd.
  - destruct (decide (reason' = r_degradeReason r)) as [->|Hne]; [by rewrite lookup_insert_eq|].
    rewrite lookup_insert_ne by congruence. rewrite Hg. intuition congruence.
  - rewrite Hg. intuition congruence.
Qed.

Lemma enterDegraded_degrade reason : obeys degrade_step (enterDegraded reason).
Proof.
  intros s a s' t [(_ & -> & ->)|(Hd & -> & ->)]%enterDegraded_inv; [apply tr_refl|].
  split; [done|]. intros g [Hg _]. by apply degrade_ok_set.
Qed.

Lemma commit_degrade key tm cursor epoch : obeys degrade_step (commit key tm cursor epoch).
Proof.
  intros s a s' t Hrun. apply commit_inv in Hrun. split.
  { destruct Hrun; simpl; repeat case_match; done. }
  intros g Hg. destruct Hrun as [w1 Ec|w1 w2 rest Ec Es Hq r0 r1 ahead|w1 w2 w3 stored rest Ec Es El Hq
    |w1 w2 e Ec Es _ Hthr Hd name|w1 w2 w3 e l rest Ec Es _ Hthr D3 Hq]; simpl.
  - done.
  - match goal with |- degrade_ok _ ?g1 =>
      assert (g1 = if r_degraded r0 then <[(r_name r0, r_degradeReason r0) := false]> g else g) as -> end.
    { unfold degraded_gauge. simpl. rewrite foldl_app. by destruct (r_degraded r0); apply quiet_gauge, plain_quiet. }
    pose proof (degrade_ok_clear r0 g (if r_degraded r0 then "" else r_degradeReason r0) 0 Hg ltac:(done)).
    by destruct ahead.
  - rewrite quiet_gauge by (by apply plain_quiet). by destruct stored.
  - apply (degrade_ok_set (with_saveFails (r_saveFails (st_r s) + 1) (st_r s))); [by destruct Hg|done].
  - rewrite quiet_gauge by (by apply plain_quiet). destruct Hg as [Hg Hs]. split; [done|]. simpl.
    intros. destruct Hthr; [lia|done].
Qed.

(** Steps that leave the degrade state alone. *)
Lemma degrade_stay s t s' :
  r_name (st_r s') = r_name (st_r s) -> r_degraded (st_r s') = r_degraded (st_r s) ->
  r_degradeReason (st_r s') = r_degradeReason (st_r s) -> r_saveFails (st_r s') = r_saveFails (st_r s) ->
  Forall quiet_ev t -> degrade_step s t s'.
Proof.
  intros Hn Hd Hr Hs Hq. split; [done|]. intros g. rewrite quiet_gauge by done. unfold degrade_ok, gauge_ok. by rewrite Hn, Hd, Hr, Hs.
Qed.

Lemma Reset_inv s a s' t :
  Reset s = (a, s', t) ->
  let r := st_r s in
  s' = mkSt (with_backfill zeroTime zeroTime (with_firstOK false
         (with_degraded false (if r_degraded r then "" else r_degradeReason r)
         (with_saveFails 0 (with_front zeroWm false (with_busy false (with_q [] r))))))) (st_w s) /\
  t = if r_degraded r then [EvMetric (r_name r) (LoopDegraded (r_degradeReason r) false)] else [].
Proof.
  destruct s as [r w]. unfold Reset. run. destruct (r_degraded r) eqn:Hd; run; intros [= <- <- <-]; done.
Qed.

Lemma Reset_degrade : obeys degrade_step Reset.
Proof.
  intros s a s' t [-> ->]%Reset_inv. split; [done|]. intros g Hg.
  pose proof (degrade_ok_clear (st_r s) g (if r_degraded (st_r s) then "" else r_degradeReason (st_r s)) 0 Hg ltac:(done)).
  by destruct (r_degraded (st_r s)).
Qed.

Lemma ProcessBatch_degrade epoch b : obeys degrade_step (ProcessBatch epoch b).
Proof.
  apply obeys_bind; [apply _|apply process_obeys; [apply _|apply quiet_degrade|..]|].
  - intros. apply commit_degrade.
  - apply enterDegraded_degrade.
  - intros _ s1 a1 s2 t1 [= <- <- <-]. by apply degrade_stay.
Qed.

(** *** Histories *)

(** The calls the scheduler makes on a runner. *)
Inductive RunnerOp :=
| OpSince
| OpBackfill (wm floor : Time)
| OpDegrade (reason : string)
| OpReset
| OpEnqueueBegin | OpEnqueueSend (b : Batch) | OpEnqueueCancel
| OpDequeue (epoch : Z).

Definition run_op (o : RunnerOp) : M unit :=
  match o with
  | OpSince => Since;; mret tt
  | OpBackfill wm floor => BackfillUnstorableMinutes wm floor;; mret tt
  | OpDegrade reason => Degrade reason
  | OpReset => Reset
  | OpEnqueueBegin => enqueue_begin
  | OpEnqueueSend b => enqueue_send b;; mret tt
  | OpEnqueueCancel => enqueue_cancel
  | OpDequeue epoch => run_dequeue epoch;; mret tt
  end.

Fixpoint run_ops (ops : list RunnerOp) : M unit :=
  match ops with [] => mret tt | o :: ops => run_op o;; run_ops ops end.

Lemma degrade_modify f :
  (forall r, r_name (f r) = r_name r /\ r_degraded (f r) = r_degraded r /\
     r_degradeReason (f r) = r_degradeReason r /\ r_saveFails (f r) = r_saveFails r) ->
  obeys degrade_step (modify f).
Proof.
  intros Hf s a s' t [= <- <- <-]. destruct (Hf (st_r s)) as (? & ? & ? & ?). by apply degrade_stay.
Qed.

Lemma run_ops_degrade ops : obeys degrade_step (run_ops ops).
Proof.
  pose proof Reset_degrade. pose proof enterDegraded_degrade. pose proof ProcessBatch_degrade.
  assert (forall f m, (forall r, r_name (f r) = r_name r /\ r_degraded (f r) = r_degraded r /\
     r_degradeReason (f r) = r_degradeReason r /\ r_saveFails (f r) = r_saveFails r) -> m = modify f ->
     obeys degrade_step m) by (intros ? ? ? ->; by apply degrade_modify).
  assert (forall {A} (m : M A), obeys quiet m -> obeys degrade_step m) by
    (intros ? ?; apply obeys_weaken, quiet_degrade).
  assert (obeys quiet Since) by apply Since_quiet.
  assert (forall n, obeys degrade_step (metric (QueueDepth n))) by (intros; auto using quiet_metric).
  assert (obeys degrade_step CtxErr) by auto using quiet_ctx.
  assert (forall o, obeys degrade_step (run_op o)) as Hop.
  { intros [| | | | | | |ep]; cbn [run_op]; unfold BackfillUnstorableMinutes, Degrade, enqueue_begin, enqueue_send,
      enqueue_cancel, run_dequeue; obey; try (by apply degrade_modify); auto. }
  induction ops as [|o ops IH]; cbn [run_ops]; [apply obeys_ret, _|]. apply obeys_bind; [apply _|done|auto].
Qed.

(** The degraded gauge never flaps and never sticks: after any history of
    calls on a fresh runner, the gauge series of the loop that reads 1 is
    exactly the current degrade reason (none when healthy), and a loop whose
    checkpoint failed to save five times in a row is degraded. *)
Theorem degraded_gauge_exact key depth maxDPM ops w s' a t :
  run_ops ops (mkSt (NewLoopRunner key depth maxDPM) w) = (a, s', t) ->
  (forall reason, degraded_gauge ∅ t !! (k_Loop key, reason) = Some true <->
     r_degraded (st_r s') = true /\ r_degradeReason (st_r s') = reason) /\
  ((checkpointFailThreshold <= r_saveFails (st_r s'))%Z -> r_degraded (st_r s') = true).
Proof.
  intros [Hn Hd]%run_ops_degrade. simpl in Hn. rewrite <-Hn. apply Hd.
  split; [|done]. intros reason. rewrite lookup_empty. naive_solver.
Qed.
End theory.
End laws.

(** ** A concrete world *)

Module Sim.
(** A fenced in-memory store; scripted emitter answers and leadership checks
    (accepted and leading once the script ends). *)
Record World := mkWorld {
  store : gmap CheckpointKey Watermark; answers : list (option EmitErr); lost : list bool; guard : Guard }.

#[global] Instance checkpointer : Checkpointer World := {|
  cp_Load k w := (Ok (default zeroWm (store w !! k)), w);
  cp_Save k wm w :=
    match CheckMonotonic (default zeroWm (store w !! k)) wm with
    | Some e => (Some e, w)
    | None => (None, mkWorld (<[k := wm]> (store w)) (answers w) (lost w) (guard w))
    end
|}.

#[global] Instance spec : CheckpointerSpec World.
Proof.
  refine {| durable w k := default zeroWm (store w !! k) |}.
  - by intros k w r w' [= <- <-].
  - by intros k w wm w' [= <- <-].
  - intros k wm w r w' _. simpl. destruct (CheckMonotonic _ wm) eqn:Hc; intros [= <- <-] k'; [done|]. simpl.
    destruct (decide (k = k')) as [<-|]; [rewrite lookup_insert_eq; by apply CheckMonotonic_le|by rewrite lookup_insert_ne].
  - intros k wm w w' _. simpl. destruct (CheckMonotonic _ wm) eqn:Hc; [done|]. intros [= <-]. simpl.
    rewrite lookup_insert_eq. split; [by apply CheckMonotonic_le|done].
Defined.

#[global] Instance world : RunnerWorld World := {|
  em_Emit b w := match answers w with
                 | [] => (None, w)
                 | a :: l => (a, mkWorld (store w) l (lost w) (guard w))
                 end;
  ctx_Err w := match lost w with
               | [] => (false, w)
               | c :: l => (c, mkWorld (store w) (answers w) l (guard w))
               end;
  time_Now w := (unixToInternal * Second, w)%Z;
  get_guard := guard;
  put_guard g w := mkWorld (store w) (answers w) (lost w) g
|}.

#[global] Instance laws : RunnerLaws (W:=World).
Proof.
  split.
  - intros b w e w'. simpl. destruct (answers w); by intros [= <- <-].
  - intros w c w'. simpl. destruct (lost w); by intros [= <- <-].
  - by intros w n w' [= <- <-].
  - done.
Qed.

Definition t0 : Time := (unixToInternal * Second)%Z.
Definition key : CheckpointKey := mkKey "inst" "analytics" "fp".
Definition sample (name : string) (minute : Z) : Sample :=
  mkSample name Gauge TempUnset false "1" ∅ (f64_of_Z 1) (t0 + minute * Minute).
Definition batch : Batch :=
  mkBatch key [sample "tokens" 1; sample "tokens" 2; sample "cost" 1; sample "tokens" 3] []
    (mkWm (t0 + 4 * Minute) "" 0).
Definition guard0 : Guard := NewGuard (mkGuardConfig [] [] ∅ 100 false).
Definition dup : EmitErr := ERejected (mkReject ReasonDuplicateTimestamp 400 "dup").
Definition unknown : EmitErr := ERejected (mkReject ReasonUnknown 400 "?").

(** Everything settled; the second bucket rejected for good; leadership lost
    before the commit. *)
Definition good : St := mkSt (NewLoopRunner key 4 1) (mkWorld ∅ [None; Some dup] [] guard0).
Definition halting : St := mkSt (NewLoopRunner key 4 1) (mkWorld ∅ [None; Some unknown] [] guard0).
Definition run (s : St) := ProcessBatch 7 batch s.
Definition final (s : St) : St := (run s).1.2.
Definition trace (s : St) : list Ev := (run s).2.

Lemma run_eq s : ProcessBatch 7 batch s = (tt, final s, trace s).
Proof. unfold final, trace, run. by destruct (ProcessBatch 7 batch s) as [[[] s'] t]. Qed.
End Sim.

Lemma ProcessBatch_frontier_witness :
  r_frontier (st_r (Sim.final Sim.good)) = mkWm (Sim.t0 + 4 * Minute) "" 7 /\ front_ok (Sim.final Sim.good).
Proof.
  split; [vm_compute; reflexivity|].
  refine (proj1 (ProcessBatch_frontier 7 Sim.batch Sim.good _ tt (Sim.trace Sim.good) _ eq_refl _ (Sim.run_eq Sim.good))).
  - split; vm_compute; discriminate.
  - intros Hh. discriminate Hh.
Defined.

Lemma degraded_gauge_exact_witness :
  let out := run_ops [OpEnqueueBegin; OpEnqueueSend Sim.batch; OpDequeue 7] Sim.halting in
  r_degraded (st_r out.1.2) = true /\
  degraded_gauge ∅ out.2 !! ("analytics", "terminal emit reject") = Some true.
Proof.
  intros out. assert (r_degraded (st_r out.1.2) = true) as Hd by (vm_compute; reflexivity). split; [exact Hd|].
  assert (run_ops [OpEnqueueBegin; OpEnqueueSend Sim.batch; OpDequeue 7] Sim.halting = (tt, out.1.2, out.2)) as Hrun.
  { fold out. by destruct out as [[[] s'] t]. }
  apply (proj1 (degraded_gauge_exact _ _ _ _ _ _ _ _ Hrun) "terminal emit reject").
  split; [exact Hd|vm_compute; reflexivity].
Defined.
