(* ===== verification/RunnerBatch.v ===== *)
(** * What processing a batch guarantees (internal/schedule/runner.go)

    The batch-level theorems on [Runner.ProcessBatch]: the watermark only ever
    covers handled buckets, a save is always gated by a fresh leadership check,
    a batch is committed at most once, every sample of a completed batch is
    counted, and a terminal reject leaves the loop degraded. *)

From S2P Require Import Prelude Model Checkpoint Emit Guard Limiter Runner.

(** ** Buckets *)

Section partition.
Context {A K : Type} `{EqDecision K} (f : A -> K).

Definition with_key (k : K) (l : list A) : list A := filter (fun x => f x = k) l.

Lemma with_key_cons_concat x l (ks : list K) :
  NoDup ks -> f x ∈ ks ->
  concat ((fun k => with_key k (x :: l)) <$> ks) ≡ₚ x :: concat ((fun k => with_key k l) <$> ks).
Proof.
  unfold with_key. induction ks as [|k ks IH]; intros Hnd Hin; [by apply elem_of_nil in Hin|].
  apply NoDup_cons in Hnd as [Hk Hnd]. simpl. destruct (decide (f x = k)) as [<-|Hne].
  - rewrite filter_cons_True by done. simpl. f_equiv. f_equiv.
    assert (forall k', k' ∈ ks -> filter (fun y => f y = k') (x :: l) = filter (fun y => f y = k') l) as Hsame.
    { intros k' Hk'. rewrite filter_cons_False; [done|]. by intros <-. }
    clear -Hsame. induction ks as [|k' ks IH]; [done|]. rewrite !fmap_cons, !concat_cons.
    rewrite Hsame by left. f_equiv. apply IH. intros. apply Hsame. by right.
  - rewrite filter_cons_False by done. apply elem_of_cons in Hin as [?|Hin]; [done|].
    rewrite (IH Hnd Hin). by rewrite Permutation_middle.
Qed.

(** Grouping by a key that covers the list only permutes it. *)
Lemma with_key_concat l (ks : list K) :
  NoDup ks -> (forall x, x ∈ l -> f x ∈ ks) -> concat ((fun k => with_key k l) <$> ks) ≡ₚ l.
Proof.
  intros Hnd. induction l as [|x l IH]; intros Hcov.
  { clear Hnd Hcov. by induction ks. }
  rewrite with_key_cons_concat by (done || apply Hcov; by left). f_equiv. apply IH. intros. apply Hcov. by right.
Qed.
End partition.

Definition bucket_ns (s : Sample) : Z := UnixNano (s_Timestamp s).

Lemma bucket_groups_lookup l m ns :
  default [] (bucket_groups l m !! ns) = default [] (m !! ns) ++ with_key bucket_ns ns l.
Proof.
  unfold with_key. revert m. induction l as [|x l IH]; intros m; simpl; [by rewrite app_nil_r|].
  rewrite IH. fold (bucket_ns x). destruct (decide (bucket_ns x = ns)) as [<-|Hne].
  - rewrite lookup_insert_eq, filter_cons_True by done. simpl. by rewrite <-app_assoc.
  - by rewrite lookup_insert_ne, filter_cons_False.
Qed.

Lemma bucket_groups_dom l m ns :
  is_Some (bucket_groups l m !! ns) <-> is_Some (m !! ns) \/ exists x, x ∈ l /\ bucket_ns x = ns.
Proof.
  revert m. induction l as [|x l IH]; intros m; simpl.
  { split; [by left|]. intros [?|(x & Hx & _)]; [done|by apply elem_of_nil in Hx]. }
  rewrite IH. fold (bucket_ns x). setoid_rewrite elem_of_cons. rewrite lookup_insert_is_Some. split.
  - intros [[<-|[_ ?]]|(y & ? & ?)]; eauto.
  - intros [?|(y & [->|?] & ?)]; eauto. destruct (decide (bucket_ns x = ns)); eauto.
Qed.

(** The keys of the groups in ascending order. *)
Definition bucket_keys (l : list Sample) : list Z := stable_sort Z.ltb (map_to_list (bucket_groups l ∅)).*1.

Lemma splitByBucket_keys b :
  splitByBucket b = (fun k => mkBatch (b_Key b) (with_key bucket_ns k (b_Samples b)) [] zeroWm) <$> bucket_keys (b_Samples b).
Proof.
  unfold splitByBucket. apply list_fmap_ext. intros i k _. f_equal.
  by rewrite bucket_groups_lookup, lookup_empty.
Qed.

Lemma bucket_keys_elem l k : k ∈ bucket_keys l <-> exists x, x ∈ l /\ bucket_ns x = k.
Proof.
  unfold bucket_keys. rewrite stable_sort_perm, list_elem_of_fmap.
  transitivity (is_Some (bucket_groups l ∅ !! k)).
  - split.
    + intros ([k' v] & -> & Hin%elem_of_map_to_list). by exists v.
    + intros [v Hv]. exists (k, v). split; [done|]. by apply elem_of_map_to_list.
  - rewrite bucket_groups_dom, lookup_empty. split; [intros [[]|]; done|by right].
Qed.

Lemma bucket_keys_sorted l : StronglySorted Z.lt (bucket_keys l).
Proof.
  assert (NoDup (bucket_keys l)) as Hnd.
  { unfold bucket_keys. rewrite stable_sort_perm. apply NoDup_fst_map_to_list. }
  assert (StronglySorted Z.le (bucket_keys l)) as Hs.
  { apply stable_sort_sorted; [apply _|intros x y ?%Z.ltb_lt; lia|intros x y ?%Z.ltb_ge; lia]. }
  induction Hs as [|k ks Hs IH Hk]; constructor; apply NoDup_cons in Hnd as [Hnk Hnd]; [by apply IH|].
  rewrite Forall_forall in Hk |- *. intros k' Hk'. specialize (Hk k' Hk').
  assert (k <> k') by (by intros ->). lia.
Qed.

(** Buckets hold the samples, one timestamp each, in ascending order. *)
Lemma splitByBucket_spec b :
  concat (b_Samples <$> splitByBucket b) ≡ₚ b_Samples b /\
  Forall (fun bk => b_Samples bk <> [] /\ b_Key bk = b_Key b) (splitByBucket b) /\
  Forall (fun bk => forall x y, x ∈ b_Samples bk -> y ∈ b_Samples bk -> bucket_ns x = bucket_ns y) (splitByBucket b) /\
  StronglySorted (fun b1 b2 => forall x y, x ∈ b_Samples b1 -> y ∈ b_Samples b2 -> (bucket_ns x < bucket_ns y)%Z)
    (splitByBucket b).
Proof.
  rewrite splitByBucket_keys. set (l := b_Samples b). pose proof (bucket_keys_sorted l) as Hs.
  assert (forall x k, x ∈ with_key bucket_ns k l -> bucket_ns x = k) as Hwk.
  { intros x k [? _]%list_elem_of_filter. done. }
  split_and!.
  - rewrite <-list_fmap_compose. apply (with_key_concat bucket_ns); [|intros; apply bucket_keys_elem; eauto].
    unfold bucket_keys. rewrite stable_sort_perm. apply NoDup_fst_map_to_list.
  - apply Forall_fmap, Forall_forall. intros k (x & Hx & <-)%bucket_keys_elem. simpl. split; [|done].
    intros Hnil. assert (x ∈ with_key bucket_ns (bucket_ns x) l) as Hin by (by apply list_elem_of_filter).
    rewrite Hnil in Hin. by apply elem_of_nil in Hin.
  - apply Forall_fmap, Forall_forall. intros k _ x y Hx Hy. simpl in *. apply Hwk in Hx, Hy. congruence.
  - induction Hs as [|k ks Hs IH Hk]; simpl; constructor; [done|].
    apply Forall_fmap. eapply Forall_impl; [exact Hk|]. simpl. intros k' Hlt x y Hx Hy.
    apply Hwk in Hx, Hy. lia.
Qed.

(** ** Reading a trace *)

(** The emitter's answer settles what was sent: accepted, or a reject the
    watermark may advance past. *)
Definition settled (r : option EmitErr) : Prop :=
  match r with None => True | Some e => isAdvancePast e = true end.

(** The sample went through the guard and was either dropped there or sent with
    an answer that settles it. *)
Definition handled (t : list Ev) (x : Sample) : Prop :=
  exists bucket sub, EvGuard bucket sub ∈ t /\ x ∈ b_Samples bucket /\
    (x ∈ b_Samples sub -> exists r, EvEmit sub r ∈ t /\ settled r).

Definition logs_handled (t : list Ev) (b : Batch) : Prop :=
  exists sub, EvGuard b sub ∈ t /\ (b_Logs sub = [] \/ exists r, EvEmit sub r ∈ t /\ settled r).

(** Samples a trace accounts for. *)
Definition counted_ev (e : Ev) : nat :=
  match e with
  | EvMetric _ (EmittedSamples n) | EvMetric _ (GuardDropped n) | EvMetric _ (SamplesCapped n) => n
  | EvMetric _ (SamplesSkipped _ n) => Z.to_nat n
  | _ => 0
  end.
Definition counted (t : list Ev) : nat := sum_list_with counted_ev t.

Definition nosave (e : Ev) : bool := match e with EvSave _ _ _ => false | _ => true end.
Definition saves (t : list Ev) : list Ev := filter (fun e => ~ Is_true (nosave e)) t.

(** A terminal reject was seen. *)
Definition terminal_seen (t : list Ev) : Prop :=
  exists sub e, EvEmit sub (Some e) ∈ t /\ isTerminalHalt e = true.

(** Every emit was settled. *)
Definition clean (t : list Ev) : Prop := forall sub r, EvEmit sub r ∈ t -> settled r.

Lemma handled_mono t t' x : handled t x -> t ⊆ t' -> handled t' x.
Proof.
  intros (bk & sub & Hg & Hx & He) Hsub. exists bk, sub. split_and!; [by apply Hsub|done|].
  intros (r & Hr & Hs)%He. exists r. split; [by apply Hsub|done].
Qed.

Lemma counted_app t t' : counted (t ++ t') = counted t + counted t'.
Proof. apply sum_list_with_app. Qed.

(** A save in a trace whose first part has none is in the second part. *)
Lemma save_in_app t1 t2 pre k w r post :
  Forall nosave t1 -> t1 ++ t2 = pre ++ EvSave k w r :: post ->
  exists pre2, pre = t1 ++ pre2 /\ t2 = pre2 ++ EvSave k w r :: post.
Proof.
  intros Hns. revert pre. induction Hns as [|e t1 He Hns IH]; intros pre Heq; simpl in *; [by exists pre|].
  destruct pre as [|e' pre]; simpl in Heq; injection Heq as -> Heq; [done|]. destruct (IH pre Heq) as (pre2 & -> & ->). by exists pre2.
Qed.

Lemma no_save_in t pre k w r post : Forall nosave t -> t <> pre ++ EvSave k w r :: post.
Proof. intros Hns ->. apply Forall_app in Hns as [_ Hns]. by inversion Hns. Qed.

Section batch.
Context {W : Type} `{RunnerWorld W} `{Checkpointer W} `{Spec : !CheckpointerSpec W} `{Laws : !RunnerLaws}.
Implicit Types (s : St (W:=W)) (t : list Ev) (b : Batch).

Lemma quiet_nosave t : Forall quiet_ev t -> Forall nosave t.
Proof. intros Hq. eapply Forall_impl; [exact Hq|]. by intros []. Qed.

(** *** One bucket *)

Ltac run :=
  unfold CtxErr, DoSave, DoLoad, DoEmit, when, mbind, M_bind, mret, M_ret, gets, modify, metric, tell, world in *;
  simpl in *.

Lemma plain_counted t : Forall plain_ev t -> counted t = 0.
Proof.
  unfold counted. induction 1 as [|e t He _ IH]; simpl; [done|]. rewrite IH. by destruct e as [? []| | | | | | | |].
Qed.

Lemma plain_emit t sub r : Forall plain_ev t -> EvEmit sub r ∉ t.
Proof. intros Hp Hin. rewrite Forall_forall in Hp. by apply Hp in Hin. Qed.

(** What follows the guard pass of a bucket. *)
Inductive bucket_tail (sub : Batch) : Verdict -> list Ev -> Prop :=
| tail_empty : b_Samples sub = [] -> bucket_tail sub Handled []
| tail_ok n e : bucket_tail sub Handled [EvEmit sub None; EvMetric n (EmittedSamples (length (b_Samples sub))); EvMetric n (LastSuccess e)]
| tail_skip n e t : isAdvancePast e = true -> Forall plain_ev t ->
    bucket_tail sub Handled (EvEmit sub (Some e) ::
      EvMetric n (SamplesSkipped (rejectReason e) (Z.of_nat (length (b_Samples sub)))) :: t)
| tail_halt e t : isTerminalHalt e = true -> Forall plain_ev t -> bucket_tail sub Halt (EvEmit sub (Some e) :: t)
| tail_retry e t : isAdvancePast e = false -> isTerminalHalt e = false -> Forall plain_ev t ->
    bucket_tail sub Retry (EvEmit sub (Some e) :: t).

Lemma emit_bucket_inv bucket s v s' t :
  emit_bucket bucket s = (v, s', t) ->
  exists sub dropped mid tail,
    t = EvGuard bucket sub :: mid ++ tail /\ counted mid = dropped /\ (forall sub' r, EvEmit sub' r ∉ mid) /\
    b_Samples sub `sublist_of` b_Samples bucket /\ length (b_Samples sub) + dropped = length (b_Samples bucket) /\
    bucket_tail sub v tail.
Proof.
  destruct s as [r w]. unfold emit_bucket. run. unfold GuardSanitize. simpl.
  destruct (Sanitize (get_guard w) bucket) as [[[sub d] g] ev] eqn:Hs.
  apply Sanitize_spec in Hs as (_ & _ & _ & Hsub & Hlen). simpl.
  assert (Forall plain_ev (new_label_events "" ev)) as Hlab by (apply Forall_fmap, Forall_true; done).
  set (drop := if bool_decide (0 < d) then [EvMetric (r_name r) (GuardDropped d)] else []).
  assert (counted (new_label_events "" ev ++ drop) = d) as Hcnt.
  { rewrite counted_app, plain_counted by done. unfold drop. case_bool_decide; unfold counted; simpl; lia. }
  assert (forall sub' r', EvEmit sub' r' ∉ new_label_events "" ev ++ drop) as Hne.
  { intros sub' r' [?%plain_emit|Hin]%elem_of_app; [done..|]. unfold drop in Hin.
    case_bool_decide; [by apply list_elem_of_singleton in Hin|by apply elem_of_nil in Hin]. }
  intros Hrun. exists sub, d, (new_label_events "" ev ++ drop).
  assert (exists tail, t = EvGuard bucket sub :: (new_label_events "" ev ++ drop) ++ tail /\ bucket_tail sub v tail)
    as (tail & -> & Ht); [|by exists tail].
  setoid_rewrite <-app_assoc. revert Hrun. unfold drop. clear.
  set (tail_run := match b_Samples sub with [] => _ | _ => _ end).
  destruct (tail_run (mkSt r (put_guard g w))) as [[v1 s1] t1] eqn:Htail.
  assert (bucket_tail sub v1 t1) as Hbt.
  { unfold tail_run in Htail. remember (length (b_Samples sub)) as n eqn:Hn. clear tail_run.
    destruct (b_Samples sub) as [|x l] eqn:Hx; run; [simplify_eq; by constructor|]. 
    assert (n = length (b_Samples sub)) as -> by (by rewrite Hx). clear Hn.
    destruct (em_Emit sub (put_guard g w)) as [[e|] w2]; run; [|simplify_eq; apply tail_ok].
    destruct (isAdvancePast e) eqn:Ha; [|destruct (isTerminalHalt e) eqn:Hth]; run.
    - destruct (throttled_log _ _ _ _) as [[u s3] t3] eqn:Hlog. apply throttled_plain in Hlog. simplify_eq.
      rewrite app_nil_r. by apply tail_skip.
    - simplify_eq. apply tail_halt; [done|]. by repeat constructor.
    - destruct (throttled_log _ _ _ _) as [[u s3] t3] eqn:Hlog. apply throttled_plain in Hlog. simplify_eq.
      rewrite app_nil_r. apply tail_retry; [done..|]. by constructor. }
  case_bool_decide; run; rewrite Htail; intros [= <- <- <-]; exists t1; (split; [|done]); done.
Qed.

Record bucket_result (bucket : Batch) (v : Verdict) (t : list Ev) : Prop := {
  br_handled : v = Handled -> forall x, x ∈ b_Samples bucket -> handled t x;
  br_counted : v = Handled -> counted t = length (b_Samples bucket);
  br_terminal : terminal_seen t <-> v = Halt;
  br_clean : clean t -> v = Handled
}.

Lemma advance_not_terminal e : isAdvancePast e = true -> isTerminalHalt e = false.
Proof. destruct e as [[[] ? ?]| |]; done. Qed.

Lemma emit_bucket_spec bucket s v s' t : emit_bucket bucket s = (v, s', t) -> bucket_result bucket v t.
Proof.
  intros (sub & d & mid & tail & -> & Hmid & Hne & Hsub & Hlen & Ht)%emit_bucket_inv.
  assert (forall r, EvEmit sub r ∈ tail -> EvEmit sub r ∈ EvGuard bucket sub :: mid ++ tail) as Hin.
  { intros r Hr. right. apply elem_of_app. by right. }
  split.
  - intros -> x Hx. exists bucket, sub. split_and!; [left|done|]. intros Hxs. inversion Ht; subst.
    + rewrite H1 in Hxs. by apply elem_of_nil in Hxs.
    + exists None. split; [apply Hin; left|done].
    + exists (Some e). split; [apply Hin; left|done].
  - intros ->. rewrite <-Hlen, Nat.add_comm, <-Hmid.
    change (counted (mid ++ tail) = counted mid + length (b_Samples sub)). rewrite counted_app. f_equal.
    inversion Ht as [Hnil| |n e t' Ha Hp| |]; subst; simpl.
    + by rewrite Hnil.
    + unfold counted. simpl. lia.
    + apply plain_counted in Hp. unfold counted in *. simpl. rewrite Hp. lia.
  - split.
    + intros (sub' & e & Hem & Hte). apply elem_of_cons in Hem as [|Hem]; [done|].
      apply elem_of_app in Hem as [Hem|Hem]; [by apply Hne in Hem|].
      inversion Ht; subst; repeat (apply elem_of_cons in Hem as [Hem|Hem]; simplify_eq);
        try (by apply elem_of_nil in Hem); try (by eapply plain_emit in Hem); try congruence; try done.
      match goal with Ha : isAdvancePast _ = true |- _ => apply advance_not_terminal in Ha end. congruence.
    + intros ->. inversion Ht as [| | |e t' Hte Hp|]; subst. exists sub, e. split; [apply Hin; left|done].
  - intros Hc. inversion Ht as [| | |e t' Hte Hp|e t' Ha Hte Hp]; subst; [done..| |];
      specialize (Hc sub (Some e) (Hin _ ltac:(left))); simpl in Hc; [|congruence].
    apply advance_not_terminal in Hc. congruence.
Qed.

Lemma emit_bucket_nosave bucket s v s' t : emit_bucket bucket s = (v, s', t) -> Forall nosave t.
Proof. intros (_ & Hq & _)%emit_bucket_quiet. by apply quiet_nosave. Qed.

(** *** Commit and degrade *)

(** Neither a save, nor a count, nor an emit. *)
Definition calm_ev (e : Ev) : bool :=
  match e with EvMetric _ (LoopDegraded _ _) => true | _ => plain_ev e end.

Lemma plain_calm t : Forall plain_ev t -> Forall calm_ev t.
Proof. intros Hp. eapply Forall_impl; [exact Hp|]. by intros [? []| | | | | | | |]. Qed.

Lemma calm_nosave t : Forall calm_ev t -> Forall nosave t.
Proof. intros Hp. eapply Forall_impl; [exact Hp|]. by intros [? []| | | | | | | |]. Qed.

Lemma calm_counted t : Forall calm_ev t -> counted t = 0.
Proof.
  unfold counted. induction 1 as [|e t He _ IH]; simpl; [done|]. rewrite IH. by destruct e as [? []| | | | | | | |].
Qed.

Lemma calm_emit t sub r : Forall calm_ev t -> EvEmit sub r ∉ t.
Proof. intros Hp Hin. rewrite Forall_forall in Hp. by apply Hp in Hin. Qed.

(** A commit tries to save at most once, right after a leadership check that
    passed. *)
Lemma commit_trace key tm cursor epoch s a s' t :
  commit key tm cursor epoch s = (a, s', t) ->
  t = [EvCtx true] \/ exists r rest,
    t = EvCtx false :: EvSave key (mkWm tm cursor epoch) r :: rest /\ Forall calm_ev rest.
Proof.
  intros Hrun%commit_inv. destruct Hrun; [by left|right; eexists _, _; (split; [reflexivity|])..].
  - apply Forall_app. split; [|by apply plain_calm]. destruct (r_degraded r); by repeat constructor.
  - by apply plain_calm.
  - by repeat constructor.
  - by apply plain_calm.
Qed.

Lemma enterDegraded_trace reason s a s' t :
  enterDegraded reason s = (a, s', t) -> Forall calm_ev t /\ r_degraded (st_r s') = true.
Proof. intros [(? & -> & ->)|(? & -> & ->)]%enterDegraded_inv; (split; [|done]); by repeat constructor. Qed.

Lemma calm_no_emits t : Forall calm_ev t -> ~ terminal_seen t.
Proof. by intros Hc (sub & e & Hin%calm_emit & _). Qed.

(** What the save attempts of a trace are allowed to be. *)
Definition save_rule (ok : list Ev -> CheckpointKey -> Watermark -> Prop) (t : list Ev) : Prop :=
  forall pre k w r post, t = pre ++ EvSave k w r :: post ->
    Forall nosave pre /\ Forall nosave post /\ last pre = Some (EvCtx false) /\ ok pre k w.

Lemma save_rule_none ok t : Forall nosave t -> save_rule ok t.
Proof. intros Hns pre k w r post Heq. exfalso. by eapply no_save_in. Qed.

Lemma save_rule_prepend (ok ok' : list Ev -> CheckpointKey -> Watermark -> Prop) t1 t2 :
  Forall nosave t1 -> (forall pre k w, ok' pre k w -> ok (t1 ++ pre) k w) ->
  save_rule ok' t2 -> save_rule ok (t1 ++ t2).
Proof.
  intros Hns Hok Hr pre k w r post Heq. apply save_in_app in Heq as (pre2 & -> & ->); [|done].
  destruct (Hr _ _ _ _ _ eq_refl) as (H1 & H2 & H3 & H4). split_and!; [by apply Forall_app|done| |by apply Hok].
  by rewrite last_app, H3.
Qed.

Lemma save_rule_append ok t1 t2 : Forall nosave t2 -> save_rule ok t1 -> save_rule ok (t1 ++ t2).
Proof.
  intros Hns Hr pre k w r post Heq.
  assert (exists post1, post = post1 ++ t2 /\ t1 = pre ++ EvSave k w r :: post1) as (post1 & -> & ->).
  { clear Hr. revert t1 Heq. induction pre as [|e pre IH]; intros [|e1 t1] Heq; simpl in *.
    - subst t2. by inversion Hns.
    - injection Heq as -> <-. by exists t1.
    - subst t2. exfalso. by eapply (no_save_in _ (e :: pre)).
    - injection Heq as -> Heq. destruct (IH t1 Heq) as (post1 & -> & ->). by exists post1. }
  destruct (Hr _ _ _ _ _ eq_refl) as (H1 & H2 & H3 & H4). split_and!; [done|by apply Forall_app|done..].
Qed.

Lemma commit_save_rule key tm cursor epoch s a s' t (ok : list Ev -> CheckpointKey -> Watermark -> Prop) :
  commit key tm cursor epoch s = (a, s', t) -> (forall pre, ok pre key (mkWm tm cursor epoch)) -> save_rule ok t.
Proof.
  intros [->|(r & rest & -> & Hc%calm_nosave)]%commit_trace Hok; [by apply save_rule_none; repeat constructor|].
  intros pre k w r' post Heq. destruct pre as [|e pre]; [done|]. injection Heq as <- Heq.
  destruct pre as [|e pre]; simpl in Heq; [|exfalso; injection Heq as _ Heq; by eapply no_save_in].
  injection Heq as <- <- <- <-. split_and!; [by repeat constructor|done|done|apply Hok].
Qed.

(** *** The bucket loop *)

Definition bucket_time (bk : Batch) : Time := s_Timestamp (b_Samples bk !!! 0).

(** The frontier after a run of handled buckets. *)
Definition last_time (frontier : Time) (done : list Batch) : Time := foldl (fun _ bk => bucket_time bk) frontier done.

Definition all_handled (t : list Ev) (bks : list Batch) : Prop :=
  forall bk x, bk ∈ bks -> x ∈ b_Samples bk -> handled t x.

(** A save commits the whole window after every bucket was handled, or the last
    of a prefix of handled buckets, with an empty cursor. *)
Definition covers (epoch : Z) (b : Batch) (bks : list Batch) (frontier : Time) (advanced : bool)
    (pre : list Ev) (k : CheckpointKey) (w : Watermark) : Prop :=
  k = b_Key b /\
  ((w = mkWm (wm_Time (b_Watermark b)) (wm_Cursor (b_Watermark b)) epoch /\ all_handled pre bks) \/
   (exists done rest, bks = done ++ rest /\ (advanced = true \/ done <> []) /\
      w = mkWm (last_time frontier done) "" epoch /\ all_handled pre done)).

Lemma process_buckets_saves epoch b bks frontier advanced s a s' t :
  process_buckets epoch b bks frontier advanced s = (a, s', t) ->
  save_rule (covers epoch b bks frontier advanced) t.
Proof.
  revert frontier advanced s a s' t. induction bks as [|bk bks IH]; intros frontier advanced s a s' t; cbn [process_buckets].
  { unfold when. destruct (advanced || _ || _); [|intros [= <- <- <-]; by apply save_rule_none].
    intros Hrun. eapply commit_save_rule; [exact Hrun|]. intros pre. split; [done|]. left. split; [done|].
    by intros bk x ?%elem_of_nil. }
  unfold mbind at 1, M_bind at 1. destruct (emit_bucket bk s) as [[v s1] t1] eqn:Hb.
  apply emit_bucket_nosave in Hb as Hns. apply emit_bucket_spec in Hb as [Hh _ _ _].
  set (interior := fun (_ : list Ev) k w => k = b_Key b /\ advanced = true /\ w = mkWm frontier "" epoch).
  assert (forall s a s' t, when advanced (commit (b_Key b) frontier "" epoch) s = (a, s', t) -> save_rule interior t)
    as Hcommit.
  { intros s0 a0 s0' t0. unfold when, interior. destruct advanced; [|intros [= <- <- <-]; by apply save_rule_none].
    intros Hrun. by eapply commit_save_rule. }
  assert (forall t2, save_rule interior t2 -> save_rule (covers epoch b (bk :: bks) frontier advanced) (t1 ++ t2)) as Hinterior.
  { intros t2. apply save_rule_prepend; [done|]. intros pre k w (-> & Hadv & ->). split; [done|]. right.
    exists [], (bk :: bks). split_and!; [done|by left|done|]. by intros bk0 x ?%elem_of_nil. }
  destruct v.
  - destruct (process_buckets _ _ bks _ _ s1) as [[a2 s2] t2] eqn:Hrest. intros [= <- <- <-].
    apply IH in Hrest. eapply save_rule_prepend; [done| |exact Hrest].
    assert (forall bs pre, all_handled pre bs -> all_handled (t1 ++ pre) (bk :: bs)) as Hall.
    { intros bs pre Hp bk0 x [->|Hbk]%elem_of_cons Hx.
      - eapply handled_mono; [by apply Hh|]. intros e He. apply elem_of_app. by left.
      - eapply handled_mono; [by eapply Hp|]. intros e He. apply elem_of_app. by right. }
    intros pre k w (-> & [[-> Hp]|(dn & rest & -> & _ & -> & Hp)]); (split; [done|]).
    + left. split; [done|]. by apply Hall.
    + right. exists (bk :: dn), rest. split_and!; [done|by right|done|by apply Hall].
  - unfold mbind, M_bind. destruct (when advanced _ s1) as [[a2 s2] t2] eqn:Hc.
    destruct (enterDegraded _ s2) as [[a3 s3] t3] eqn:Hd. intros [= <- <- <-]. apply Hinterior.
    apply enterDegraded_trace in Hd as [Hd _]. apply save_rule_append; [by apply calm_nosave|by eapply Hcommit].
  - destruct (when advanced _ s1) as [[a2 s2] t2] eqn:Hc. intros [= <- <- <-]. by eapply Hinterior, Hcommit.
Qed.

Definition total (bks : list Batch) : nat := sum_list_with (fun bk => length (b_Samples bk)) bks.

Lemma when_commit_trace c key tm cursor epoch s a s' t :
  when c (commit key tm cursor epoch) s = (a, s', t) -> counted t = 0 /\ forall sub r, EvEmit sub r ∉ t.
Proof.
  unfold when. destruct c; [|intros [= <- <- <-]; split; [done|by intros ?? ?%elem_of_nil]].
  intros [->|(r & rest & -> & Hc)]%commit_trace.
  - split; [done|]. by intros ?? ?%list_elem_of_singleton.
  - split; [by apply calm_counted in Hc; unfold counted in *|].
    intros sub r' Hin. do 2 (apply elem_of_cons in Hin as [?|Hin]; [done|]). by eapply calm_emit.
Qed.

(** With every emit settled and leadership held, the loop ends by saving the
    window's own watermark. *)
Lemma process_buckets_commits epoch b bks frontier advanced s a s' t :
  process_buckets epoch b bks frontier advanced s = (a, s', t) -> clean t -> EvCtx true ∉ t ->
  wm_Time (b_Watermark b) <> zeroTime \/ wm_Cursor (b_Watermark b) <> "" ->
  exists r, EvSave (b_Key b) (mkWm (wm_Time (b_Watermark b)) (wm_Cursor (b_Watermark b)) epoch) r ∈ t.
Proof.
  intros Hrun Hclean Hctx Hwm. revert frontier advanced s a s' t Hrun Hclean Hctx.
  induction bks as [|bk bks IH]; intros frontier advanced s a s' t; cbn [process_buckets].
  - assert (advanced || negb (IsZero (wm_Time (b_Watermark b))) || bool_decide (wm_Cursor (b_Watermark b) <> "") = true) as ->.
    { unfold IsZero, zeroTime in *. destruct Hwm as [Hwm|Hwm].
      - apply Z.eqb_neq in Hwm. rewrite Hwm. by rewrite orb_true_r.
      - rewrite (bool_decide_eq_true_2 _ Hwm). apply orb_true_r. }
    intros [->|(r & rest & -> & _)]%commit_trace _ Hctx; [by destruct Hctx; left|]. exists r. right. left.
  - unfold mbind at 1, M_bind at 1. destruct (emit_bucket bk s) as [[v s1] t1] eqn:Hb.
    apply emit_bucket_spec in Hb as [_ _ _ Hcl].
    assert (forall t2, clean (t1 ++ t2) -> v = Handled) as Hv.
    { intros t2 Hc. apply Hcl. intros sub r Hin. apply (Hc sub), elem_of_app. by left. }
    destruct v; [|unfold mbind, M_bind; repeat case_match; intros [= <- <- <-] Hc; by apply Hv in Hc..].
    destruct (process_buckets _ _ bks _ _ s1) as [[a2 s2] t2] eqn:Hrest. intros [= <- <- <-] Hc Hctx.
    destruct (IH _ _ _ _ _ _ Hrest) as [r Hr].
    + intros sub r Hin. apply (Hc sub), elem_of_app. by right.
    + intros Hin. apply Hctx, elem_of_app. by right.
    + exists r. apply elem_of_app. by right.
Qed.

(** Buckets all settled are all counted; a terminal reject degrades. *)
Lemma process_buckets_counts epoch b bks frontier advanced s a s' t :
  process_buckets epoch b bks frontier advanced s = (a, s', t) ->
  (clean t -> counted t = total bks) /\ (terminal_seen t -> r_degraded (st_r s') = true).
Proof.
  revert frontier advanced s a s' t. induction bks as [|bk bks IH]; intros frontier advanced s a s' t; cbn [process_buckets].
  { intros [Hc Hne]%when_commit_trace. split; [done|]. by intros (sub & e & Hin%Hne & _). }
  unfold mbind at 1, M_bind at 1. destruct (emit_bucket bk s) as [[v s1] t1] eqn:Hb.
  apply emit_bucket_spec in Hb as [_ Hcount Hterm Hclean].
  assert (forall t2, clean (t1 ++ t2) -> clean t1 /\ clean t2) as Happ.
  { intros t2 Hcl. split; intros sub r Hin; apply (Hcl sub); apply elem_of_app; auto. }
  assert (forall t2, terminal_seen (t1 ++ t2) -> terminal_seen t1 \/ terminal_seen t2) as Htapp.
  { intros t2 (sub & e & [Hin|Hin]%elem_of_app & He); [left|right]; by exists sub, e. }
  destruct v.
  - destruct (process_buckets _ _ bks _ _ s1) as [[a2 s2] t2] eqn:Hrest. intros [= <- <- <-].
    apply IH in Hrest as [Hc2 Ht2]. split.
    + intros [Hcl1 Hcl2]%Happ. rewrite counted_app, Hc2, Hcount by done. done.
    + intros [Ht%Hterm|Ht]%Htapp; [done|by apply Ht2].
  - unfold mbind, M_bind. destruct (when advanced _ s1) as [[a2 s2] t2] eqn:Hc.
    destruct (enterDegraded _ s2) as [[a3 s3] t3] eqn:Hd. intros [= <- <- <-].
    apply enterDegraded_trace in Hd as [_ Hd]. split; [|done]. intros [Hcl _]%Happ. by apply Hclean in Hcl.
  - destruct (when advanced _ s1) as [[a2 s2] t2] eqn:Hc. intros [= <- <- <-].
    split; [intros [Hcl _]%Happ; by apply Hclean in Hcl|].
    apply when_commit_trace in Hc as [_ Hne]. intros [Ht%Hterm|(sub & e & Hin%Hne & _)]%Htapp; done.
Qed.

(** *** Logs *)

(** One emit, then only a metric and calm events. *)
Lemma one_emit sub r n m t :
  Forall calm_ev t ->
  (terminal_seen (EvEmit sub r :: EvMetric n m :: t) -> exists e, r = Some e /\ isTerminalHalt e = true) /\
  Forall nosave (EvEmit sub r :: EvMetric n m :: t).
Proof.
  intros Hc. split; [|repeat constructor; by apply calm_nosave]. intros (sub' & e & Hin & He).
  apply elem_of_cons in Hin as [Hin|Hin]; [simplify_eq; eauto|].
  apply elem_of_cons in Hin as [Hin|Hin]; [done|]. exfalso. by eapply calm_emit.
Qed.

Record logs_result (b : Batch) (ok : bool) (s' : St (W:=W)) (t : list Ev) : Prop := {
  lr_nosave : Forall nosave t;
  lr_handled : ok = true -> logs_handled t b;
  lr_terminal : terminal_seen t -> ok = false /\ r_degraded (st_r s') = true;
  lr_clean : clean t -> ok = true
}.

(** The outcome once the guard ran: [sub] is what is sent. *)
Lemma logs_result_prepend b sub mid ok s' t :
  Forall nosave mid -> (forall sub r, EvEmit sub r ∉ mid) ->
  (ok = true -> b_Logs sub = [] \/ exists r, EvEmit sub r ∈ t /\ settled r) ->
  Forall nosave t -> (terminal_seen t -> ok = false /\ r_degraded (st_r s') = true) -> (clean t -> ok = true) ->
  logs_result b ok s' (EvGuard b sub :: mid ++ t).
Proof.
  intros Hmid Hne Hok Ht Hterm Hclean. split.
  - constructor; [done|]. by apply Forall_app.
  - intros Htrue. exists sub. split; [left|]. destruct (Hok Htrue) as [?|(r & Hr & ?)]; [by left|right].
    exists r. split; [|done]. right. apply elem_of_app. by right.
  - intros (sub' & e & Hin & He). apply Hterm. exists sub', e. split; [|done].
    apply elem_of_cons in Hin as [?|[Hin|?]%elem_of_app]; [done| |done]. by apply Hne in Hin.
  - intros Hc. apply Hclean. intros sub' r Hin. apply (Hc sub'). right. apply elem_of_app. by right.
Qed.

Lemma processLogs_spec b s ok s' t : processLogs b s = (ok, s', t) -> logs_result b ok s' t.
Proof.
  destruct s as [r w]. unfold processLogs. run. unfold GuardSanitizeLogs. simpl.
  destruct (SanitizeLogs _ _ (b_Logs b)) as [[[kept d] g] ev]. simpl.
  set (sub := mkBatch (b_Key b) [] kept zeroWm).
  set (mid := new_label_events "" ev ++ if bool_decide (0 < d) then [EvMetric (r_name r) (GuardDropped d)] else []).
  assert (Forall nosave mid) as Hmid.
  { apply Forall_app. split; [apply Forall_fmap, Forall_true; done|]. case_bool_decide; by repeat constructor. }
  assert (forall sub r, EvEmit sub r ∉ mid) as Hne.
  { intros sub' r' [Hin|Hin]%elem_of_app; [by apply list_elem_of_fmap in Hin as (? & ? & _)|].
    case_bool_decide; [by apply list_elem_of_singleton in Hin|by apply elem_of_nil in Hin]. }
  set (tail_run := match kept with [] => _ | _ => _ end).
  destruct (tail_run (mkSt r (put_guard g w))) as [[ok1 s1] t1] eqn:Htail.
  assert ((ok1 = true -> b_Logs sub = [] \/ exists r, EvEmit sub r ∈ t1 /\ settled r) /\ Forall nosave t1 /\
    (terminal_seen t1 -> ok1 = false /\ r_degraded (st_r s1) = true) /\ (clean t1 -> ok1 = true)) as (H1 & H2 & H3 & H4).
  { unfold tail_run in Htail. clear tail_run. unfold sub at 1. simpl. destruct kept as [|x l] eqn:Hx; run.
    { simplify_eq. split_and!; [auto|constructor|by intros (? & ? & ?%elem_of_nil & _)|done]. }
    fold sub in Htail. destruct (em_Emit sub (put_guard g w)) as [[e|] w2]; run.
    2:{ assert (exists t2, Forall calm_ev t2 /\ ok1 = true /\ t1 = EvEmit sub None :: EvMetric (r_name r) (EmittedLogs (length (x :: l))) :: t2)
          as (t2 & Hc & -> & ->).
        { destruct (IsZero _); run; simplify_eq; [exists []|eexists [_]]; (split_and!; [|done..]); by repeat constructor. }
        destruct (one_emit sub None (r_name r) (EmittedLogs (length (x :: l))) t2 Hc) as [Ht Hns].
        split_and!; [|done|by intros (? & ? & _)%Ht|done]. intros _. right. exists None. split; [left|done]. }
    assert (exists m t2, Forall calm_ev t2 /\ t1 = EvEmit sub (Some e) :: EvMetric (r_name r) m :: t2 /\
      (ok1 = isAdvancePast e) /\ (isTerminalHalt e = true -> ok1 = false /\ r_degraded (st_r s1) = true))
      as (m & t2 & Hc & -> & -> & Hth).
    { destruct (isAdvancePast e) eqn:Ha; [|destruct (isTerminalHalt e) eqn:Hte]; run;
        [destruct (throttled_log _ _ _ _) as [[u s3] t3] eqn:El|destruct (enterDegraded _ _) as [[u s3] t3] eqn:El|
         destruct (throttled_log _ _ _ _) as [[u s3] t3] eqn:El]; simplify_eq; eexists _, t3; rewrite app_nil_r.
      - apply throttled_plain, plain_calm in El. split_and!; [done..|].
        apply advance_not_terminal in Ha. intros. congruence.
      - apply enterDegraded_trace in El as [Hc Hd]. by split_and!.
      - apply throttled_plain, plain_calm in El. by split_and!. }
    destruct (one_emit sub (Some e) (r_name r) m t2 Hc) as [Ht Hns]. split_and!; [|done| |].
    - intros Htrue. right. exists (Some e). split; [left|done].
    - intros (e' & [= <-] & He)%Ht. by apply Hth.
    - intros Hcl. apply (Hcl sub (Some e)). left. }
  intros Hrun. assert (ok = ok1 /\ s' = s1 /\ t = EvGuard b sub :: mid ++ t1) as (-> & -> & ->).
  { unfold mid. revert Hrun. rewrite <-app_assoc. case_bool_decide; run; rewrite Htail; by intros [= <- <- <-]. }
  by apply logs_result_prepend.
Qed.

(** *** The whole batch *)

Definition keeps_dpm (s : St (W:=W)) (_ : list Ev) (s' : St (W:=W)) : Prop := r_maxDPM (st_r s') = r_maxDPM (st_r s).

#[local] Instance keeps_dpm_rel : TraceRel keeps_dpm.
Proof. split; unfold keeps_dpm; congruence. Qed.

Lemma processLogs_dpm b (epoch : Z) : obeys keeps_dpm (processLogs b).
Proof.
  apply (processLogs_obeys keeps_dpm b epoch).
  - intros s t s' ([l Hr] & _). unfold keeps_dpm. by rewrite Hr.
  - intros tm cursor s a s' t Hrun%commit_inv. unfold keeps_dpm. by destruct Hrun; simpl; repeat case_match.
  - intros reason s a s' t [(_ & -> & _)|(_ & -> & _)]%enterDegraded_inv; done.
Qed.

Definition with_samples (b : Batch) (samples : list Sample) : Batch :=
  mkBatch (b_Key b) samples (b_Logs b) (b_Watermark b).

(** The runs of [process]. *)
Inductive process_ran (epoch : Z) (b : Batch) (s : St (W:=W)) : St (W:=W) -> list Ev -> Prop :=
| process_lost s' : st_r s' = st_r s -> process_ran epoch b s s' [EvCtx true]
| process_logs_stop s' t : b_Logs b <> [] -> logs_result b false s' t -> process_ran epoch b s s' (EvCtx false :: t)
| process_full tl s1 a s' capped kept caps tb :
    (b_Logs b = [] /\ tl = [] \/ b_Logs b <> [] /\ exists s0, logs_result b true s0 tl) ->
    CoalesceDPM (b_Samples b) (r_maxDPM (st_r s)) = (kept, capped) ->
    Forall nosave caps -> (forall sub r, EvEmit sub r ∉ caps) -> counted caps = capped ->
    process_buckets epoch (with_samples b kept) (splitByBucket (with_samples b kept)) zeroTime false s1 = (a, s', tb) ->
    process_ran epoch b s s' (EvCtx false :: tl ++ caps ++ tb).

Lemma process_inv epoch b s a s' t : process epoch b s = (a, s', t) -> process_ran epoch b s s' t.
Proof.
  destruct s as [r w]. unfold process. run. destruct (ctx_Err w) as [c w1]. destruct c; run.
  { intros [= <- <- <-]. by apply process_lost. }
  set (logs := match b_Logs b with [] => _ | _ => _ end).
  destruct (logs (mkSt r w1)) as [[ok s1] tl] eqn:Hl.
  assert (r_maxDPM (st_r s1) = r_maxDPM r /\ (b_Logs b = [] /\ tl = [] /\ ok = true \/ b_Logs b <> [] /\ logs_result b ok s1 tl)) as [Hdpm Hlogs].
  { unfold logs in Hl. destruct (b_Logs b) eqn:Hb.
    - injection Hl as <- <- <-. auto.
    - split; [exact (processLogs_dpm b epoch _ _ _ _ Hl)|right; split; [done|by eapply processLogs_spec]]. }
  clear Hl logs. destruct ok; run.
  2:{ intros [= <- <- <-]. rewrite app_nil_r. destruct Hlogs as [(_ & _ & ?)|[??]]; [done|by apply process_logs_stop]. }
  rewrite Hdpm. destruct (CoalesceDPM (b_Samples b) (r_maxDPM r)) as [kept capped] eqn:Hc.
  set (caps := if bool_decide (0 < capped) then [EvMetric (r_name (st_r s1)) (SamplesCapped capped)] else []).
  destruct (process_buckets epoch (with_samples b kept) (splitByBucket (with_samples b kept)) zeroTime false s1)
    as [[a2 s2] tb] eqn:Hp.
  intros Hrun. assert (s' = s2 /\ t = EvCtx false :: tl ++ caps ++ tb) as [-> ->].
  { revert Hrun. unfold caps. unfold with_samples in Hp. case_bool_decide; run; rewrite Hp; by intros [= <- <- <-]. }
  eapply process_full; [|exact Hc|..|exact Hp].
  - destruct Hlogs as [(? & ? & _)|[? ?]]; [by left|right; eauto].
  - unfold caps. case_bool_decide; by repeat constructor.
  - unfold caps. intros sub r'. case_bool_decide; [by intros ?%list_elem_of_singleton|by intros ?%elem_of_nil].
  - unfold caps, counted. case_bool_decide; simpl; lia.
Qed.

Lemma ProcessBatch_inv epoch b s a s' t :
  ProcessBatch epoch b s = (a, s', t) ->
  exists s1, process_ran epoch b s s1 t /\ s' = mkSt (with_busy false (st_r s1)) (st_w s1).
Proof.
  unfold ProcessBatch, mbind, M_bind. destruct (process epoch b s) as [[a1 s1] t1] eqn:Hp. apply process_inv in Hp.
  run. intros [= <- <- <-]. rewrite app_nil_r. by exists s1.
Qed.

(** Timestamps whose [UnixNano] does not overflow. *)
Definition nano_ok (x : Sample) : Prop := in_int64 (s_Timestamp x - unixToInternal * Second).

Lemma bucket_ns_lt x y : nano_ok x -> nano_ok y -> (bucket_ns x < bucket_ns y)%Z -> (s_Timestamp x < s_Timestamp y)%Z.
Proof. unfold nano_ok, bucket_ns, UnixNano. intros Hx Hy. rewrite !wrap64_id by done. lia. Qed.

Lemma bucket_ns_eq x y : nano_ok x -> nano_ok y -> bucket_ns x = bucket_ns y -> s_Timestamp x = s_Timestamp y.
Proof. unfold nano_ok, bucket_ns. intros Hx Hy. by apply UnixNano_inj. Qed.

Lemma first_in_bucket bk : b_Samples bk <> [] -> b_Samples bk !!! 0 ∈ b_Samples bk.
Proof. destruct (b_Samples bk); [done|]. left. Qed.

(** A sample no later than the last handled bucket is in a handled bucket. *)
Lemma covered_prefix b dn rest x :
  Forall nano_ok (b_Samples b) -> splitByBucket b = dn ++ rest -> dn <> [] ->
  x ∈ b_Samples b -> (s_Timestamp x <= last_time zeroTime dn)%Z -> exists bk, bk ∈ dn /\ x ∈ b_Samples bk.
Proof.
  intros Hok Hsplit Hne Hx Hle. destruct (splitByBucket_spec b) as (Hperm & Hnil & _ & Hsorted).
  rewrite <-Hperm, elem_concat in Hx. destruct Hx as (l & Hxl & (bk & -> & Hbk)%list_elem_of_fmap).
  assert (forall bk y, bk ∈ splitByBucket b -> y ∈ b_Samples bk -> nano_ok y) as Hok'.
  { intros bk' y Hbk' Hy. rewrite Forall_forall in Hok. apply Hok. rewrite <-Hperm. apply elem_concat.
    exists (b_Samples bk'). split; [done|]. by apply list_elem_of_fmap_2. }
  pose proof (Hok' _ _ Hbk Hxl) as Hokx.
  rewrite Hsplit in Hbk, Hsorted, Hnil, Hok'. apply elem_of_app in Hbk as [?|Hbk]; [by exists bk|exfalso].
  destruct (exists_last Hne) as (dn' & lst & ->). unfold last_time in Hle. rewrite foldl_app in Hle. simpl in Hle.
  assert (b_Samples lst !!! 0 ∈ b_Samples lst) as Hfst.
  { apply first_in_bucket. rewrite !Forall_app, Forall_singleton in Hnil. tauto. }
  assert (nano_ok (b_Samples lst !!! 0)) as Hokl.
  { apply (Hok' lst); [|done]. rewrite !elem_of_app, list_elem_of_singleton. auto. }
  apply StronglySorted_app in Hsorted as (Hcross & _ & _).
  assert (bucket_ns (b_Samples lst !!! 0%nat) < bucket_ns x)%Z as Hlt.
  { eapply Hcross; [|exact Hbk|done|done]. apply elem_of_app. right. by left. }
  apply bucket_ns_lt in Hlt; [|done..]. unfold bucket_time in Hle. lia.
Qed.

(** C1: no gap in what the watermark covers.  A batch is saved at most once,
    under its own key and the leader's epoch, immediately after a leadership
    check that passed.  When it is, its logs were settled, and either the save
    is the batch's own watermark and every sample the rate cap kept was handled
    before it, or it is the timestamp of a sample, with an empty cursor, and
    every kept sample at or before that time was handled: dropped by the guard,
    accepted, or rejected in a way the loop may advance past. *)
Theorem ProcessBatch_no_gap epoch b s a s' t pre k w r post :
  Forall nano_ok (b_Samples b) ->
  ProcessBatch epoch b s = (a, s', t) -> t = pre ++ EvSave k w r :: post ->
  let kept := (CoalesceDPM (b_Samples b) (r_maxDPM (st_r s))).1 in
  Forall nosave pre /\ Forall nosave post /\ last pre = Some (EvCtx false) /\
  k = b_Key b /\ wm_Epoch w = epoch /\ (b_Logs b <> [] -> logs_handled pre b) /\
  ((wm_Time w = wm_Time (b_Watermark b) /\ wm_Cursor w = wm_Cursor (b_Watermark b) /\
    forall x, x ∈ kept -> handled pre x) \/
   (wm_Cursor w = "" /\ (exists x, x ∈ kept /\ s_Timestamp x = wm_Time w) /\
    forall x, x ∈ kept -> (s_Timestamp x <= wm_Time w)%Z -> handled pre x)).
Proof.
  intros Hok (s1 & Hran & _)%ProcessBatch_inv Heq kept.
  destruct Hran as [? _|? ? _ Hl|tl s0 ? s2 capped kept' caps tb Hlogs Hc Hcaps _ _ Hbk].
  { exfalso. eapply (no_save_in [EvCtx true]); [by repeat constructor|done]. }
  { exfalso. eapply no_save_in; [|exact Heq]. constructor; [done|apply Hl]. }
  subst kept. rewrite Hc. simpl. apply process_buckets_saves in Hbk.
  assert (Forall nosave tl) as Htl.
  { destruct Hlogs as [[_ ->]|[_ [s3 Hl]]]; [constructor|apply Hl]. }
  rewrite app_assoc in Heq. change (EvCtx false :: (tl ++ caps) ++ tb) with ((EvCtx false :: tl ++ caps) ++ tb) in Heq.
  apply save_in_app in Heq as (pre2 & -> & ->); [|constructor; [done|by apply Forall_app]].
  destruct (Hbk _ _ _ _ _ eq_refl) as (Hn1 & Hn2 & Hlast & -> & Hcov). clear Hbk.
  assert (forall x, handled pre2 x -> handled ((EvCtx false :: tl ++ caps) ++ pre2) x) as Hmono.
  { intros x Hx. eapply handled_mono; [exact Hx|]. intros e He. apply elem_of_app. by right. }
  destruct (splitByBucket_spec (with_samples b kept')) as (Hperm & Hnil & _ & _).
  assert (forall bk x, bk ∈ splitByBucket (with_samples b kept') -> x ∈ b_Samples bk -> x ∈ kept') as Hback.
  { intros bk x Hbk Hx. change (x ∈ b_Samples (with_samples b kept')). rewrite <-Hperm, elem_concat.
    exists (b_Samples bk). split; [done|]. by apply list_elem_of_fmap_2. }
  split_and!; [apply Forall_app; split; [constructor; [done|by apply Forall_app]|done]|done| |done| | |].
  - by rewrite last_app, Hlast.
  - destruct Hcov as [[-> _]|(? & ? & _ & _ & -> & _)]; done.
  - intros Hne. destruct Hlogs as [[? _]|[_ [s3 [_ Hl _ _]]]]; [done|].
    destruct (Hl eq_refl) as (sub & Hg & Hs). exists sub.
    assert (tl ⊆ (EvCtx false :: tl ++ caps) ++ pre2) as Hsub by set_solver.
    split; [by apply Hsub|]. destruct Hs as [?|(r' & ? & ?)]; [by left|right]. exists r'. auto.
  - destruct Hcov as [[-> Hall]|(dn & rest & Hsplit & [?|Hne] & -> & Hall)]; [left|done|right]; simpl.
    + split_and!; [done..|]. intros x Hx. apply Hmono.
      change (x ∈ b_Samples (with_samples b kept')) in Hx. rewrite <-Hperm, elem_concat in Hx.
      destruct Hx as (l & Hxl & (bk & -> & Hbk)%list_elem_of_fmap). by eapply Hall.
    + split_and!; [done| |].
      * destruct (exists_last Hne) as (dn' & lst & ->). exists (b_Samples lst !!! 0).
        unfold last_time. rewrite foldl_app. split; [|done].
        assert (lst ∈ splitByBucket (with_samples b kept')) as Hin by (rewrite Hsplit; set_solver).
        apply (Hback lst); [done|]. apply first_in_bucket. rewrite Forall_forall in Hnil. by apply Hnil.
      * intros x Hx Hle. apply Hmono. destruct (covered_prefix (with_samples b kept') dn rest x) as (bk & Hb & Hxb); try done.
        { simpl. apply CoalesceDPM_count in Hc as [Hsub _]. rewrite Forall_forall in Hok |- *. intros y Hy. apply Hok.
          by eapply elem_of_sublist. }
        by eapply Hall.
Qed.

Lemma total_split b : total (splitByBucket b) = length (b_Samples b).
Proof.
  destruct (splitByBucket_spec b) as (Hperm & _). rewrite <-Hperm. clear Hperm. unfold total.
  induction (splitByBucket b) as [|bk bks IH]; simpl; [done|]. by rewrite length_app, IH.
Qed.

(** C15: conservation.  When every emit of a metric batch was settled and the
    batch was not abandoned for lost leadership, the self-metrics account for
    every collected sample: emitted, skipped, guard-dropped and capped add up
    to the size of the batch. *)
Theorem ProcessBatch_conserves epoch b s a s' t :
  b_Logs b = [] -> ProcessBatch epoch b s = (a, s', t) -> clean t -> EvCtx true ∉ t ->
  counted t = length (b_Samples b).
Proof.
  intros Hnl (s1 & Hran & _)%ProcessBatch_inv Hclean Hctx.
  destruct Hran as [? _|? t0 ? _|tl s0 ? s2 capped kept caps tb Hlogs Hc _ Hne Hcaps Hbk].
  - destruct Hctx. left.
  - done.
  - destruct Hlogs as [[_ ->]|[? _]]; [|done].
    apply process_buckets_counts in Hbk as [Hbk _].
    change (counted (caps ++ tb) = length (b_Samples b)). rewrite counted_app, Hcaps, Hbk, total_split.
    + apply CoalesceDPM_count in Hc as [_ Hlen]. simpl. lia.
    + intros sub r Hin. apply (Hclean sub). right. simpl. apply elem_of_app. by right.
Qed.

(** A quiet or fully handled window still moves the watermark: when every
    emit of the batch was settled and leadership was held throughout, the
    batch's own watermark is offered to the store (even when no sample was
    left to send), so an empty window never stalls the loop. *)
Theorem ProcessBatch_commits_window epoch b s a s' t :
  ProcessBatch epoch b s = (a, s', t) -> clean t -> EvCtx true ∉ t ->
  wm_Time (b_Watermark b) <> zeroTime \/ wm_Cursor (b_Watermark b) <> "" ->
  exists r, EvSave (b_Key b) (mkWm (wm_Time (b_Watermark b)) (wm_Cursor (b_Watermark b)) epoch) r ∈ t.
Proof.
  intros (s1 & Hran & _)%ProcessBatch_inv Hclean Hctx Hwm.
  destruct Hran as [? _|? t0 _ Hl|tl s0 ? s2 capped kept caps tb _ _ _ _ _ Hbk].
  - destruct Hctx. left.
  - exfalso. destruct Hl as [_ _ _ Hl]. discriminate Hl. intros sub r Hin. apply (Hclean sub). by right.
  - eapply process_buckets_commits in Hbk as [r Hr]; [|intros sub r Hin; apply (Hclean sub)|intros Hin; apply Hctx|exact Hwm].
    + exists r. right. rewrite !elem_of_app. auto.
    + right. rewrite !elem_of_app. auto.
    + right. rewrite !elem_of_app. auto.
Qed.

(** C32: a terminal reject is never swallowed: whenever a batch met one (a
    malformed payload or an unknown 4xx, for metrics or for logs), the loop is
    degraded when the batch is done, even though an interior commit that
    succeeded on the way clears earlier degrades; and the loop is never left
    busy. *)
Theorem terminal_reject_degrades epoch b s a s' t :
  ProcessBatch epoch b s = (a, s', t) ->
  (terminal_seen t -> r_degraded (st_r s') = true) /\ r_busy (st_r s') = false.
Proof.
  intros (s1 & Hran & ->)%ProcessBatch_inv. split; [|done]. simpl.
  destruct Hran as [? _|? t0 _ Hl|tl s0 ? s2 capped kept caps tb Hlogs _ _ Hne _ Hbk]; intros (sub & e & Hin & He).
  - by apply list_elem_of_singleton in Hin.
  - apply elem_of_cons in Hin as [|Hin]; [done|]. apply Hl. by exists sub, e.
  - apply process_buckets_counts in Hbk as [_ Ht]. apply Ht. exists sub, e. split; [|done].
    apply elem_of_cons in Hin as [|[Hin|[Hin|?]%elem_of_app]%elem_of_app]; [done| |by apply Hne in Hin|done].
    destruct Hlogs as [[_ ->]|[_ [s3 Hl]]]; [by apply elem_of_nil in Hin|].
    destruct (lr_terminal _ _ _ _ Hl) as [? _]; [by exists sub, e|done].
Qed.
End batch.

(** ** The unstorable span *)

Section backfill.
Context {W : Type}.

(** The minutes counted over successive ticks whose frontier is pinned at [wm]
    while the floor moves. *)
Fixpoint count_floors (wm : Time) (floors : list Time) : M (W:=W) Z :=
  match floors with
  | [] => mret 0%Z
  | f :: floors => m ← BackfillUnstorableMinutes wm f; n ← count_floors wm floors; mret (m + n)%Z
  end.

(** [total] whole minutes of the span behind [wm] were counted already. *)
Definition counted_so_far (r : LoopRunner) (wm : Time) (total : Z) : Prop :=
  (total = 0%Z /\ (r_backfillCountedWm r <> wm \/ (r_backfillCountedFloor r <= wm)%Z)) \/
  ((0 < total)%Z /\ r_backfillCountedWm r = wm /\ r_backfillCountedFloor r = (wm + total * Minute)%Z).

Lemma backfill_step (s : St (W:=W)) wm floor total n s' t :
  counted_so_far (st_r s) wm total -> (wm + total * Minute <= floor)%Z -> in_int64 (floor - wm) ->
  BackfillUnstorableMinutes wm floor s = (n, s', t) ->
  n = ((floor - wm) / Minute - total)%Z /\ counted_so_far (st_r s') wm (total + n).
Proof.
  destruct s as [r w]. unfold counted_so_far. intros Hc Hle Hr.
  unfold BackfillUnstorableMinutes, backfill_minutes, mbind, M_bind, gets, modify, mret, M_ret. simpl.
  set (from := if Equal (r_backfillCountedWm r) wm && After (r_backfillCountedFloor r) wm then r_backfillCountedFloor r else wm). assert (from = (wm + total * Minute)%Z) as ->.
  { unfold from, Equal, After. simpl in Hc. destruct Hc as [(-> & Hc)|(Hp & Hw & Hf)].
    - destruct (Z.eqb_spec (r_backfillCountedWm r) wm); simpl; [|lia].
      destruct (Z.ltb_spec wm (r_backfillCountedFloor r)); [|lia]. exfalso. lia.
    - rewrite Hw, Hf, Z.eqb_refl. simpl. destruct (Z.ltb_spec wm (wm + total * Minute)); [done|]. unfold Minute in *. lia. }
  assert (0 <= total)%Z by (destruct Hc as [(-> & _)|(? & _)]; lia).
  rewrite Sub_exact by (unfold in_int64, minInt64, maxInt64, Minute in *; lia).
  assert (Z.quot (floor - (wm + total * Minute)) Minute = (floor - wm) / Minute - total)%Z as ->.
  { rewrite Z.quot_div_nonneg by (unfold Minute in *; lia).
    replace (floor - (wm + total * Minute))%Z with ((floor - wm) + (- total) * Minute)%Z by ring.
    rewrite Z.div_add by done. lia. }
  set (mins := ((floor - wm) / Minute - total)%Z).
  assert (0 <= mins)%Z as Hm.
  { unfold mins. assert (total <= (floor - wm) / Minute)%Z; [|lia]. apply Z.div_le_lower_bound; unfold Minute in *; lia. }
  destruct (Z.leb_spec mins 0); simpl; intros [= <- <- <-]; simpl.
  - assert (mins = 0)%Z as -> by lia. split; [done|]. by rewrite Z.add_0_r.
  - split; [done|]. right. split_and!; [lia|done|].
    rewrite wrap64_id; [unfold Add; ring|]. unfold mins, in_int64, minInt64, maxInt64, Minute in *.
    Z.to_euclidean_division_equations. lia.
Qed.

(** No double counting of an abandoned span.  However many ticks pass while
    the frontier is pinned at [wm] and the floor advances, the minutes reported
    in total are exactly the whole minutes between [wm] and the last floor. *)
Theorem backfill_telescopes (s : St (W:=W)) wm floors last_floor n s' t :
  (r_backfillCountedWm (st_r s) <> wm \/ (r_backfillCountedFloor (st_r s) <= wm)%Z) ->
  StronglySorted Z.le (wm :: floors ++ [last_floor]) -> in_int64 (last_floor - wm) ->
  count_floors wm (floors ++ [last_floor]) s = (n, s', t) ->
  n = ((last_floor - wm) / Minute)%Z.
Proof.
  intros Hfresh Hsort Hr Hrun.
  assert (counted_so_far (st_r s) wm 0) as Hc by (by left).
  apply StronglySorted_inv in Hsort as [Hsort Hge].
  enough (forall fs s total n s' t, counted_so_far (st_r s) wm total -> StronglySorted Z.le (fs ++ [last_floor]) ->
    Forall (fun f => wm + total * Minute <= f)%Z (fs ++ [last_floor]) ->
    count_floors wm (fs ++ [last_floor]) s = (n, s', t) -> n = ((last_floor - wm) / Minute - total)%Z) as Hgen.
  { rewrite (Hgen floors s 0%Z n s' t); [lia|done|done| |done]. eapply Forall_impl; [exact Hge|]. intros. lia. }
  clear -Hr. induction fs as [|f fs IH]; intros s total n s' t Hc Hsort Hge; simpl;
    unfold mbind, M_bind, mret, M_ret; simpl.
  - destruct (BackfillUnstorableMinutes wm last_floor s) as [[m s1] t1] eqn:Hm. intros [= <- _ _].
    apply Forall_inv in Hge. destruct (backfill_step _ _ _ _ _ _ _ Hc Hge Hr Hm) as [-> _]. lia.
  - destruct (BackfillUnstorableMinutes wm f s) as [[m s1] t1] eqn:Hm.
    destruct (count_floors wm (fs ++ [last_floor]) s1) as [[k s2] t2] eqn:Hk. intros [= <- _ _].
    simpl in Hge, Hsort. apply Forall_cons in Hge as [Hge Hges]. apply StronglySorted_inv in Hsort as [Hsort Hf].
    assert (f <= last_floor)%Z as Hfl by (rewrite Forall_forall in Hf; apply Hf, elem_of_app; right; by left).
    assert (in_int64 (f - wm)) as Hfr.
    { assert (0 <= total)%Z by (destruct Hc as [(-> & _)|(? & _)]; lia).
      unfold in_int64, minInt64, maxInt64, Minute in *. lia. }
    destruct (backfill_step _ _ _ _ _ _ _ Hc Hge Hfr Hm) as [Hmeq Hc'].
    rewrite (IH s1 (total + m)%Z k s2 t2 Hc' Hsort); [lia| |exact Hk].
    eapply Forall_impl; [exact Hf|]. intros x Hx. simpl in Hx. rewrite Hmeq.
    pose proof (Z.mul_div_le (f - wm) Minute ltac:(done)). lia.
Qed.
End backfill.

(** ** Concrete batches *)

Definition is_emit_ok (e : Ev) : bool :=
  match e with EvEmit _ (Some err) => isAdvancePast err | _ => true end.

Lemma clean_of_bool t : forallb is_emit_ok t = true -> clean t.
Proof.
  intros Hf sub r Hin. rewrite forallb_forall in Hf. apply list_elem_of_In in Hin. specialize (Hf _ Hin). by destruct r.
Qed.

Definition is_lost (e : Ev) : bool := match e with EvCtx true => true | _ => false end.

Lemma not_lost_of_bool t : existsb is_lost t = false -> EvCtx true ∉ t.
Proof.
  intros Hf Hin%list_elem_of_In. assert (existsb is_lost t = true); [|congruence].
  apply existsb_exists. by exists (EvCtx true).
Qed.

(** Up to the save of the interior bucket, and from there on. *)
Fixpoint until_save (t : list Ev) : list Ev * list Ev :=
  match t with
  | [] => ([], [])
  | e :: t => if nosave e then let '(a, b) := until_save t in (e :: a, b) else ([], e :: t)
  end.

Lemma ProcessBatch_no_gap_witness :
  let pre := (until_save (Sim.trace Sim.halting)).1 in
  length pre = 9 /\ last pre = Some (EvCtx false).
Proof.
  intros pre. split; [vm_compute; reflexivity|].
  assert (Forall nano_ok (b_Samples Sim.batch)) as Hok
    by (repeat (apply Forall_cons; split; [split; vm_compute; discriminate|]); apply Forall_nil; exact I).
  assert (Sim.trace Sim.halting = pre ++ EvSave Sim.key (mkWm (Sim.t0 + Minute) "" 7) None ::
    tail (until_save (Sim.trace Sim.halting)).2) as Hsplit by (vm_compute; reflexivity).
  exact (proj1 (proj2 (proj2 (ProcessBatch_no_gap 7 Sim.batch Sim.halting _ _ _ _ _ _ _ _ Hok (Sim.run_eq _) Hsplit)))).
Defined.

Lemma ProcessBatch_conserves_witness :
  length (b_Samples Sim.batch) = 4 /\ counted (Sim.trace Sim.good) = length (b_Samples Sim.batch).
Proof.
  split; [reflexivity|].
  refine (ProcessBatch_conserves 7 Sim.batch Sim.good _ _ _ eq_refl (Sim.run_eq _) _ _).
  - apply clean_of_bool. vm_compute. reflexivity.
  - apply not_lost_of_bool. vm_compute. reflexivity.
Defined.

Lemma ProcessBatch_commits_window_witness :
  exists r, EvSave Sim.key (mkWm (Sim.t0 + 4 * Minute) "" 7) r ∈ Sim.trace Sim.good.
Proof.
  refine (ProcessBatch_commits_window 7 Sim.batch Sim.good _ _ _ (Sim.run_eq _) _ _ _).
  - apply clean_of_bool. vm_compute. reflexivity.
  - apply not_lost_of_bool. vm_compute. reflexivity.
  - left. vm_compute. discriminate.
Defined.

Lemma terminal_reject_degrades_witness :
  terminal_seen (Sim.trace Sim.halting) /\ r_degraded (st_r (Sim.final Sim.halting)) = true.
Proof.
  assert (terminal_seen (Sim.trace Sim.halting)) as Hs.
  { exists (mkBatch Sim.key [Sim.sample "tokens" 2] [] zeroWm), Sim.unknown. split; [|reflexivity].
    apply list_elem_of_In. vm_compute. tauto. }
  split; [exact Hs|].
  exact (proj1 (terminal_reject_degrades 7 Sim.batch Sim.halting _ _ _ (Sim.run_eq _)) Hs).
Defined.

Lemma backfill_telescopes_witness :
  (count_floors 0%Z ([90 * Second] ++ [130 * Second])%Z Sim.good).1.1 = ((130 * Second - 0) / Minute)%Z.
Proof.
  refine (backfill_telescopes Sim.good 0%Z [90 * Second]%Z (130 * Second)%Z _
    (count_floors 0%Z ([90 * Second] ++ [130 * Second])%Z Sim.good).1.2 [] _ _ _ _).
  - right. vm_compute. discriminate.
  - repeat constructor; vm_compute; discriminate.
  - split; vm_compute; discriminate.
  - vm_compute. reflexivity.
Defined.
