(* ===== verification/Scheduler.v ===== *)
(** * The scheduler (internal/schedule/scheduler.go)

    One loop's tick: gate, read the frontier, collect, enqueue; the pacing of
    the ticks; and the concurrency of the tick goroutine with the emit worker
    across leaderships, as a step relation whose steps are the critical
    sections of the code.  [Collect] is an operation of the world. *)

From S2P Require Import Prelude Model Checkpoint Emit Guard Limiter Source Runner.

Definition DegradedBackoff : Duration := (10 * Minute)%Z.
Definition catchupInterval : Duration := (2 * Second)%Z.
Definition jitterFrac : spec_float := Eval vm_compute in f64_div (f64_of_Z 1) (f64_of_Z 10).

Record LoopSpec := mkSpec {
  ls_Cadence : Duration; ls_MaxBackfill : Duration; ls_Window : Duration; ls_MaxCatchupPerTick : Z }.

(** ** Pacing *)

(** Wait, new burst, whether to jitter. *)
Definition tickPlan (degraded more : bool) (burst maxCatchup : Z) (cadence : Duration) : Duration * Z * bool :=
  if degraded then (DegradedBackoff, 0%Z, false)
  else if more && (burst <? wrap64 (maxCatchup - 1))%Z then (catchupInterval, (burst + 1)%Z, false)
  else (cadence, 0%Z, true).

(** [r] is the value [rand.Float64()] returned. *)
Definition jitter (d : Duration) (frac r : spec_float) : Duration :=
  wrap64 (d + int64_of_f64 (f64_mul (f64_mul (f64_of_Z d) frac) (f64_sub (f64_mul r (f64_of_Z 2)) (f64_of_Z 1)))).

(** The plans of a tick loop, each from the loop's state at that tick. *)
Fixpoint tick_plans (states : list (bool * bool)) (burst maxCatchup : Z) (cadence : Duration)
    : list (Duration * Z * bool) :=
  match states with
  | [] => []
  | (degraded, more) :: states =>
      let p := tickPlan degraded more burst maxCatchup cadence in
      p :: tick_plans states p.1.2 maxCatchup cadence
  end.

(** A tick that was accelerated. *)
Definition accelerated (p : Duration * Z * bool) : bool := (0 <? p.1.2)%Z.

Lemma tickPlan_burst degraded more burst maxCatchup cadence :
  (1 <= maxCatchup <= maxInt64)%Z -> (0 <= burst <= maxCatchup - 1)%Z ->
  let p := tickPlan degraded more burst maxCatchup cadence in
  (0 <= p.1.2 <= maxCatchup - 1)%Z /\ (accelerated p = true -> p.1.2 = burst + 1)%Z.
Proof.
  intros Hm Hb. unfold tickPlan, accelerated. rewrite wrap64_id by (unfold in_int64, minInt64, maxInt64 in *; lia).
  destruct degraded; simpl; [lia|]. destruct more; simpl; [|lia]. destruct (Z.ltb_spec burst (maxCatchup - 1)); simpl; lia.
Qed.

(** Accelerated ticks count up the burst. *)
Lemma accelerated_run states burst maxCatchup cadence i n :
  (1 <= maxCatchup <= maxInt64)%Z -> (0 <= burst <= maxCatchup - 1)%Z ->
  i + n <= length states ->
  (forall j, i <= j < i + n -> exists p, tick_plans states burst maxCatchup cadence !! j = Some p /\ accelerated p = true) ->
  (Z.of_nat n <= maxCatchup - 1)%Z.
Proof.
  intros Hm. revert burst i n. induction states as [|[d m] states IH]; intros burst i n Hb Hlen Hacc; simpl in *.
  { assert (n = 0) as -> by lia. lia. }
  pose proof (tickPlan_burst d m burst maxCatchup cadence Hm Hb) as Hp. simpl in Hp.
  set (p := tickPlan d m burst maxCatchup cadence) in *. destruct Hp as [Hp Hstep].
  destruct i as [|i].
  - clear IH. enough (Z.of_nat n <= maxCatchup - 1 - burst)%Z by lia.
    assert (n <= S (length states)) as Hn by lia. clear Hlen.
    revert d m burst n p Hb Hp Hstep Hacc Hn. induction states as [|[d' m'] states IH]; intros d m burst n p Hb Hp Hstep Hacc Hn; simpl in *.
    + destruct n as [|n]; [lia|]. destruct (Hacc 0 ltac:(lia)) as (q & [= <-] & Hq). specialize (Hstep Hq). lia.
    + destruct n as [|n]; [lia|]. destruct (Hacc 0 ltac:(lia)) as (q & [= <-] & Hq). specialize (Hstep Hq).
      pose proof (tickPlan_burst d' m' p.1.2 maxCatchup cadence Hm Hp) as [Hp' Hstep'].
      enough (Z.of_nat n <= maxCatchup - 1 - p.1.2)%Z by lia.
      apply (IH d' m' p.1.2 n Hp Hp' Hstep'); [|lia].
      intros j Hj. destruct (Hacc (S j) ltac:(lia)) as (q & Hl & ?). by exists q.
  - apply (IH p.1.2 i n Hp); [lia|]. intros j Hj. destruct (Hacc (S j) ltac:(lia)) as (q & Hl & ?). by exists q.
Qed.

(** Pacing is bounded.  Whatever states the loop goes through, a degraded
    tick waits exactly the degraded backoff, and no more than
    [MaxCatchupPerTick - 1] ticks in a row are accelerated, so catch-up always
    takes a cadence-long breather (and never accelerates when the cap is 1). *)
Theorem tickPlan_paces states maxCatchup cadence i :
  (1 <= maxCatchup <= maxInt64)%Z ->
  (forall j more, states !! j = Some (true, more) ->
     exists b, tick_plans states 0 maxCatchup cadence !! j = Some (DegradedBackoff, b, false)) /\
  (forall n, i + n <= length states ->
     (forall j, i <= j < i + n -> exists p, tick_plans states 0 maxCatchup cadence !! j = Some p /\ accelerated p = true) ->
     (Z.of_nat n <= maxCatchup - 1)%Z).
Proof.
  intros Hm. split; [|intros n Hn Hacc; eapply accelerated_run; [done| |exact Hn|exact Hacc]; lia].
  generalize 0%Z as burst. induction states as [|[d m] states IH]; intros burst j more; [done|].
  destruct j as [|j]; simpl; [intros [= -> ->]; by eexists|apply IH].
Qed.

(** ** The tick *)

Class SchedWorld (W : Type) := {
  lp_Collect : Watermark -> W -> result CollectErr Batch * W;
  get_sched_lim : W -> Limiter;          (* the scheduler's limiter, shared by its loops *)
  put_sched_lim : Limiter -> W -> W
}.

Section scheduler.
Context {W : Type} `{RunnerWorld W} `{Checkpointer W} `{SchedWorld W}.

Definition DoCollect (wm : Watermark) : M (W:=W) (result CollectErr Batch) :=
  world (lp_Collect wm) (fun r => [EvCollect wm r]).

(** [s.lim.Allow(key)] guarding one log line. *)
Definition sched_log (key level msg : string) : M (W:=W) unit :=
  now ← world time_Now (fun _ => []);
  ok ← world (fun w => let '(ok, l) := Allow (get_sched_lim w) key now in (ok, put_sched_lim l w)) (fun _ => []);
  when ok (tell (EvLog level msg)).

Definition tick_gate : M (W:=W) bool := tell EvBeat;; Busy.

Definition tick_since : M (W:=W) (option Watermark) :=
  r ← Since; name ← gets r_name;
  match r with
  | Ok wm => mret (Some wm)
  | Err _ =>
      metric (EmitError "checkpoint_load");;
      sched_log ("checkpoint_load:" +:+ name) "warn" "checkpoint load failed; skipping tick";;
      mret None
  end.

Definition tick_account (sp : LoopSpec) (now : Time) (wm : Watermark) : M (W:=W) unit :=
  when (negb (IsZero (wm_Time wm))) (metric (WindowLag (Sub now (wm_Time wm))));;
  let floor := Add now (wrap64 (- ls_MaxBackfill sp)) in
  when ((0 <? ls_Window sp)%Z && negb (IsZero (wm_Time wm)) && Before (wm_Time wm) floor)
    (mins ← BackfillUnstorableMinutes (wm_Time wm) floor;
     when (0 <? mins)%Z (metric (SamplesSkipped "backfill_unstorable" mins))).

Definition tick_collect (wm : Watermark) : M (W:=W) (option Batch) :=
  name ← gets r_name;
  r ← DoCollect wm;
  match r with
  | Ok b => mret (Some b)
  | Err ErrQuotaExceeded => metric (SamplesSkipped "quota_exceeded" 1);; mret None
  | Err ErrGranularityUnexpected =>
      metric (EmitError "granularity_unexpected");; Degrade "granularity_unexpected";; mret None
  | Err (CollectOther _) =>
      metric (EmitError "collect");; sched_log ("collect:" +:+ name) "warn" "collect failed";; mret None
  end.

(** Still more than one window behind. *)
Definition backlog (sp : LoopSpec) (now : Time) (b : Batch) : bool :=
  (0 <? ls_Window sp)%Z && negb (IsZero (wm_Time (b_Watermark b)))
  && (ls_Window sp <? Sub now (wm_Time (b_Watermark b)))%Z.

(** [runOnce] run to its end without interruption. *)
Definition runOnce (sp : LoopSpec) (now : Time) : M (W:=W) bool :=
  busy ← tick_gate;
  if busy : bool then mret (0 <? ls_Window sp)%Z
  else
    wm ← tick_since;
    match wm with
    | None => mret false
    | Some wm =>
        tick_account sp now wm;;
        b ← tick_collect wm;
        match b with
        | None => mret false
        | Some b =>
            enqueue_begin;;
            sent ← enqueue_send b;
            if sent : bool then
              tell (EvLog "debug" "tick collected");; mret (backlog sp now b)
            else enqueue_cancel;; mret false
        end
    end.

(** ** The two goroutines of a loop *)

(** Where the tick goroutine is. *)
Inductive TickPC :=
| TIdle | TGated | THave (wm : Watermark) | TCollected (b : Batch) | TSending (b : Batch) | TStopped.

(** Where the emit worker is: [WDone] has processed but still holds [busy]. *)
Inductive WorkPC := WIdle | WTook (b : Batch) | WDone | WStopped.

(** The runner and the world, the goroutines, the leader context, and two
    ghosts: the number of the leadership, and the one the batch in flight was
    collected in. *)
Record Sys := mkSys {
  sy_st : St (W:=W); sy_tick : TickPC; sy_work : WorkPC; sy_cancelled : bool; sy_epoch : Z;
  sy_term : nat; sy_tag : option nat }.

Section steps.
Context (sp : LoopSpec).

(** One atomic step of one goroutine, of the context, or of the environment. *)
Inductive step : Sys -> Sys -> Prop :=
| step_gate s wk c ep tm tg busy s' t :
    tick_gate s = (busy, s', t) ->
    step (mkSys s TIdle wk c ep tm tg) (mkSys s' (if busy then TIdle else TGated) wk c ep tm tg)
| step_since s wk c ep tm tg r s' t :
    tick_since s = (r, s', t) ->
    step (mkSys s TGated wk c ep tm tg)
         (mkSys s' (match r with Some wm => THave wm | None => TIdle end) wk c ep tm tg)
| step_collect s wk c ep tm tg wm now s1 t1 r s' t a :
    tick_account sp now wm s = (a, s1, t1) -> tick_collect wm s1 = (r, s', t) ->
    step (mkSys s (THave wm) wk c ep tm tg)
         (mkSys s' (match r with Some b => TCollected b | None => TIdle end) wk c ep tm
            (match r with Some _ => Some tm | None => tg end))
| step_begin s wk c ep tm tg b a s' t :
    enqueue_begin s = (a, s', t) ->
    step (mkSys s (TCollected b) wk c ep tm tg) (mkSys s' (TSending b) wk c ep tm tg)
| step_send s wk c ep tm tg b s' t :
    enqueue_send b s = (true, s', t) ->
    step (mkSys s (TSending b) wk c ep tm tg) (mkSys s' TIdle wk c ep tm tg)
| step_cancel_send s wk ep tm tg b a s' t :
    enqueue_cancel s = (a, s', t) ->
    step (mkSys s (TSending b) wk true ep tm tg) (mkSys s' TIdle wk true ep tm tg)
| step_tick_stop s wk ep tm tg :
    step (mkSys s TIdle wk true ep tm tg) (mkSys s TStopped wk true ep tm tg)
| step_take r w tk c ep tm tg b q :
    r_q r = b :: q ->
    step (mkSys (mkSt r w) tk WIdle c ep tm tg) (mkSys (mkSt (with_q q r) w) tk (WTook b) c ep tm tg)
| step_drop s tk ep tm tg b :
    step (mkSys s tk (WTook b) true ep tm tg) (mkSys s tk WStopped true ep tm tg)
| step_process s tk c ep tm tg b a s' t :
    process ep b s = (a, s', t) ->
    step (mkSys s tk (WTook b) c ep tm tg) (mkSys s' tk WDone c ep tm tg)
| step_release r w tk c ep tm tg :
    step (mkSys (mkSt r w) tk WDone c ep tm tg) (mkSys (mkSt (with_busy false r) w) tk WIdle c ep tm tg)
| step_work_stop s tk ep tm tg :
    step (mkSys s tk WIdle true ep tm tg) (mkSys s tk WStopped true ep tm tg)
| step_lose s tk wk ep tm tg :
    step (mkSys s tk wk false ep tm tg) (mkSys s tk wk true ep tm tg)
| step_elect s ep ep' tm tg a s' t :
    Reset s = (a, s', t) -> in_int64 ep' ->
    step (mkSys s TStopped WStopped true ep tm tg) (mkSys s' TIdle WIdle false ep' (S tm) None).
End steps.

Create HintDb sched.

(** ** Single flight *)

(** What the scheduler's world promises: collecting and logging leave the
    durable watermarks to the store, and a batch carries its loop's key. *)
Class SchedLaws `{!CheckpointerSpec W} (key : CheckpointKey) : Prop := {
  collect_durable wm w r w' : lp_Collect wm w = (r, w') -> forall k, wm_le (durable w k) (durable w' k);
  sched_lim_durable l w k : wm_le (durable w k) (durable (put_sched_lim l w) k);
  collect_key wm w b w' : lp_Collect wm w = (Ok b, w') -> b_Key b = key
}.

Section single_flight.
Context (key : CheckpointKey) `{Spec : !CheckpointerSpec W} `{Laws : !RunnerLaws} `{SLaws : !SchedLaws key}.

(** The queue, the gate, the capacity and the key stay as they are. *)
Definition same_flight (s : St (W:=W)) (_ : list Ev) (s' : St (W:=W)) : Prop :=
  r_busy (st_r s') = r_busy (st_r s) /\ r_q (st_r s') = r_q (st_r s) /\
  r_cap (st_r s') = r_cap (st_r s) /\ r_key (st_r s') = r_key (st_r s).

#[local] Instance same_flight_rel : TraceRel same_flight.
Proof. split; unfold same_flight; intros; intuition congruence. Qed.

(** Steps of a tick: the flight is untouched and the frontier follows the
    store. *)
Definition tick_rel (s : St (W:=W)) (t : list Ev) (s' : St (W:=W)) : Prop :=
  same_flight s t s' /\ front_step key s t s' /\
  r_hasFront (st_r s') = r_hasFront (st_r s) /\ r_frontier (st_r s') = r_frontier (st_r s).

#[local] Instance front_step_rel' : TraceRel (front_step (W:=W) key).
Proof. apply front_step_rel. Qed.

#[local] Instance tick_rel_rel : TraceRel tick_rel.
Proof.
  split; unfold tick_rel.
  - intros s. split_and!; try done; apply tr_refl.
  - intros s1 t1 s2 t2 s3 (Fa & Sa & Ha & Ea) (Fb & Sb & Hb & Eb). split_and!; [by eapply tr_trans..| |]; congruence.
Qed.

Lemma quiet_tick s t s' : quiet s t s' -> tick_rel s t s'.
Proof.
  intros Hq. unfold tick_rel, same_flight. pose proof (quiet_front key _ _ _ Hq). destruct Hq as ([l Hr] & _).
  by rewrite Hr.
Qed.

Lemma tick_quiet {A} (m : M A) : obeys quiet m -> obeys tick_rel m.
Proof. apply obeys_weaken, quiet_tick. Qed.

Lemma modify_tick f :
  (forall r, r_busy (f r) = r_busy r /\ r_q (f r) = r_q r /\ r_cap (f r) = r_cap r /\ r_key (f r) = r_key r /\
     r_hasFront (f r) = r_hasFront r /\ r_frontier (f r) = r_frontier r) ->
  obeys tick_rel (modify (W:=W) f).
Proof.
  intros Hf s a s' t [= <- <- <-]. destruct (Hf (st_r s)) as (? & ? & ? & ? & ? & ?).
  split_and!; [done| |done|done]. by apply front_stay.
Qed.

Lemma sched_log_quiet k level msg : obeys (quiet (W:=W)) (sched_log k level msg).
Proof.
  unfold sched_log. apply obeys_bind; [apply quiet_rel|apply quiet_now|]. intros now.
  apply obeys_bind; [apply quiet_rel| |].
  - apply quiet_world; [|by repeat constructor]. intros w b w' Hw k'. destruct (Allow _ _ _) as [ok l].
    injection Hw as <- <-. apply sched_lim_durable.
  - intros ok. apply obeys_when; [apply quiet_rel|]. intros _. by apply quiet_tell.
Qed.

Lemma collect_quiet wm : obeys (quiet (W:=W)) (DoCollect wm).
Proof. apply quiet_world; [intros ?????; by eapply collect_durable|by repeat constructor]. Qed.

Lemma enterDegraded_tick reason : obeys tick_rel (enterDegraded (W:=W) reason).
Proof.
  intros s a s' t [(_ & -> & ->)|(_ & -> & ->)]%enterDegraded_inv; [apply tr_refl|].
  split_and!; [done| |done|done]. by apply front_stay.
Qed.

Lemma plain_metric_tick m : (forall reason d, m <> LoopDegraded reason d) -> obeys tick_rel (metric (W:=W) m).
Proof. intros. by apply tick_quiet, quiet_metric. Qed.

#[local] Hint Resolve sched_log_quiet collect_quiet quiet_tell Since_quiet : sched.
#[local] Hint Resolve enterDegraded_tick plain_metric_tick modify_tick : runner.
#[local] Hint Extern 2 (obeys tick_rel _) => apply tick_quiet; solve [auto with sched] : runner.
#[local] Hint Extern 1 (forall _ _, _ <> LoopDegraded _ _) => done : runner.
#[local] Hint Extern 1 (Is_true (quiet_ev _)) => exact I : sched.

Lemma tick_gate_obeys : obeys tick_rel tick_gate.
Proof. unfold tick_gate, Busy. obey. Qed.

Lemma tick_since_obeys : obeys tick_rel tick_since.
Proof. unfold tick_since. obey. Qed.

Lemma tick_account_obeys sp now wm : obeys tick_rel (tick_account sp now wm).
Proof. unfold tick_account, BackfillUnstorableMinutes. obey. apply modify_tick. done. Qed.

Lemma tick_collect_obeys wm : obeys tick_rel (tick_collect wm).
Proof. unfold tick_collect, Degrade. obey. Qed.

(** Steps of the worker inside a batch: the flight is untouched. *)
Definition work_rel (s : St (W:=W)) (t : list Ev) (s' : St (W:=W)) : Prop :=
  same_flight s t s' /\ front_step key s t s'.

#[local] Instance work_rel_rel : TraceRel work_rel.
Proof.
  split; unfold work_rel.
  - intros s. split; apply tr_refl.
  - intros s1 t1 s2 t2 s3 (Fa & Sa) (Fb & Sb). split; by eapply tr_trans.
Qed.

Lemma process_work epoch b : in_int64 epoch -> b_Key b = key -> obeys work_rel (process (W:=W) epoch b).
Proof.
  intros Hep Hk. apply process_obeys; [apply _|..].
  - intros s t s' Hq. destruct (quiet_tick _ _ _ Hq) as (? & ? & _). by split.
  - intros tm cursor s a s' t Hrun. split; [|rewrite <-Hk; by eapply (commit_front (b_Key b))].
    apply commit_inv in Hrun. unfold same_flight. by destruct Hrun; simpl; repeat case_match.
  - intros reason s a s' t Hrun. by destruct (enterDegraded_tick _ _ _ _ _ Hrun) as (? & ? & _).
Qed.

(** *** The invariant *)

Definition holding_tick (tk : TickPC) : list Batch := match tk with TSending b => [b] | _ => [] end.
Definition holding_work (wk : WorkPC) : nat := match wk with WTook _ | WDone => 1 | _ => 0 end.

(** Batches enqueued and not yet fully processed. *)
Definition in_flight (c : Sys) : nat :=
  length (holding_tick (sy_tick c)) + length (r_q (st_r (sy_st c))) + holding_work (sy_work c).

(** The tick goroutine is between the gate and the enqueue. *)
Definition collecting (tk : TickPC) : bool := match tk with TGated | THave _ | TCollected _ => true | _ => false end.

Record sys_ok (c : Sys) : Prop := {
  ok_cap : 1 <= r_cap (st_r (sy_st c));
  ok_key : r_key (st_r (sy_st c)) = key;
  ok_epoch : in_int64 (sy_epoch c);
  ok_single : in_flight c <= 1;
  ok_busy : r_busy (st_r (sy_st c)) = false -> in_flight c = 0;
  ok_stuck : r_busy (st_r (sy_st c)) = true -> in_flight c = 1 \/ sy_work c = WStopped;
  ok_gate : collecting (sy_tick c) = true -> r_busy (st_r (sy_st c)) = false;
  ok_stopped : sy_work c = WStopped -> sy_cancelled c = true;
  ok_tag : in_flight c = 1 \/ (exists b, sy_tick c = TCollected b) -> sy_tag c = Some (sy_term c);
  ok_keys : Forall (fun b => b_Key b = key)
    (holding_tick (sy_tick c) ++ r_q (st_r (sy_st c)) ++
     match sy_tick c with TCollected b => [b] | _ => [] end ++ match sy_work c with WTook b => [b] | _ => [] end);
  ok_front : front_ok (sy_st c);
  ok_since : forall wm, sy_tick c = THave wm ->
    wm_le wm (durable (st_w (sy_st c)) key) /\
    (r_hasFront (st_r (sy_st c)) = true -> wm = r_frontier (st_r (sy_st c)))
}.

Lemma Since_spec (s : St (W:=W)) wm s' t :
  Since s = (Ok wm, s', t) -> r_key (st_r s) = key -> front_ok s ->
  st_r s' = st_r s /\ wm_le wm (durable (st_w s') key) /\ (r_hasFront (st_r s) = true -> wm = r_frontier (st_r s)).
Proof.
  intros Hrun Hk Hf. destruct s as [r w]. unfold Since, mbind, M_bind, gets, mret, M_ret, DoLoad, world in Hrun. simpl in *.
  destruct (r_hasFront r) eqn:Hh; simpl in Hrun.
  - injection Hrun as <- <- <-. split_and!; [done| |done]. rewrite <-Hk. by apply Hf.
  - destruct (cp_Load (r_key r) w) as [res w1] eqn:Hl. injection Hrun as -> <- <-. simpl.
    apply cp_Load_fresh in Hl as [_ Hhi]. rewrite <-Hk. by split_and!.
Qed.

Lemma tick_since_spec (s : St (W:=W)) wm s' t :
  tick_since s = (Some wm, s', t) -> r_key (st_r s) = key -> front_ok s ->
  wm_le wm (durable (st_w s') key) /\ (r_hasFront (st_r s') = true -> wm = r_frontier (st_r s')).
Proof.
  intros Hrun Hk Hf. unfold tick_since, mbind, M_bind in Hrun. destruct (Since s) as [[r s1] t1] eqn:Hs. simpl in Hrun.
  destruct r as [wm'|e].
  - injection Hrun as <- <- <-. apply Since_spec in Hs as (Hr & Hle & Hfr); [|done..]. by rewrite Hr.
  - exfalso. simpl in Hrun. destruct (sched_log _ _ _ s1) as [[a3 s3] t3]. simplify_eq/=.
Qed.

Lemma tick_collect_key wm (s : St (W:=W)) b s' t : tick_collect wm s = (Some b, s', t) -> b_Key b = key.
Proof.
  unfold tick_collect, mbind, M_bind, DoCollect, world. simpl. destruct (lp_Collect wm (st_w s)) as [r w1] eqn:Hc.
  destruct r as [b'|e]; [intros [= <- <- <-]; by eapply collect_key|].
  intros Hrun. exfalso. destruct e; simpl in Hrun; repeat case_match; simplify_eq/=.
Qed.

(** A tick step that keeps the flight keeps the invariant, given what it does
    to the tick goroutine's own state. *)
Lemma tick_step_ok s tk wk c ep tm tg s' t tk' tg' :
  sys_ok (mkSys s tk wk c ep tm tg) -> tick_rel s t s' ->
  holding_tick tk = [] -> holding_tick tk' = [] ->
  (collecting tk' = true -> r_busy (st_r s) = false) ->
  (forall b, tk' = TCollected b -> b_Key b = key /\ tg' = Some tm) ->
  (tg' = tg \/ r_busy (st_r s) = false) ->
  (forall wm, tk' = THave wm -> wm_le wm (durable (st_w s') key) /\ (r_hasFront (st_r s') = true -> wm = r_frontier (st_r s'))) ->
  sys_ok (mkSys s' tk' wk c ep tm tg').
Proof.
  intros [] ((Hb & Hq & Hc & Hk) & Hfs & _) Htk Htk' Hcol Hcoll Htg Hsince. simpl in *.
  unfold in_flight in *. simpl in *. rewrite Htk in *. simpl in *.
  split; unfold in_flight; simpl; rewrite ?Htk', ?Hb, ?Hq, ?Hc, ?Hk; simpl; try done.
  - intros [Hone|[b ->]]; [|by apply (Hcoll b)]. destruct Htg as [->|Hnb]; [by apply ok_tag0; left|].
    specialize (ok_busy0 Hnb). lia.
  - rewrite !Forall_app in *. destruct ok_keys0 as (? & _ & ?). split_and!; [done| |done].
    destruct tk'; try done. destruct (Hcoll b eq_refl) as [? _]. by constructor.
  - by destruct (Hfs ok_key0) as (_ & _ & [? _]).
Qed.

(** Split the invariant and close the fields that are arithmetic on the number
    of batches in flight. *)
Ltac flight :=
  split; unfold in_flight; simpl; rewrite ?length_app; simpl; try done; try lia;
  try match goal with
  | Hb : _ = false -> _ |- _ = false -> _ => let Hn := fresh in intros Hn; specialize (Hb Hn); lia
  | Hs : _ = true -> _ \/ _ |- _ = true -> _ \/ _ =>
      let Hn := fresh in intros Hn; destruct (Hs Hn); first [left; lia|by right|done]
  end.

(** Every batch in sight carries the key. *)
Ltac keys :=
  repeat match goal with
  | H : Forall _ (_ ++ _) |- _ => apply Forall_app in H as [? ?]
  | H : Forall _ (_ :: _) |- _ => apply Forall_cons in H as [? ?]
  | |- Forall _ (_ ++ _) => apply Forall_app; split
  | |- Forall _ (_ :: _) => constructor
  | |- Forall _ [] => constructor
  end; auto.

Lemma step_ok sp c c' : sys_ok c -> step sp c c' -> sys_ok c'.
Proof.
  intros Hok Hstep. destruct Hstep as
    [s wk c ep tm tg busy s' t Hr|s wk c ep tm tg r s' t Hr|s wk c ep tm tg wm now s1 t1 r s' t a Hr1 Hr2
    |s wk c ep tm tg b a s' t Hr|s wk c ep tm tg b s' t Hr|s wk ep tm tg b a s' t Hr|s wk ep tm tg
    |r w tk c ep tm tg b q Hr|s tk ep tm tg b|s tk c ep tm tg b a s' t Hr|r w tk c ep tm tg|s tk ep tm tg
    |s tk wk ep tm tg|s ep ep' tm tg a s' t Hr Hep].
  - eapply tick_step_ok; [exact Hok|by eapply tick_gate_obeys|done|by destruct busy| | |by left|by destruct busy].
    + unfold tick_gate, Busy, mbind, M_bind, tell, gets in Hr. injection Hr as <- <- <-. by destruct (r_busy (st_r s)).
    + by destruct busy.
  - eapply tick_step_ok; [exact Hok|by eapply tick_since_obeys|done|by destruct r| |by destruct r|by left|].
    + intros _. by apply (ok_gate _ Hok).
    + destruct r as [wm|]; [|done]. intros wm' [= <-]. eapply tick_since_spec; [exact Hr|apply (ok_key _ Hok)|apply (ok_front _ Hok)].
  - assert (tick_rel s (t1 ++ t) s') as Hrel.
    { eapply tr_trans; [by eapply tick_account_obeys|by eapply tick_collect_obeys]. }
    assert (r_busy (st_r s) = false) as Hnb by (by apply (ok_gate _ Hok)).
    eapply tick_step_ok; [exact Hok|exact Hrel|done|by destruct r|done| |by right|by destruct r].
    destruct r as [b|]; [|done]. intros b' [= <-]. split; [by eapply tick_collect_key|done].
  - unfold enqueue_begin, modify in Hr. injection Hr as _ <- _.
    assert (r_busy (st_r s) = false) as Hnb by (by apply (ok_gate _ Hok)).
    destruct Hok; unfold in_flight in *; simpl in *. specialize (ok_busy0 Hnb). flight; [|keys].
    intros _. apply ok_tag0. right. by eexists.
  - unfold enqueue_send, mbind, M_bind, gets in Hr. simpl in Hr. case_decide as Hlen; [|done].
    injection Hr as <- _. destruct Hok; unfold in_flight in *; simpl in *. flight; [|keys].
    intros _. apply ok_tag0. left. lia.
  - unfold enqueue_cancel, modify in Hr. injection Hr as _ <- _. destruct Hok; unfold in_flight in *; simpl in *.
    flight; [|keys]. intros [Hone|[b' ?]]; [lia|done].
  - destruct Hok; unfold in_flight in *; simpl in *. flight. intros [Hone|[? ?]]; [apply ok_tag0; by left|done].
  - destruct Hok; unfold in_flight in *; simpl in *. rewrite Hr in *. simpl in *.
    assert (collecting tk = false) as Hcol.
    { destruct (collecting tk); [|done]. specialize (ok_busy0 (ok_gate0 eq_refl)). lia. }
    flight; [|keys]. intros _. apply ok_tag0. left. lia.
  - destruct Hok; unfold in_flight in *; simpl in *. flight; [|keys].
    intros [Hone|Hc]; [lia|]. apply ok_tag0. by right.
  - destruct Hok; unfold in_flight in *; simpl in *. assert (b_Key b = key) as Hbk by keys.
    destruct (process_work ep b ok_epoch0 Hbk _ _ _ _ Hr) as ((Hb & Hq & Hc & Hk) & Hfs).
    split; unfold in_flight; simpl; rewrite ?Hb, ?Hq, ?Hc, ?Hk; try done; [intros Hbs; destruct (ok_stuck0 Hbs); [by left|done]|keys|by destruct (Hfs ok_key0) as (_ & _ & [? _])|].
    intros wm ->. simpl in *. specialize (ok_busy0 (ok_gate0 eq_refl)). lia.
  - destruct Hok; unfold in_flight in *; simpl in *. flight.
    intros [Hone|Hc]; [lia|]. apply ok_tag0. by right.
  - destruct Hok; unfold in_flight in *; simpl in *. by flight.
  - destruct Hok; split; unfold in_flight in *; simpl in *; done.
  - apply Reset_inv in Hr as [-> ->]. destruct Hok; unfold in_flight in *; simpl in *. flight. by intros [?|[? ?]].
Qed.

(** The first leadership of a fresh process. *)
Definition initial (depth maxDPM epoch : Z) (w : W) : Sys :=
  mkSys (mkSt (NewLoopRunner key depth maxDPM) w) TIdle WIdle false epoch 0 None.

Lemma initial_ok depth maxDPM epoch w : in_int64 epoch -> sys_ok (initial depth maxDPM epoch w).
Proof.
  intros Hep. split; simpl; try done; try lia.
  all: first [destruct (Z.ltb_spec depth 1); lia|unfold in_flight; simpl; lia|by intros [?|[? ?]]].
Qed.

Lemma reachable_ok sp depth maxDPM epoch w c :
  in_int64 epoch -> rtc (step sp) (initial depth maxDPM epoch w) c -> sys_ok c.
Proof.
  intros Hep Hr. assert (sys_ok (initial depth maxDPM epoch w)) as Hok by (by apply initial_ok).
  induction Hr; [done|]. eauto using step_ok.
Qed.

(** C18: single flight.  In every interleaving of the tick goroutine, the emit
    worker, cancellation and re-election: at most one collected batch is
    waiting, queued or being processed; while the tick is between its gate and
    the enqueue there is none, so a window is never collected again before its
    batch is done; the send to the queue never blocks; and the loop is only
    left busy when the worker quit on a lost leadership. *)
Theorem single_flight sp depth maxDPM epoch w c :
  in_int64 epoch -> rtc (step sp) (initial depth maxDPM epoch w) c ->
  in_flight c <= 1 /\
  (collecting (sy_tick c) = true -> in_flight c = 0) /\
  (forall b, sy_tick c = TSending b -> (enqueue_send b (sy_st c)).1.1 = true) /\
  (r_busy (st_r (sy_st c)) = true -> in_flight c = 1 \/ (sy_work c = WStopped /\ sy_cancelled c = true)).
Proof.
  intros Hep [] %reachable_ok; [|done]. split_and!; [done|auto|..].
  - intros b Hb. unfold in_flight in *. rewrite Hb in *. simpl in *.
    unfold enqueue_send, mbind, M_bind, gets. simpl. case_decide as Hlen; [done|]. lia.
  - intros Hbusy. destruct (ok_stuck0 Hbusy); auto.
Qed.

(** What a tick collects from, and for whom.  Whenever the tick is about to
    collect since [wm], [wm] is not ahead of the durable watermark and is the
    saved frontier when there is one; and a batch the worker holds was
    collected in the current leadership, however often leadership was lost and
    regained. *)
Theorem collect_since_saved sp depth maxDPM epoch w c :
  in_int64 epoch -> rtc (step sp) (initial depth maxDPM epoch w) c ->
  (forall wm, sy_tick c = THave wm ->
     wm_le wm (durable (st_w (sy_st c)) key) /\
     (r_hasFront (st_r (sy_st c)) = true -> wm = r_frontier (st_r (sy_st c)))) /\
  (forall b, sy_work c = WTook b -> b_Key b = key /\ sy_tag c = Some (sy_term c)) /\
  front_ok (sy_st c).
Proof.
  intros Hep [] %reachable_ok; [|done]. split_and!; [done| |done].
  intros b Hb. unfold in_flight in *. rewrite Hb in *. simpl in *. split; [by keys|].
  apply ok_tag0. left. lia.
Qed.
End single_flight.
End scheduler.

(** ** A concrete leadership *)

Module Sim.
Import Runner.Sim.
#[global] Instance sched : SchedWorld World := {|
  lp_Collect _ w := (Ok batch, w);
  get_sched_lim _ := NewLimiter Minute;
  put_sched_lim _ w := w
|}.

#[global] Instance sched_laws : SchedLaws (W:=World) key.
Proof.
  split.
  - by intros wm w r w' [= <- <-].
  - done.
  - by intros wm w b w' [= <- <-].
Qed.

Definition spec : LoopSpec := mkSpec Minute Hour Minute 3.
Definition start : Sys := initial key 4 1 7 (mkWorld ∅ [] [] guard0).

(** Gate, since, collect, enqueue, take. *)
Lemma reach_have : exists c, rtc (step spec) start c /\ sy_tick c = THave zeroWm.
Proof.
  eexists. split.
  - eapply rtc_l; [eapply step_gate; reflexivity|]. eapply rtc_l; [eapply step_since; reflexivity|]. apply rtc_refl.
  - reflexivity.
Qed.

Lemma reach_took : exists c, rtc (step spec) start c /\ sy_work c = WTook batch /\ r_busy (st_r (sy_st c)) = true.
Proof.
  eexists. split.
  - eapply rtc_l; [eapply step_gate; reflexivity|]. eapply rtc_l; [eapply step_since; reflexivity|].
    eapply rtc_l; [eapply (step_collect _ _ _ _ _ _ _ _ t0); reflexivity|]. eapply rtc_l; [eapply step_begin; reflexivity|].
    eapply rtc_l; [eapply step_send; reflexivity|]. eapply rtc_l; [eapply step_take; reflexivity|]. apply rtc_refl.
  - split; reflexivity.
Qed.
End Sim.

Lemma epoch7 : in_int64 7.
Proof. split; vm_compute; discriminate. Qed.

Lemma tickPlan_paces_witness :
  (tick_plans [(false, true); (false, true); (false, true); (true, true)] 0 3 Minute).*1 =
    [(catchupInterval, 1%Z); (catchupInterval, 2%Z); (Minute, 0%Z); (DegradedBackoff, 0%Z)] /\
  (Z.of_nat 2 <= 3 - 1)%Z.
Proof.
  split; [vm_compute; reflexivity|].
  refine (proj2 (tickPlan_paces [(false, true); (false, true); (false, true); (true, true)] 3 Minute 0 _) 2 _ _).
  - vm_compute. split; discriminate.
  - simpl. lia.
  - intros [|[|j]] Hj; [eexists; split; reflexivity..|lia].
Defined.

Lemma single_flight_witness :
  exists c, rtc (step Sim.spec) Sim.start c /\ sy_work c = WTook Runner.Sim.batch /\ in_flight c <= 1.
Proof.
  destruct Sim.reach_took as (c & Hr & Hw & _). exists c. split; [exact Hr|]. split; [exact Hw|].
  exact (proj1 (single_flight Runner.Sim.key Sim.spec 4 1 7 _ c epoch7 Hr)).
Defined.

Lemma collect_since_saved_witness :
  exists c, rtc (step Sim.spec) Sim.start c /\ sy_tick c = THave zeroWm /\
    wm_le zeroWm (durable (st_w (sy_st c)) Runner.Sim.key).
Proof.
  destruct Sim.reach_have as (c & Hr & Ht). exists c. split; [exact Hr|]. split; [exact Ht|].
  exact (proj1 (proj1 (collect_since_saved Runner.Sim.key Sim.spec 4 1 7 _ c epoch7 Hr) zeroWm Ht)).
Defined.
