(* ===== verification/Coordinate.v ===== *)
(** * Leadership (internal/coordinate/coordinate.go, lease/lease.go)

    The epoch rides in the leader context; the single-replica coordinator stamps
    one itself, the Kubernetes one reads it from the Lease.  What the stores do
    with it is [Fence]'s subject. *)

From S2P Require Import Prelude Model Checkpoint.

(** ** The leader context *)

(** What the code reads of a [context.Context]: its error and the epoch value. *)
Record Ctx := mkCtx { ctx_cancelled : bool; ctx_value : option Z }.

Definition WithEpoch (c : Ctx) (epoch : Z) : Ctx := mkCtx (ctx_cancelled c) (Some epoch).
Definition EpochFromContext (c : Ctx) : Z := default 0%Z (ctx_value c).

Definition RequireIdentity (coordinator identity : string) : option string :=
  if bool_decide (identity = "") && (bool_decide (coordinator = "lease") || bool_decide (coordinator = "dynamodb"))
  then Some "leader-election identity is empty" else None.

(** [Noop.Run] hands its callback this context. *)
Definition noop_context (epoch : Z) (c : Ctx) : Ctx := WithEpoch c (Z.max 1 epoch).

(** ** The Kubernetes Lease coordinator *)

Inductive LogLevel := LevelDebug | LevelInfo | LevelWarn.

Definition leadershipStoppedEvent (everLed : bool) (ctxErr : bool) : LogLevel * string :=
  if negb everLed then (LevelDebug, "leader-election stopped without ever leading (standby)")
  else if ctxErr then (LevelInfo, "leadership released on shutdown; loops stopped")
  else (LevelWarn, "leadership lost (renewal lapse); loops stopped").

Definition epochReadAttempts : nat := 5.
Definition epochReadBackoff : Duration := (200 * Millisecond)%Z.

Class LeaseWorld (W : Type) := {
  lease_Get : W -> result string (option Z) * W;    (* Spec.LeaseTransitions *)
  lease_wait : Duration -> W -> bool * W            (* false: the context ended first *)
}.

Section lease.
Context {W : Type} `{LeaseWorld W}.

(** The attempts left; the last one does not wait. *)
Fixpoint epoch_loop (attempts : nat) (w : W) : Z * W :=
  match attempts with
  | 0 => (0%Z, w)
  | S attempts =>
      match lease_Get w with
      | (Ok None, w) => (0%Z, w)
      | (Ok (Some n), w) => (n, w)
      | (Err _, w) =>
          match attempts with
          | 0 => (0%Z, w)
          | _ => match lease_wait epochReadBackoff w with
                 | (false, w) => (0%Z, w)
                 | (true, w) => epoch_loop attempts w
                 end
          end
      end
  end.

Definition epoch (w : W) : Z * W := epoch_loop epochReadAttempts w.

Lemma epoch_loop_read n w e w' :
  epoch_loop n w = (e, w') -> e <> 0%Z -> exists w1, fst (lease_Get w1) = Ok (Some e).
Proof.
  revert w. induction n as [|n IH]; intros w; simpl; [by intros [= <- _]|].
  destruct (lease_Get w) as [[[m|]|] w1] eqn:Hg.
  - intros [= -> _] _. exists w. by rewrite Hg.
  - by intros [= <- _].
  - destruct n; [by intros [= <- _]|]. destruct (lease_wait _ w1) as [[] w2]; [apply IH|by intros [= <- _]].
Qed.

(** The epoch of a leadership is never made up: it is a transition count
    the API server returned, or 0 (the value every fence refuses to let past a
    non-zero epoch). *)
Theorem lease_epoch_read w e w' :
  epoch w = (e, w') -> e = 0%Z \/ exists w1, fst (lease_Get w1) = Ok (Some e).
Proof. intros He. destruct (decide (e = 0%Z)) as [->|Hne]; [by left|right]. by eapply epoch_loop_read. Qed.
End lease.

(** Switching to a single replica over a store that an earlier HA
    deployment advanced: the coordinator constructed with that deployment's
    epoch is never fenced, and never stamps an epoch below 1. *)
Theorem noop_not_fenced stored epoch c t :
  (wm_Epoch stored <= epoch)%Z -> (wm_Time stored < t)%Z ->
  let e := EpochFromContext (noop_context epoch c) in
  (1 <= e)%Z /\ CheckMonotonic stored (mkWm t "" e) = None.
Proof.
  intros He Ht. unfold noop_context, WithEpoch, EpochFromContext. simpl. split; [lia|].
  apply CheckMonotonic_None. unfold wm_le, wm_progress. simpl. lia.
Qed.

(** ** Concrete runs *)

Module Sim.
(** A Lease whose reads follow a script. *)
#[global] Instance lease : LeaseWorld (list (result string (option Z))) := {|
  lease_Get w := match w with [] => (Err "gone", []) | r :: w => (r, w) end;
  lease_wait _ w := (true, w)
|}.

(** A store of one watermark per key. *)
#[global] Instance store : Checkpointer (gmap CheckpointKey Watermark) := {|
  cp_Load k w := (Ok (default zeroWm (w !! k)), w);
  cp_Save k wm w := match CheckMonotonic (default zeroWm (w !! k)) wm with
                    | Some e => (Some e, w)
                    | None => (None, <[k := wm]> w)
                    end
|}.

#[global] Instance store_spec : CheckpointerSpec (gmap CheckpointKey Watermark).
Proof.
  refine {| durable w k := default zeroWm (w !! k) |}.
  - by intros k w r w' [= <- <-].
  - by intros k w wm w' [= <- <-].
  - intros k wm w r w' _. simpl. destruct (CheckMonotonic _ wm) eqn:Hc; intros [= <- <-] k'; [done|].
    destruct (decide (k = k')) as [<-|]; [rewrite lookup_insert_eq; by apply CheckMonotonic_le|by rewrite lookup_insert_ne].
  - intros k wm w w' _. simpl. destruct (CheckMonotonic _ wm) eqn:Hc; [done|]. intros [= <-].
    rewrite lookup_insert_eq. split; [by apply CheckMonotonic_le|done].
Defined.
End Sim.

Lemma lease_epoch_read_witness :
  fst (epoch [Err "blip"; Ok (Some 4%Z)]) = 4%Z /\
  (4%Z = 0%Z \/ exists w1 : list (result string (option Z)), fst (lease_Get w1) = Ok (Some 4%Z)).
Proof.
  split; [reflexivity|].
  assert (epoch [Err "blip"; Ok (Some 4%Z)] = (4%Z, [])) as Hrun by reflexivity.
  exact (lease_epoch_read _ _ _ Hrun).
Defined.

Lemma noop_not_fenced_witness :
  CheckMonotonic (mkWm 5 "c" 7) (mkWm 6 "" (EpochFromContext (noop_context 7 (mkCtx false None)))) = None.
Proof. apply (noop_not_fenced (mkWm 5 "c" 7) 7 (mkCtx false None) 6); [vm_compute; discriminate|reflexivity]. Defined.
