(* ===== verification/Fence.v ===== *)
(** * The epoch fence, end to end (internal/schedule/runner.go over
      internal/checkpoint/, with internal/coordinate/ for the epoch)

    A leader's epoch rides in its context, [LoopRunner] stamps it on every
    watermark it commits, and the shared store refuses a smaller one.  Here the
    three meet: two replicas run the loop runner of the program over one
    ConfigMap or one DynamoDB table. *)

From S2P Require Import Prelude Model Checkpoint Emit Guard Limiter Source Runner RunnerBatch Coordinate.
From S2P Require ConfigMapStore DynamoStore.

(** ** One replica's calls *)

(** The calls made in one term of leadership: a batch is processed under the
    epoch of the leader context. *)
Definition in_term (c : Ctx) (o : RunnerOp) : Prop :=
  match o with OpDequeue epoch => epoch = EpochFromContext c | _ => True end.

Section fence.
Context {W : Type} `{RunnerWorld W} `{Checkpointer W} `{Spec : !CheckpointerSpec W} `{Laws : !RunnerLaws}.
#[local] Abbreviation St := (@St W).

(** Every save is stamped with [e]; an accepted one found no later epoch, and
    what it saved is in the store. *)
Definition fence_step (e : Z) (s : St) (t : list Ev) (s' : St) : Prop :=
  world_le (st_w s) (st_w s') /\
  forall k wm r, EvSave k wm r ∈ t -> wm_Epoch wm = e /\
    (r = None -> (wm_Epoch (durable (st_w s) k) <= e)%Z /\ wm_le wm (durable (st_w s') k)).

#[local] Existing Instance world_le_preorder.
#[local] Existing Instance quiet_rel.

#[local] Instance fence_step_rel e : TraceRel (fence_step e).
Proof.
  split; [intros s; split; [done|]; intros k wm r Hin; by apply elem_of_nil in Hin|].
  intros s1 t1 s2 t2 s3 [D1 H1] [D2 H2]. split; [by etrans|]. intros k wm r [Hin|Hin]%elem_of_app.
  - destruct (H1 k wm r Hin) as [He Hr]. split; [done|]. intros Hn. destruct (Hr Hn) as [Hlo Hhi].
    split; [done|]. etrans; [exact Hhi|apply D2].
  - destruct (H2 k wm r Hin) as [He Hr]. split; [done|]. intros Hn. destruct (Hr Hn) as [Hlo Hhi].
    split; [|done]. destruct (D1 k). lia.
Qed.

(** A step without a save. *)
Lemma fence_quiet e s t s' : Forall nosave t -> world_le (st_w s) (st_w s') -> fence_step e s t s'.
Proof. intros Ht D. split; [done|]. intros k wm r Hin. by rewrite Forall_forall in Ht; apply Ht in Hin. Qed.

Lemma quiet_fence e s t s' : quiet s t s' -> fence_step e s t s'.
Proof. intros (_ & Hq & D). apply fence_quiet; [|done]. eapply Forall_impl; [exact Hq|]. by intros []. Qed.

Lemma plain_nosave t : Forall plain_ev t -> Forall nosave t.
Proof. intros Hp. eapply Forall_impl; [exact Hp|]. by intros []. Qed.

Lemma modify_fence e f : obeys (fence_step e) (modify f).
Proof. intros s a s' t [= <- <- <-]. by apply fence_quiet. Qed.

Lemma enterDegraded_fence e reason : obeys (fence_step e) (enterDegraded reason).
Proof.
  intros s a s' t [(_ & -> & ->)|(_ & -> & ->)]%enterDegraded_inv; [apply tr_refl|].
  apply fence_quiet; [by repeat constructor|done].
Qed.

(** The one save of a commit, and what surrounds it. *)
Lemma save_fence e key wm w w1 w2 w3 r0 r1 er rest :
  wm_Epoch wm = e -> in_int64 e -> world_le w w1 -> cp_Save key wm w1 = (er, w2) -> world_le w2 w3 ->
  Forall nosave rest -> fence_step e (mkSt r0 w) (EvCtx false :: EvSave key wm er :: rest) (mkSt r1 w3).
Proof.
  intros He Hep D1 Es D2 Hp. assert (world_le w1 w2) as D by (intros k0; eapply cp_Save_mono; [by rewrite He|exact Es]).
  split; [simpl; etrans; [done|by etrans]|]. intros k wm' r Hin.
  assert (EvSave k wm' r = EvSave key wm er) as [= -> -> ->].
  { rewrite !elem_of_cons in Hin. destruct Hin as [|[|Hin]]; [done|done|]. by rewrite Forall_forall in Hp; apply Hp in Hin. }
  split; [done|]. intros ->. apply cp_Save_ok in Es as [Hlo Hhi]; [|by rewrite He].
  simpl. destruct (D1 key), Hlo. split; [lia|]. etrans; [exact Hhi|apply D2].
Qed.

Lemma commit_fence key tm cursor e : in_int64 e -> obeys (fence_step e) (commit key tm cursor e).
Proof.
  intros Hep s a s' t Hrun. apply commit_inv in Hrun. destruct s as [r w].
  destruct Hrun as [w1 Ec|w1 w2 rest Ec Es Hp r0 r1 ahead|w1 w2 w3 stored rest Ec Es El Hp
    |w1 w2 er Ec Es _ _ _ name|w1 w2 w3 er l rest Ec Es _ _ D3 Hp]; simpl in *;
    pose proof (ctx_durable _ _ _ Ec : world_le w w1) as D1.
  - apply fence_quiet; [by repeat constructor|done].
  - eapply save_fence; [done|done|exact D1|exact Es|done|].
    apply Forall_app. split; [by destruct (r_degraded r0); repeat constructor|by apply plain_nosave].
  - eapply (save_fence e _ _ _ _ _ w3); [done|done|exact D1|exact Es| |by apply plain_nosave]. intros k. by eapply cp_Load_mono.
  - eapply save_fence; [done|done|exact D1|exact Es|done|]. by repeat constructor.
  - eapply (save_fence e _ _ _ _ _ w3); [done|done|exact D1|exact Es|done|by apply plain_nosave].
Qed.

Lemma Reset_fence e : obeys (fence_step e) Reset.
Proof. intros s a s' t [-> ->]%Reset_inv. apply fence_quiet; [|done]. destruct (r_degraded _); by repeat constructor. Qed.

Lemma ProcessBatch_fence e b : in_int64 e -> obeys (fence_step e) (ProcessBatch e b).
Proof.
  intros Hep. apply obeys_bind; [apply _|apply process_obeys; [apply _|apply quiet_fence|..]|].
  - intros. by apply commit_fence.
  - apply enterDegraded_fence.
  - intros _. apply modify_fence.
Qed.

Lemma run_op_fence c o : in_int64 (EpochFromContext c) -> in_term c o -> obeys (fence_step (EpochFromContext c)) (run_op o).
Proof.
  intros Hep Ho. pose proof (Reset_fence (EpochFromContext c)). pose proof (enterDegraded_fence (EpochFromContext c)).
  pose proof (ProcessBatch_fence (EpochFromContext c)). pose proof (modify_fence (EpochFromContext c)).
  assert (forall {A} (m : M A), obeys quiet m -> obeys (fence_step (EpochFromContext c)) m) by
    (intros ? ?; apply obeys_weaken, quiet_fence).
  assert (obeys quiet Since) by apply Since_quiet.
  assert (forall n, obeys (fence_step (EpochFromContext c)) (metric (QueueDepth n))) by (intros; auto using quiet_metric).
  assert (obeys (fence_step (EpochFromContext c)) CtxErr) by auto using quiet_ctx.
  destruct o as [| | | | | | |ep]; cbn [run_op in_term] in *; subst; unfold BackfillUnstorableMinutes, Degrade, enqueue_begin,
    enqueue_send, enqueue_cancel, run_dequeue; obey; auto.
Qed.

Lemma run_ops_fence c ops :
  in_int64 (EpochFromContext c) -> Forall (in_term c) ops -> obeys (fence_step (EpochFromContext c)) (run_ops ops).
Proof.
  intros Hep. induction 1 as [|o ops Ho _ IH]; cbn [run_ops]; [apply obeys_ret, _|].
  apply obeys_bind; [apply _|by apply run_op_fence|by intros].
Qed.

(** A newer leader's accepted save shuts every older leader's loop out. *)
Lemma older_leader_fenced new old ops1 ops2 s1 s1' t1 s2 s2' t2 a1 a2 k wm :
  in_int64 (EpochFromContext new) -> in_int64 (EpochFromContext old) -> (EpochFromContext old < EpochFromContext new)%Z ->
  Forall (in_term new) ops1 -> Forall (in_term old) ops2 ->
  run_ops ops1 s1 = (a1, s1', t1) -> EvSave k wm None ∈ t1 ->
  world_le (st_w s1') (st_w s2) -> run_ops ops2 s2 = (a2, s2', t2) ->
  (forall wm', EvSave k wm' None ∉ t2) /\ wm_le wm (durable (st_w s2') k) /\ world_le (st_w s2) (st_w s2').
Proof.
  intros Hn Ho Hlt Ht1 Ht2 Hr1 Hin D Hr2.
  destruct (run_ops_fence new ops1 Hn Ht1 _ _ _ _ Hr1) as [_ H1]. destruct (H1 _ _ _ Hin) as [He Hok].
  destruct (Hok eq_refl) as [_ Hhi]. destruct (run_ops_fence old ops2 Ho Ht2 _ _ _ _ Hr2) as [D2 H2].
  assert (wm_le wm (durable (st_w s2) k)) as Hle by (etrans; [exact Hhi|apply D]).
  split_and!; [|etrans; [exact Hle|apply D2]|done].
  intros wm' Hin'. destruct (H2 _ _ _ Hin') as [He' Hok']. destruct (Hok' eq_refl) as [Hlo _]. destruct Hle. lia.
Qed.
End fence.

(** ** The program's shared stores *)

(** A replica's loop runs any calls of its term, and the store accepts a commit
    of [wm]; any time later, whatever the replicas wrote since, another replica
    whose leader context carries a smaller epoch runs any calls of its own term
    on the store ([held] is what the store holds). *)
Definition shuts_out {W} `{RunnerWorld W} `{Checkpointer W} (held : W -> CheckpointKey -> Watermark) : Prop :=
  forall new old ops1 ops2 s1 s1' t1 s2 s2' t2 k wm,
    in_int64 (EpochFromContext new) -> in_int64 (EpochFromContext old) -> (EpochFromContext old < EpochFromContext new)%Z ->
    Forall (in_term new) ops1 -> run_ops ops1 s1 = (tt, s1', t1) -> EvSave k wm None ∈ t1 ->
    (forall k', wm_le (held (st_w s1') k') (held (st_w s2) k')) ->
    Forall (in_term old) ops2 -> run_ops ops2 s2 = (tt, s2', t2) ->
    (forall wm', EvSave k wm' None ∉ t2) /\ wm_le wm (held (st_w s2') k).

Section stores.
(** The ConfigMap, its codec and its API server. *)
Context (sha256_hex : string -> string) (json_Marshal : ConfigMapStore.record -> option string)
  (json_Unmarshal : string -> option ConfigMapStore.record) (json_ok : ConfigMapStore.json_roundtrip json_Marshal json_Unmarshal).
Context {W1 : Type} {RW1 : RunnerWorld W1} {API1 : ConfigMapStore.ConfigMapAPI W1}
  {Srv1 : ConfigMapStore.ConfigMapServer sha256_hex json_Unmarshal (W:=W1)}.
#[local] Abbreviation CP1 := (ConfigMapStore.ConfigMapCheckpointer sha256_hex json_Marshal json_Unmarshal (W:=W1)).
Context {Laws1 : @RunnerLaws W1 RW1 CP1 (ConfigMapStore.ConfigMapCheckpointerSpec sha256_hex json_Marshal json_Unmarshal json_ok (W:=W1))}.

(** The DynamoDB table. *)
Context (prefix : string) (rfc3339_Format : Time -> string) (rfc3339_Parse : string -> option Time)
  (time_ok : DynamoStore.time_roundtrip rfc3339_Format rfc3339_Parse).
Context {W2 : Type} {RW2 : RunnerWorld W2} {API2 : DynamoStore.DynamoAPI W2}
  {Tab2 : DynamoStore.DynamoTable prefix rfc3339_Parse (W:=W2)}.
#[local] Abbreviation CP2 := (DynamoStore.DynamoCheckpointer prefix rfc3339_Format rfc3339_Parse (W:=W2)).
Context {Laws2 : @RunnerLaws W2 RW2 CP2 (DynamoStore.DynamoCheckpointerSpec prefix rfc3339_Format rfc3339_Parse time_ok (W:=W2))}.

(** C2: a leader that was replaced never writes a watermark again.  Once a
    replica's commit was accepted, no commit for that key by a replica whose
    leader context carries a smaller epoch is accepted, whatever calls the two
    make in their terms, in whatever state the older one's loop is and whatever
    other replicas wrote in between; and the store never falls behind the newer
    leader's watermark.  It holds of the loop runner over both shared stores,
    the ConfigMap and the DynamoDB table. *)
Theorem replaced_leader_fenced :
  @shuts_out W1 RW1 CP1 (fun w => ConfigMapStore.view sha256_hex json_Unmarshal (ConfigMapStore.srv sha256_hex json_Unmarshal w)) /\
  @shuts_out W2 RW2 CP2 (fun w => DynamoStore.view prefix rfc3339_Parse (DynamoStore.tbl prefix rfc3339_Parse w)).
Proof.
  split; intros new old ops1 ops2 s1 s1' t1 s2 s2' t2 k wm Hn Ho Hlt Ht1 Hr1 Hin D Ht2 Hr2.
  - destruct (older_leader_fenced (Laws:=Laws1) new old ops1 ops2 s1 s1' t1 s2 s2' t2 tt tt k wm) as (H1 & H2 & _); done.
  - destruct (older_leader_fenced (Laws:=Laws2) new old ops1 ops2 s1 s1' t1 s2 s2' t2 tt tt k wm) as (H1 & H2 & _); done.
Qed.
End stores.

(** ** A run *)

Module Sim.
(** The replica of an emitter that accepts everything, on the API server and on
    the table of the stores' own examples. *)
Definition calm {W} : RunnerWorld W := {|
  em_Emit _ w := (None, w);
  ctx_Err w := (false, w);
  time_Now w := (Runner.Sim.t0, w);
  get_guard _ := Runner.Sim.guard0;
  put_guard _ w := w
|}.

Lemma calm_laws {W} `{Checkpointer W} `{Spec : !CheckpointerSpec W} : @RunnerLaws W calm _ Spec.
Proof. split; [by intros b w e w' [= <- <-]|by intros w e w' [= <- <-]|by intros w e w' [= <- <-]|done]. Qed.

Definition ctx (epoch : Z) : Ctx := WithEpoch (mkCtx false None) epoch.
Definition later : Batch :=
  mkBatch Runner.Sim.key [Runner.Sim.sample "tokens" 9] [] (mkWm (Runner.Sim.t0 + 10 * Minute) "" 0).
(** One batch is queued and processed. *)
Definition ops (b : Batch) (epoch : Z) : list RunnerOp :=
  [OpEnqueueBegin; OpEnqueueSend b; OpDequeue (EpochFromContext (ctx epoch))].

Lemma ops_in_term b epoch : Forall (in_term (ctx epoch)) (ops b epoch).
Proof. by repeat constructor. Qed.

Section run.
Context {W} (CP : Checkpointer W) (w0 : W).
(** The newer leader's run from [w0], and the older one's after it. *)
Definition newer := @run_ops W calm CP (ops Runner.Sim.batch 7) (mkSt (NewLoopRunner Runner.Sim.key 4 1) w0).
Definition older := @run_ops W calm CP (ops later 6) (mkSt (NewLoopRunner Runner.Sim.key 4 1) (st_w newer.1.2)).
Lemma newer_eq : @run_ops W calm CP (ops Runner.Sim.batch 7) (mkSt (NewLoopRunner Runner.Sim.key 4 1) w0) = (tt, newer.1.2, newer.2).
Proof. unfold newer. by destruct (run_ops _ _) as [[[] s] t]. Qed.
Lemma older_eq :
  @run_ops W calm CP (ops later 6) (mkSt (NewLoopRunner Runner.Sim.key 4 1) (st_w newer.1.2)) = (tt, older.1.2, older.2).
Proof. unfold older. by destruct (run_ops _ _) as [[[] s] t]. Qed.
End run.

Definition CM := ConfigMapStore.ConfigMapCheckpointer ConfigMapStore.Sim.hex ConfigMapStore.Sim.marshal ConfigMapStore.Sim.unmarshal
  (W:=ConfigMapStore.Sim.W).
Definition DB := DynamoStore.DynamoCheckpointer "ckpt#" DynamoStore.Sim.fmt DynamoStore.Sim.prs (W:=gmap string DynamoStore.Item).
Definition saves_of (t : list Ev) : list (string * option CpErr) :=
  omap (fun e => match e with EvSave k _ r => Some (key_String k, r) | _ => None end) t.
End Sim.

Lemma replaced_leader_fenced_witness :
  Sim.saves_of (Sim.newer Sim.CM None).2 = [("inst/analytics/fp", None)] /\
  Sim.saves_of (Sim.older Sim.CM None).2 = [("inst/analytics/fp", Some ErrStaleWrite)] /\
  (forall wm, EvSave Runner.Sim.key wm None ∉ (Sim.older Sim.CM None).2) /\
  (forall wm, EvSave Runner.Sim.key wm None ∉ (Sim.older Sim.DB ∅).2).
Proof.
  split_and!; [vm_compute; reflexivity|vm_compute; reflexivity|..];
    destruct (@replaced_leader_fenced ConfigMapStore.Sim.hex ConfigMapStore.Sim.marshal ConfigMapStore.Sim.unmarshal
      ConfigMapStore.Sim.record_roundtrip _ Sim.calm _ _ (Sim.calm_laws (H:=Sim.CM)) "ckpt#" DynamoStore.Sim.fmt DynamoStore.Sim.prs
      DynamoStore.Sim.times _ Sim.calm _ _ (Sim.calm_laws (H:=Sim.DB))) as [HCM HDB].
  - refine (proj1 (HCM (Sim.ctx 7) (Sim.ctx 6) _ _ _ _ _ _ _ _ Runner.Sim.key (mkWm (Runner.Sim.t0 + 4 * Minute) "" 7)
      _ _ _ (Sim.ops_in_term _ _) (Sim.newer_eq Sim.CM None) _ _ (Sim.ops_in_term _ _) (Sim.older_eq Sim.CM None)));
      [split; vm_compute; discriminate|split; vm_compute; discriminate|reflexivity| |done].
    apply (list_elem_of_lookup_2 _ 17). vm_compute. reflexivity.
  - refine (proj1 (HDB (Sim.ctx 7) (Sim.ctx 6) _ _ _ _ _ _ _ _ Runner.Sim.key (mkWm (Runner.Sim.t0 + 4 * Minute) "" 7)
      _ _ _ (Sim.ops_in_term _ _) (Sim.newer_eq Sim.DB ∅) _ _ (Sim.ops_in_term _ _) (Sim.older_eq Sim.DB ∅)));
      [split; vm_compute; discriminate|split; vm_compute; discriminate|reflexivity| |done].
    apply (list_elem_of_lookup_2 _ 17). vm_compute. reflexivity.
Defined.
