(* ===== verification/Lease.v ===== *)
(** * The Lease coordinator's terms (internal/coordinate/lease/lease.go)

    [Run] and [campaign] as a step relation: the campaign loop, the elector it
    builds, and the goroutine the elector starts for the elected callback and
    does not join.  The elector is client-go's; what the code relies on is that
    [Run] acquires, starts the goroutine, renews until the lease lapses or the
    context ends, and then cancels the leader context and returns. *)

From S2P Require Import Prelude Model Coordinate.

(** The goroutine of [OnStartedLeading]: launched, past its first statement
    (the flag is up and the epoch is being read), inside the callback, and
    after [leadDone] was closed. *)
Inductive Callback := CbNone | CbLaunched | CbElected | CbRunning (epoch : Z) | CbDone.

#[global] Instance Callback_eq_dec : EqDecision Callback.
Proof. solve_decision. Defined.

Inductive LeaseErr := CtxCancelled | ElectorFailed.

Inductive RunPC :=
| RTop                         (* the top of the loop *)
| RAcquiring                   (* in [le.Run], not leader yet *)
| RRenewing                    (* in [le.Run], renewing *)
| RStopped                     (* [le.Run] returned *)
| RBarrier                     (* waiting for [leadDone] *)
| RReturned (err : LeaseErr).

Record Replica := mkReplica {
  r_cancelled : bool;                      (* the root context *)
  r_pc : RunPC;
  r_elected : bool;                        (* the term's [elected] flag *)
  r_isLeader : bool;                       (* [le.IsLeader()] *)
  r_leaderCtx : bool;                      (* the leader context is cancelled *)
  r_cb : Callback;
  r_left : list Callback;                  (* goroutines of earlier terms that were not joined *)
  r_log : list (LogLevel * string)
}.

Definition lease_start : Replica := mkReplica false RTop false false false CbNone [] [].

(** What the next term leaves behind. *)
Definition unjoined (cb : Callback) : list Callback := match cb with CbNone | CbDone => [] | _ => [cb] end.

Section steps.
Context {W : Type} `{LeaseWorld W}.
(** Whether the scheduler runs the new goroutine's first statement before the
    lease can lapse to another replica. *)
Context (prompt : bool).

(** A goroutine moves on its own. *)
Inductive cb_step : Callback -> Callback -> Prop :=
| cb_starts : cb_step CbLaunched CbElected
| cb_runs w n w' : epoch w = (n, w') -> cb_step CbElected (CbRunning n)
| cb_done n : cb_step (CbRunning n) CbDone.

(** The flag the goroutine's first statement raises. *)
Definition raised (cb : Callback) (elected : bool) : bool := match cb with CbLaunched => true | _ => elected end.

Inductive lease_step : Replica -> Replica -> Prop :=
| lease_cancel c pc e i x cb l g :
    lease_step (mkReplica c pc e i x cb l g) (mkReplica true pc e i true cb l g)
| lease_ctx_err e i x cb l g :
    lease_step (mkReplica true RTop e i x cb l g) (mkReplica true (RReturned CtxCancelled) e i x cb l g)
| lease_no_elector e i x cb l g :
    lease_step (mkReplica false RTop e i x cb l g) (mkReplica false (RReturned ElectorFailed) false false false CbNone (unjoined cb ++ l) g)
| lease_campaign e i x cb l g :
    lease_step (mkReplica false RTop e i x cb l g) (mkReplica false RAcquiring false false false CbNone (unjoined cb ++ l) g)
| lease_acquired c e i x cb l g :
    lease_step (mkReplica c RAcquiring e i x cb l g) (mkReplica c RRenewing e true x CbLaunched l g)
| lease_not_acquired e i x cb l g :
    lease_step (mkReplica true RAcquiring e i x cb l g) (mkReplica true RStopped e i x cb l (g ++ [leadershipStoppedEvent e true]))
| lease_taken c e i x cb l g :
    (prompt = true -> cb <> CbLaunched) ->
    lease_step (mkReplica c RRenewing e i x cb l g) (mkReplica c RRenewing e false x cb l g)
| lease_lapsed c e i x cb l g :
    lease_step (mkReplica c RRenewing e i x cb l g) (mkReplica c RStopped e i true cb l (g ++ [leadershipStoppedEvent e c]))
| lease_join c e i x cb l g :
    e || i = true -> lease_step (mkReplica c RStopped e i x cb l g) (mkReplica c RBarrier e i x cb l g)
| lease_no_join c e i x cb l g :
    e || i = false -> lease_step (mkReplica c RStopped e i x cb l g) (mkReplica c RTop e i x cb l g)
| lease_joined c e i x l g :
    lease_step (mkReplica c RBarrier e i x CbDone l g) (mkReplica c RTop e i x CbDone l g)
| lease_callback c pc e i x cb cb' l g :
    cb_step cb cb' -> lease_step (mkReplica c pc e i x cb l g) (mkReplica c pc (raised cb e) i x cb' l g)
| lease_left_steps c pc e i x cb l1 b b' l2 g :
    cb_step b b' -> lease_step (mkReplica c pc e i x cb (l1 ++ b :: l2) g) (mkReplica c pc e i x cb (l1 ++ b' :: l2) g).
End steps.

(** ** The drain barrier *)

(** Where the callback of the term can be at each point of the loop. *)
Definition joined (pc : RunPC) (elected isLeader : bool) (cb : Callback) : Prop :=
  match pc with
  | RTop | RReturned _ => cb = CbNone \/ cb = CbDone
  | RAcquiring => cb = CbNone /\ elected = false
  | RRenewing => cb <> CbNone /\ (cb = CbLaunched -> isLeader = true) /\ (cb = CbLaunched \/ elected = true)
  | RStopped => (cb = CbNone \/ elected || isLeader = true) /\ (cb = CbNone -> elected || isLeader = false)
  | RBarrier => cb <> CbNone
  end.

(** What holds at every point of a run whose goroutines start promptly. *)
Record lease_ok (r : Replica) : Prop := {
  lok_joined : joined (r_pc r) (r_elected r) (r_isLeader r) (r_cb r);
  lok_left : r_left r = [];
  lok_acquiring : r_pc r = RAcquiring -> r_isLeader r = false;
  lok_returned : r_pc r = RReturned CtxCancelled -> r_cancelled r = true
}.

Section drain.
Context {W : Type} `{LeaseWorld W}.

Lemma lease_step_ok r r' : lease_ok r -> lease_step true r r' -> lease_ok r'.
Proof.
  intros [Hj Hl Ha Hr] Hs. destruct Hs as [| | | | | | | | | | |? pc ? ? ? ? ? ? ? Hcb|]; cbn in *; split; cbn; try done; try tauto.
  - subst l. by destruct Hj as [->| ->].
  - subst l. by destruct Hj as [->| ->].
  - by split_and!; auto.
  - destruct Hj as [-> ->]. rewrite (Ha eq_refl). split; [by left|done].
  - destruct Hj as (Hn & Hlead & He). split; [right; destruct He as [->| ->]; [by rewrite Hlead, orb_true_r|done]|done].
  - destruct Hj as [_ Hj]. intros ->. by rewrite Hj in *.
  - destruct Hj as [[->|Hj] _]; [by left|congruence].
  - destruct Hcb; destruct pc; cbn [joined raised] in *; naive_solver.
  - by destruct l1.
Qed.

Lemma lease_start_ok : lease_ok lease_start.
Proof. split; cbn; auto; done. Qed.

(** *** A cancelled coordinator can always finish *)

Lemma callback_finishes (w : W) p c pc e i x cb l g :
  cb <> CbNone -> exists e', rtc (lease_step p) (mkReplica c pc e i x cb l g) (mkReplica c pc e' i x CbDone l g).
Proof.
  intros Hn. destruct (epoch w) as [n w'] eqn:He.
  assert (forall e n, rtc (lease_step p) (mkReplica c pc e i x (CbRunning n) l g) (mkReplica c pc e i x CbDone l g)) as H3
    by (intros e0 m; eapply rtc_once, lease_callback, cb_done).
  assert (forall e, rtc (lease_step p) (mkReplica c pc e i x CbElected l g) (mkReplica c pc e i x CbDone l g)) as H2
    by (intros e0; eapply rtc_l; [eapply lease_callback, cb_runs, He|apply H3]).
  destruct cb; [done| | | |]; [exists true; eapply rtc_l; [eapply lease_callback, cb_starts|apply H2]|eauto..].
  exists e. apply rtc_refl.
Qed.

Definition returned (r : Replica) : Prop := exists err, r_pc r = RReturned err.
Definition can_return (p : bool) (r : Replica) : Prop := exists r', rtc (lease_step p) r r' /\ returned r'.

Lemma can_return_later p r r' : rtc (lease_step p) r r' -> can_return p r' -> can_return p r.
Proof. intros Hr (r2 & Hr2 & Hret). exists r2. split; [by etrans|done]. Qed.

Lemma top_returns p e i x cb l g : can_return p (mkReplica true RTop e i x cb l g).
Proof. eexists. split; [eapply rtc_once, lease_ctx_err|by eexists]. Qed.

Lemma stopped_returns (w : W) p e i x cb l g :
  (cb = CbNone -> e || i = false) -> can_return p (mkReplica true RStopped e i x cb l g).
Proof.
  intros Hcb. destruct (decide (cb = CbNone)) as [->|Hn].
  { eapply can_return_later; [eapply rtc_once, lease_no_join; auto|apply top_returns]. }
  destruct (callback_finishes w p true RStopped e i x cb l g Hn) as [e' Hf]. eapply can_return_later; [exact Hf|].
  destruct (e' || i) eqn:Hj.
  - eapply can_return_later; [eapply rtc_l; [by apply lease_join|eapply rtc_once, lease_joined]|apply top_returns].
  - eapply can_return_later; [eapply rtc_once; by apply lease_no_join|apply top_returns].
Qed.

Lemma cancelled_returns (w : W) p r : lease_ok r -> r_cancelled r = true -> can_return p r.
Proof.
  destruct r as [c pc e i x cb l g]. intros [Hj _ Ha _] Hc. cbn in *. subst c. destruct pc as [| | | | |err].
  - apply top_returns.
  - destruct Hj as [-> ->]. eapply can_return_later; [eapply rtc_once, lease_not_acquired|]. apply stopped_returns; [done|]. intros _. by apply Ha.
  - eapply can_return_later; [eapply rtc_once, lease_lapsed|]. apply stopped_returns; [done|]. by destruct Hj.
  - apply stopped_returns; [done|]. by destruct Hj as [_ Hj].
  - destruct (callback_finishes w p true RBarrier e i x cb l g Hj) as [e' Hf].
    eapply can_return_later; [exact Hf|]. eapply can_return_later; [eapply rtc_once, lease_joined|apply top_returns].
  - eexists. split; [apply rtc_refl|by exists err].
Qed.

(** C25: the Lease coordinator's terms never overlap.  In every schedule in
    which a started goroutine gets to its first statement before the lease can
    lapse to another replica, a new campaign starts, and [Run] returns, only
    when the elected callback of the term before has returned (the drain
    barrier); so at most one callback is ever alive.  [Run] returns a
    cancellation only when the root context is cancelled, never because a lease
    lapsed, and once it is cancelled [Run] can always finish. *)
Theorem lease_terms_disjoint r :
  rtc (lease_step true) lease_start r ->
  r_left r = [] /\
  (r_pc r = RTop \/ r_pc r = RAcquiring \/ returned r -> r_cb r = CbNone \/ r_cb r = CbDone) /\
  (r_pc r = RReturned CtxCancelled -> r_cancelled r = true) /\
  (W -> r_cancelled r = true -> can_return true r).
Proof.
  intros Hr. assert (lease_ok r) as Hok.
  { generalize lease_start_ok. induction Hr; [done|eauto using lease_step_ok]. }
  pose proof Hok as [Hj Hl Ha Hret]. split_and!; [done| |done|by intros; apply cancelled_returns].
  intros [Hpc|[Hpc|[err Hpc]]]; rewrite Hpc in Hj; cbn in Hj; tauto.
Qed.
End drain.

(** ** Concrete schedules *)

Module LeaseDemo.
(** The API server never answers an epoch read: the callback gets epoch 0. *)
Definition quiet : list (result string (option Z)) := [].
Lemma quiet_epoch : epoch quiet = (0%Z, []).
Proof. reflexivity. Qed.
Lemma callback (p : bool) (c : bool) (pc : RunPC) (i x : bool) (l : list Callback) (g : list (LogLevel * string)) :
  rtc (lease_step p) (mkReplica c pc false i x CbLaunched l g) (mkReplica c pc true i x (CbRunning 0) l g).
Proof. eapply rtc_l; [eapply lease_callback, cb_starts|]. eapply rtc_once, lease_callback, cb_runs, quiet_epoch. Qed.

(** One term lapses, is joined, and the next campaign begins. *)
Definition second : Replica := mkReplica false RAcquiring false false false CbNone [] [leadershipStoppedEvent true false].
Lemma second_reached : rtc (lease_step true) lease_start second.
Proof.
  eapply rtc_l; [apply lease_campaign|]. eapply rtc_l; [apply lease_acquired|]. etrans; [apply callback|].
  eapply rtc_l; [apply lease_lapsed|]. eapply rtc_l; [by apply lease_join|].
  eapply rtc_l; [eapply lease_callback, cb_done|]. eapply rtc_l; [apply lease_joined|]. eapply rtc_once, lease_campaign.
Qed.
End LeaseDemo.

Lemma lease_terms_disjoint_witness : r_left LeaseDemo.second = [] /\ (r_cb LeaseDemo.second = CbNone \/ r_cb LeaseDemo.second = CbDone).
Proof.
  destruct (lease_terms_disjoint LeaseDemo.second LeaseDemo.second_reached) as (Hl & Hcb & _). split; [exact Hl|].
  apply Hcb. right. left. reflexivity.
Defined.

(** The barrier is skipped when the elector sees another holder before the new
    goroutine has run: two terms then run their callbacks at once. *)
Example lease_overlap :
  exists r, rtc (lease_step false) lease_start r /\ r_cb r = CbRunning 0 /\ r_left r = [CbRunning 0].
Proof.
  exists (mkReplica false RRenewing true true false (CbRunning 0) [CbRunning 0] [leadershipStoppedEvent false false]).
  split; [|by split].
  eapply rtc_l; [apply lease_campaign|]. eapply rtc_l; [apply lease_acquired|]. eapply rtc_l; [by apply lease_taken|].
  eapply rtc_l; [apply lease_lapsed|]. eapply rtc_l; [by apply lease_no_join|].
  eapply rtc_l; [apply lease_campaign|]. cbn [unjoined app].
  eapply rtc_l; [apply (lease_left_steps false _ _ _ _ _ _ []), cb_starts|]. cbn [app].
  eapply rtc_l; [eapply (lease_left_steps false _ _ _ _ _ _ []), cb_runs, LeaseDemo.quiet_epoch|]. cbn [app].
  eapply rtc_l; [apply lease_acquired|]. apply LeaseDemo.callback.
Qed.
