(* ===== verification/DynamoLock.v ===== *)
(** * The DynamoDB coordinator (internal/coordinate/dynamodb/dynamodb.go)

    The lock item and its two conditional updates, and a leadership term as
    three goroutines (renew loop, watchdog, elected callback).  The table is a
    parameter; [LockServer] states the documented behaviour of a conditional
    UpdateItem with an atomic ADD under interference from other replicas. *)

From S2P Require Import Prelude Model DynamoStore.

(** ** The lock item *)

Inductive LockCondition :=
| CanAcquire (now : Z) (me : string)
  (* attribute_not_exists(pk) OR attribute_not_exists(expiresAtMs) OR expiresAtMs < :now OR holder = :me *)
| StillMine (me : string) (fence : Z).
  (* holder = :me AND fence = :fence *)

Inductive LockUpdate :=
| TakeLock (me : string) (exp one : Z)       (* SET holder = :me, expiresAtMs = :exp ADD fence :one *)
| ExtendLock (exp : Z).                      (* SET expiresAtMs = :exp *)

Record UpdateInput := mkUpdate { ui_pk : string; ui_cond : LockCondition; ui_update : LockUpdate }.

Inductive UpdErr := UpdConditionalCheckFailed | UpdOther (msg : string).

Definition lock_condition_holds (c : LockCondition) (o : option Item) : bool :=
  let attr := fun k => o ≫= fun it : Item => it !! k in
  match c with
  | CanAcquire now me =>
      bool_decide (attr "pk" = None) || bool_decide (attr "expiresAtMs" = None)
      || match attr "expiresAtMs" with
         | Some (AN v) => match ParseInt v with Some e => (e <? now)%Z | None => false end
         | _ => false
         end
      || bool_decide (attr "holder" = Some (sstr me))
  | StillMine me fence => bool_decide (attr "holder" = Some (sstr me)) && bool_decide (attr "fence" = Some (nstr fence))
  end.

Definition fence_of (o : option Item) : Z := default 0%Z (o ≫= fun it => numAttr it "fence").

Class LockAPI (W : Type) := {
  lk_UpdateItem : UpdateInput -> W -> result UpdErr Item * W;
  lk_now : W -> Time
}.

(** Every update the coordinator sends leaves the fence alone or adds to it; an
    accepted one found the item in a state that satisfied its condition and
    returns the fence it wrote. *)
Class LockServer (W : Type) `{LockAPI W} := {
  lock_item : W -> string -> option Item;
  lock_fence_mono u w r w' :
    lk_UpdateItem u w = (r, w') ->
    match ui_update u with TakeLock _ _ one => (0 <= one)%Z | ExtendLock _ => True end ->
    forall p, (fence_of (lock_item w p) <= fence_of (lock_item w' p))%Z;
  lock_take_ok u me exp one w attrs w' :
    ui_update u = TakeLock me exp one -> (0 <= one)%Z ->
    lk_UpdateItem u w = (Ok attrs, w') ->
    exists o, (fence_of (lock_item w (ui_pk u)) <= fence_of o)%Z /\ lock_condition_holds (ui_cond u) o = true /\
      attrs !! "fence" = Some (nstr (fence_of o + one)) /\ (fence_of o + one <= fence_of (lock_item w' (ui_pk u)))%Z
}.

(** ** The coordinator *)

Record Coordinator := mkCoordinator {
  co_pk : string; co_identity : string; co_lease : Duration; co_renewDeadline : Duration; co_retry : Duration }.

Section coordinator.
Context {W : Type} `{LockAPI W}.

(** Fence, acquired, transient error. *)
Definition acquire (c : Coordinator) (w : W) : Z * bool * bool * W :=
  let now := lk_now w in
  let exp := UnixMilli (Add now (co_lease c)) in
  match lk_UpdateItem (mkUpdate (co_pk c) (CanAcquire (UnixMilli now) (co_identity c)) (TakeLock (co_identity c) exp 1)) w with
  | (Err UpdConditionalCheckFailed, w) => (0%Z, false, false, w)
  | (Err (UpdOther _), w) => (0%Z, false, true, w)
  | (Ok attrs, w) =>
      match numAttr attrs "fence" with
      | None => (0%Z, false, true, w)
      | Some fence => (fence, true, false, w)
      end
  end.

(** Still held, transient error. *)
Definition renew (c : Coordinator) (fence : Z) (w : W) : bool * bool * W :=
  let now := lk_now w in
  let exp := UnixMilli (Add now (co_lease c)) in
  match lk_UpdateItem (mkUpdate (co_pk c) (StillMine (co_identity c) fence) (ExtendLock exp)) w with
  | (Err UpdConditionalCheckFailed, w) => (false, false, w)
  | (Err (UpdOther _), w) => (false, true, w)
  | (Ok _, w) => (true, false, w)
  end.

Context `{Server : !LockServer W}.

Lemma acquire_fence c w f ok err w' :
  acquire c w = (f, ok, err, w') ->
  (fence_of (lock_item w (co_pk c)) <= fence_of (lock_item w' (co_pk c)))%Z /\
  (ok = true -> (fence_of (lock_item w (co_pk c)) < f)%Z /\ (f <= fence_of (lock_item w' (co_pk c)))%Z).
Proof.
  unfold acquire. set (u := mkUpdate _ _ _). destruct (lk_UpdateItem u w) as [r w1] eqn:Hu.
  pose proof (lock_fence_mono u w r w1 Hu ltac:(simpl; lia) (co_pk c)) as Hm.
  destruct r as [attrs|[|msg]]; [|by intros [= <- <- <- <-]..].
  destruct (lock_take_ok u _ _ _ w attrs w1 eq_refl ltac:(lia) Hu) as (o & Hlo & _ & Ha & Hhi). simpl in *.
  destruct (numAttr attrs "fence") as [fence|] eqn:Hn; intros [= <- <- <- <-]; [|done].
  assert (fence = fence_of o + 1)%Z as ->; [|split; [done|lia]].
  unfold numAttr, nstr in Hn. rewrite Ha in Hn. by apply ParseInt_FormatInt_inv.
Qed.

Lemma renew_fence c fence w ok err w' :
  renew c fence w = (ok, err, w') -> (fence_of (lock_item w (co_pk c)) <= fence_of (lock_item w' (co_pk c)))%Z.
Proof.
  unfold renew. destruct (lk_UpdateItem _ w) as [r w1] eqn:Hu.
  pose proof (lock_fence_mono _ w r w1 Hu I (co_pk c)) as Hm.
  by destruct r as [?|[|]]; intros [= <- <- <-].
Qed.

(** *** Epochs over all replicas *)

(** Calls by any replicas, in the order they reach the table. *)
Inductive LockOp := OpAcquire (c : Coordinator) | OpRenew (c : Coordinator) (fence : Z).
Definition op_pk (o : LockOp) : string := match o with OpAcquire c | OpRenew c _ => co_pk c end.

(** The fences handed out, in order. *)
Fixpoint run_lock (ops : list LockOp) (w : W) : list Z * W :=
  match ops with
  | [] => ([], w)
  | OpAcquire c :: ops =>
      let '(f, ok, _, w) := acquire c w in
      let '(fs, w) := run_lock ops w in (if ok then f :: fs else fs, w)
  | OpRenew c f :: ops => let '(_, _, w) := renew c f w in run_lock ops w
  end.

(** C23: leader epochs are unique and strictly increasing.  Whatever replicas
    acquire and renew one lock in whatever order, with lost answers, expiries
    and takeovers, every leadership gets an epoch larger than every earlier
    one: two terms never share an epoch. *)
Theorem lock_epochs_increase p ops w fs w' :
  Forall (fun o => op_pk o = p) ops -> run_lock ops w = (fs, w') ->
  StronglySorted Z.lt fs /\ Forall (fun f => fence_of (lock_item w p) < f <= fence_of (lock_item w' p))%Z fs /\
  (fence_of (lock_item w p) <= fence_of (lock_item w' p))%Z.
Proof.
  intros Hpk. revert w fs w'. induction Hpk as [|o ops Ho _ IH]; intros w fs w'; simpl.
  { intros [= <- <-]. split_and!; [constructor|constructor|lia]. }
  destruct o as [c|c f]; simpl in Ho; subst p.
  - destruct (acquire c w) as [[[f ok] err] w1] eqn:Ha. destruct (run_lock ops w1) as [fs1 w2] eqn:Hr.
    intros [= <- <-]. apply acquire_fence in Ha as [Hm Hok]. destruct (IH _ _ _ Hr) as (Hs & Hf & Hm2).
    assert (Forall (fun x => fence_of (lock_item w (co_pk c)) < x <= fence_of (lock_item w2 (co_pk c)))%Z fs1) as Hf'.
    { eapply Forall_impl; [exact Hf|]. simpl. intros. lia. }
    split_and!; [| |lia]; destruct ok; try done; destruct (Hok eq_refl) as [Hlo Hhi].
    + constructor; [done|]. eapply Forall_impl; [exact Hf|]. simpl. intros. lia.
    + constructor; [lia|done].
  - destruct (renew c f w) as [[ok err] w1] eqn:Ha. apply renew_fence in Ha as Hm. intros Hr.
    destruct (IH _ _ _ Hr) as (Hs & Hf & Hm2). split_and!; [done| |lia].
    eapply Forall_impl; [exact Hf|]. simpl. intros. lia.
Qed.
End coordinator.

(** ** A leadership term *)

(** The renew loop of [lead]; the goroutine of [renewWatchdog]. *)
Inductive LeadPC := LWait | LRenewing | LDraining | LReturned.
Inductive DogPC := DogArmed (deadline : Time) | DogDone.

(** [t_signal] is the buffered [renewOK]; [t_lastOK] the instant the watchdog
    last took a success (or was started). *)
Record Term := mkTerm {
  t_now : Time; t_parent : bool; t_cancelled : bool; t_lead : LeadPC; t_dog : DogPC;
  t_electedDone : bool; t_signal : bool; t_lastOK : Time }.

Section term.
Context (renewDeadline : Duration).

Definition term_start (now : Time) : Term :=
  mkTerm now false false LWait (DogArmed (now + renewDeadline)) false false now.

(** Time passes, but a timer that is due fires before it passes its deadline;
    a renew call may stay blocked for as long as it likes. *)
Definition may_pass (cancelled : bool) (dog : DogPC) (now : Time) : Prop :=
  match dog with DogArmed dl => cancelled = false -> (now <= dl)%Z | DogDone => True end.

Inductive term_step : Term -> Term -> Prop :=
| term_elapse n p c l d e s o n' :
    (n <= n')%Z -> may_pass c d n' -> term_step (mkTerm n p c l d e s o) (mkTerm n' p c l d e s o)
| term_parent n p c l d e s o :
    term_step (mkTerm n p c l d e s o) (mkTerm n true true l d e s o)
| term_elected_returns n p c l d s o :
    term_step (mkTerm n p c l d false s o) (mkTerm n p c l d true s o)
| term_ctx_done n c d e s o :
    term_step (mkTerm n true c LWait d e s o) (mkTerm n true true LDraining d e s o)
| term_elected_done n p c d s o :
    term_step (mkTerm n p c LWait d true s o) (mkTerm n p true LDraining d true s o)
| term_leader_done n p d e s o :
    term_step (mkTerm n p true LWait d e s o) (mkTerm n p true LDraining d e s o)
| term_tick n p c d e s o :
    term_step (mkTerm n p c LWait d e s o) (mkTerm n p c LRenewing d e s o)
| term_renewed n p c d e s o :
    term_step (mkTerm n p c LRenewing d e s o) (mkTerm n p c LWait d e true o)
| term_lost n p c d e s o :
    term_step (mkTerm n p c LRenewing d e s o) (mkTerm n p true LDraining d e s o)
| term_transient n p c d e s o :
    term_step (mkTerm n p c LRenewing d e s o) (mkTerm n p c LWait d e s o)
| term_dog_ok n p c l dl e o :
    term_step (mkTerm n p c l (DogArmed dl) e true o) (mkTerm n p c l (DogArmed (n + renewDeadline)) e false n)
| term_dog_exit n p l dl e s o :
    term_step (mkTerm n p true l (DogArmed dl) e s o) (mkTerm n p true l DogDone e s o)
| term_dog_fire n p c l dl e s o :
    (dl <= n)%Z -> term_step (mkTerm n p c l (DogArmed dl) e s o) (mkTerm n p true l DogDone e s o)
| term_return n p c e s o :
    e = true -> term_step (mkTerm n p c LDraining DogDone e s o) (mkTerm n p c LReturned DogDone e s o).

Record term_ok (t : Term) : Prop := {
  term_armed : t_cancelled t = false -> exists dl, t_dog t = DogArmed dl /\ (t_now t <= dl)%Z /\ dl = (t_lastOK t + renewDeadline)%Z;
  term_drain : t_lead t = LDraining -> t_cancelled t = true;
  term_returned : t_lead t = LReturned -> t_cancelled t = true /\ t_dog t = DogDone /\ t_electedDone t = true
}.

Lemma term_step_ok t t' : (0 <= renewDeadline)%Z -> term_ok t -> term_step t t' -> term_ok t'.
Proof.
  intros Hpos [Ha Hd Hr] Hstep. destruct Hstep; simpl in *; split; simpl; try done; try tauto.
  - intros Hc. destruct (Ha Hc) as (dl & -> & Hle & ->). simpl in *. eexists. split_and!; [done|auto|done].
  - intros Hc. exists (n + renewDeadline)%Z. split_and!; [done|lia|done].
  - intros Hl. destruct (Hr Hl) as (_ & ? & _). done.
Qed.

(** C24: the step-down deadline and the drain barrier.  In every schedule of a
    term, leadership is only still held within [renewDeadline] of the last
    successful renew the watchdog saw, even while a renew call is blocked; and
    [lead] returns only after the leader context was cancelled, the watchdog
    ended and the elected callback drained. *)
Theorem lead_steps_down now t :
  (0 <= renewDeadline)%Z -> rtc term_step (term_start now) t ->
  (t_cancelled t = false -> (t_now t <= t_lastOK t + renewDeadline)%Z) /\
  (t_lead t = LReturned -> t_cancelled t = true /\ t_dog t = DogDone /\ t_electedDone t = true).
Proof.
  intros Hpos Hr. assert (term_ok t) as [Ha _ Hret].
  { assert (term_ok (term_start now)) as Hok.
    { split; simpl; try done. intros _. eexists. split_and!; [done|lia|done]. }
    induction Hr; [done|]. eauto using term_step_ok. }
  split; [|done]. intros Hc. destruct (Ha Hc) as (dl & _ & Hle & ->). done.
Qed.
End term.

(** ** Concrete runs *)

Module Sim.
(** One table, seen by every replica; a clock that stands still.  An update
    whose fence would leave int64 is refused. *)
Record SimTable := mkSimTable { st_now : Time; st_items : gmap string Item }.

Definition sim_UpdateItem (u : UpdateInput) (w : SimTable) : result UpdErr Item * SimTable :=
  let o := st_items w !! ui_pk u in
  if lock_condition_holds (ui_cond u) o then
    let it := default {["pk" := sstr (ui_pk u)]} o in
    match ui_update u with
    | TakeLock me exp one =>
        let f := (fence_of o + one)%Z in
        if decide (minInt64 <= f <= maxInt64)%Z then
          let it := <["fence" := nstr f]> (<["expiresAtMs" := nstr exp]> (<["holder" := sstr me]> it)) in
          (Ok it, mkSimTable (st_now w) (<[ui_pk u := it]> (st_items w)))
        else (Err (UpdOther "number overflow"), w)
    | ExtendLock exp =>
        let it := <["expiresAtMs" := nstr exp]> it in
        (Ok it, mkSimTable (st_now w) (<[ui_pk u := it]> (st_items w)))
    end
  else (Err UpdConditionalCheckFailed, w).

#[global] Instance sim_lock_api : LockAPI SimTable := {
  lk_UpdateItem := sim_UpdateItem; lk_now := st_now
}.

Lemma fence_of_set f it : (minInt64 <= f <= maxInt64)%Z -> fence_of (Some (<["fence" := nstr f]> it)) = f.
Proof.
  intros Hr. unfold fence_of, numAttr, nstr. simpl. rewrite lookup_insert. case_decide; [|done].
  rewrite ParseInt_FormatInt_range. by rewrite decide_True.
Qed.

Lemma fence_of_extend o exp pk :
  fence_of (Some (<["expiresAtMs" := nstr exp]> (default {["pk" := sstr pk]} o))) = fence_of o.
Proof.
  unfold fence_of, numAttr. destruct o as [it|]; simpl; by rewrite ?lookup_insert_ne.
Qed.

#[global] Program Instance sim_lock_server : LockServer SimTable := {
  lock_item w p := st_items w !! p
}.
Next Obligation.
  intros u w r w' Hu Hone p. simpl in Hu. unfold sim_UpdateItem in Hu.
  destruct (lock_condition_holds _ _); [|by simplify_eq].
  destruct (ui_update u) as [me exp one|exp]; [case_decide; [|by simplify_eq]|]; simplify_eq; simpl;
    destruct (decide (ui_pk u = p)) as [<-|Hne]; rewrite ?lookup_insert_eq, ?lookup_insert_ne by done; try lia.
  - rewrite fence_of_set; [lia|done].
  - by rewrite fence_of_extend.
Qed.
Next Obligation.
  intros u me exp one w attrs w' Hup Hone Hu. simpl in Hu. unfold sim_UpdateItem in Hu. rewrite Hup in Hu.
  destruct (lock_condition_holds _ _) eqn:Hc; [|by simplify_eq]. case_decide as Hd; [|by simplify_eq].
  simplify_eq. exists (st_items w !! ui_pk u). simpl. rewrite !lookup_insert_eq, fence_of_set by done.
  split_and!; [lia|done|done|lia].
Qed.

Definition sim_ops : list LockOp :=
  let a := mkCoordinator "lock#m" "pod-a" 15 10 2 in
  let b := mkCoordinator "lock#m" "pod-b" 15 10 2 in
  [OpAcquire a; OpRenew a 1; OpAcquire a; OpAcquire b; OpRenew b 2].
Definition sim_table : SimTable := mkSimTable 1000 ∅.
End Sim.

(** [pod-a] re-acquires its own lock (a lost answer); [pod-b] is refused. *)
Lemma lock_epochs_increase_witness :
  fst (run_lock Sim.sim_ops Sim.sim_table) = [1%Z; 2%Z] /\ StronglySorted Z.lt (fst (run_lock Sim.sim_ops Sim.sim_table)).
Proof.
  split; [vm_compute; reflexivity|].
  refine (proj1 (lock_epochs_increase "lock#m" Sim.sim_ops Sim.sim_table _ _ _ (surjective_pairing _))).
  vm_compute. repeat constructor.
Defined.

(** A renew blocks for ever; the watchdog steps the leader down at 10 and the
    term then drains. *)
Lemma lead_steps_down_witness :
  exists t, rtc (term_step 10) (term_start 10 0) t /\ t_lead t = LReturned /\ t_cancelled t = true /\ t_dog t = DogDone.
Proof.
  assert (rtc (term_step 10) (term_start 10 0) (mkTerm 10 false true LReturned DogDone true false 0)) as Hr.
  { eapply rtc_l; [apply term_tick|]. eapply rtc_l; [apply (term_elapse 10 0 _ _ _ _ _ _ _ 10); simpl; lia|].
    eapply rtc_l; [apply term_dog_fire; lia|]. eapply rtc_l; [apply term_lost|].
    eapply rtc_l; [apply term_elected_returns|]. eapply rtc_l; [by apply term_return|]. apply rtc_refl. }
  eexists. split; [exact Hr|]. split; [reflexivity|].
  destruct (proj2 (lead_steps_down 10 0 _ ltac:(lia) Hr) eq_refl) as (? & ? & _). split; assumption.
Defined.
