(* ===== verification/Httpx.v ===== *)
(** * The outbound HTTP client (internal/httpx/httpx.go)

    The destination check of every hop, the redirect policy, the order of
    guard, rate token, request and observer, and the redaction of transport
    errors.  DNS, the rate limiter and one round trip are an interface;
    [net.ParseIP], [url.Parse] and Unicode case folding are parameters. *)

From S2P Require Import Prelude Model.

(** ** Addresses (net.IP) *)

(** The bytes of a [net.IP]: 4 or 16 of them. *)
Definition IP : Type := list Z.

Definition ip_ok (ip : IP) : Prop := (length ip = 4 \/ length ip = 16) /\ Forall (fun b => 0 <= b < 256)%Z ip.

(** [ip[i]]. *)
Definition at_ (ip : IP) (i : nat) : Z := default 0%Z (ip !! i).

Definition v4InV6Prefix : list Z := replicate 10 0%Z ++ [255; 255]%Z.

Definition To4 (ip : IP) : option IP :=
  if decide (length ip = 4) then Some ip
  else if decide (length ip = 16 /\ take 12 ip = v4InV6Prefix) then Some (drop 12 ip)
  else None.

(** The 16-byte form; [IP.Equal] compares it. *)
Definition To16 (ip : IP) : IP := if decide (length ip = 4) then v4InV6Prefix ++ ip else ip.
Definition ip_Equal (a b : IP) : bool := bool_decide (To16 a = To16 b).

Definition v4 (a b c d : Z) : IP := v4InV6Prefix ++ [a; b; c; d].
Definition v6_loopback : IP := replicate 15 0%Z ++ [1]%Z.
Definition v6_unspecified : IP := replicate 16 0%Z.
Definition v6_imds : IP := [0xfd; 0x00; 0x0e; 0xc2]%Z ++ replicate 10 0%Z ++ [0x02; 0x54]%Z.

(** [IPNet.Contains] for an IPv4 network. *)
Definition contains4 (net mask : list Z) (ip : IP) : bool :=
  match To4 ip with
  | Some x => bool_decide (zip_with Z.land x mask = zip_with Z.land net mask)
  | None => false
  end.

Definition IsLoopback (ip : IP) : bool :=
  match To4 ip with Some x => (at_ x 0 =? 127)%Z | None => ip_Equal ip v6_loopback end.

Definition IsPrivate (ip : IP) : bool :=
  match To4 ip with
  | Some x => (at_ x 0 =? 10)%Z || ((at_ x 0 =? 172)%Z && (Z.land (at_ x 1) 0xf0 =? 16)%Z)
              || ((at_ x 0 =? 192)%Z && (at_ x 1 =? 168)%Z)
  | None => (length ip =? 16) && (Z.land (at_ ip 0) 0xfe =? 0xfc)%Z
  end.

Definition IsUnspecified (ip : IP) : bool := ip_Equal ip (v4 0 0 0 0) || ip_Equal ip v6_unspecified.

Definition IsLinkLocalUnicast (ip : IP) : bool :=
  match To4 ip with
  | Some x => (at_ x 0 =? 169)%Z && (at_ x 1 =? 254)%Z
  | None => (length ip =? 16) && (at_ ip 0 =? 0xfe)%Z && (Z.land (at_ ip 1) 0xc0 =? 0x80)%Z
  end.

Definition IsLinkLocalMulticast (ip : IP) : bool :=
  match To4 ip with
  | Some x => (at_ x 0 =? 224)%Z && (at_ x 1 =? 0)%Z && (at_ x 2 =? 0)%Z
  | None => (length ip =? 16) && (at_ ip 0 =? 0xff)%Z && (Z.land (at_ ip 1) 0x0f =? 0x02)%Z
  end.

(** ** The egress predicate *)

(** The table is keyed by [ip.String()], which names an address in either of
    its two lengths by one canonical text. *)
Definition cloudMetadataIPs : list IP := [v4 169 254 169 254; v4 100 100 100 200; v6_imds].

Definition cgnatNet (ip : IP) : bool := contains4 [100; 64; 0; 0]%Z [255; 192; 0; 0]%Z ip.

Inductive Blocked := BlockedMetadata | BlockedLinkLocal | BlockedPrivate.

(** [None] when the address may be dialled. *)
Definition blockedIP (ip : IP) (allowPrivate : bool) : option Blocked :=
  if existsb (ip_Equal ip) cloudMetadataIPs || cgnatNet ip then Some BlockedMetadata
  else if IsLinkLocalUnicast ip || IsLinkLocalMulticast ip then Some BlockedLinkLocal
  else if negb allowPrivate && (IsLoopback ip || IsPrivate ip || IsUnspecified ip) then Some BlockedPrivate
  else None.

(** ** The reference: address ranges *)

(** The value of the bytes, big endian. *)
Definition ip_value (ip : IP) : Z := foldl (fun v b => v * 256 + b)%Z 0%Z ip.

(** [v] is in the network of [width]-bit addresses with prefix [base/len]. *)
Definition in_cidr (width base len v : Z) : bool := (v / 2 ^ (width - len) =? base / 2 ^ (width - len))%Z.

Definition addr4 (a b c d : Z) : Z := ip_value [a; b; c; d].

(** What may never be dialled. *)
Definition never4 (v : Z) : bool :=
  in_cidr 32 (addr4 169 254 0 0) 16 v || in_cidr 32 (addr4 100 64 0 0) 10 v || in_cidr 32 (addr4 224 0 0 0) 24 v.

(** What only an operator's permission opens. *)
Definition private4 (v : Z) : bool :=
  in_cidr 32 (addr4 127 0 0 0) 8 v || in_cidr 32 (addr4 10 0 0 0) 8 v || in_cidr 32 (addr4 172 16 0 0) 12 v
  || in_cidr 32 (addr4 192 168 0 0) 16 v || in_cidr 32 0 32 v.

(** Link-local multicast has the low half of the second byte at 2. *)
Definition never6 (v : Z) : bool :=
  in_cidr 128 (0xfe80 * 2 ^ 112) 10 v || (in_cidr 128 (0xff * 2 ^ 120) 8 v && (v / 2 ^ 112 mod 16 =? 2)%Z)
  || (v =? ip_value v6_imds)%Z.
Definition private6 (v : Z) : bool := (v =? 1)%Z || (v =? 0)%Z || in_cidr 128 (0xfc * 2 ^ 120) 7 v.

Definition permitted (ip : IP) (allowPrivate : bool) : bool :=
  match To4 ip with
  | Some x => negb (never4 (ip_value x)) && (allowPrivate || negb (private4 (ip_value x)))
  | None => negb (never6 (ip_value ip)) && (allowPrivate || negb (private6 (ip_value ip)))
  end.

(** *** The two agree *)

Lemma byte_check (P : Z -> bool) : forallb P (seqZ 0 256) = true -> forall b, (0 <= b < 256)%Z -> P b = true.
Proof. intros Hall b Hb. rewrite forallb_forall in Hall. apply Hall, list_elem_of_In, elem_of_seqZ. lia. Qed.

(** A mask on a byte is a division. *)
Lemma mask_f0 b : (0 <= b < 256)%Z -> (Z.land b 0xf0 =? 16)%Z = (b / 16 =? 1)%Z.
Proof. intros Hb. apply Bool.eqb_prop. apply (byte_check (fun b => Bool.eqb (Z.land b 0xf0 =? 16)%Z (b / 16 =? 1)%Z) eq_refl b Hb). Qed.
Lemma mask_fe b : (0 <= b < 256)%Z -> (Z.land b 0xfe =? 0xfc)%Z = (b / 2 =? 126)%Z.
Proof. intros Hb. apply Bool.eqb_prop. apply (byte_check (fun b => Bool.eqb (Z.land b 0xfe =? 0xfc)%Z (b / 2 =? 126)%Z) eq_refl b Hb). Qed.
Lemma mask_c0 b : (0 <= b < 256)%Z -> (Z.land b 0xc0 =? 0x80)%Z = (b / 64 =? 2)%Z.
Proof. intros Hb. apply Bool.eqb_prop. apply (byte_check (fun b => Bool.eqb (Z.land b 0xc0 =? 0x80)%Z (b / 64 =? 2)%Z) eq_refl b Hb). Qed.
Lemma mask_0f b : (0 <= b < 256)%Z -> (Z.land b 0x0f =? 2)%Z = (b mod 16 =? 2)%Z.
Proof. intros Hb. apply Bool.eqb_prop. apply (byte_check (fun b => Bool.eqb (Z.land b 0x0f =? 2)%Z (b mod 16 =? 2)%Z) eq_refl b Hb). Qed.
Lemma mask_net b : (0 <= b < 256)%Z -> (Z.land b 192 =? 64)%Z = (b / 64 =? 1)%Z.
Proof. intros Hb. apply Bool.eqb_prop. apply (byte_check (fun b => Bool.eqb (Z.land b 192 =? 64)%Z (b / 64 =? 1)%Z) eq_refl b Hb). Qed.
Lemma mask_ff b : (0 <= b < 256)%Z -> Z.land b 255 = b.
Proof. intros Hb. apply Z.eqb_eq. apply (byte_check (fun b => (Z.land b 255 =? b)%Z) eq_refl b Hb). Qed.

Lemma To4_Some ip x :
  ip_ok ip -> To4 ip = Some x ->
  exists a b c d, x = [a; b; c; d] /\ To16 ip = v4 a b c d /\ Forall (fun b => 0 <= b < 256)%Z [a; b; c; d].
Proof.
  intros [Hl Hb]. unfold To4, To16. destruct (decide (length ip = 4)) as [H4|H4].
  - intros [= <-]. destruct ip as [|a [|b [|c [|d [|? ?]]]]]; try done. by exists a, b, c, d.
  - case_decide as H16; [|done]. destruct H16 as [Hlen Hp]. intros [= <-].
    assert (ip = v4InV6Prefix ++ drop 12 ip) as Hip by (rewrite <-Hp; by rewrite take_drop).
    pose proof (Forall_drop _ 12 ip Hb) as Hd. assert (length (drop 12 ip) = 4) as Hdl by (rewrite length_drop; lia).
    destruct (drop 12 ip) as [|a [|b [|c [|d [|? ?]]]]] eqn:E; try done. by exists a, b, c, d.
Qed.

Lemma To4_None ip : ip_ok ip -> To4 ip = None -> length ip = 16 /\ To16 ip = ip /\ take 12 ip <> v4InV6Prefix.
Proof. intros [Hl Hb]. unfold To4, To16. repeat case_decide; try done. intros _. naive_solver. Qed.

Lemma v4_Equal a b c d p q r s : bool_decide (v4 a b c d = v4 p q r s) = ((a =? p) && (b =? q) && (c =? r) && (d =? s))%Z.
Proof. apply eq_true_iff_eq. rewrite bool_decide_eq_true, !andb_true_iff, !Z.eqb_eq. unfold v4. cbn. naive_solver. Qed.

Lemma v4_not_v6 a b c d (l : list Z) : take 12 l <> v4InV6Prefix -> bool_decide (v4 a b c d = l) = false.
Proof. intros Hl. apply bool_decide_eq_false. by intros <-. Qed.

Lemma not_v4_Equal ip a b c d : take 12 ip <> v4InV6Prefix -> bool_decide (ip = v4 a b c d) = false.
Proof. intros Hl. apply bool_decide_eq_false. by intros ->. Qed.

Section v4_case.
Context (ip : IP) (a b c d : Z).
Context (H4 : To4 ip = Some [a; b; c; d]) (H16 : To16 ip = v4 a b c d).
Context (Ha : (0 <= a < 256)%Z) (Hb : (0 <= b < 256)%Z) (Hc : (0 <= c < 256)%Z) (Hd : (0 <= d < 256)%Z).

Lemma cgnat_v4 : cgnatNet ip = ((a =? 100) && (b / 64 =? 1))%Z.
Proof using All.
  unfold cgnatNet, contains4. rewrite H4. cbn [zip_with]. rewrite (mask_ff a), !Z.land_0_r by done.
  rewrite <-mask_net by done. apply eq_true_iff_eq. rewrite bool_decide_eq_true, andb_true_iff, !Z.eqb_eq.
  change (Z.land 100 255) with 100%Z. change (Z.land 64 192) with 64%Z.
  split; [by intros [= -> ->]|by intros [-> ->]].
Qed.

(** A prefix of the address, from its bytes. *)
Lemma prefix_8 base : in_cidr 32 base 8 (ip_value [a; b; c; d]) = (a =? base / 2 ^ 24)%Z.
Proof using All. unfold in_cidr, ip_value. cbn [foldl]. f_equal. all: change (2 ^ (32 - 8))%Z with 16777216%Z; change (2 ^ 24)%Z with 16777216%Z; Z.to_euclidean_division_equations; lia. Qed.
Lemma prefix_10 base : in_cidr 32 base 10 (ip_value [a; b; c; d]) = (a * 4 + b / 64 =? base / 2 ^ 22)%Z.
Proof using All. unfold in_cidr, ip_value. cbn [foldl]. f_equal. all: change (2 ^ (32 - 10))%Z with 4194304%Z; change (2 ^ 22)%Z with 4194304%Z; Z.to_euclidean_division_equations; lia. Qed.
Lemma prefix_12 base : in_cidr 32 base 12 (ip_value [a; b; c; d]) = (a * 16 + b / 16 =? base / 2 ^ 20)%Z.
Proof using All. unfold in_cidr, ip_value. cbn [foldl]. f_equal. all: change (2 ^ (32 - 12))%Z with 1048576%Z; change (2 ^ 20)%Z with 1048576%Z; Z.to_euclidean_division_equations; lia. Qed.
Lemma prefix_16 base : in_cidr 32 base 16 (ip_value [a; b; c; d]) = (a * 256 + b =? base / 2 ^ 16)%Z.
Proof using All. unfold in_cidr, ip_value. cbn [foldl]. f_equal. all: change (2 ^ (32 - 16))%Z with 65536%Z; change (2 ^ 16)%Z with 65536%Z; Z.to_euclidean_division_equations; lia. Qed.
Lemma prefix_24 base : in_cidr 32 base 24 (ip_value [a; b; c; d]) = ((a * 256 + b) * 256 + c =? base / 2 ^ 8)%Z.
Proof using All. unfold in_cidr, ip_value. cbn [foldl]. f_equal. all: change (2 ^ (32 - 24))%Z with 256%Z; change (2 ^ 8)%Z with 256%Z; Z.to_euclidean_division_equations; lia. Qed.
Lemma prefix_32 base : in_cidr 32 base 32 (ip_value [a; b; c; d]) = (((a * 256 + b) * 256 + c) * 256 + d =? base)%Z.
Proof using All. unfold in_cidr, ip_value. cbn [foldl]. change (2 ^ (32 - 32))%Z with 1%Z. rewrite !Z.div_1_r. done. Qed.

Lemma never_v4 :
  (existsb (ip_Equal ip) cloudMetadataIPs || cgnatNet ip) || (IsLinkLocalUnicast ip || IsLinkLocalMulticast ip) =
  never4 (ip_value [a; b; c; d]).
Proof using All.
  unfold cloudMetadataIPs, ip_Equal, IsLinkLocalUnicast, IsLinkLocalMulticast. cbn [existsb]. rewrite H4, H16, cgnat_v4.
  change (To16 (v4 169 254 169 254)) with (v4 169 254 169 254). change (To16 (v4 100 100 100 200)) with (v4 100 100 100 200).
  change (To16 v6_imds) with v6_imds. rewrite !v4_Equal, v4_not_v6 by done. cbn [at_ lookup list_lookup default].
  unfold never4. rewrite prefix_16, prefix_10, prefix_24, !orb_false_r.
  change (addr4 169 254 0 0 / 2 ^ 16)%Z with 43518%Z. change (addr4 100 64 0 0 / 2 ^ 22)%Z with 401%Z.
  change (addr4 224 0 0 0 / 2 ^ 8)%Z with 14680064%Z.
  apply eq_true_iff_eq. rewrite ?orb_true_iff, ?andb_true_iff, !Z.eqb_eq. unfold at_. cbn. Z.to_euclidean_division_equations. lia.
Qed.

Lemma private_v4 : IsLoopback ip || IsPrivate ip || IsUnspecified ip = private4 (ip_value [a; b; c; d]).
Proof using All.
  unfold IsLoopback, IsPrivate, IsUnspecified, ip_Equal. rewrite H4, H16.
  change (To16 (v4 0 0 0 0)) with (v4 0 0 0 0). change (To16 v6_unspecified) with v6_unspecified.
  rewrite v4_Equal, v4_not_v6 by done. cbn [at_ lookup list_lookup default]. unfold at_. cbn. rewrite mask_f0 by done.
  unfold private4. rewrite !prefix_8, prefix_12, prefix_16, prefix_32.
  change (addr4 127 0 0 0 / 2 ^ 24)%Z with 127%Z. change (addr4 10 0 0 0 / 2 ^ 24)%Z with 10%Z.
  change (addr4 172 16 0 0 / 2 ^ 20)%Z with 2753%Z. change (addr4 192 168 0 0 / 2 ^ 16)%Z with 49320%Z.
  apply eq_true_iff_eq. rewrite ?orb_true_iff, ?andb_true_iff, !Z.eqb_eq. Z.to_euclidean_division_equations. lia.
Qed.
End v4_case.

Lemma ip_value_app x y : ip_value (x ++ y) = (ip_value x * 256 ^ Z.of_nat (length y) + ip_value y)%Z.
Proof.
  unfold ip_value. rewrite foldl_app. generalize (foldl (fun v b => v * 256 + b)%Z 0%Z x). intros v.
  assert (forall l acc, foldl (fun v b => v * 256 + b)%Z acc l = (acc * 256 ^ Z.of_nat (length l) + foldl (fun v b => v * 256 + b) 0 l)%Z) as Hg.
  { induction l as [|b l IH]; intros acc; cbn [foldl length]; [lia|]. rewrite IH, (IH (0 * 256 + b)%Z), Nat2Z.inj_succ, Z.pow_succ_r by lia. lia. }
  apply Hg.
Qed.

Lemma ip_value_bound l : Forall (fun b => 0 <= b < 256)%Z l -> (0 <= ip_value l < 256 ^ Z.of_nat (length l))%Z.
Proof.
  induction l as [|b l IH] using rev_ind; intros Hb; [done|]. apply Forall_app in Hb as [Hl [Hb _]%Forall_cons].
  rewrite ip_value_app, length_app, Nat2Z.inj_add, Z.pow_add_r by lia. specialize (IH Hl). cbn -[Z.pow]. 
  change (256 ^ Z.of_nat 1)%Z with 256%Z. lia.
Qed.

Lemma ip_value_inj l l' :
  length l = length l' -> Forall (fun b => 0 <= b < 256)%Z l -> Forall (fun b => 0 <= b < 256)%Z l' ->
  ip_value l = ip_value l' -> l = l'.
Proof.
  revert l'. induction l as [|b l IH] using rev_ind; intros l'; destruct l' as [|b' l' _] using rev_ind;
    rewrite ?length_app; cbn [length]; [done|lia|lia|].
  intros Hlen [Hl [Hb _]%Forall_cons]%Forall_app [Hl' [Hb' _]%Forall_cons]%Forall_app. rewrite !ip_value_app. cbn.
  intros Heq. assert (b = b' /\ ip_value l = ip_value l') as [-> ?] by lia. f_equal. apply IH; auto. lia.
Qed.

Section v6_case.
Context (ip : IP) (Hok : ip_ok ip) (H4 : To4 ip = None).

Lemma v6_shape :
  exists r, ip = [at_ ip 0; at_ ip 1] ++ r /\ length ip = 16 /\ (0 <= at_ ip 0 < 256)%Z /\ (0 <= at_ ip 1 < 256)%Z /\
  (0 <= ip_value r < 2 ^ 112)%Z /\ ip_value ip = ((at_ ip 0 * 256 + at_ ip 1) * 2 ^ 112 + ip_value r)%Z.
Proof using All.
  destruct (To4_None ip Hok H4) as (Hl & _ & _). destruct Hok as [_ Hb].
  destruct ip as [|a [|b r]]; [done..|]. exists r. change (at_ (a :: b :: r) 0) with a. change (at_ (a :: b :: r) 1) with b.
  apply Forall_cons in Hb as [Ha Hb]. apply Forall_cons in Hb as [Hb Hr]. cbn in Hl.
  pose proof (ip_value_bound r Hr) as Hv. pose proof (ip_value_app [a; b] r) as Hval.
  assert (length r = 14) as Hr14 by lia. rewrite Hr14 in Hv, Hval. unfold id.
  split; [done|]. split; [cbn; lia|]. do 3 (split; [done|]). exact Hval.
Qed.

Lemma v6_is (l : IP) : length l = 16 -> Forall (fun b => 0 <= b < 256)%Z l -> ip_Equal ip l = (ip_value ip =? ip_value l)%Z.
Proof using All.
  intros Hl Hb. destruct (To4_None ip Hok H4) as (Hip & H16 & _). destruct Hok as [_ Hbip]. unfold ip_Equal. rewrite H16.
  unfold To16. rewrite decide_False by lia. apply eq_true_iff_eq. rewrite bool_decide_eq_true, Z.eqb_eq.
  split; [by intros ->|]. apply ip_value_inj; auto. by rewrite Hip.
Qed.

Lemma v6_is_not_v4 a b c d : ip_Equal ip (v4 a b c d) = false.
Proof using All.
  destruct (To4_None ip Hok H4) as (_ & H16 & Hp). unfold ip_Equal. rewrite H16.
  change (To16 (v4 a b c d)) with (v4 a b c d). by apply not_v4_Equal.
Qed.

Lemma never_v6 :
  (existsb (ip_Equal ip) cloudMetadataIPs || cgnatNet ip) || (IsLinkLocalUnicast ip || IsLinkLocalMulticast ip) = never6 (ip_value ip).
Proof using All.
  unfold cloudMetadataIPs. cbn [existsb]. rewrite !v6_is_not_v4, (v6_is v6_imds); [|done|by repeat constructor].
  unfold cgnatNet, contains4, IsLinkLocalUnicast, IsLinkLocalMulticast. rewrite H4.
  destruct v6_shape as (r & _ & -> & H0 & H1 & Hr & Hv). rewrite mask_c0, mask_0f by done. unfold never6, in_cidr.
  apply eq_true_iff_eq. rewrite ?orb_true_iff, ?andb_true_iff, !Z.eqb_eq, Hv.
  generalize dependent (at_ ip 0). generalize dependent (at_ ip 1). generalize dependent (ip_value r).
  change (2 ^ 112)%Z with 5192296858534827628530496329220096%Z. intros.
  change (ip_value v6_imds) with 336294982257581694735330614659971547732%Z. cbn -[Z.div Z.modulo Z.mul Z.add].
  change (2 ^ (128 - 10))%Z with 332306998946228968225951765070086144%Z. change (2 ^ (128 - 8))%Z with 1329227995784915872903807060280344576%Z.
  Z.to_euclidean_division_equations. lia.
Qed.

Lemma private_v6 : IsLoopback ip || IsPrivate ip || IsUnspecified ip = private6 (ip_value ip).
Proof using All.
  unfold IsLoopback, IsPrivate, IsUnspecified. rewrite v6_is_not_v4, (v6_is v6_unspecified), H4, (v6_is v6_loopback); try done; try by repeat constructor.
  destruct v6_shape as (r & _ & -> & H0 & H1 & Hr & Hv). rewrite mask_fe by done. unfold private6, in_cidr.
  apply eq_true_iff_eq. rewrite ?orb_true_iff, ?andb_true_iff, !Z.eqb_eq, Hv.
  generalize dependent (at_ ip 0). generalize dependent (at_ ip 1). generalize dependent (ip_value r).
  change (2 ^ 112)%Z with 5192296858534827628530496329220096%Z. intros.
  change (ip_value v6_loopback) with 1%Z. change (ip_value v6_unspecified) with 0%Z.
  change (2 ^ (128 - 7))%Z with 2658455991569831745807614120560689152%Z.
  change (252 * 2 ^ 120 / 2658455991569831745807614120560689152)%Z with 126%Z. change (16 =? 16) with true.
  Z.to_euclidean_division_equations. lia.
Qed.
End v6_case.

(** The egress predicate is the range table.  An address may be dialled
    exactly when it lies in no forbidden range (cloud metadata, 100.64/10,
    link-local) and, unless private addresses are permitted, in none of the
    loopback, RFC 1918, unique-local and unspecified ranges; an IPv4 address
    and its IPv6-mapped form are judged alike.  No permission opens a
    forbidden range. *)
Theorem blockedIP_exact ip allowPrivate :
  ip_ok ip -> (blockedIP ip allowPrivate = None <-> permitted ip allowPrivate = true).
Proof.
  intros Hok. unfold blockedIP, permitted.
  assert (forall n p q (m1 m2 : bool), (m1 || m2 = n) -> p = q ->
    ((if m1 then Some BlockedMetadata else if m2 then Some BlockedLinkLocal else if negb allowPrivate && p then Some BlockedPrivate else None) = None
     <-> negb n && (allowPrivate || negb q) = true)) as Hcases by (intros [] [] [] [] []; destruct allowPrivate; simpl; naive_solver).
  destruct (To4 ip) as [x|] eqn:H4.
  - destruct (To4_Some ip x Hok H4) as (a & b & c & d & -> & H16 & Hb).
    do 4 (apply Forall_cons in Hb as [? Hb]). apply Hcases; [by apply never_v4|by apply private_v4].
  - apply Hcases; [by apply never_v6|by apply private_v6].
Qed.

(** ** The client *)

(** What the client reads of a [url.URL]: the scheme and [Hostname()]. *)
Record URL := mkURL { u_scheme : string; u_hostname : string }.
#[export] Instance URL_eq_dec : EqDecision URL.
Proof. solve_decision. Defined.

(** The settings the checks read; the timeout and the user agent are the
    transport's. *)
Record HttpConfig := mkHttpConfig { h_AllowHosts : list string; h_AllowPrivate : bool; h_Limiter : bool; h_Observer : bool }.

(** DNS ([None]: resolution failed), the rate token ([false]: the context
    ended first), and one round trip: [None] is a transport error, otherwise
    the status and, for a redirect, where to. *)
Class HttpWorld (W : Type) := {
  hw_Lookup : string -> W -> option (list IP) * W;
  hw_Wait : W -> bool * W;
  hw_Send : URL -> W -> option (Z * option URL) * W
}.

Inductive DestErr := NotAllowed | EmptyHost | BlockedDest (why : Blocked) | Unresolved.
Inductive HttpErr := EDest (e : DestErr) | ELimiter | ETransport | ETooManyRedirects | ECrossHost | EDowngrade.

(** What the world saw of a request. *)
Inductive HttpEvent :=
| Looked (host : string) (answer : option (list IP))
| Sent (u : URL)
| Observed (target : string) (code : Z) (failed : bool).

Section client.
Context {W : Type} `{HttpWorld W}.
(** [net.ParseIP]; [strings.ToLower] and [strings.EqualFold] beyond ASCII. *)
Context (ParseIP : string -> option IP) (uni : string -> string) (fold_uni : string -> string -> bool).
Context (cfg : HttpConfig).

Definition EqualFold (a b : string) : bool :=
  if is_ascii a && is_ascii b then bool_decide (string_map lower_byte a = string_map lower_byte b) else fold_uni a b.

(** [None] when the destination may be contacted. *)
Definition checkDest (u : URL) (w : W) : option DestErr * list HttpEvent * W :=
  let host := ToLower uni (u_hostname u) in
  if negb (bool_decide (h_AllowHosts cfg = [])) && negb (existsb (fun h => bool_decide (ToLower uni h = host)) (h_AllowHosts cfg))
  then (Some NotAllowed, [], w)
  else if decide (host = "") then (Some EmptyHost, [], w)
  else match ParseIP host with
       | Some ip => (BlockedDest <$> blockedIP ip (h_AllowPrivate cfg), [], w)
       | None =>
           let '(addrs, w) := hw_Lookup host w in
           (match addrs with
            | None => Some Unresolved
            | Some l => BlockedDest <$> head (omap (fun ip => blockedIP ip (h_AllowPrivate cfg)) l)
            end, [Looked host addrs], w)
       end.

(** [via] is the requests made so far, the oldest first. *)
Definition checkRedirectCreds (u : URL) (via : list URL) : option HttpErr :=
  match via with
  | [] => None
  | origin :: _ =>
      if negb (EqualFold (u_hostname u) (u_hostname origin)) then Some ECrossHost
      else if EqualFold (u_scheme origin) "https" && negb (EqualFold (u_scheme u) "https") then Some EDowngrade
      else None
  end.

(** The [CheckRedirect] hook of [New]. *)
Definition CheckRedirect (u : URL) (via : list URL) (w : W) : option HttpErr * list HttpEvent * W :=
  if 10 <=? length via then (Some ETooManyRedirects, [], w)
  else match checkRedirectCreds u via with
       | Some e => (Some e, [], w)
       | None => let '(e, ev, w) := checkDest u w in (EDest <$> e, ev, w)
       end.

(** [http.Client.Do]: the round trip, and one more for each redirect that the
    hook lets pass.  The answer to a refused redirect is returned beside the
    error.  [None]: out of fuel. *)
Fixpoint client_Do (fuel : nat) (via : list URL) (u : URL) (w : W) : option (option Z * option HttpErr * list HttpEvent * W) :=
  match fuel with
  | O => None
  | S fuel =>
      let '(r, w) := hw_Send u w in
      match r with
      | None => Some (None, Some ETransport, [Sent u], w)
      | Some (code, None) => Some (Some code, None, [Sent u], w)
      | Some (code, Some u') =>
          let '(e, ev, w) := CheckRedirect u' (via ++ [u]) w in
          match e with
          | Some e => Some (Some code, Some e, Sent u :: ev, w)
          | None => '(c, e, ev', w) ← client_Do fuel (via ++ [u]) u' w; Some (c, e, Sent u :: ev ++ ev', w)
          end
      end
  end.

Definition maxRequests : nat := 10.

(** The rate token, then the request, then the observer. *)
Definition Do (u : URL) (w : W) : option (option Z * option HttpErr * list HttpEvent * W) :=
  match checkDest u w with
  | (Some e, ev, w) => Some (None, Some (EDest e), ev, w)
  | (None, ev, w) =>
      let '(ok, w) := if h_Limiter cfg then hw_Wait w else (true, w) in
      if negb ok then Some (None, Some ELimiter, ev, w)
      else '(code, e, ev', w) ← client_Do maxRequests [] u w;
           let obs := if h_Observer cfg then [Observed (u_hostname u) (default 0%Z code) (bool_decide (e <> None))] else [] in
           Some (code, e, ev ++ ev' ++ obs, w)
  end.

(** The dialer's [Control] hook: [SplitHostPort] and the check of the
    resolved address. *)
Context (SplitHost : string -> option string).
Inductive DialErr := BadAddress | UnresolvedAddress | DialBlocked (why : Blocked).
Definition guardControl (address : string) : option DialErr :=
  match SplitHost address with
  | None => Some BadAddress
  | Some host => match ParseIP host with
                 | None => Some UnresolvedAddress
                 | Some ip => DialBlocked <$> blockedIP ip (h_AllowPrivate cfg)
                 end
  end.

(** ** What reaches the network *)

(** The destination [u] was checked last thing in [pre]. *)
Definition dest_ok (u : URL) (pre : list HttpEvent) : Prop :=
  let host := ToLower uni (u_hostname u) in
  host <> "" /\ (h_AllowHosts cfg = [] \/ exists h, h ∈ h_AllowHosts cfg /\ ToLower uni h = host) /\
  match ParseIP host with
  | Some ip => blockedIP ip (h_AllowPrivate cfg) = None
  | None => exists pre' addrs, pre = pre' ++ [Looked host (Some addrs)] /\ forall ip, ip ∈ addrs -> blockedIP ip (h_AllowPrivate cfg) = None
  end.

(** A hop that may carry the credentials of a request to [origin]. *)
Definition creds_ok (origin v : URL) : Prop :=
  v = origin \/
  EqualFold (u_hostname v) (u_hostname origin) = true /\
  (EqualFold (u_scheme origin) "https" = true -> EqualFold (u_scheme v) "https" = true).

Definition is_sent (e : HttpEvent) : bool := match e with Sent _ => true | _ => false end.
Definition is_observed (e : HttpEvent) : bool := match e with Observed _ _ _ => true | _ => false end.

(** Every request of [ev] is checked, after the events [pre]. *)
Fixpoint sends_ok (origin : URL) (pre ev : list HttpEvent) : Prop :=
  match ev with
  | [] => True
  | x :: ev =>
      match x with Sent v => dest_ok v pre /\ creds_ok origin v | _ => True end /\ sends_ok origin (pre ++ [x]) ev
  end.

Lemma sends_ok_app origin pre ev ev' :
  sends_ok origin pre ev -> sends_ok origin (pre ++ ev) ev' -> sends_ok origin pre (ev ++ ev').
Proof.
  revert pre. induction ev as [|x ev IH]; intros pre; cbn [sends_ok app]; [by rewrite app_nil_r|].
  intros [Hx Hev] Hev'. split; [done|]. apply IH; [done|]. by rewrite <-app_assoc.
Qed.

Lemma sends_ok_none origin pre ev : Forall (fun e => is_sent e = false) ev -> sends_ok origin pre ev.
Proof. intros Hev. revert pre. induction Hev as [|x ev Hx Hev IH]; intros pre; [done|]. split; [by destruct x|apply IH]. Qed.

Lemma sends_ok_split origin pre ev p v post :
  sends_ok origin pre ev -> ev = p ++ Sent v :: post -> dest_ok v (pre ++ p) /\ creds_ok origin v.
Proof.
  revert pre ev. induction p as [|x p IH]; intros pre ev Hev ->; cbn [app sends_ok] in Hev.
  - rewrite app_nil_r. apply Hev.
  - destruct Hev as [_ Hev]. specialize (IH _ _ Hev eq_refl). by rewrite <-app_assoc in IH.
Qed.

Lemma none_blocked addrs ap :
  head (omap (fun ip => blockedIP ip ap) addrs) = None -> forall ip, ip ∈ addrs -> blockedIP ip ap = None.
Proof.
  intros Hh ip Hip. destruct (blockedIP ip ap) as [e|] eqn:He; [|done].
  assert (e ∈ omap (fun ip => blockedIP ip ap) addrs) as Hin by (apply list_elem_of_omap; by exists ip).
  destruct (omap _ addrs); [by apply not_elem_of_nil in Hin|done].
Qed.

Lemma checkDest_spec u w e ev w' :
  checkDest u w = (e, ev, w') ->
  Forall (fun x => is_sent x = false /\ is_observed x = false) ev /\ (e = None -> forall pre, dest_ok u (pre ++ ev)).
Proof.
  unfold checkDest, dest_ok. destruct (negb _ && _) eqn:Hal; [by intros [= <- <- <-]|]. case_decide as Hh; [by intros [= <- <- <-]|].
  assert (h_AllowHosts cfg = [] \/ exists h, h ∈ h_AllowHosts cfg /\ ToLower uni h = ToLower uni (u_hostname u)) as Hallow.
  { apply andb_false_iff in Hal as [Hal|Hal]; apply negb_false_iff in Hal; [by left; apply bool_decide_eq_true in Hal|right].
    apply existsb_exists in Hal as (h & Hin & Heq). exists h. split; [by apply list_elem_of_In|by apply bool_decide_eq_true in Heq]. }
  destruct (ParseIP _) as [ip|].
  - intros [= <- <- <-]. split; [constructor|]. intros He pre. split_and!; try done. by destruct (blockedIP ip _).
  - destruct (hw_Lookup _ w) as [addrs w1]. intros [= <- <- <-]. split; [by repeat constructor|]. intros He pre. split_and!; try done.
    destruct addrs as [l|]; [|done]. exists pre, l. split; [done|]. apply none_blocked. by destruct (head _).
Qed.

Lemma CheckRedirect_spec u origin via w e ev w' :
  CheckRedirect u (origin :: via) w = (e, ev, w') ->
  Forall (fun x => is_sent x = false /\ is_observed x = false) ev /\
  (e = None -> S (length via) < 10 /\ creds_ok origin u /\ forall pre, dest_ok u (pre ++ ev)).
Proof.
  unfold CheckRedirect. destruct (10 <=? length (origin :: via)) eqn:Hl; [by intros [= <- <- <-]|]. apply Nat.leb_gt in Hl.
  unfold checkRedirectCreds. destruct (EqualFold (u_hostname u) _) eqn:Hh; [|by intros [= <- <- <-]]. cbn [negb].
  destruct (EqualFold (u_scheme origin) "https" && _) eqn:Hs; [by intros [= <- <- <-]|].
  destruct (checkDest u w) as [[e1 ev1] w1] eqn:Hd. intros [= <- <- <-]. apply checkDest_spec in Hd as [Hev Hok].
  split; [done|]. intros He. destruct e1; [done|]. split; [done|]. split; [|by apply Hok].
  right. split; [done|]. intros Hhttps. rewrite Hhttps in Hs. by apply negb_false_iff in Hs.
Qed.

Definition sent_of (ev : list HttpEvent) : list HttpEvent := filter (fun e => is_sent e = true) ev.

Lemma sent_of_none ev : Forall (fun x => is_sent x = false /\ is_observed x = false) ev -> sent_of ev = [].
Proof. intros Hev. unfold sent_of. induction Hev as [|x ev [Hx _] Hev IH]; [done|]. rewrite filter_cons_False; [done|]. by rewrite Hx. Qed.

Lemma sent_of_cons u ev : sent_of (Sent u :: ev) = Sent u :: sent_of ev.
Proof. done. Qed.

Lemma sent_of_app ev ev' : sent_of (ev ++ ev') = sent_of ev ++ sent_of ev'.
Proof. apply filter_app. Qed.

Lemma client_Do_spec fuel origin via u w pre :
  length via + fuel = 10 -> 0 < fuel -> head (via ++ [u]) = Some origin -> dest_ok u pre -> creds_ok origin u ->
  exists code e ev w', client_Do fuel via u w = Some (code, e, ev, w') /\
    sends_ok origin pre ev /\ 0 < length (sent_of ev) <= fuel /\ Forall (fun x => is_observed x = false) ev /\
    (e = None -> is_Some code).
Proof.
  revert via u w pre. induction fuel as [|fuel IH]; intros via u w pre Hlen Hfuel Horigin Hd Hc; [lia|]. cbn [client_Do].
  destruct (hw_Send u w) as [[[code [u'|]]|] w1].
  - destruct (via ++ [u]) as [|o via'] eqn:Hvia; [done|]. injection Horigin as ->.
    assert (length via = length via') as Hlv by (apply (f_equal length) in Hvia; rewrite length_app in Hvia; cbn in Hvia; lia).
    destruct (CheckRedirect u' (origin :: via') w1) as [[e ev] w2] eqn:Hr. apply CheckRedirect_spec in Hr as [Hev Hok].
    pose proof (sent_of_none ev Hev) as Hns.
    assert (Forall (fun x => is_sent x = false) ev) as Hev1 by (eapply Forall_impl; [exact Hev|naive_solver]).
    assert (Forall (fun x => is_observed x = false) ev) as Hev2 by (eapply Forall_impl; [exact Hev|naive_solver]).
    destruct e as [e|].
    + do 4 eexists. split; [reflexivity|]. rewrite sent_of_cons, Hns.
      split_and!; [by split; [|apply sends_ok_none]|cbn; lia|cbn; lia|by constructor|done].
    + destruct (Hok eq_refl) as (Hl & Hc' & Hd').
      destruct (IH (origin :: via') u' w2 ((pre ++ [Sent u]) ++ ev)) as (c & e & ev' & w3 & Hdo & Hs & Hn & Ho & Hcode); [cbn; lia|lia|done|apply Hd'|done|].
      rewrite Hdo. do 4 eexists. split; [reflexivity|]. rewrite sent_of_cons, sent_of_app, Hns. cbn [app length].
      split_and!; [split; [done|]; apply sends_ok_app; [by apply sends_ok_none|done]|lia|lia|constructor; [done|by apply Forall_app]|done].
  - do 4 eexists. split; [reflexivity|]. change (length (sent_of [Sent u])) with 1.
    split_and!; [done|lia|lia|by constructor|done].
  - do 4 eexists. split; [reflexivity|]. change (length (sent_of [Sent u])) with 1.
    split_and!; [done|lia|lia|by constructor|done].
Qed.

(** What a call did to the network, and what it returned. *)
Record egress_ok (u : URL) (code : option Z) (e : option HttpErr) (ev : list HttpEvent) : Prop := {
  eg_answer : e = None -> is_Some code;
  eg_sent pre v post : ev = pre ++ Sent v :: post -> dest_ok v pre /\ creds_ok u v;
  eg_bound : length (sent_of ev) <= 10;
  eg_observed : exists body, Forall (fun x => is_observed x = false) body /\ sent_of body = sent_of ev /\
    ev = body ++ (if h_Observer cfg && (0 <? length (sent_of ev)) then
                    [Observed (u_hostname u) (default 0%Z code) (bool_decide (e <> None))] else [])
}.

Lemma egress_quiet u err ev :
  Forall (fun x => is_sent x = false /\ is_observed x = false) ev -> egress_ok u None (Some err) ev.
Proof.
  intros Hev. pose proof (sent_of_none ev Hev) as Hns. split; [done| | |].
  - intros pre v post ->. apply Forall_app in Hev as [_ [[Hv _] _]%Forall_cons]. done.
  - rewrite Hns. cbn. lia.
  - exists ev. rewrite Hns, andb_false_r, app_nil_r. split_and!; try done. eapply Forall_impl; [exact Hev|naive_solver].
Qed.

(** C19: nothing leaves unchecked, and a call always returns.  Every request
    put on the wire, redirects included, goes to a named host of the
    allow-list whose address (or whose every freshly resolved address) the
    egress predicate accepts; it stays on the host of the first request and
    never falls from https to anything else, so the credential header cannot
    leak; there are at most ten.  The observer runs exactly once, last, when
    something was sent, and never otherwise. *)
Theorem Do_egress u w : exists code e ev w', Do u w = Some (code, e, ev, w') /\ egress_ok u code e ev.
Proof.
  unfold Do. destruct (checkDest u w) as [[e ev] w1] eqn:Hd. apply checkDest_spec in Hd as [Hev Hok].
  destruct e as [e|]; [by do 4 eexists; split; [reflexivity|apply egress_quiet]|].
  destruct (if h_Limiter cfg then hw_Wait w1 else (true, w1)) as [[] w2]; cbn [negb];
    [|by do 4 eexists; split; [reflexivity|apply egress_quiet]].
  destruct (client_Do_spec maxRequests u [] u w2 ev) as (code & e & ev' & w3 & -> & Hs & Hn & Ho & Hc);
    [done|unfold maxRequests; lia|done|by apply (Hok eq_refl [])|by left|].
  do 4 eexists. split; [reflexivity|]. pose proof (sent_of_none ev Hev) as Hns.
  assert (Forall (fun x => is_sent x = false) ev) as Hev1 by (eapply Forall_impl; [exact Hev|naive_solver]).
  assert (Forall (fun x => is_observed x = false) ev) as Hev2 by (eapply Forall_impl; [exact Hev|naive_solver]).
  set (obs := if h_Observer cfg then _ else _).
  assert (sent_of obs = [] /\ Forall (fun x => is_sent x = false) obs) as [Hos Ho'] by (subst obs; destruct (h_Observer cfg); by repeat constructor).
  assert (sent_of (ev ++ ev' ++ obs) = sent_of ev') as Hsent by by rewrite !sent_of_app, Hns, Hos, app_nil_r.
  split; [done| |by rewrite Hsent; unfold maxRequests in Hn; lia|].
  - intros pre v post Heq. apply (sends_ok_split u [] (ev ++ ev' ++ obs) pre v post); [|done].
    apply sends_ok_app; [by apply sends_ok_none|]. apply sends_ok_app; [done|by apply sends_ok_none].
  - exists (ev ++ ev'). rewrite Hsent, sent_of_app, Hns. split; [by apply Forall_app|]. split; [done|].
    rewrite <-app_assoc. do 2 f_equal. subst obs. assert ((0 <? length (sent_of ev')) = true) as -> by (apply Nat.ltb_lt; lia).
    by rewrite andb_true_r.
Qed.
End client.

(** ** Errors in log lines *)

(** A Go error chain: a transport error with its URL, a wrapper with its own
    text, or a plain error. *)
Inductive goerr :=
| UrlError (op url : string) (inner : goerr)
| WrapError (text : string) (inner : goerr)
| PlainError (text : string).

(** [errors.As] for a [*url.Error]. *)
Fixpoint as_url_error (e : goerr) : option (string * string * goerr) :=
  match e with
  | UrlError op url inner => Some (op, url, inner)
  | WrapError _ inner => as_url_error inner
  | PlainError _ => None
  end.

(** [url.URL] by the fields [stripQuery] clears; the rest is scheme, user,
    host and path. *)
Record ParsedURL := mkParsed { p_rest : string; p_RawQuery : string; p_ForceQuery : bool; p_Fragment : string; p_RawFragment : string }.

(** [strings.Cut] at a byte: the part before it. *)
Fixpoint cut_before (sep : Ascii.ascii) (s : string) : string :=
  match s with
  | EmptyString => ""
  | String a s' => if Ascii.eqb a sep then "" else String a (cut_before sep s')
  end.

Section errors.
(** [url.Parse], [URL.Redacted], [fmt.Sprintf] of the message, and
    [strings.Fields] beyond ASCII. *)
Context (url_parse : string -> option ParsedURL) (Redacted : ParsedURL -> string) (quote : string -> string).
Context (fields_uni : string -> list string).

Definition stripQuery (raw : string) : string :=
  match url_parse raw with
  | None => cut_before "?"%char raw
  | Some u => Redacted (mkParsed (p_rest u) "" false "" "")
  end.

(** [None] is the nil error. *)
Definition RedactURLError (e : option goerr) : option goerr :=
  match e with
  | None => None
  | Some err => match as_url_error err with
                | None => Some err
                | Some (op, url, inner) => Some (WrapError (op +:+ " " +:+ quote (stripQuery url) +:+ ": ") inner)
                end
  end.

(** The words of an ASCII text: [cur] is the word being read, reversed. *)
Fixpoint fields_go (s cur : string) : list string :=
  match s with
  | EmptyString => if decide (cur = "") then [] else [rev_string cur]
  | String a s' =>
      if is_space a then (if decide (cur = "") then fields_go s' "" else rev_string cur :: fields_go s' "")
      else fields_go s' (String a cur)
  end.

Definition Fields (s : string) : list string := if is_ascii s then fields_go s "" else fields_uni s.

(** [None] is a nil response or body. *)
Definition ErrSnippet (body : option string) : string :=
  match body with
  | None => ""
  | Some b => join_with " "%char (Fields (LimitReader 512 b))
  end.

(** A message does not depend on the query or the fragment of its URL, nor on
    anything after the first question mark of a URL that does not parse. *)
Lemma redact_hides op u1 u2 inner :
  match url_parse u1, url_parse u2 with
  | Some p1, Some p2 => p_rest p1 = p_rest p2
  | None, None => cut_before "?"%char u1 = cut_before "?"%char u2
  | _, _ => False
  end ->
  RedactURLError (Some (UrlError op u1 inner)) = RedactURLError (Some (UrlError op u2 inner)).
Proof. unfold RedactURLError, stripQuery. cbn. destruct (url_parse u1), (url_parse u2); try done; by intros ->. Qed.

End errors.

(** ** A concrete network *)

Module Sim.
(** The destination redirects as often as the world says; the name resolves
    to one address. *)
Record World := mkWorld { w_ip : IP; w_hops : list (option URL) }.
#[global] Instance world : HttpWorld World :=
  {| hw_Lookup _ w := (Some [w_ip w], w);
     hw_Wait w := (true, w);
     hw_Send _ w := match w_hops w with
                    | [] => (Some (200%Z, None), w)
                    | hop :: hops => (Some (302%Z, hop), mkWorld (w_ip w) hops)
                    end |}.
Definition no_ip (_ : string) : option IP := None.
Definition id (s : string) : string := s.
Definition never (_ _ : string) : bool := false.
Definition config : HttpConfig := mkHttpConfig ["api"] false true true.
Definition api (scheme : string) : URL := mkURL scheme "API".
Definition call (ip : IP) (hops : list URL) :=
  Do no_ip id never config (api "https") (mkWorld ip (Some <$> hops)).
End Sim.

(** Two hops on one host are followed; a downgrade and a private address are
    refused. *)
Example client_runs :
  (option_map (fun r => r.1) (Sim.call (v4 8 8 8 8) [Sim.api "HTTPS"]) =
     Some (Some 200%Z, None, [Looked "api" (Some [v4 8 8 8 8]); Sent (Sim.api "https"); Looked "api" (Some [v4 8 8 8 8]);
                              Sent (Sim.api "HTTPS"); Observed "API" 200 false])) /\
  (option_map (fun r => r.1) (Sim.call (v4 8 8 8 8) [Sim.api "http"]) =
     Some (Some 302%Z, Some EDowngrade, [Looked "api" (Some [v4 8 8 8 8]); Sent (Sim.api "https"); Observed "API" 302 true])) /\
  option_map (fun r => r.1) (Sim.call [10; 0; 0; 1]%Z []) =
    Some (None, Some (EDest (BlockedDest BlockedPrivate)), [Looked "api" (Some [[10; 0; 0; 1]%Z])]).
Proof. split_and!; vm_compute; reflexivity. Qed.

Lemma blockedIP_exact_witness :
  (blockedIP (v4 100 100 7 7) true = None <-> permitted (v4 100 100 7 7) true = true) /\ permitted (v4 100 100 7 7) true = false /\
  permitted [8; 8; 8; 8]%Z false = true.
Proof.
  split; [|split; vm_compute; reflexivity]. apply blockedIP_exact. split; [right; reflexivity|]. repeat constructor; lia.
Defined.
