(* ===== verification/ConfigSecrets.v ===== *)
(** * Secret references (internal/config/config.go)

    [${VAR}] references become placeholders that are safe in any YAML context,
    the parsed tree gets the real values, and an error text loses them again.
    The environment and the files are parameters; a Go map is ranged over in
    an order the language leaves open, which is the argument [range]. *)

From S2P Require Import Prelude Model.

(** ** References *)

Definition ident_start (a : Ascii.ascii) : bool := byte_in a 65 90 || byte_in a 97 122 || Ascii.eqb a "_"%char.
Definition ident_char (a : Ascii.ascii) : bool := ident_start a || byte_in a 48 57.

(** The longest prefix whose bytes satisfy [f], and the rest. *)
Fixpoint span (f : Ascii.ascii -> bool) (s : string) : string * string :=
  match s with
  | EmptyString => ("", "")
  | String a s' => if f a then let '(x, y) := span f s' in (String a x, y) else ("", s)
  end.

(** A match of [envRefRe] at the start of [s]: the name and what follows. *)
Definition env_ref (s : string) : option (string * string) :=
  if has_prefix "${" s then
    let '(name, r) := span ident_char (string_drop 2 s) in
    match name, r with
    | String a _, String c rest => if ident_start a && Ascii.eqb c "}"%char then Some (name, rest) else None
    | _, _ => None
    end
  else None.

Inductive piece := PByte (a : Ascii.ascii) | PRef (name : string).

(** The matches of [envRefRe], leftmost first, and the bytes between them;
    [fuel] bounds the scan by the length of [s]. *)
Fixpoint env_scan (fuel : nat) (s : string) : list piece :=
  match fuel, s with
  | 0, _ | _, EmptyString => []
  | S fuel, String a s' =>
      match env_ref s with
      | Some (name, rest) => PRef name :: env_scan fuel rest
      | None => PByte a :: env_scan fuel s'
      end
  end.
Definition env_pieces (s : string) : list piece := env_scan (slen s) s.

Definition ref_text (name : string) : string := "${" +:+ name +:+ "}".

(** The token of the [i]-th resolved reference. *)
Definition placeholder (i : nat) : string := "genai-otel-bridgeXsecretX" +:+ FormatInt (Z.of_nat i) +:+ "Xgenai-otel-bridge".

(** [%q] of a reference's name: its letters, digits and underscores need no escape. *)
Definition quoted (s : string) : string := String (Ascii.ascii_of_nat 34) (s +:+ String (Ascii.ascii_of_nat 34) "").

Section secrets.
(** [os.Getenv], [os.ReadFile], [strings.TrimSpace] beyond ASCII, and the
    order in which a map is ranged over. *)
Context (Getenv : string -> string) (ReadFile : string -> option string) (trim_uni : string -> string).
Context (range : gmap string string -> list (string * string)).

(** What the callback of [ReplaceAllStringFunc] keeps. *)
Record injecting := mkInjecting { ij_out : string; ij_ph : gmap string string; ij_firstErr : option string; ij_i : nat }.

Definition inject_piece (st : injecting) (p : piece) : injecting :=
  match p with
  | PByte a => mkInjecting (ij_out st +:+ String a "") (ij_ph st) (ij_firstErr st) (ij_i st)
  | PRef key =>
      let v := Getenv key in
      if decide (v = "") then
        mkInjecting (ij_out st +:+ ref_text key) (ij_ph st)
          (match ij_firstErr st with None => Some ("config: required env " +:+ quoted key +:+ " is unset") | e => e end) (ij_i st)
      else
        let tok := placeholder (ij_i st) in
        mkInjecting (ij_out st +:+ tok) (<[tok := v]> (ij_ph st)) (ij_firstErr st) (S (ij_i st))
  end.

Definition injectEnvPlaceholders (s : string) : result string (string * gmap string string) :=
  let st := foldl inject_piece (mkInjecting "" ∅ None 0) (env_pieces s) in
  match ij_firstErr st with Some e => Err e | None => Ok (ij_out st, ij_ph st) end.

Definition redact_step (msg : string) (kv : string * string) : string :=
  if 3 <? slen kv.2 then ReplaceAll msg kv.2 "[redacted]" else msg.
Definition redactSecretValues (msg : string) (ph : gmap string string) : string :=
  foldl redact_step msg (range ph).

(** ** The tree *)

Inductive yamlKind := DocumentNode | SequenceNode | MappingNode | ScalarNode | AliasNode.

(** What the walk reads and writes of a [yaml.Node]; the tag stands for the
    fields it leaves alone. *)
Inductive Node := YNode (kind : yamlKind) (tag value : string) (content : list Node).

Definition subst_step (val : string) (kv : string * string) : string := if contains val kv.1 then ReplaceAll val kv.1 kv.2 else val.
Definition substitute (ph : gmap string string) (val : string) : string :=
  foldl subst_step val (range ph).

Definition resolve_scalar (ph : gmap string string) (val : string) : result string string :=
  let val := substitute ph val in
  if has_prefix "file:" val then
    let p := TrimSpace trim_uni (string_drop 5 val) in
    match ReadFile p with
    | None => Err ("config: file secret " +:+ p)
    | Some b => Ok (TrimSpace trim_uni b)
    end
  else Ok val.

(** A failed walk leaves a half-resolved tree behind, which the caller drops. *)
Fixpoint resolveSecretsNode (ph : gmap string string) (n : Node) : result string Node :=
  match n with
  | YNode k tag val content =>
      match k with
      | DocumentNode | SequenceNode | MappingNode =>
          let? content :=
            (fix walk (l : list Node) : result string (list Node) :=
               match l with
               | [] => Ok []
               | c :: l => let? c := resolveSecretsNode ph c in let? l := walk l in Ok (c :: l)
               end) content in
          Ok (YNode k tag val content)
      | ScalarNode => let? val := resolve_scalar ph val in Ok (YNode k tag val content)
      | AliasNode => Ok n
      end
  end.
End secrets.

(** ** Scanning is exact *)

Definition piece_text (p : piece) : string := match p with PByte a => String a "" | PRef name => ref_text name end.
Fixpoint pieces_text (l : list piece) : string := match l with [] => "" | p :: l => piece_text p +:+ pieces_text l end.
Definition piece_names (l : list piece) : list string := omap (fun p => match p with PRef n => Some n | PByte _ => None end) l.

Lemma span_app f s : (span f s).1 +:+ (span f s).2 = s.
Proof. induction s as [|a s IH]; [done|]. simpl. destruct (f a); [|done]. destruct (span f s). simpl in *. by rewrite string_app_cons, IH. Qed.

Lemma env_ref_spec s name rest : env_ref s = Some (name, rest) -> s = ref_text name +:+ rest.
Proof.
  unfold env_ref, ref_text. destruct (has_prefix "${" s) eqn:Hp; [|done]. apply has_prefix_spec in Hp as [r ->].
  change (string_drop 2 ("${" +:+ r)) with r. pose proof (span_app ident_char r) as Hr.
  destruct (span ident_char r) as [n t]. cbn [fst snd] in Hr. destruct n as [|a n]; [done|]. destruct t as [|c t]; [done|].
  destruct (ident_start a && _) eqn:Hc; [|done]. apply andb_prop in Hc as [_ ->%Ascii.eqb_eq]. intros [= <- <-].
  rewrite <-Hr, !string_app_assoc. done.
Qed.

Lemma env_scan_text fuel s : slen s <= fuel -> pieces_text (env_scan fuel s) = s.
Proof.
  revert s. induction fuel as [|fuel IH]; intros [|a s] Hl; try done; [simpl in Hl; lia|]. cbn [env_scan].
  destruct (env_ref (String a s)) as [[name rest]|] eqn:He.
  - apply env_ref_spec in He. rewrite He. cbn [pieces_text piece_text]. rewrite IH; [done|].
    apply (f_equal slen) in He. rewrite string_app_length in He. unfold ref_text in He. rewrite !string_app_length in He. simpl in *. lia.
  - cbn [pieces_text piece_text]. rewrite IH by (simpl in Hl; lia). done.
Qed.

Lemma env_pieces_text s : pieces_text (env_pieces s) = s.
Proof. by apply env_scan_text. Qed.

(** ** Placeholders *)

Lemma placeholder_inj i j : placeholder i = placeholder j -> i = j.
Proof.
  unfold placeholder. intros [_ Heq]%string_app_inj_length; [|done].
  apply string_app_inj_length in Heq as [Hd _]; [apply FormatInt_inj in Hd; lia|].
  apply (f_equal slen) in Heq. rewrite !string_app_length in Heq. lia.
Qed.

Section injected.
Context (Getenv : string -> string).

(** The text with its references numbered, and the values by number. *)
Fixpoint with_tokens (i : nat) (l : list piece) : string :=
  match l with
  | [] => ""
  | PByte a :: l => String a (with_tokens i l)
  | PRef _ :: l => placeholder i +:+ with_tokens (S i) l
  end.

Lemma inject_err l st : ij_firstErr st <> None -> ij_firstErr (foldl (inject_piece Getenv) st l) = ij_firstErr st.
Proof.
  revert st. induction l as [|p l IH]; intros st Hst; [done|]. cbn [foldl]. rewrite IH.
  - destruct p; cbn [inject_piece]; [done|]. case_decide; [|done]. simpl. by destruct (ij_firstErr st).
  - destruct p; cbn [inject_piece]; [done|]. case_decide; [|done]. simpl. by destruct (ij_firstErr st).
Qed.

Lemma inject_fold l st :
  ij_firstErr st = None ->
  let st' := foldl (inject_piece Getenv) st l in
  match list_find (fun n => Getenv n = "") (piece_names l) with
  | Some (_, n) => ij_firstErr st' = Some ("config: required env " +:+ quoted n +:+ " is unset")
  | None =>
      ij_firstErr st' = None /\ ij_out st' = ij_out st +:+ with_tokens (ij_i st) l /\
      ij_ph st' = list_to_map (imap (fun j n => (placeholder (ij_i st + j), Getenv n)) (piece_names l)) ∪ ij_ph st
  end.
Proof.
  revert st. induction l as [|p l IH]; intros st Hst; cbv zeta; cbn [foldl].
  { simpl. split_and!; [done|by rewrite string_app_nil_r|by rewrite (left_id_L ∅ _)]. }
  destruct p as [a|key]; cbn [inject_piece].
  - specialize (IH (mkInjecting (ij_out st +:+ String a "") (ij_ph st) (ij_firstErr st) (ij_i st)) Hst). cbv zeta in IH.
    change (piece_names (PByte a :: l)) with (piece_names l).
    destruct (list_find _ (piece_names l)) as [[? n]|]; [exact IH|]. destruct IH as (He & Ho & Hp). split_and!; [done| |done].
    rewrite Ho. cbn [ij_out ij_i with_tokens]. by rewrite string_app_assoc, string_app_cons.
  - change (piece_names (PRef key :: l)) with (key :: piece_names l). cbn [list_find].
    destruct (decide (Getenv key = "")) as [Hk|Hk].
    { rewrite inject_err; simpl; by rewrite Hst. }
    specialize (IH (mkInjecting (ij_out st +:+ placeholder (ij_i st)) (<[placeholder (ij_i st) := Getenv key]> (ij_ph st)) (ij_firstErr st) (S (ij_i st))) Hst).
    cbv zeta in IH. destruct (list_find _ (piece_names l)) as [[? n]|]; [exact IH|]. destruct IH as (He & Ho & Hp).
    cbn [prod_map fmap option_fmap option_map]. split_and!; [done|rewrite Ho; cbn [ij_out ij_i with_tokens]; by rewrite string_app_assoc|].
    rewrite Hp. cbn [ij_ph ij_i imap list_to_map foldr fst snd]. rewrite Nat.add_0_r.
    rewrite (imap_ext _ ((fun j n => (placeholder (ij_i st + j), Getenv n)) ∘ S)) by (intros; simpl; by rewrite Nat.add_succ_r).
    rewrite <-insert_union_l. rewrite insert_union_r; [done|].
    apply not_elem_of_list_to_map. rewrite list_elem_of_fmap. intros ([t v] & Ht & Hin). cbn in Ht. subst t.
    apply elem_of_lookup_imap in Hin as (j & n & Hj & _). apply (f_equal fst) in Hj. cbn [fst] in Hj. apply placeholder_inj in Hj. lia.
Qed.

(** What [injectEnvPlaceholders] returns, exactly: the error names the first
    reference whose variable is unset; otherwise every reference has become
    its numbered token, every other byte is as it was, and the map gives each
    token the value of its variable. *)
Lemma injectEnvPlaceholders_exact s :
  let names := piece_names (env_pieces s) in
  match injectEnvPlaceholders Getenv s with
  | Err e => exists i n, names !! i = Some n /\ Getenv n = "" /\ (forall j m, names !! j = Some m -> j < i -> Getenv m <> "") /\
      e = "config: required env " +:+ quoted n +:+ " is unset"
  | Ok (out, ph) =>
      (forall n, n ∈ names -> Getenv n <> "") /\ out = with_tokens 0 (env_pieces s) /\
      forall tok v, ph !! tok = Some v <-> exists i n, names !! i = Some n /\ tok = placeholder i /\ v = Getenv n
  end.
Proof.
  cbv zeta. unfold injectEnvPlaceholders. pose proof (inject_fold (env_pieces s) (mkInjecting "" ∅ None 0) eq_refl) as Hf.
  cbv zeta in Hf. destruct (list_find _ _) as [[i n]|] eqn:Hl.
  - rewrite Hf. apply list_find_Some in Hl as (Hi & Hn & Hbefore). exists i, n. by eauto.
  - destruct Hf as (-> & -> & ->). apply list_find_None in Hl. rewrite Forall_forall in Hl. split_and!; [done|done|].
    cbn [ij_ph ij_i Nat.add]. intros tok v. rewrite (right_id_L ∅ _), <-elem_of_list_to_map.
    + rewrite elem_of_lookup_imap. split; [intros (i & n & Heq & Hi)|intros (i & n & Hi & -> & ->)].
      * exists i, n. split; [done|]. split; [apply (f_equal fst Heq)|apply (f_equal snd Heq)].
      * by exists i, n.
    + apply NoDup_alt. intros i j t. rewrite !list_lookup_fmap, !list_lookup_imap.
      destruct (_ !! i); [|done]. destruct (_ !! j); [|done]. cbn. intros Hi Hj. apply (placeholder_inj i j). congruence.
Qed.
End injected.

(** ** Redaction *)

Definition no_bracket (a : Ascii.ascii) : bool := negb (Ascii.eqb a "["%char) && negb (Ascii.eqb a "]"%char).

(** A secret value the mark cannot be confused with. *)
Definition redactable (v : string) : Prop := 3 < slen v /\ string_forallb no_bracket v = true /\ contains "redacted" v = false.

Lemma contains_app_l s (t : string) w : contains t w = true -> contains (s +:+ t) w = true.
Proof.
  intros Ht. induction s as [|a s IH]; [done|]. rewrite string_app_cons. cbn [contains]. by rewrite IH, orb_true_r.
Qed.

Lemma has_prefix_stop p a (t : string) w :
  string_forallb (fun b => negb (Ascii.eqb b a)) w = true -> has_prefix w (p +:+ String a t) = true -> has_prefix w p = true.
Proof.
  revert w. induction p as [|b p IH]; intros [|c w] Hw; try done.
  - cbn [string_forallb] in Hw. apply andb_prop in Hw as [Hc _]. change ("" +:+ ?x) with x. cbn [has_prefix].
    destruct (Ascii.eqb c a); [done|done].
  - rewrite string_app_cons. cbn [has_prefix string_forallb] in *. apply andb_prop in Hw as [_ Hw]. destruct (Ascii.eqb c b); [|done]. by apply IH.
Qed.

(** A text that does not use the byte [a] lies before it or after it. *)
Lemma contains_stop p a (t : string) w :
  w <> "" -> string_forallb (fun b => negb (Ascii.eqb b a)) w = true ->
  contains (p +:+ String a t) w = true -> contains p w = true \/ contains t w = true.
Proof.
  intros Hne Hw. induction p as [|b p IH].
  - change ("" +:+ ?x) with x. cbn [contains]. intros [Hp|Ht]%orb_prop; [|by right].
    apply (has_prefix_stop "" a t) in Hp; [|done]. by destruct w.
  - rewrite string_app_cons. cbn [contains]. intros [Hp|Ht]%orb_prop.
    + left. rewrite <-string_app_cons in Hp. apply has_prefix_stop in Hp; [|done]. by rewrite Hp.
    + destruct (IH Ht) as [->| ->]; [left; by rewrite orb_true_r|by right].
Qed.

Lemma no_bracket_free v : string_forallb no_bracket v = true ->
  string_forallb (fun b => negb (Ascii.eqb b "["%char)) v = true /\ string_forallb (fun b => negb (Ascii.eqb b "]"%char)) v = true.
Proof.
  induction v as [|a v IH]; [done|]. cbn [string_forallb]. unfold no_bracket at 1. intros [[-> ->]%andb_prop Hv]%andb_prop. by apply IH in Hv.
Qed.

(** Inserting the mark creates no occurrence. *)
Lemma mark_contains (t : string) w : redactable w -> contains ("[redacted]" +:+ t) w = true -> contains t w = true.
Proof.
  intros (Hl & [H1 H2]%no_bracket_free & Hr) Hc. assert (w <> "") as Hne by (by intros ->; simpl in Hl; lia).
  change ("[redacted]" +:+ t) with ("" +:+ String "["%char ("redacted" +:+ String "]"%char t)) in Hc.
  apply contains_stop in Hc as [Hc|Hc]; [by destruct w| |done..].
  apply contains_stop in Hc as [Hc|Hc]; [congruence|done..].
Qed.

Section replace.
Context (v : string) (Hv : v <> "").

Lemma replace_prefix fuel s w :
  string_forallb no_bracket w = true -> has_prefix w (replace_all_go fuel s v "[redacted]") = true -> has_prefix w s = true.
Proof.
  revert s w. induction fuel as [|fuel IH]; intros [|a s] w Hw; cbn [replace_all_go]; try done.
  destruct (has_prefix v (String a s)); intros Hp.
  - destruct w as [|c w]; [done|]. cbn [string_forallb] in Hw. apply andb_prop in Hw as [Hc _].
    change ("[redacted]" +:+ ?x) with (String "["%char ("redacted]" +:+ x)) in Hp. cbn [has_prefix] in Hp. unfold no_bracket in Hc.
    by destruct (Ascii.eqb c "["%char).
  - destruct w as [|c w]; [done|]. cbn [has_prefix] in *. destruct (Ascii.eqb c a); [|done]. cbn [string_forallb] in Hw. apply andb_prop in Hw as [_ Hw]. by apply IH.
Qed.

Lemma drop_contains n s w : contains (string_drop n s) w = true -> contains s w = true.
Proof.
  revert s. induction n as [|n IH]; intros [|a s]; try done. cbn [string_drop contains]. intros Hc%IH. by rewrite Hc, orb_true_r.
Qed.

Lemma replace_contains fuel s w : redactable w -> contains (replace_all_go fuel s v "[redacted]") w = true -> contains s w = true.
Proof.
  intros Hw. revert s. induction fuel as [|fuel IH]; intros [|a s]; cbn [replace_all_go]; try done.
  destruct (has_prefix v (String a s)) eqn:Hp; intros Hc.
  - apply mark_contains in Hc; [|done]. apply IH in Hc. by apply drop_contains in Hc.
  - cbn [contains] in *. apply orb_prop in Hc as [Hc|Hc]; [|by rewrite (IH _ Hc), orb_true_r].
    assert (has_prefix w (replace_all_go (S fuel) (String a s) v "[redacted]") = true) as Hc' by (cbn [replace_all_go]; by rewrite Hp).
    apply replace_prefix in Hc'; [by rewrite Hc'|apply Hw].
Qed.

Lemma replace_removes fuel s : redactable v -> slen s <= fuel -> contains (replace_all_go fuel s v "[redacted]") v = false.
Proof.
  intros Hr. revert s. induction fuel as [|fuel IH]; intros [|a s] Hl; cbn [replace_all_go]; try (simpl in Hl; lia); try (by destruct v).
  apply not_true_iff_false. destruct (has_prefix v (String a s)) eqn:Hp; intros Hc.
  - apply mark_contains in Hc; [|done]. rewrite IH in Hc; [done|]. rewrite string_drop_length. simpl in Hl. destruct v; [done|]. simpl. lia.
  - cbn [contains] in Hc. rewrite IH in Hc by (simpl in Hl; lia). rewrite orb_false_r in Hc.
    assert (has_prefix v (replace_all_go (S fuel) (String a s) v "[redacted]") = true) as Hc' by (cbn [replace_all_go]; by rewrite Hp).
    apply replace_prefix in Hc'; [congruence|apply Hr].
Qed.
End replace.

(** Whatever the order, no value that is longer than three bytes, free of
    brackets and no part of the mark survives. *)
Lemma redactSecretValues_removes range msg (ph : gmap string string) tok v :
  (forall m, range m ≡ₚ map_to_list m) -> ph !! tok = Some v -> redactable v -> contains (redactSecretValues range msg ph) v = false.
Proof.
  intros Hrange Hph Hr. unfold redactSecretValues. assert ((tok, v) ∈ range ph) as Hin by (by rewrite Hrange, elem_of_map_to_list).
  assert (forall l m, contains m v = false ->
    contains (foldl redact_step m l) v = false) as Hkeep.
  { induction l as [|[t u] l IH]; intros m Hm; [done|]. cbn [foldl snd]. apply IH. unfold redact_step. cbn [snd]. destruct (3 <? slen u); [|done].
    apply not_true_iff_false. intros Hc%replace_contains; [congruence|done]. }
  revert msg. induction (range ph) as [|[t u] l IH]; intros msg; [by apply elem_of_nil in Hin|]. cbn [foldl snd].
  apply elem_of_cons in Hin as [[= <- <-]|Hin]; [|by apply IH].
  apply Hkeep. unfold redact_step. cbn [snd]. destruct Hr as (Hl & ? & ?). apply Nat.ltb_lt in Hl as Hl'. rewrite Hl'. apply replace_removes; [by intros ->; simpl in Hl; lia|done|lia].
Qed.

(** ** Substitution *)

(** A scalar while it is being resolved: bytes, and tokens by number. *)
Inductive cell := CByte (a : Ascii.ascii) | CTok (i : nat).

Definition byte_cells (s : string) : list cell := CByte <$> String.list_ascii_of_string s.

Section cells.
Context (value : nat -> string).

Fixpoint render (T : list cell) : string :=
  match T with [] => "" | CByte a :: T => String a (render T) | CTok i :: T => placeholder i +:+ render T end.
Fixpoint expand (T : list cell) : string :=
  match T with [] => "" | CByte a :: T => String a (expand T) | CTok i :: T => value i +:+ expand T end.

(** The token [i] replaced by its value. *)
Definition fill (i : nat) (T : list cell) : list cell :=
  T ≫= fun c => match c with CTok j => if decide (j = i) then byte_cells (value i) else [c] | CByte _ => [c] end.

Definition marker : string := "XsecretX".

(** The resolved text does not spell the middle of a token. *)
Definition clean (T : list cell) : Prop := contains (expand T) marker = false.

Lemma render_bytes s T : render (byte_cells s ++ T) = s +:+ render T.
Proof. induction s as [|a s IH]; [done|]. rewrite string_app_cons, <-IH. done. Qed.

Lemma expand_bytes s T : expand (byte_cells s ++ T) = s +:+ expand T.
Proof. induction s as [|a s IH]; [done|]. rewrite string_app_cons, <-IH. done. Qed.

Lemma fill_cons i c T : fill i (c :: T) = match c with CTok j => if decide (j = i) then byte_cells (value i) else [c] | CByte _ => [c] end ++ fill i T.
Proof. done. Qed.

Lemma fill_expand i T : expand (fill i T) = expand T.
Proof.
  induction T as [|[a|j] T IH]; [done|..]; rewrite fill_cons.
  - cbn [app expand]. by rewrite IH.
  - case_decide as Hj; [subst; by rewrite expand_bytes, IH|]. cbn [app expand]. by rewrite IH.
Qed.

Lemma clean_tail c T : clean (c :: T) -> clean T.
Proof.
  unfold clean. intros Hc. apply not_true_iff_false. intros Ht. apply not_true_iff_false in Hc. apply Hc.
  destruct c as [a|i]; cbn [expand]; [|by apply contains_app_l].
  change (String a (expand T)) with (String a "" +:+ expand T). by apply contains_app_l.
Qed.

Lemma contains_prefix s w : has_prefix w s = true -> contains s w = true.
Proof. intros Hp. destruct s; cbn [contains]; by rewrite Hp. Qed.

(** A text without the first byte of a token is not cut by one. *)
Lemma prefix_expand w T :
  string_forallb (fun b => negb (Ascii.eqb b "g"%char)) w = true -> has_prefix w (render T) = true -> has_prefix w (expand T) = true.
Proof.
  revert T. induction w as [|b w IH]; intros T Hw; [by destruct (expand T)|]. cbn [string_forallb] in Hw. apply andb_prop in Hw as [Hb Hw].
  destruct T as [|[a|i] T]; [done|..].
  - cbn [render expand has_prefix]. destruct (Ascii.eqb b a); [|done]. by apply IH.
  - change (render (CTok i :: T)) with (String "g"%char (string_drop 1 (placeholder i) +:+ render T)). cbn [has_prefix].
    by destruct (Ascii.eqb b "g"%char).
Qed.

Lemma clean_bytes a T : clean (CByte a :: T) -> has_prefix marker (String a (render T)) = false.
Proof.
  unfold clean. intros Hc. apply not_true_iff_false. intros Hp. apply not_true_iff_false in Hc. apply Hc, contains_prefix.
  by apply (prefix_expand marker (CByte a :: T)).
Qed.

(** A text without [X] ends before the next [X]. *)
Lemma x_free_split p (r u w : string) :
  string_forallb (fun b => negb (Ascii.eqb b "X"%char)) p = true -> p +:+ r = u +:+ String "X"%char w ->
  exists u', u = p +:+ u' /\ r = u' +:+ String "X"%char w.
Proof.
  revert u. induction p as [|a p IH]; intros u Hp Heq; [by exists u|]. cbn [string_forallb] in Hp. apply andb_prop in Hp as [Ha Hp].
  rewrite string_app_cons in Heq. destruct u as [|b u].
  - injection Heq as -> _. done.
  - rewrite string_app_cons in Heq. injection Heq as -> Heq. destruct (IH u Hp Heq) as (u' & -> & ->). exists u'. by rewrite string_app_cons.
Qed.

(** An [X] is the [X] that is there, or lies behind it. *)
Lemma x_split (r u w : string) :
  String "X"%char r = u +:+ String "X"%char w -> (u = "" /\ r = w) \/ exists u', u = String "X"%char u' /\ r = u' +:+ String "X"%char w.
Proof.
  destruct u as [|a u]; [intros [= ->]; by left|]. rewrite string_app_cons. intros [= <- Heq]. right. by exists u.
Qed.

Lemma digits_no_x i : string_forallb (fun b => negb (Ascii.eqb b "X"%char)) (FormatInt (Z.of_nat i)) = true.
Proof.
  pose proof (FormatInt_nat_digits i) as Hd. induction (FormatInt (Z.of_nat i)) as [|a s IH]; [done|]. cbn [string_forallb] in *.
  apply andb_prop in Hd as [Ha Hd]. rewrite IH by done. destruct (Ascii.eqb_spec a "X"%char) as [->|]; [done|done].
Qed.

Lemma digits_head i (r w : string) : FormatInt (Z.of_nat i) +:+ r = "secretX" +:+ w -> False.
Proof.
  pose proof (FormatInt_nat_digits i) as Hd. destruct (FormatInt (Z.of_nat i)) as [|a s] eqn:Hf.
  - unfold FormatInt, pretty, pretty_Z in Hf. destruct (Z.of_nat i) eqn:Hz; [done| |lia]. by apply pretty_N_nonempty in Hf.
  - cbn [string_forallb] in Hd. apply andb_prop in Hd as [Ha _]. rewrite string_app_cons. intros Heq.
    change ("secretX" +:+ w) with (String "s"%char ("ecretX" +:+ w)) in Heq. injection Heq as -> _. done.
Qed.

Definition token_head : string := "genai-otel-bridge".

(** The marker in one token, or behind it. *)
Lemma marker_in_token i (r u w : string) :
  placeholder i +:+ r = u +:+ marker +:+ w -> u = token_head \/ exists u', u = placeholder i +:+ u' /\ r = u' +:+ marker +:+ w.
Proof.
  unfold marker. change ("XsecretX" +:+ w) with (String "X"%char ("secretX" +:+ w)). set (w' := "secretX" +:+ w).
  replace (placeholder i +:+ r) with
    (token_head +:+ String "X"%char ("secret" +:+ String "X"%char (FormatInt (Z.of_nat i) +:+ String "X"%char (token_head +:+ r)))).
  2: { unfold placeholder. by rewrite !string_app_assoc. }
  intros (u1 & -> & H1)%x_free_split; [|done]. apply x_split in H1 as [[-> _]|(u2 & -> & H2)]; [left; apply string_app_nil_r|right].
  apply x_free_split in H2 as (u3 & -> & H3); [|done]. apply x_split in H3 as [[-> H3]|(u4 & -> & H4)]; [by apply digits_head in H3|].
  apply x_free_split in H4 as (u5 & -> & H5); [|apply digits_no_x]. apply x_split in H5 as [[-> H5]|(u6 & -> & H6)]; [done|].
  apply x_free_split in H6 as (u7 & -> & ->); [|done]. exists u7. split; [|done]. unfold placeholder. by rewrite !string_app_assoc.
Qed.

Lemma marker_in_render T (u w : string) :
  clean T -> render T = u +:+ marker +:+ w -> exists T1 j T2, T = T1 ++ CTok j :: T2 /\ u = render T1 +:+ token_head.
Proof.
  revert u. induction T as [|[a|j] T IH]; intros u Hc Heq; cbn [render] in Heq.
  - apply (f_equal slen) in Heq. rewrite !string_app_length in Heq. simpl in Heq. lia.
  - destruct u as [|b u].
    + apply clean_bytes in Hc. rewrite Heq in Hc. apply not_true_iff_false in Hc. destruct Hc. apply has_prefix_spec. by exists w.
    + rewrite string_app_cons in Heq. injection Heq as <- Heq. destruct (IH u (clean_tail _ _ Hc) Heq) as (T1 & j & T2 & -> & ->).
      by exists (CByte a :: T1), j, T2.
  - apply marker_in_token in Heq as [->|(u' & -> & Heq)]; [by exists [], j, T|].
    destruct (IH u' (clean_tail _ _ Hc) Heq) as (T1 & k & T2 & -> & ->). exists (CTok j :: T1), k, T2. split; [done|]. cbn [render]. by rewrite string_app_assoc.
Qed.

Lemma placeholder_split i j (r w : string) : placeholder i +:+ r = placeholder j +:+ w -> i = j.
Proof.
  unfold placeholder. rewrite !string_app_assoc. intros [_ Heq]%string_app_inj_length; [|done].
  change ("Xgenai-otel-bridge" +:+ ?x) with (String "X"%char (token_head +:+ x)) in Heq.
  assert (exists u, FormatInt (Z.of_nat j) = FormatInt (Z.of_nat i) +:+ u) as [u Hu].
  { apply x_free_split in Heq as (u & Hu & _); [by exists u|apply digits_no_x]. }
  symmetry in Heq. apply x_free_split in Heq as (u' & Hu' & _); [|apply digits_no_x].
  assert (slen u = 0) as Hz.
  { pose proof (f_equal slen Hu) as H1. pose proof (f_equal slen Hu') as H2. rewrite string_app_length in H1, H2. lia. }
  destruct u; [|done]. rewrite string_app_nil_r in Hu. apply FormatInt_inj in Hu. lia.
Qed.

Lemma string_app_inj_r (s1 s2 t : string) : s1 +:+ t = s2 +:+ t -> s1 = s2.
Proof.
  intros Heq. apply string_app_inj_length in Heq as [-> _]; [done|]. apply (f_equal slen) in Heq. rewrite !string_app_length in Heq. lia.
Qed.

(** A token is found only where it was put. *)
Lemma token_in_render T i (u w : string) :
  clean T -> render T = u +:+ placeholder i +:+ w -> exists T1 T2, T = T1 ++ CTok i :: T2 /\ u = render T1.
Proof.
  intros Hc Heq.
  assert (render T = (u +:+ token_head) +:+ marker +:+ (FormatInt (Z.of_nat i) +:+ "Xgenai-otel-bridge" +:+ w)) as Hm.
  { rewrite Heq. unfold placeholder. by rewrite !string_app_assoc. }
  apply marker_in_render in Hm as (T1 & j & T2 & -> & ->%string_app_inj_r); [|done].
  assert (i = j) as ->; [|by exists T1, T2].
  assert (forall T, render (T1 ++ T) = render T1 +:+ render T) as Happ.
  { clear. intros T. induction T1 as [|[a|k] T1 IH]; [done|..]; cbn [app render]; rewrite IH; [done|by rewrite string_app_assoc]. }
  rewrite Happ in Heq. apply string_app_inj_length in Heq as [_ Heq]; [|done]. cbn [render] in Heq. symmetry in Heq. by apply placeholder_split in Heq.
Qed.

(** Scanning past a text in which nothing matches. *)
Lemma replace_skip fuel old new p (r : string) :
  (forall u p', p = u +:+ p' -> p' <> "" -> has_prefix old (p' +:+ r) = false) -> slen (p +:+ r) <= fuel ->
  exists fuel', slen r <= fuel' /\ replace_all_go fuel (p +:+ r) old new = p +:+ replace_all_go fuel' r old new.
Proof.
  revert fuel. induction p as [|a p IH]; intros fuel Hno Hl; [by exists fuel|]. rewrite string_app_cons in *.
  destruct fuel as [|fuel]; [simpl in Hl; lia|]. cbn [replace_all_go].
  pose proof (Hno "" (String a p) eq_refl ltac:(done)) as H0. rewrite string_app_cons in H0. rewrite H0.
  destruct (IH fuel) as (fuel' & Hf & ->); [|simpl in Hl; lia|by exists fuel'].
  intros u p' -> Hp'. by apply (Hno (String a u) p').
Qed.

Lemma placeholder_nonempty i : placeholder i <> "".
Proof. done. Qed.

Lemma replace_fill i T fuel :
  clean T -> slen (render T) <= fuel -> replace_all_go fuel (render T) (placeholder i) (value i) = render (fill i T).
Proof.
  revert fuel. induction T as [|c T IH]; intros fuel Hc Hl; [by destruct fuel|].
  assert (forall u p', c <> CTok i -> render [c] = u +:+ p' -> p' <> "" -> has_prefix (placeholder i) (p' +:+ render T) = false) as Hno.
  { intros u p' Hci Hr Hp'. apply not_true_iff_false. intros [w Hw]%has_prefix_spec.
    assert (render (c :: T) = u +:+ placeholder i +:+ w) as Hr'.
    { rewrite <-Hw, <-string_app_assoc, <-Hr. destruct c; cbn [render]; [done|]. by rewrite string_app_nil_r. }
    apply token_in_render in Hr' as (T1 & T2 & HT & Hu); [|done].
    destruct T1 as [|c' T1]; [by injection HT as -> _|]. injection HT as <- _. subst u. apply Hp'.
    apply (f_equal slen) in Hr. rewrite string_app_length in Hr. destruct p' as [|b p']; [done|exfalso].
    destruct c; cbn [render] in Hr; rewrite ?string_app_length in Hr; simpl in Hr; lia. }
  destruct c as [a|j]; rewrite fill_cons; cbn [render].
  - change (String a (render T)) with (String a "" +:+ render T) in *. cbn [render] in Hl.
    destruct (replace_skip fuel (placeholder i) (value i) (String a "") (render T)) as (fuel' & Hf & ->).
    + intros u p' Hu Hp'. by apply (Hno u p').
    + rewrite string_app_length. simpl in *. lia.
    + cbn [app render]. rewrite IH by (by eapply clean_tail || done). done.
  - destruct (decide (j = i)) as [->|Hne].
    + rewrite render_bytes. destruct fuel as [|fuel]; [cbn [render] in Hl; rewrite string_app_length in Hl; simpl in Hl; lia|].
      cbn [render] in Hl. assert (has_prefix (placeholder i) (placeholder i +:+ render T) = true) as Hp by (apply has_prefix_spec; by eexists).
      assert (exists a s, placeholder i +:+ render T = String a s) as (a & s & Has) by (by eexists _, _).
      rewrite Has in *. cbn [replace_all_go]. rewrite Hp, <-Has. f_equal.
      assert (forall s (t : string), string_drop (slen s) (s +:+ t) = t) as Hd by (induction s0; [done|]; intros; rewrite string_app_cons; simpl; auto).
      rewrite Hd. apply IH; [by eapply clean_tail|]. rewrite <-Has, string_app_length in Hl. simpl in Hl. lia.
    + destruct (replace_skip fuel (placeholder i) (value i) (placeholder j) (render T)) as (fuel' & Hf & ->).
      * intros u p' Hu Hp'. apply (Hno u p'); [by intros [= ->]| |done]. cbn [render]. by rewrite string_app_nil_r.
      * done.
      * cbn [app render]. rewrite IH by (by eapply clean_tail || done). done.
Qed.

Definition tokens (T : list cell) : list nat := omap (fun c => match c with CTok i => Some i | CByte _ => None end) T.

Lemma tokens_app T T' : tokens (T ++ T') = tokens T ++ tokens T'.
Proof. unfold tokens. by rewrite omap_app. Qed.

Lemma fill_tokens i T j : j ∈ tokens (fill i T) -> j ∈ tokens T /\ j <> i.
Proof.
  induction T as [|[a|k] T IH]; [by intros ?%elem_of_nil|exact IH|]. rewrite fill_cons, tokens_app, elem_of_app.
  change (tokens (CTok k :: T)) with (k :: tokens T). rewrite elem_of_cons. intros [Hj|Hj]; [|naive_solver].
  case_decide as Hk; [|by apply list_elem_of_singleton in Hj as ->; auto].
  exfalso. revert Hj. clear. generalize (value i). intros s. induction s as [|a s IHs]; [by intros ?%elem_of_nil|exact IHs].
Qed.

Lemma no_tokens T : tokens T = [] -> render T = expand T.
Proof. induction T as [|[a|k] T IH]; [done|..|done]. intros HT. cbn [render expand]. by rewrite IH. Qed.

Lemma fill_absent i T : contains (render T) (placeholder i) = false -> fill i T = T.
Proof.
  induction T as [|c T IH]; intros Hno; [done|]. rewrite fill_cons. apply not_true_iff_false in Hno.
  rewrite IH. 2: { apply not_true_iff_false. intros Hc. apply Hno. destruct c as [a|j]; cbn [render]; [|by apply contains_app_l].
    change (String a (render T)) with (String a "" +:+ render T). by apply contains_app_l. }
  destruct c as [a|j]; [done|]. case_decide as Hj; [subst|done]. destruct Hno. apply contains_prefix, has_prefix_spec. by eexists.
Qed.

Lemma subst_step_fill i T : clean T -> subst_step (render T) (placeholder i, value i) = render (fill i T).
Proof.
  intros Hc. unfold subst_step. cbn [fst snd]. destruct (contains _ _) eqn:Hi; [by apply replace_fill|]. by rewrite fill_absent.
Qed.

(** In whatever order the tokens come, the text ends up resolved. *)
Lemma substitute_cells (order : list nat) T :
  clean T -> (forall i, i ∈ tokens T -> i ∈ order) ->
  foldl subst_step (render T) ((fun i => (placeholder i, value i)) <$> order) = expand T.
Proof.
  revert T. induction order as [|i order IH]; intros T Hc Htok; cbn [foldl fmap list_fmap].
  - apply no_tokens. destruct (tokens T) as [|j l]; [done|]. exfalso. by apply (not_elem_of_nil j), Htok; left.
  - rewrite subst_step_fill by done. change (list_fmap nat ?B ?f order) with (f <$> order).
    rewrite IH; [by rewrite fill_expand|unfold clean; by rewrite fill_expand|].
    intros j [Hj Hne]%fill_tokens. apply Htok in Hj. by apply elem_of_cons in Hj as [?|?].
Qed.
End cells.

(** The cells of a numbered text. *)
Fixpoint cells_of (i : nat) (l : list piece) : list cell :=
  match l with [] => [] | PByte a :: l => CByte a :: cells_of i l | PRef _ :: l => CTok i :: cells_of (S i) l end.

Section resolved.
Context (Getenv : string -> string).

(** The text with every reference replaced by its variable's value. *)
Fixpoint resolved (l : list piece) : string :=
  match l with [] => "" | PByte a :: l => String a (resolved l) | PRef n :: l => Getenv n +:+ resolved l end.

Lemma cells_render i l : render (cells_of i l) = with_tokens i l.
Proof. revert i. induction l as [|[a|n] l IH]; intros i; [done|..]; cbn [cells_of render with_tokens]; by rewrite IH. Qed.

Lemma cells_tokens i l j : j ∈ tokens (cells_of i l) -> i <= j < i + length (piece_names l).
Proof.
  revert i. induction l as [|[a|n] l IH]; intros i; [by intros ?%elem_of_nil|apply IH|].
  change (tokens (cells_of i (PRef n :: l))) with (i :: tokens (cells_of (S i) l)). change (piece_names (PRef n :: l)) with (n :: piece_names l).
  cbn [length]. intros [->|Hj%IH]%elem_of_cons; lia.
Qed.

Lemma cells_expand value i l :
  (forall j n, piece_names l !! j = Some n -> value (i + j) = Getenv n) -> expand value (cells_of i l) = resolved l.
Proof.
  revert i. induction l as [|[a|n] l IH]; intros i Hv; [done|..]; cbn [cells_of expand resolved].
  - by rewrite IH.
  - rewrite IH.
    + rewrite <-(Hv 0 n eq_refl). by rewrite Nat.add_0_r.
    + intros j m Hj. rewrite <-(Hv (S j) m Hj). f_equal. lia.
Qed.

(** C14: secrets land verbatim.  Take any part [l] of the raw text (the text of
    one scalar, say), as [injectEnvPlaceholders] left it.  Substituting the
    placeholders, in whatever order Go ranges over the map, gives exactly that
    part with every [${VAR}] replaced by the value of its variable: nothing is
    cut at a byte YAML gives a meaning, no literal [$] is touched, no value is
    put in the place of another.  The one text that may not be spelled by the
    result is the middle of a placeholder. *)
Theorem secrets_resolve_verbatim range raw out ph pre l post :
  injectEnvPlaceholders Getenv raw = Ok (out, ph) ->
  env_pieces raw = pre ++ l ++ post ->
  range ph ≡ₚ map_to_list ph ->
  contains (resolved l) marker = false ->
  substitute range ph (with_tokens (length (piece_names pre)) l) = resolved l.
Proof.
  intros Hin Hraw Hrange Hclean. pose proof (injectEnvPlaceholders_exact Getenv raw) as Hex. rewrite Hin in Hex. cbv zeta in Hex.
  destruct Hex as (_ & _ & Hph). set (names := piece_names (env_pieces raw)) in *. set (value := fun i => default "" (Getenv <$> names !! i)).
  assert (exists order, range ph = (fun i => (placeholder i, value i)) <$> order /\ forall i, i < length names -> i ∈ order) as (order & Ho & Hall).
  { assert (Forall (fun kv => exists i, kv = (placeholder i, value i)) (range ph)) as Hf.
    { apply Forall_forall. intros [t v]. rewrite Hrange, elem_of_map_to_list, Hph. intros (i & n & Hi & -> & ->). exists i.
      unfold value. by rewrite Hi. }
    assert (exists order, range ph = (fun i => (placeholder i, value i)) <$> order) as [order Ho].
    { clear -Hf. induction Hf as [|kv kvs [i ->] _ [order ->]]; [by exists []|by exists (i :: order)]. }
    exists order. split; [done|]. intros i [n Hn]%lookup_lt_is_Some.
    assert ((placeholder i, Getenv n) ∈ range ph) as Hi by (rewrite Hrange, elem_of_map_to_list, Hph; eauto).
    rewrite Ho in Hi. apply list_elem_of_fmap in Hi as (j & Heq & Hj). apply (f_equal fst) in Heq. cbn [fst] in Heq.
    by apply placeholder_inj in Heq as ->. }
  assert (names = piece_names pre ++ piece_names l ++ piece_names post) as Hnames.
  { unfold names. rewrite Hraw. unfold piece_names. by rewrite !omap_app. }
  assert (expand value (cells_of (length (piece_names pre)) l) = resolved l) as Hexp.
  { apply cells_expand. intros j n Hj. unfold value. rewrite Hnames, lookup_app_r by lia.
    rewrite (Nat.add_comm _ j), Nat.add_sub. by rewrite (lookup_app_l_Some _ _ _ _ Hj). }
  unfold substitute. rewrite Ho, <-cells_render, <-Hexp. apply (substitute_cells value).
  - unfold clean. by rewrite Hexp.
  - intros i Hi%cells_tokens. apply Hall. rewrite Hnames, !length_app. lia.
Qed.
End resolved.

(** ** A concrete text *)

Module SecretsDemo.
Definition env (n : string) : string :=
  if decide (n = "TOKEN") then "tok # x: ${9}" else if decide (n = "ENV") then "prod"
  else if decide (n = "A") then "one" else if decide (n = "B") then "two" else "".
Definition raw : string := "auth: {value: ${TOKEN}}, cost: $5, source_instance: portkey-${ENV}".
Definition out (raw : string) : string := match injectEnvPlaceholders env raw with Ok (o, _) => o | Err e => e end.
Definition ph (raw : string) : gmap string string := match injectEnvPlaceholders env raw with Ok (_, m) => m | Err _ => ∅ end.
Definition forward (m : gmap string string) : list (string * string) := map_to_list m.
Definition backward (m : gmap string string) : list (string * string) := reverse (map_to_list m).
(** The scalar [portkey-${ENV}]. *)
Definition split : nat := length (env_pieces raw) - 9.
Definition scalar : list piece := drop split (env_pieces raw).

Lemma injected : injectEnvPlaceholders env raw = Ok (out raw, ph raw).
Proof.
  unfold out, ph. destruct (injectEnvPlaceholders env raw) as [[o m]|e] eqn:E; [done|].
  apply (f_equal is_ok) in E. vm_compute in E. discriminate E.
Qed.
Lemma cut : env_pieces raw = take split (env_pieces raw) ++ scalar ++ [].
Proof. unfold scalar. generalize split (env_pieces raw). intros n l. by rewrite app_nil_r, take_drop. Qed.
(** A text that spells a token by accident. *)
Definition clash : string := "${A}XsecretX1Xgenai-otel-bridge ${B}".
End SecretsDemo.

Lemma secrets_resolve_verbatim_witness :
  pieces_text SecretsDemo.scalar = "portkey-${ENV}" /\
  substitute SecretsDemo.backward (SecretsDemo.ph SecretsDemo.raw)
    (with_tokens (length (piece_names (take SecretsDemo.split (env_pieces SecretsDemo.raw)))) SecretsDemo.scalar) = "portkey-prod".
Proof.
  split; [vm_compute; reflexivity|].
  rewrite (secrets_resolve_verbatim SecretsDemo.env SecretsDemo.backward SecretsDemo.raw _ _ _ _ [] SecretsDemo.injected SecretsDemo.cut);
    [vm_compute; reflexivity|apply reverse_Permutation|vm_compute; reflexivity].
Defined.

(** A value with YAML syntax in it resolves as a whole; an unset variable is
    named. *)
Example secret_texts :
  SecretsDemo.out "a ${NONE} ${ENV}" = "config: required env " +:+ quoted "NONE" +:+ " is unset" /\
  substitute SecretsDemo.forward (SecretsDemo.ph SecretsDemo.raw) (SecretsDemo.out SecretsDemo.raw) =
    "auth: {value: tok # x: ${9}}, cost: $5, source_instance: portkey-prod".
Proof. split; vm_compute; reflexivity. Qed.

(** Without the condition the order of the map shows. *)
Example placeholder_clash :
  let m := SecretsDemo.ph SecretsDemo.clash in
  let s := SecretsDemo.out SecretsDemo.clash in
  substitute SecretsDemo.forward m s <> substitute SecretsDemo.backward m s.
Proof. vm_compute. discriminate. Qed.
