(* ===== verification/Config.v ===== *)
(** * Configuration (internal/config/config.go)

    The configuration records, the defaults [LoadBytes] fills in and the
    startup check [Validate].  The YAML library is a parameter of [LoadBytes];
    [url.Parse] and [net.ParseIP] are parameters of the endpoint checks. *)

From S2P Require Import Prelude Floats Model Httpx ConfigSecrets.

(** ** Constants *)

Definition maxWindow : Duration := (55 * Minute)%Z.
Definition minCadence : Duration := (10 * Second)%Z.

(** The constant [1 + 2*jitterFrac], which Go evaluates exactly and rounds once. *)
Definition one_plus_2jitter : spec_float := Eval vm_compute in f64_div (f64_of_Z 12) (f64_of_Z 10).

Definition defaultPerMetricCardinalityBudget : Z := 10000.
Definition defaultMaxDPM : Z := 1.
Definition defaultMaxCatchupPerTick : Z := 1.
Definition DefaultMaxStreamLabelKeys : Z := 15.
Definition defaultDynamoDBLockName : string := "genai-otel-bridge-leader".
Definition defaultDynamoDBLeaseDuration : Duration := (15 * Second)%Z.
Definition defaultDynamoDBRenewDeadline : Duration := (10 * Second)%Z.
Definition defaultDynamoDBRetryPeriod : Duration := (2 * Second)%Z.
Definition defaultRateLimitRPS : spec_float := f64_of_Z 1.
Definition defaultRateLimitBurst : Z := 3.
Definition defaultQueueMaxBatches : Z := 256.
Definition defaultQueueMaxBatchBytes : Z := 1048576.
Definition defaultBucketSettle : Duration := (10 * Minute)%Z.

(** ** Records *)

Record TracingConfig := mkTracing { tc_Enabled : bool }.
Record ProfilingPull := mkPull { pl_Addr : string }.
Record ProfilingPush := mkPush { ps_Endpoint : string; ps_InstanceID : string; ps_Token : string }.
Record ProfilingConfig := mkProfiling { pf_Enabled : bool; pf_Mode : string; pf_Pull : ProfilingPull; pf_Push : ProfilingPush }.
Record SelfobsConfig := mkSelfobs { so_Profiling : ProfilingConfig; so_Tracing : TracingConfig }.

Record GovernanceConfig := mkGovernance {
  gc_PerMetricCardinalityBudget : Z;
  gc_MaxDPM : Z;
  gc_MaxCatchupPerTick : Z;
  gc_MaxStreamLabelKeys : Z;
  gc_AllowLabelKeys : list string
}.

Record LogConfig := mkLogConfig { lg_Format : string; lg_Level : string }.

Record OTLPConn := mkOTLPConn { oc_Endpoint : string; oc_InstanceID : string; oc_Token : string; oc_AllowInsecure : bool }.
Record OTLPTarget := mkOTLPTarget { ot_OTLP : OTLPConn; ot_MetricInterval : Duration }.
Record EmitConfig := mkEmitConfig { ec_Telemetry : OTLPTarget; ec_Self : option OTLPTarget }.

Record IdentityConfig := mkIdentity { ic_ServiceNamespace : string; ic_DeploymentEnvironment : string }.

Definition ProductIdentity (ic : IdentityConfig) : gmap string string :=
  list_to_map [("service.name", "genai-otel-bridge"); ("service.namespace", ic_ServiceNamespace ic);
               ("deployment.environment.name", ic_DeploymentEnvironment ic)].

Record DynamoDBHAConfig := mkDynamoHA {
  dh_Table : string;
  dh_Region : string;
  dh_Endpoint : string;
  dh_LockName : string;
  dh_KeyPrefix : string;
  dh_LeaseDuration : Duration;
  dh_RenewDeadline : Duration;
  dh_RetryPeriod : Duration
}.
Record HAConfig := mkHA { ha_Coordinator : string; ha_Checkpoint : string; ha_DynamoDB : DynamoDBHAConfig }.

Record QueueConfig := mkQueue { qc_MaxBatches : Z; qc_MaxBatchBytes : Z; qc_EmitWorkers : Z }.

Record AuthConfig := mkAuth { ac_Header : string; ac_Value : string }.
Record RateLimitConfig := mkRateLimit { rl_RPS : spec_float; rl_Burst : Z }.
Record HTTPConfig := mkHTTP { hc_UserAgent : string; hc_AllowHosts : list string; hc_AllowPrivate : bool }.

Record LoopConfig := mkLoopConfig {
  lc_Enabled : bool;
  lc_Cadence : Duration;
  lc_Window : Duration;
  lc_BucketSettle : Duration;
  lc_BootstrapLookback : Duration;
  lc_MaxBackfill : Duration;
  lc_MetricPrefix : string;
  lc_Graphs : list string;
  lc_Settings : gmap string string
}.

Record APIKeyUseCase := mkUseCase { uc_Label : string; uc_APIKeyIDs : list string }.

Record SourceConfig := mkSourceConfig {
  sc_Type : string;
  sc_Enabled : bool;
  sc_BaseURL : string;
  sc_SourceInstance : string;
  sc_Auth : AuthConfig;
  sc_RateLimit : RateLimitConfig;
  sc_HTTP : HTTPConfig;
  sc_Loops : gmap string LoopConfig;
  sc_APIKeyUseCases : list APIKeyUseCase
}.

Definition sc_AuthHeader (sc : SourceConfig) : string := ac_Header (sc_Auth sc).
Definition sc_AuthValue (sc : SourceConfig) : string := ac_Value (sc_Auth sc).
Definition sc_AllowPrivate (sc : SourceConfig) : bool := hc_AllowPrivate (sc_HTTP sc).

Record Config := mkBridgeConfig {
  c_Emit : EmitConfig;
  c_Identity : IdentityConfig;
  c_HA : HAConfig;
  c_Queue : QueueConfig;
  c_Governance : GovernanceConfig;
  c_Log : LogConfig;
  c_Selfobs : SelfobsConfig;
  c_Sources : list SourceConfig
}.

(** A source with the default client settings. *)
Definition plain_source (typ base inst : string) (loops : gmap string LoopConfig) (ucs : list APIKeyUseCase) (header value : string)
    : SourceConfig :=
  mkSourceConfig typ true base inst (mkAuth header value) (mkRateLimit defaultRateLimitRPS defaultRateLimitBurst)
    (mkHTTP "" [] false) loops ucs.

(** ** Defaults ([LoadBytes] after decoding) *)

Definition or_int (d z : Z) : Z := if (z =? 0)%Z then d else z.
Definition or_string (d s : string) : string := if decide (s = "") then d else s.

Definition default_governance (g : GovernanceConfig) : GovernanceConfig :=
  mkGovernance (or_int defaultPerMetricCardinalityBudget (gc_PerMetricCardinalityBudget g)) (or_int defaultMaxDPM (gc_MaxDPM g))
    (or_int defaultMaxCatchupPerTick (gc_MaxCatchupPerTick g)) (or_int DefaultMaxStreamLabelKeys (gc_MaxStreamLabelKeys g))
    (gc_AllowLabelKeys g).

Definition default_queue (q : QueueConfig) : QueueConfig :=
  mkQueue (or_int defaultQueueMaxBatches (qc_MaxBatches q)) (or_int defaultQueueMaxBatchBytes (qc_MaxBatchBytes q)) (qc_EmitWorkers q).

Definition default_profiling (p : ProfilingConfig) : ProfilingConfig :=
  if pf_Enabled p then
    let mode := or_string "pull" (pf_Mode p) in
    let addr := if decide (mode = "pull") then or_string ":6060" (pl_Addr (pf_Pull p)) else pl_Addr (pf_Pull p) in
    mkProfiling (pf_Enabled p) mode (mkPull addr) (pf_Push p)
  else p.

Definition uses_dynamodb (h : HAConfig) : bool := bool_decide (ha_Coordinator h = "dynamodb") || bool_decide (ha_Checkpoint h = "dynamodb").

Definition default_dynamodb (d : DynamoDBHAConfig) : DynamoDBHAConfig :=
  mkDynamoHA (dh_Table d) (dh_Region d) (dh_Endpoint d) (or_string defaultDynamoDBLockName (dh_LockName d)) (dh_KeyPrefix d)
    (or_int defaultDynamoDBLeaseDuration (dh_LeaseDuration d)) (or_int defaultDynamoDBRenewDeadline (dh_RenewDeadline d))
    (or_int defaultDynamoDBRetryPeriod (dh_RetryPeriod d)).
Definition default_ha (h : HAConfig) : HAConfig :=
  if uses_dynamodb h then mkHA (ha_Coordinator h) (ha_Checkpoint h) (default_dynamodb (ha_DynamoDB h)) else h.

Definition default_loop (lp : LoopConfig) : LoopConfig :=
  mkLoopConfig (lc_Enabled lp) (lc_Cadence lp) (lc_Window lp) (or_int defaultBucketSettle (lc_BucketSettle lp)) (lc_BootstrapLookback lp)
    (lc_MaxBackfill lp) (lc_MetricPrefix lp) (lc_Graphs lp) (lc_Settings lp).
Definition default_rate (r : RateLimitConfig) : RateLimitConfig :=
  mkRateLimit (if SFeqb (rl_RPS r) (f64_of_Z 0) then defaultRateLimitRPS else rl_RPS r) (or_int defaultRateLimitBurst (rl_Burst r)).
Definition default_source (s : SourceConfig) : SourceConfig :=
  mkSourceConfig (sc_Type s) (sc_Enabled s) (sc_BaseURL s) (sc_SourceInstance s) (sc_Auth s) (default_rate (sc_RateLimit s)) (sc_HTTP s)
    (default_loop <$> sc_Loops s) (sc_APIKeyUseCases s).

Definition apply_defaults (c : Config) : Config :=
  mkBridgeConfig (c_Emit c) (c_Identity c) (default_ha (c_HA c)) (default_queue (c_Queue c)) (default_governance (c_Governance c)) (c_Log c)
    (mkSelfobs (default_profiling (so_Profiling (c_Selfobs c))) (so_Tracing (c_Selfobs c))) (default_source <$> c_Sources c).

(** ** Loading *)

Section load.
(** [os.Getenv], [os.ReadFile], [strings.TrimSpace] beyond ASCII, the order of
    a map, and the YAML library: [Unmarshal] into a tree, [Marshal] of a tree
    and [Decode] with [KnownFields]. *)
Context (Getenv : string -> string) (ReadFile : string -> option string) (trim_uni : string -> string).
Context (range : gmap string string -> list (string * string)).
Context (yaml_Unmarshal : string -> result string Node) (yaml_Marshal : Node -> result string string)
  (yaml_Decode : string -> result string Config).

Definition LoadBytes (raw : string) : result string Config :=
  let? (subst, placeholders) := injectEnvPlaceholders Getenv raw in
  match yaml_Unmarshal subst with
  | Err e => Err ("config: parse: " +:+ e)
  | Ok root =>
      let? root := resolveSecretsNode ReadFile trim_uni range placeholders root in
      match yaml_Marshal root with
      | Err e => Err (redactSecretValues range ("config: re-marshal after secret resolution: " +:+ e) placeholders)
      | Ok resolved =>
          match yaml_Decode resolved with
          | Err e => Err (redactSecretValues range ("config: parse: " +:+ e) placeholders)
          | Ok cfg => Ok (apply_defaults cfg)
          end
      end
  end.

Definition Load (path : string) : result string Config :=
  match ReadFile path with None => Err ("config: read " +:+ path) | Some raw => LoadBytes raw end.

(** C38: an error after the secrets were put in shows none of them.  Once the
    tree carries the real values, whatever text the YAML library puts into its
    error (a whole scalar, a line of the document), [LoadBytes] returns a text
    that contains no value of a referenced variable, in whatever order the
    values are struck out.  The values it speaks of are longer than three
    bytes, have no bracket and are no part of the word redacted. *)
Theorem LoadBytes_redacts raw subst ph root root' e n :
  (forall m, range m ≡ₚ map_to_list m) ->
  injectEnvPlaceholders Getenv raw = Ok (subst, ph) -> yaml_Unmarshal subst = Ok root ->
  resolveSecretsNode ReadFile trim_uni range ph root = Ok root' ->
  LoadBytes raw = Err e ->
  n ∈ piece_names (env_pieces raw) -> redactable (Getenv n) -> contains e (Getenv n) = false.
Proof.
  intros Hrange Hin Hun Hres. pose proof (injectEnvPlaceholders_exact Getenv raw) as Hex. rewrite Hin in Hex. cbv zeta in Hex.
  destruct Hex as (_ & _ & Hph). unfold LoadBytes. rewrite Hin, Hun, Hres. intros Hload [i Hi]%list_elem_of_lookup Hr.
  assert (ph !! placeholder i = Some (Getenv n)) as Hv by (apply Hph; eauto).
  destruct (yaml_Marshal root') as [txt|e1]; [|injection Hload as <-; by eapply redactSecretValues_removes].
  destruct (yaml_Decode txt) as [cfg|e1]; [done|]. injection Hload as <-. by eapply redactSecretValues_removes.
Qed.
End load.

(** ** Validation *)

Inductive ConfigErr :=
| EndpointRequired
| EmitWorkersNotOne (n : Z)
| NegativeGovernance (field : string) (n : Z)
| BadLogFormat (v : string)
| BadLogLevel (v : string)
| BadCoordinator (v : string)
| BadCheckpoint (v : string)
| FileWithLease
| DynamoCheckpointRequired
| DynamoTableRequired
| DynamoNegative
| LeaseNotAfterRenew
| RetryNotPositive
| RetryNotBeforeRenew
| CleartextEndpoint (field endpoint : string)
| InsecureWithCredentials (field : string)
| InsecurePublic (field endpoint : string)
| TelemetryIntervalSet
| SelfEndpointRequired
| SelfIntervalTooShort (mi floor : Duration)
| PushSetInPullMode
| PushEndpointRequired
| PushCleartext (endpoint : string)
| PushCredentialsRequired
| PullAddrInPushMode
| BadProfilingMode (v : string)
| UnknownSourceType (typ : string)
| InstanceRequired (typ : string)
| DuplicateInstance (inst : string)
| SlashInInstance (inst : string)
| BadBaseURL (inst url : string)
| AuthRequired (inst : string)
| BadRPS (inst : string)
| BadBurst (inst : string) (n : Z)
| NegativeDuration (inst loop field : string) (d : Duration)
| CadenceBelowFloor (inst loop : string) (d : Duration)
| WindowTooLong (inst loop : string) (d : Duration)
| WindowTooShort (inst loop : string) (d lower : Duration)
| LookbackBeyondBackfill (inst loop : string).

Definition err_when (b : bool) (e : ConfigErr) : list ConfigErr := if b then [e] else [].

(** [s] is one of the cases of a switch. *)
Definition one_of (s : string) (l : list string) : bool := bool_decide (s ∈ l).

(** [strings.HasPrefix(u, "https://")] negated. *)
Definition insecureURL (u : string) : bool := negb (has_prefix "https://" u).

Section validate.
(** [url.Parse] and [net.ParseIP]. *)
Context (url_Parse : string -> option URL) (ParseIP : string -> option IP).

Definition loopbackURL (s : string) : bool :=
  match url_Parse s with
  | None => false
  | Some u => if decide (u_hostname u = "localhost") then true
              else match ParseIP (u_hostname u) with Some ip => IsLoopback ip | None => false end
  end.

Definition ipLiteralIsPublic (s : string) : bool :=
  match url_Parse s with
  | None => false
  | Some u => match ParseIP (u_hostname u) with
              | None => false
              | Some ip => negb (IsLoopback ip) && negb (IsPrivate ip) && negb (IsLinkLocalUnicast ip) && negb (IsLinkLocalMulticast ip)
              end
  end.

Definition validateEmitEndpoint (field : string) (c : OTLPConn) : list ConfigErr :=
  let ep := oc_Endpoint c in
  if bool_decide (ep = "") || negb (insecureURL ep) || loopbackURL ep then []
  else if negb (oc_AllowInsecure c) then [CleartextEndpoint field ep]
  else err_when (negb (bool_decide (oc_Token c = "")) || negb (bool_decide (oc_InstanceID c = ""))) (InsecureWithCredentials field)
       ++ err_when (ipLiteralIsPublic ep) (InsecurePublic field ep).

Definition validate_governance (g : GovernanceConfig) : list ConfigErr :=
  let neg field n := err_when (n <? 0)%Z (NegativeGovernance field n) in
  neg "per_metric_cardinality_budget" (gc_PerMetricCardinalityBudget g) ++ neg "max_dpm" (gc_MaxDPM g)
  ++ neg "max_catchup_per_tick" (gc_MaxCatchupPerTick g) ++ neg "max_stream_label_keys" (gc_MaxStreamLabelKeys g).

Definition validate_log (l : LogConfig) : list ConfigErr :=
  err_when (negb (one_of (lg_Format l) [""; "logfmt"; "json"])) (BadLogFormat (lg_Format l))
  ++ err_when (negb (one_of (lg_Level l) [""; "debug"; "info"; "warn"; "error"])) (BadLogLevel (lg_Level l)).

Definition validate_ha (h : HAConfig) : list ConfigErr :=
  let co := ha_Coordinator h in
  let cp := ha_Checkpoint h in
  let d := ha_DynamoDB h in
  err_when (negb (one_of co ["lease"; "none"; "dynamodb"])) (BadCoordinator co)
  ++ err_when (negb (one_of cp ["configmap"; "file"; "dynamodb"])) (BadCheckpoint cp)
  ++ err_when (bool_decide (co = "lease") && bool_decide (cp = "file")) FileWithLease
  ++ err_when (bool_decide (co = "dynamodb") && negb (bool_decide (cp = "dynamodb"))) DynamoCheckpointRequired
  ++ err_when ((bool_decide (co = "dynamodb") || bool_decide (cp = "dynamodb")) && bool_decide (dh_Table d = "")) DynamoTableRequired
  ++ (if bool_decide (co = "dynamodb") then
        err_when ((dh_LeaseDuration d <? 0) || (dh_RenewDeadline d <? 0) || (dh_RetryPeriod d <? 0))%Z DynamoNegative
        ++ err_when (dh_LeaseDuration d <=? dh_RenewDeadline d)%Z LeaseNotAfterRenew
        ++ err_when (dh_RetryPeriod d <=? 0)%Z RetryNotPositive
        ++ err_when (dh_RenewDeadline d <=? dh_RetryPeriod d)%Z RetryNotBeforeRenew
      else []).

Definition validate_self (maxDPM : Z) (self : OTLPTarget) : list ConfigErr :=
  let maxDPM := if (maxDPM <? 1)%Z then 1%Z else maxDPM in
  let floor := Z.quot Minute maxDPM in
  let mi := ot_MetricInterval self in
  err_when (bool_decide (oc_Endpoint (ot_OTLP self) = "")) SelfEndpointRequired
  ++ validateEmitEndpoint "emit.self.otlp" (ot_OTLP self)
  ++ err_when (negb (mi =? 0)%Z && (mi <? floor)%Z) (SelfIntervalTooShort mi floor).

Definition validate_emit (c : Config) : list ConfigErr :=
  validateEmitEndpoint "emit.telemetry.otlp" (ot_OTLP (ec_Telemetry (c_Emit c)))
  ++ err_when (negb (ot_MetricInterval (ec_Telemetry (c_Emit c)) =? 0)%Z) TelemetryIntervalSet
  ++ match ec_Self (c_Emit c) with Some self => validate_self (gc_MaxDPM (c_Governance c)) self | None => [] end.

Definition validate_profiling (p : ProfilingConfig) : list ConfigErr :=
  let push := pf_Push p in
  let empty s := bool_decide (s = "") in
  if negb (pf_Enabled p) then []
  else if one_of (pf_Mode p) [""; "pull"] then
    err_when (negb (empty (ps_Endpoint push)) || negb (empty (ps_InstanceID push)) || negb (empty (ps_Token push))) PushSetInPullMode
  else if decide (pf_Mode p = "push") then
    (if empty (ps_Endpoint push) then [PushEndpointRequired]
     else err_when (insecureURL (ps_Endpoint push) && negb (loopbackURL (ps_Endpoint push))) (PushCleartext (ps_Endpoint push)))
    ++ err_when (empty (ps_InstanceID push) || empty (ps_Token push)) PushCredentialsRequired
    ++ err_when (negb (empty (pl_Addr (pf_Pull p)))) PullAddrInPushMode
  else [BadProfilingMode (pf_Mode p)].

(** [time.Duration(float64(cadence)*(1+2*jitterFrac)) + settle]. *)
Definition window_lower (cadence settle : Duration) : Duration :=
  wrap64 (int64_of_f64 (f64_mul (f64_of_Z cadence) one_plus_2jitter) + settle).

Definition validate_loop (inst name : string) (lp : LoopConfig) : list ConfigErr :=
  if negb (lc_Enabled lp) then []
  else
    let neg field d := err_when (d <? 0)%Z (NegativeDuration inst name field d) in
    neg "cadence" (lc_Cadence lp) ++ neg "window" (lc_Window lp) ++ neg "bucket_settle" (lc_BucketSettle lp)
    ++ neg "bootstrap_lookback" (lc_BootstrapLookback lp) ++ neg "max_backfill" (lc_MaxBackfill lp)
    ++ err_when (lc_Cadence lp <? minCadence)%Z (CadenceBelowFloor inst name (lc_Cadence lp))
    ++ if (lc_Window lp =? 0)%Z then []
       else
         let lower := window_lower (lc_Cadence lp) (lc_BucketSettle lp) in
         err_when (maxWindow <? lc_Window lp)%Z (WindowTooLong inst name (lc_Window lp))
         ++ err_when (lc_Window lp <? lower)%Z (WindowTooShort inst name (lc_Window lp) lower)
         ++ err_when ((0 <? lc_MaxBackfill lp) && (lc_MaxBackfill lp <? lc_BootstrapLookback lp))%Z (LookbackBeyondBackfill inst name).

(** [seen] is [seenInstance]; a map of loops is listed in some order. *)
Definition validate_source (known seen : gset string) (s : SourceConfig) : list ConfigErr :=
  let inst := sc_SourceInstance s in
  let url := sc_BaseURL s in
  err_when (negb (bool_decide (sc_Type s ∈ known))) (UnknownSourceType (sc_Type s))
  ++ err_when (bool_decide (inst = "")) (InstanceRequired (sc_Type s))
  ++ err_when (bool_decide (inst ∈ seen)) (DuplicateInstance inst)
  ++ err_when (contains inst "/") (SlashInInstance inst)
  ++ err_when (bool_decide (url = "") || (insecureURL url && negb (loopbackURL url) && negb (sc_AllowPrivate s))) (BadBaseURL inst url)
  ++ err_when (bool_decide (sc_AuthHeader s = "") || bool_decide (sc_AuthValue s = "")) (AuthRequired inst)
  ++ err_when (SFleb (rl_RPS (sc_RateLimit s)) (f64_of_Z 0)) (BadRPS inst)
  ++ err_when (rl_Burst (sc_RateLimit s) <? 1)%Z (BadBurst inst (rl_Burst (sc_RateLimit s)))
  ++ (map_to_list (sc_Loops s) ≫= fun kv => validate_loop inst kv.1 kv.2).

Fixpoint validate_sources (known seen : gset string) (l : list SourceConfig) : list ConfigErr :=
  match l with
  | [] => []
  | s :: l =>
      if negb (sc_Enabled s) then validate_sources known seen l
      else validate_source known seen s ++ validate_sources known ({[sc_SourceInstance s]} ∪ seen) l
  end.

(** [errors.Join]: the configuration is accepted when the list is empty. *)
Definition Validate (c : Config) (known : gset string) : list ConfigErr :=
  err_when (bool_decide (oc_Endpoint (ot_OTLP (ec_Telemetry (c_Emit c))) = "")) EndpointRequired
  ++ err_when (negb (qc_EmitWorkers (c_Queue c) =? 1)%Z) (EmitWorkersNotOne (qc_EmitWorkers (c_Queue c)))
  ++ validate_governance (c_Governance c) ++ validate_log (c_Log c) ++ validate_ha (c_HA c) ++ validate_emit c
  ++ validate_profiling (so_Profiling (c_Selfobs c)) ++ validate_sources known ∅ (c_Sources c).
End validate.

(** ** What acceptance means *)

(** The window bound in exact arithmetic, for a cadence below 2^51 ns (26
    days): the rounding costs at most a nanosecond. *)
Lemma window_lower_covers c settle :
  (0 < c < 2 ^ 51)%Z -> (0 <= settle < 2 ^ 62)%Z -> (6 * c + 5 * settle <= 5 * window_lower c settle + 5)%Z /\ (0 <= window_lower c settle)%Z.
Proof.
  intros Hc Hs. destruct (f64_of_Z_pos c ltac:(lia)) as (m & s & Hf & Hsr & Hm & Hm53 & Hcs). unfold window_lower. rewrite Hf.
  unfold f64_mul, one_plus_2jitter. cbn [SFmul xorb]. set (my := 5404319552844595%positive) in *.
  assert (2 <= s)%Z as Hs2.
  { destruct (Z.le_gt_cases 2 s); [done|]. pose proof (Z.pow_le_mono_r 2 51 (52 - s)). lia. }
  assert (exists D, 105 <= D <= 106 /\ 2 ^ (D - 1) <= Zpos (m * my) < 2 ^ D)%Z as (D & HD & HM).
  { rewrite Pos2Z.inj_mul. unfold my. destruct (Z.lt_ge_cases (Zpos m * 5404319552844595) (2 ^ 105)); [exists 105%Z|exists 106%Z]; lia. }
  pose proof (int64_of_product (m * my) (- s + -52) D HM ltac:(lia) ltac:(lia) ltac:(lia)) as [Hlow Hup].
  set (p := int64_of_f64 _) in *.
  assert (c * Zpos my / 2 ^ 52 <= p)%Z as Hlow'.
  { etrans; [|exact Hlow]. rewrite Pos2Z.inj_mul, Hm. replace (- (- s + -52))%Z with (s + 52)%Z by lia.
    replace (c * 2 ^ s * Zpos my)%Z with (2 ^ s * (c * Zpos my))%Z by lia.
    rewrite Z.pow_add_r, <-Z.div_div, (Z.mul_comm (2 ^ s)), Z.div_mul by (try apply Z.pow_pos_nonneg; try apply Z.pow_nonzero; lia). done. }
  assert (6 * c <= 5 * p + 5)%Z.
  { unfold my in Hlow'. pose proof (Z.mul_succ_div_gt (c * 5404319552844595) (2 ^ 52) ltac:(lia)). lia. }
  rewrite wrap64_id by (unfold in_int64, minInt64, maxInt64; lia). lia.
Qed.

Lemma err_when_nil b e : err_when b e = [] <-> b = false.
Proof. by destruct b. Qed.
Create Rewrite HintDb config.
#[export] Hint Rewrite @app_nil err_when_nil orb_false_iff andb_false_iff negb_false_iff bool_decide_eq_false bool_decide_eq_true
  Z.ltb_ge Z.leb_gt Z.eqb_eq : config.

(** The errors of an accepted configuration, one by one. *)
Ltac no_errors H := autorewrite with config in H; destruct_and? H.

Section accepted.
Context (url_Parse : string -> option URL) (ParseIP : string -> option IP).

Lemma Validate_sources c known : Validate url_Parse ParseIP c known = [] -> validate_sources url_Parse ParseIP known ∅ (c_Sources c) = [].
Proof. unfold Validate. rewrite !app_nil. tauto. Qed.

Definition enabled_sources (c : Config) : list SourceConfig := filter (fun s => sc_Enabled s = true) (c_Sources c).

(** Acceptance speaks of every enabled source, and their instances differ. *)
Lemma validate_sources_nil known seen l :
  validate_sources url_Parse ParseIP known seen l = [] ->
  let en := filter (fun s => sc_Enabled s = true) l in
  NoDup (map sc_SourceInstance en) /\ forall s, s ∈ en -> (sc_SourceInstance s ∉ seen) /\ exists seen', validate_source url_Parse ParseIP known seen' s = [].
Proof.
  revert seen. induction l as [|s l IH]; intros seen; cbn [validate_sources]; cbv zeta.
  { intros _. split; [constructor|]. by intros s ?%elem_of_nil. }
  rewrite filter_cons. destruct (sc_Enabled s) eqn:He; cbn [negb].
  - rewrite decide_True by done. intros [Hs Hl]%app_nil. destruct (IH _ Hl) as [Hnd Hall]. split.
    + constructor; [|done]. intros (s' & Heq & Hin)%list_elem_of_fmap. destruct (Hall s' Hin) as [Hni _]. set_solver.
    + intros s' [->|Hin]%elem_of_cons.
      * split; [|by exists seen]. unfold validate_source in Hs. no_errors Hs. done.
      * destruct (Hall s' Hin) as [Hni Hv]. split; [set_solver|done].
  - rewrite decide_False by done. apply IH.
Qed.

(** A link that keeps a credential: TLS, or the machine itself. *)
Definition guarded (url : string) : Prop :=
  has_prefix "https://" url = true \/
  exists u, url_Parse url = Some u /\ (u_hostname u = "localhost" \/ exists ip, ParseIP (u_hostname u) = Some ip /\ IsLoopback ip = true).

Lemma guarded_spec url : insecureURL url = false \/ loopbackURL url_Parse ParseIP url = true -> guarded url.
Proof.
  unfold insecureURL, loopbackURL, guarded. intros [Hs%negb_false_iff|Hl]; [by left|right].
  destruct (url_Parse url) as [u|]; [|done]. exists u. split; [done|]. case_decide; [by left|right].
  destruct (ParseIP (u_hostname u)) as [ip|]; [|done]. by exists ip.
Qed.

(** A private receiver: no public address is spelled in the URL. *)
Definition private_literal (url : string) : Prop :=
  forall u ip, url_Parse url = Some u -> ParseIP (u_hostname u) = Some ip ->
    IsLoopback ip = true \/ IsPrivate ip = true \/ IsLinkLocalUnicast ip = true \/ IsLinkLocalMulticast ip = true.

Lemma validateEmitEndpoint_nil field conn :
  validateEmitEndpoint url_Parse ParseIP field conn = [] -> oc_Endpoint conn <> "" ->
  guarded (oc_Endpoint conn) \/
  oc_AllowInsecure conn = true /\ oc_Token conn = "" /\ oc_InstanceID conn = "" /\ private_literal (oc_Endpoint conn).
Proof.
  unfold validateEmitEndpoint. intros Hv Hne. rewrite bool_decide_false in Hv by done. cbn [orb] in Hv.
  destruct (negb (insecureURL _) || _) eqn:Hg.
  { left. apply guarded_spec. apply orb_prop in Hg as [?%negb_true_iff|?]; auto. }
  destruct (oc_AllowInsecure conn); [|done]. right. cbn [negb] in Hv. no_errors Hv. split_and!; try done.
  intros u ip Hu Hip. revert H0. unfold ipLiteralIsPublic. rewrite Hu, Hip. rewrite !andb_false_iff, !negb_false_iff. tauto.
Qed.

Definition emit_conns (c : Config) : list OTLPConn :=
  ot_OTLP (ec_Telemetry (c_Emit c)) :: match ec_Self (c_Emit c) with Some t => [ot_OTLP t] | None => [] end.

Lemma emit_conns_valid c known conn :
  Validate url_Parse ParseIP c known = [] -> conn ∈ emit_conns c -> oc_Endpoint conn <> "" /\ exists field, validateEmitEndpoint url_Parse ParseIP field conn = [].
Proof.
  unfold Validate, validate_emit, emit_conns. intros Hv. rewrite !app_nil in Hv.
  destruct Hv as (Hep%err_when_nil & _ & _ & _ & _ & (Htel & _ & Hself) & _). apply bool_decide_eq_false in Hep.
  intros [->|Hin]%elem_of_cons; [by eauto|]. destruct (ec_Self (c_Emit c)) as [self|]; [|by apply elem_of_nil in Hin].
  apply list_elem_of_singleton in Hin as ->. unfold validate_self in Hself. rewrite !app_nil, !err_when_nil, bool_decide_eq_false in Hself.
  destruct Hself as (? & ? & _). eauto.
Qed.

Lemma profiling_valid p :
  validate_profiling url_Parse ParseIP p = [] -> pf_Enabled p = true -> ps_Token (pf_Push p) <> "" -> guarded (ps_Endpoint (pf_Push p)).
Proof.
  unfold validate_profiling. intros Hv He Htok. rewrite He in Hv. cbn [negb] in Hv. destruct (one_of _ _); [no_errors Hv; done|].
  case_decide; [|done]. rewrite !app_nil in Hv. destruct Hv as (Hep & _ & _). case_bool_decide; [done|].
  rewrite err_when_nil, andb_false_iff, negb_false_iff in Hep. by apply guarded_spec.
Qed.

(** C12: no accepted configuration sends a credential in the clear.  Every OTLP
    endpoint is set, and one that carries a token or an instance id is reached
    by TLS or on the machine itself; so is the profiling endpoint that carries
    a token, and every enabled source's base URL unless the operator permits a
    private host.  A cleartext OTLP endpoint carries no credential and spells
    no public address. *)
Theorem accepted_no_cleartext c known :
  Validate url_Parse ParseIP c known = [] ->
  (forall conn, conn ∈ emit_conns c -> oc_Endpoint conn <> "" /\
     (oc_Token conn <> "" \/ oc_InstanceID conn <> "" -> guarded (oc_Endpoint conn)) /\
     (guarded (oc_Endpoint conn) \/ private_literal (oc_Endpoint conn))) /\
  (pf_Enabled (so_Profiling (c_Selfobs c)) = true -> ps_Token (pf_Push (so_Profiling (c_Selfobs c))) <> "" ->
     guarded (ps_Endpoint (pf_Push (so_Profiling (c_Selfobs c))))) /\
  (forall s, s ∈ enabled_sources c -> sc_BaseURL s <> "" /\ (guarded (sc_BaseURL s) \/ sc_AllowPrivate s = true)).
Proof.
  intros Hv. split_and!.
  - intros conn [Hne [field Hf]]%(emit_conns_valid c known); [|done].
    apply validateEmitEndpoint_nil in Hf; [|done]. naive_solver.
  - apply profiling_valid. revert Hv. unfold Validate. rewrite !app_nil. tauto.
  - intros s Hs. apply Validate_sources in Hv. destruct (validate_sources_nil _ _ _ Hv) as [_ Hall].
    destruct (Hall s Hs) as (_ & seen & Hsrc). unfold validate_source in Hsrc. rewrite !app_nil, !err_when_nil in Hsrc.
    destruct Hsrc as (_ & _ & _ & _ & Hurl & _). rewrite orb_false_iff, bool_decide_eq_false, !andb_false_iff, !negb_false_iff in Hurl.
    destruct Hurl as [? [[?|?]|?]]; split; auto using guarded_spec.
Qed.

(** ** What a loaded and accepted configuration guarantees *)

(** The durations of an enabled loop.  A loop with a window sees every instant
    it settles: consecutive ticks are at most [cadence * 1.2] apart. *)
Record loop_ok (lp : LoopConfig) : Prop := {
  lok_cadence : (minCadence <= lc_Cadence lp)%Z;
  lok_settle : (0 < lc_BucketSettle lp)%Z;
  lok_lookback : (0 <= lc_BootstrapLookback lp)%Z;
  lok_backfill : (0 <= lc_MaxBackfill lp)%Z;
  lok_window : (0 <= lc_Window lp <= maxWindow)%Z;
  lok_covers : lc_Window lp <> 0%Z -> (lc_Cadence lp < 2 ^ 51)%Z -> (lc_BucketSettle lp < 2 ^ 62)%Z ->
    (6 * lc_Cadence lp + 5 * lc_BucketSettle lp <= 5 * lc_Window lp + 5)%Z;
  lok_bootstrap : lc_Window lp <> 0%Z -> (0 < lc_MaxBackfill lp)%Z -> (lc_BootstrapLookback lp <= lc_MaxBackfill lp)%Z
}.

Record source_ok (known : gset string) (s : SourceConfig) : Prop := {
  sok_type : sc_Type s ∈ known;
  sok_instance : sc_SourceInstance s <> "" /\ contains (sc_SourceInstance s) "/" = false;
  sok_auth : sc_AuthHeader s <> "" /\ sc_AuthValue s <> "";
  sok_rate : SFleb (rl_RPS (sc_RateLimit s)) (f64_of_Z 0) = false /\ (1 <= rl_Burst (sc_RateLimit s))%Z;
  sok_loops : forall name lp, sc_Loops s !! name = Some lp -> lc_Enabled lp = true -> loop_ok lp
}.

Lemma or_int_nonzero d z : d <> 0%Z -> or_int d z <> 0%Z.
Proof. unfold or_int. destruct (Z.eqb_spec z 0); lia. Qed.

Lemma validate_loop_nil inst name lp :
  validate_loop inst name lp = [] -> lc_Enabled lp = true -> lc_BucketSettle lp <> 0%Z -> loop_ok lp.
Proof.
  unfold validate_loop. intros Hv He Hs. rewrite He in Hv. cbn [negb] in Hv. rewrite !app_nil, !err_when_nil, !Z.ltb_ge in Hv.
  destruct Hv as (Hc0 & Hw0 & Hs0 & Hl0 & Hb0 & Hc & Hw).
  assert (0 < minCadence /\ 0 < maxWindow)%Z as [Hmin Hmaxw] by done.
  destruct (Z.eqb_spec (lc_Window lp) 0) as [Hz|Hz].
  { split; lia. }
  rewrite !app_nil, !err_when_nil, !Z.ltb_ge, andb_false_iff, !Z.ltb_ge in Hw. destruct Hw as (Hmax & Hlow & Hboot).
  split; try lia. intros _ Hc51 Hs62.
  pose proof (window_lower_covers (lc_Cadence lp) (lc_BucketSettle lp)). lia.
Qed.

Lemma validate_source_nil known seen s :
  validate_source url_Parse ParseIP known seen s = [] -> (forall name lp, sc_Loops s !! name = Some lp -> lc_BucketSettle lp <> 0%Z) -> source_ok known s.
Proof.
  unfold validate_source. intros Hv Hset. rewrite !app_nil, !err_when_nil in Hv.
  destruct Hv as (Ht & Hi & _ & Hsl & _ & Ha & Hr & Hb & Hl). split.
  - by apply negb_false_iff, bool_decide_eq_true in Ht.
  - split; [by apply bool_decide_eq_false in Hi|done].
  - apply orb_false_iff in Ha as [?%bool_decide_eq_false ?%bool_decide_eq_false]. done.
  - split; [done|]. by apply Z.ltb_ge in Hb.
  - intros name lp Hlp He. apply (validate_loop_nil (sc_SourceInstance s) name); [|done|by eapply Hset].
    apply elem_of_map_to_list in Hlp. apply list_elem_of_split in Hlp as (l1 & l2 & Hml). rewrite Hml, bind_app, bind_cons in Hl.
    apply app_nil in Hl as [_ [Hl _]%app_nil]. exact Hl.
Qed.

(** C37: what [LoadBytes] returns and [Validate] accepts is a configuration the
    components can run on: every governance bound and the emit worker count
    are positive, leadership timings are ordered (retry before renew before
    lease, so a renewal fits before the lock expires) and its checkpoint is
    shared, source instances are distinct, non-empty and free of the key
    separator, no rate limiter refuses everything, and every enabled loop
    polls at most every ten seconds, emits nothing before it settled, and, if
    it has a window (one that is not zero), has one that covers the longest gap
    between two ticks, for a cadence below 2^51 ns (26 days) and a settle time
    below 2^62 ns. *)
Theorem loaded_config_ok Getenv ReadFile trim_uni range Unmarshal Marshal Decode raw c known :
  LoadBytes Getenv ReadFile trim_uni range Unmarshal Marshal Decode raw = Ok c -> Validate url_Parse ParseIP c known = [] ->
  Forall (fun n => 1 <= n)%Z [gc_PerMetricCardinalityBudget (c_Governance c); gc_MaxDPM (c_Governance c);
    gc_MaxCatchupPerTick (c_Governance c); gc_MaxStreamLabelKeys (c_Governance c); qc_EmitWorkers (c_Queue c)] /\
  (ha_Coordinator (c_HA c) = "lease" -> ha_Checkpoint (c_HA c) <> "file") /\
  (ha_Coordinator (c_HA c) = "dynamodb" -> ha_Checkpoint (c_HA c) = "dynamodb" /\ dh_Table (ha_DynamoDB (c_HA c)) <> "" /\
     dh_LockName (ha_DynamoDB (c_HA c)) <> "" /\
     (0 < dh_RetryPeriod (ha_DynamoDB (c_HA c)) < dh_RenewDeadline (ha_DynamoDB (c_HA c)))%Z /\
     (dh_RenewDeadline (ha_DynamoDB (c_HA c)) < dh_LeaseDuration (ha_DynamoDB (c_HA c)))%Z) /\
  NoDup (map sc_SourceInstance (enabled_sources c)) /\
  Forall (source_ok known) (enabled_sources c).
Proof.
  intros Hload Hv. assert (exists c0, c = apply_defaults c0) as [c0 ->].
  { revert Hload. unfold LoadBytes. repeat case_match; try done. intros [= <-]. eauto. }
  clear Hload. pose proof (Validate_sources _ _ Hv) as Hsrc. destruct (validate_sources_nil _ _ _ Hsrc) as [Hnd Hall].
  unfold Validate in Hv. rewrite !app_nil in Hv. destruct Hv as (_ & Hw & Hg & _ & Hh & _).
  rewrite err_when_nil, negb_false_iff, Z.eqb_eq in Hw. unfold validate_governance in Hg. rewrite !app_nil, !err_when_nil, !Z.ltb_ge in Hg.
  split_and!.
  - cbn [apply_defaults c_Governance default_governance gc_PerMetricCardinalityBudget gc_MaxDPM gc_MaxCatchupPerTick gc_MaxStreamLabelKeys] in *.
    destruct Hg as (H1 & H2 & H3 & H4). assert (forall d z, d <> 0 -> 0 <= or_int d z -> 1 <= or_int d z)%Z as Hpos.
    { intros d z Hd Hz. pose proof (or_int_nonzero d z Hd). lia. }
    repeat constructor; [by apply Hpos..|]. by rewrite Hw.
  - intros Hco Hcp. unfold validate_ha in Hh. rewrite Hco, Hcp in Hh. by rewrite !app_nil in Hh; destruct Hh as (_ & _ & ? & _).
  - intros Hco. assert (uses_dynamodb (c_HA c0) = true) as Hu.
    { unfold uses_dynamodb. cbn in Hco. unfold default_ha in Hco. destruct (uses_dynamodb (c_HA c0)) eqn:E; [exact E|].
      unfold uses_dynamodb in E. rewrite Hco in E. done. }
    assert (dh_LockName (ha_DynamoDB (c_HA (apply_defaults c0))) <> "") as Hlock.
    { cbn. unfold default_ha. rewrite Hu. cbn. unfold or_string. by case_decide. }
    unfold validate_ha in Hh. rewrite Hco in Hh. rewrite !app_nil, !err_when_nil in Hh. destruct Hh as (_ & _ & _ & Hcp & Htab & Htime).
    rewrite (bool_decide_true ("dynamodb" = "dynamodb")) in Hcp, Htab, Htime by done. cbn [andb orb] in *.
    rewrite negb_false_iff, bool_decide_eq_true in Hcp. rewrite bool_decide_eq_false in Htab.
    rewrite !app_nil, !err_when_nil, !orb_false_iff, !Z.ltb_ge, !Z.leb_gt in Htime. split_and!; try done; lia.
  - exact Hnd.
  - apply Forall_forall. intros s Hs. destruct (Hall s Hs) as (_ & seen & Hvs). apply (validate_source_nil _ _ _ Hvs).
    apply list_elem_of_filter in Hs as [_ Hs]. cbn [apply_defaults c_Sources] in Hs. apply list_elem_of_fmap in Hs as (s0 & -> & _).
    intros name lp. cbn [default_source sc_Loops]. rewrite lookup_fmap. destruct (sc_Loops s0 !! name) as [lp0|]; [|done].
    intros [= <-]. by apply or_int_nonzero.
Qed.
End accepted.

(** ** A concrete configuration *)

Module ConfigDemo.
Definition analytics : LoopConfig := mkLoopConfig true Minute (50 * Minute) 0 (50 * Minute) (90 * Minute) "portkey_api" ["requests"] ∅.
Definition sessions : LoopConfig := mkLoopConfig true Minute 0 0 0 0 "langsmith" [] ∅.
Definition sources : list SourceConfig :=
  [mkSourceConfig "portkey" true "https://api.portkey.ai/v1" "portkey-prod" (mkAuth "x-portkey-api-key" "secret-key")
     (mkRateLimit (f64_of_Z 0) 0) (mkHTTP "" [] false) {[ "analytics" := analytics ]} [];
   plain_source "langsmith" "http://10.0.0.7" "langsmith-prod" {[ "sessions" := sessions ]} [] "" ""].
(** The second source is left out by disabling it. *)
Definition disabled (s : SourceConfig) : SourceConfig :=
  mkSourceConfig (sc_Type s) false (sc_BaseURL s) (sc_SourceInstance s) (sc_Auth s) (sc_RateLimit s) (sc_HTTP s) (sc_Loops s) (sc_APIKeyUseCases s).
Definition with_sources (co cp : string) (conn : OTLPConn) (l : list SourceConfig) : Config :=
  mkBridgeConfig (mkEmitConfig (mkOTLPTarget conn 0) None) (mkIdentity "genai-otel-bridge" "prod")
    (mkHA co cp (mkDynamoHA "table" "" "" "" "" 0 0 0)) (mkQueue 0 0 1) (mkGovernance 0 0 0 0 []) (mkLogConfig "" "")
    (mkSelfobs (mkProfiling true "" (mkPull "") (mkPush "" "" "")) (mkTracing false)) l.
Definition gateway : OTLPConn := mkOTLPConn "https://otlp.example" "1" "tok" false.
Definition decoded : Config := with_sources "dynamodb" "dynamodb" gateway (take 1 sources ++ map disabled (drop 1 sources)).
Definition known : gset string := {[ "portkey"; "langsmith" ]}.

(** The hosts of the URLs the examples spell. *)
Definition parse (s : string) : option URL :=
  if has_prefix "http://localhost:" s then Some (mkURL "http" "localhost")
  else if has_prefix "http://localhost." s then Some (mkURL "http" "localhost.evil.example")
  else if has_prefix "http://8.8.8.8" s then Some (mkURL "http" "8.8.8.8")
  else if has_prefix "http://alloy" s then Some (mkURL "http" "alloy") else None.
Definition parse_ip (s : string) : option IP := if decide (s = "8.8.8.8") then Some (v4 8 8 8 8) else None.
Definition verdict (conn : OTLPConn) : list ConfigErr := Validate parse parse_ip (apply_defaults (with_sources "none" "file" conn [])) known.

(** A YAML library that knows one scalar. *)
Definition getenv (n : string) : string := if decide (n = "TOKEN") then "hunter2" else "".
Definition no_file (_ : string) : option string := None.
Definition raw : string := "token: ${TOKEN}".
Definition unmarshal (s : string) : result string Node := Ok (YNode ScalarNode "!!str" s []).
Definition marshal (n : Node) : result string string := match n with YNode _ _ v _ => Ok v end.
Definition decode_ok (_ : string) : result string Config := Ok decoded.
Definition decode_err (s : string) : result string Config := Err ("cannot decode " +:+ s).
Definition tree (s : string) : Node := YNode ScalarNode "!!str" s [].
Definition subst : string := match injectEnvPlaceholders getenv raw with Ok (o, _) => o | Err e => e end.
Definition ph : gmap string string := match injectEnvPlaceholders getenv raw with Ok (_, m) => m | Err _ => ∅ end.
Lemma demo_injected : injectEnvPlaceholders getenv raw = Ok (subst, ph).
Proof.
  unfold subst, ph. destruct (injectEnvPlaceholders getenv raw) as [[o m]|e] eqn:E; [done|].
  apply (f_equal is_ok) in E. vm_compute in E. discriminate E.
Qed.
Definition load := LoadBytes getenv no_file id map_to_list unmarshal marshal.
End ConfigDemo.

Example redacted : ConfigDemo.load ConfigDemo.decode_err ConfigDemo.raw = Err "config: parse: cannot decode token: [redacted]".
Proof. vm_compute. reflexivity. Qed.

Lemma LoadBytes_redacts_witness : contains "config: parse: cannot decode token: [redacted]" (ConfigDemo.getenv "TOKEN") = false.
Proof.
  apply (LoadBytes_redacts ConfigDemo.getenv ConfigDemo.no_file id map_to_list ConfigDemo.unmarshal ConfigDemo.marshal ConfigDemo.decode_err
    ConfigDemo.raw ConfigDemo.subst ConfigDemo.ph (ConfigDemo.tree ConfigDemo.subst)
    (ConfigDemo.tree "token: hunter2") _ "TOKEN").
  - done.
  - apply ConfigDemo.demo_injected.
  - reflexivity.
  - vm_compute. reflexivity.
  - apply redacted.
  - apply (bool_decide_unpack _). vm_compute. exact I.
  - split; [apply Nat.ltb_lt; vm_compute; reflexivity|]. split; vm_compute; reflexivity.
Defined.

Lemma demo_accepted : Validate ConfigDemo.parse ConfigDemo.parse_ip (apply_defaults ConfigDemo.decoded) ConfigDemo.known = [].
Proof. vm_compute. reflexivity. Qed.

Lemma loaded_config_ok_witness :
  gc_MaxStreamLabelKeys (c_Governance (apply_defaults ConfigDemo.decoded)) = 15%Z /\
  Forall (source_ok ConfigDemo.known) (enabled_sources (apply_defaults ConfigDemo.decoded)) /\ length (enabled_sources (apply_defaults ConfigDemo.decoded)) = 1.
Proof.
  split; [reflexivity|]. split; [|vm_compute; reflexivity].
  destruct (loaded_config_ok ConfigDemo.parse ConfigDemo.parse_ip ConfigDemo.getenv ConfigDemo.no_file id map_to_list ConfigDemo.unmarshal
    ConfigDemo.marshal ConfigDemo.decode_ok ConfigDemo.raw (apply_defaults ConfigDemo.decoded) ConfigDemo.known) as (_ & _ & _ & _ & Hs).
  - vm_compute. reflexivity.
  - apply demo_accepted.
  - exact Hs.
Defined.

Lemma accepted_no_cleartext_witness : guarded ConfigDemo.parse ConfigDemo.parse_ip "https://otlp.example".
Proof.
  destruct (accepted_no_cleartext ConfigDemo.parse ConfigDemo.parse_ip (apply_defaults ConfigDemo.decoded) ConfigDemo.known demo_accepted) as (He & _).
  apply (He ConfigDemo.gateway); [left|by left].
Defined.

(** Cleartext endpoints: the machine itself, a look-alike host, an in-cluster
    receiver with and without a credential, a public address. *)
Example cleartext_verdicts :
  map ConfigDemo.verdict
    [mkOTLPConn "http://localhost:4318" "1" "tok" false; mkOTLPConn "http://localhost.evil.example" "1" "tok" false;
     mkOTLPConn "http://alloy:4318" "" "" true; mkOTLPConn "http://alloy:4318" "1" "" true; mkOTLPConn "http://8.8.8.8" "" "" true] =
  [[]; [CleartextEndpoint "emit.telemetry.otlp" "http://localhost.evil.example"]; [];
   [InsecureWithCredentials "emit.telemetry.otlp"]; [InsecurePublic "emit.telemetry.otlp" "http://8.8.8.8"]].
Proof. vm_compute. reflexivity. Qed.

(** The window check wraps for a settle near the end of the range, and a rate
    that is not a number is not refused. *)
Example validate_gaps :
  let lp settle := mkLoopConfig true Minute Minute settle 0 0 "" [] ∅ in
  validate_loop "i" "l" (lp maxInt64) = [] /\ SFleb S754_nan (f64_of_Z 0) = false.
Proof. split; vm_compute; reflexivity. Qed.
