(* ===== verification/Helmgen.v ===== *)
(** * Generated configuration regions (internal/config/gen/helmgen/helmgen.go)

    The generator splices a rendered block between two marker lines of the
    chart's values file, and a test extracts the region again to compare it.
    The reflective renderer and the YAML encoder produce the block's body,
    which is an argument here; this file models what is done with it. *)

From S2P Require Import Prelude Model ConfigSecrets.

Definition BeginMarker : string := "# >>> BEGIN generated config — do not edit by hand; run `just gen` <<<".
Definition EndMarker : string := "# >>> END generated config <<<".
Definition ExampleBeginMarker : string := "# >>> BEGIN generated source examples — do not edit by hand; run `just gen` <<<".
Definition ExampleEndMarker : string := "# >>> END generated source examples <<<".

(** What a builder holds after writing each line and a newline. *)
Fixpoint unlines (l : list string) : string := match l with [] => "" | ln :: l => ln +:+ String newline (unlines l) end.

Section region.
Context (trim_uni : string -> string).

(** [findRegion]: the first begin line, and the first end line after it. *)
Definition find_step (bg en : string) (st : option nat * option nat) (i : nat) (ln : string) : option nat * option nat :=
  let t := TrimSpace trim_uni ln in
  if decide (t = bg) then match st.1 with None => (Some i, st.2) | Some _ => st end
  else if decide (t = en) then match st with (Some _, None) => (st.1, Some i) | _ => st end
  else st.
Fixpoint find_from (bg en : string) (i : nat) (st : option nat * option nat) (lines : list string) : option nat * option nat :=
  match lines with [] => st | ln :: lines => find_from bg en (S i) (find_step bg en st i ln) lines end.
Definition findRegion (lines : list string) (bg en : string) : option nat * option nat := find_from bg en 0 (None, None) lines.

Definition extractRegion (values bg en : string) : option string :=
  let lines := split_on newline values in
  match findRegion lines bg en with
  | (Some start, Some stop) => Some (join_with newline (take (S stop - start) (drop start lines)) +:+ String newline "")
  | _ => None
  end.

(** The lines after the region, but for the empty last element of the split. *)
Fixpoint without_last_empty (l : list string) : list string :=
  match l with
  | [] => []
  | [ln] => if decide (ln = "") then [] else [ln]
  | ln :: l => ln :: without_last_empty l
  end.

Definition spliceRegion (values block bg en : string) : option string :=
  let lines := split_on newline values in
  match findRegion lines bg en with
  | (Some start, Some stop) => Some (unlines (take start lines) +:+ block +:+ unlines (without_last_empty (drop (S stop) lines)))
  | _ => None
  end.

Definition ExtractConfigBlock (values : string) : option string := extractRegion values BeginMarker EndMarker.
Definition SpliceConfigBlock (values block : string) : option string := spliceRegion values block BeginMarker EndMarker.
Definition ExtractExampleBlock (values : string) : option string := extractRegion values ExampleBeginMarker ExampleEndMarker.
Definition SpliceExampleBlock (values block : string) : option string := spliceRegion values block ExampleBeginMarker ExampleEndMarker.

(** ** The blocks *)

(** [strings.TrimRight] of newlines. *)
Definition TrimRight_newlines (s : string) : string := rev_string (trim_left (Ascii.eqb newline) (rev_string s)).

(** [RenderConfigBlock] after the body was rendered. *)
Definition config_block (body : string) : string :=
  unlines ([BeginMarker; "config:"] ++ map (fun ln => if decide (ln = "") then "" else "  " +:+ ln) (split_on newline (TrimRight_newlines body)) ++ [EndMarker]).

(** [RenderExampleBlock] after its values were rendered. *)
Definition example_lines (y : string) : list string :=
  imap (fun i ln => if decide (i = 0) then "  - " +:+ ln else if decide (ln = "") then "" else "    " +:+ ln) (split_on newline (TrimRight_newlines y)).
Definition example_block (ys : list string) : string :=
  let body := unlines ("sources:" :: concat (map example_lines ys)) in
  unlines ([ExampleBeginMarker; "# Example source(s) — NOT active. Copy under `config.sources`, set the secret(s), and";
            "# adjust per environment. Generated from each source package's ExampleSource()."]
    ++ map (fun ln => if decide (ln = "") then "#" else "# " +:+ ln) (split_on newline (TrimRight_newlines body)) ++ [ExampleEndMarker]).

(** [neutralizeEnvRefs]: [${VAR}] becomes [<VAR>]. *)
Definition neutral_piece (p : piece) : string := match p with PByte a => String a "" | PRef name => "<" +:+ name +:+ ">" end.
Fixpoint neutral_text (l : list piece) : string := match l with [] => "" | p :: l => neutral_piece p +:+ neutral_text l end.
Definition neutralizeEnvRefs (b : string) : string := neutral_text (env_pieces b).

(** [RenderECSConfigFile] after its parts were rendered. *)
Definition ecs_file (header body : string) (examples : list string) : string :=
  header +:+ body +:+ String newline (neutralizeEnvRefs (example_block examples)).

(** ** Lines *)

Definition line_free (ln : string) : Prop := string_forallb (fun a => negb (Ascii.eqb a newline)) ln = true.

Lemma split_lines s : Forall line_free (split_on newline s).
Proof.
  induction s as [|a s IH]; cbn [split_on]; [by repeat constructor|]. destruct (Ascii.eqb a newline) eqn:Ha; [by constructor|].
  destruct (split_on newline s) as [|x xs]; [apply Forall_singleton; unfold line_free; cbn [string_forallb]; by rewrite Ha|].
  inversion_clear IH as [|? ? Hx Hxs]. constructor; [|done]. unfold line_free in *. cbn [string_forallb]. by rewrite Ha.
Qed.

Lemma unlines_app l1 l2 : unlines (l1 ++ l2) = unlines l1 +:+ unlines l2.
Proof. induction l1 as [|x l1 IH]; [by rewrite string_app_empty|]. cbn. by rewrite IH, string_app_assoc, string_app_cons. Qed.

Lemma split_unlines l : Forall line_free l -> split_on newline (unlines l) = l ++ [""].
Proof. induction 1 as [|x l Hx Hl IH]; [done|]. cbn [unlines]. by rewrite (split_on_app newline x _ Hx), IH. Qed.

Lemma join_unlines l : l <> [] -> join_with newline l +:+ String newline "" = unlines l.
Proof.
  unfold join_with. induction l as [|x [|y l] IH]; intros Hne; [done|done|]. cbn [unlines].
  change (String.concat (String newline "") (x :: y :: l)) with (x +:+ String newline "" +:+ String.concat (String newline "") (y :: l)).
  rewrite !string_app_assoc. f_equal. rewrite string_app_cons, string_app_empty. f_equal. by apply IH.
Qed.

Lemma without_last_snoc l : without_last_empty (l ++ [""]) = l.
Proof. induction l as [|x [|y l] IH]; [done|done|]. cbn [app without_last_empty]. f_equal. exact IH. Qed.

Lemma without_last_cases l : without_last_empty l = l \/ exists l', l = l' ++ [""] /\ without_last_empty l = l'.
Proof.
  destruct l as [|x l] using rev_ind; [by left|]. destruct (decide (x = "")) as [->|Hx].
  - right. exists l. split; [done|apply without_last_snoc].
  - left. clear IHl. induction l as [|y [|z l] IH]; [cbn; by case_decide|cbn; by case_decide|]. cbn [app without_last_empty]. f_equal. exact IH.
Qed.

(** ** Regions *)

Context (bg en : string).
Hypothesis (Hdiff : bg <> en).

Definition at_marker (m ln : string) : Prop := TrimSpace trim_uni ln = m.

(** A text with one region to replace. *)
Record region_at (lines pre mid post : list string) (b e : string) : Prop := {
  ra_lines : lines = pre ++ b :: mid ++ e :: post;
  ra_pre : Forall (fun ln => ~ at_marker bg ln) pre;
  ra_begin : at_marker bg b;
  ra_mid : Forall (fun ln => ~ at_marker en ln) mid;
  ra_end : at_marker en e
}.

Lemma find_skip i pre rest : Forall (fun ln => ~ at_marker bg ln) pre ->
  find_from bg en i (None, None) (pre ++ rest) = find_from bg en (i + length pre) (None, None) rest.
Proof using Type.
  intros Hp. revert i. induction Hp as [|ln pre Hln Hp IH]; intros i; [cbn; f_equal; lia|]. cbn [app find_from].
  unfold find_step at 1. rewrite decide_False by done. cbn [fst]. destruct (decide _); rewrite IH; f_equal; simpl; lia.
Qed.

Lemma find_inside i a mid rest : Forall (fun ln => ~ at_marker en ln) mid ->
  find_from bg en i (Some a, None) (mid ++ rest) = find_from bg en (i + length mid) (Some a, None) rest.
Proof using Type.
  intros Hp. revert i. induction Hp as [|ln mid Hln Hp IH]; intros i; [cbn; f_equal; lia|]. cbn [app find_from].
  unfold find_step at 1. cbn [fst]. rewrite (decide_False (P := _ = en)) by done. destruct (decide _); rewrite IH; f_equal; simpl; lia.
Qed.

Lemma find_done i a b l : find_from bg en i (Some a, Some b) l = (Some a, Some b).
Proof using Type.
  revert i. induction l as [|ln l IH]; intros i; [done|]. cbn [find_from]. unfold find_step at 1. cbn [fst]. by repeat case_decide; apply IH.
Qed.

Lemma findRegion_at lines pre mid post b e : region_at lines pre mid post b e -> findRegion lines bg en = (Some (length pre), Some (S (length pre + length mid))).
Proof using Hdiff.
  intros [-> Hp Hb Hm He]. unfold findRegion. rewrite find_skip by done. cbn [find_from]. unfold find_step at 1. cbn [fst snd]. rewrite decide_True by done.
  rewrite find_inside by done. cbn [find_from]. unfold find_step at 1. cbn [fst snd]. unfold at_marker in He. rewrite He, decide_False, decide_True by done.
  rewrite find_done. repeat f_equal.
Qed.

Lemma find_some_end i a lines stop : find_from bg en i (Some a, None) lines = (Some a, Some stop) ->
  exists mid e post, lines = mid ++ e :: post /\ Forall (fun ln => ~ at_marker en ln) mid /\ at_marker en e /\ stop = i + length mid.
Proof using Hdiff.
  revert i. induction lines as [|ln lines IH]; intros i; [done|]. cbn [find_from]. unfold find_step at 1. cbn [fst snd].
  destruct (decide (TrimSpace trim_uni ln = en)) as [He|He].
  - rewrite He, decide_False by done. rewrite find_done. intros [= <-]. exists [], ln, lines. split_and!; [done|done|done|simpl; lia].
  - intros Hf. assert (find_from bg en (S i) (Some a, None) lines = (Some a, Some stop)) as Hf' by (by destruct (decide _)).
    destruct (IH _ Hf') as (mid & e & post & -> & Hm & Hee & ->). exists (ln :: mid), e, post. split_and!; [done|by constructor|done|simpl; lia].
Qed.

Lemma find_keeps_start i a b lines start stop : find_from bg en i (Some a, b) lines = (Some start, stop) -> start = a.
Proof using Type.
  revert i b. induction lines as [|ln lines IH]; intros i b; cbn [find_from]; [by intros [= -> _]|]. unfold find_step at 1. cbn [fst snd].
  destruct (decide _); [apply IH|]. destruct (decide _); [|apply IH]. destruct b; apply IH.
Qed.

Lemma findRegion_inv lines start stop : findRegion lines bg en = (Some start, Some stop) ->
  exists pre mid post b e, region_at lines pre mid post b e /\ start = length pre /\ stop = S (length pre + length mid).
Proof using Hdiff.
  unfold findRegion.
  cut (forall i, find_from bg en i (None, None) lines = (Some start, Some stop) ->
    exists pre mid post b e, region_at lines pre mid post b e /\ start = i + length pre /\ stop = S (i + length pre + length mid)); [intros H; exact (H 0)|].
  induction lines as [|ln lines IH]; intros i; [done|]. cbn [find_from]. unfold find_step at 1. cbn [fst snd].
  destruct (decide (TrimSpace trim_uni ln = bg)) as [Hb|Hb].
  - intros Hf. pose proof (find_keeps_start _ _ _ _ _ _ Hf) as ->. apply find_some_end in Hf as (mid & e & post & -> & Hm & He & ->).
    exists [], mid, post, ln, e. split_and!; [split; [done|constructor|done|done|done]|simpl; lia..].
  - intros Hf. assert (find_from bg en (S i) (None, None) lines = (Some start, Some stop)) as Hf' by (by destruct (decide _)).
    destruct (IH _ Hf') as (pre & mid & post & b & e & [-> Hp Hbb Hm He] & -> & ->). exists (ln :: pre), mid, post, b, e.
    split_and!; [split; [done|by constructor|done|done|done]|simpl; lia..].
Qed.

(** ** Splicing *)

(** A full region: what the renderers return. *)
Record block_of (block b : string) (mid : list string) (e : string) : Prop := {
  bo_text : block = unlines (b :: mid ++ [e]);
  bo_lines : Forall line_free (b :: mid ++ [e]);
  bo_begin : at_marker bg b;
  bo_mid : Forall (fun ln => ~ at_marker en ln) mid;
  bo_end : at_marker en e
}.

Lemma splice_eq values block pre mid post b e : region_at (split_on newline values) pre mid post b e ->
  spliceRegion values block bg en = Some (unlines pre +:+ block +:+ unlines (without_last_empty post)).
Proof using Hdiff.
  intros Hr. unfold spliceRegion. rewrite (findRegion_at _ _ _ _ _ _ Hr). destruct Hr as [-> _ _ _ _]. rewrite take_app_length. repeat f_equal.
  replace (S (S (length pre + length mid))) with (length (pre ++ b :: mid ++ [e])) by (rewrite !length_app; simpl; rewrite length_app; simpl; lia).
  replace (pre ++ b :: mid ++ e :: post) with ((pre ++ b :: mid ++ [e]) ++ post) by (by rewrite <-!(assoc_L (++)); simpl; rewrite <-(assoc_L (++))).
  by rewrite drop_app_length.
Qed.

Lemma extract_eq values pre mid post b e : region_at (split_on newline values) pre mid post b e -> extractRegion values bg en = Some (unlines (b :: mid ++ [e])).
Proof using Hdiff.
  intros Hr. unfold extractRegion. rewrite (findRegion_at _ _ _ _ _ _ Hr). destruct Hr as [-> _ _ _ _]. rewrite drop_app_length.
  replace (S (S (length pre + length mid)) - length pre) with (length (b :: mid ++ [e])) by (simpl; rewrite length_app; simpl; lia).
  replace (b :: mid ++ e :: post) with ((b :: mid ++ [e]) ++ post) by (simpl; by rewrite <-(assoc_L (++))).
  by rewrite take_app_length, join_unlines.
Qed.

Lemma spliced_region pre post b mid e block :
  Forall line_free pre -> Forall line_free post -> Forall (fun ln => ~ at_marker bg ln) pre -> block_of block b mid e ->
  region_at (split_on newline (unlines pre +:+ block +:+ unlines post)) pre mid (post ++ [""]) b e.
Proof using Type.
  intros Hlp Hlq Hp [-> Hl Hb Hm He]. rewrite <-!unlines_app, split_unlines.
  - split; try done. by rewrite <-!(assoc_L (++)), <-app_comm_cons, <-(assoc_L (++)).
  - apply Forall_app. split; [done|]. apply Forall_app. by split.
Qed.
End region.

(** ** What a splice does *)

Lemma unlines_split s : unlines (split_on newline s) = s +:+ String newline "".
Proof.
  induction s as [|a s IH]; [done|]. cbn [split_on]. destruct (Ascii.eqb_spec a newline) as [->|Ha].
  - cbn [unlines]. rewrite string_app_empty, IH, string_app_cons. done.
  - destruct (split_on newline s) as [|x xs]; [by apply (f_equal slen) in IH; rewrite string_app_length in IH; simpl in IH; lia|].
    cbn [unlines] in IH |- *. by rewrite !string_app_cons, IH.
Qed.

Lemma split_ends_line s l : split_on newline s = l ++ [""] -> s = unlines l.
Proof.
  intros Hs. pose proof (unlines_split s) as Hu. rewrite Hs, unlines_app in Hu. cbn [unlines] in Hu. rewrite string_app_empty in Hu.
  symmetry. by eapply string_app_inj_r.
Qed.

Section splice.
Context (trim_uni : string -> string) (bg en : string).
Hypothesis (Hdiff : bg <> en).

Lemma spliceRegion_inv values block out : spliceRegion trim_uni values block bg en = Some out ->
  exists pre mid post b e, region_at trim_uni bg en (split_on newline values) pre mid post b e.
Proof using Hdiff.
  unfold spliceRegion. destruct (findRegion _ _ _ _) as [[start|] [stop|]] eqn:Hf; try done. intros _.
  apply findRegion_inv in Hf as (pre & mid & post & b & e & Hr & _); [|done]. by exists pre, mid, post, b, e.
Qed.

Lemma extractRegion_inv values block : extractRegion trim_uni values bg en = Some block ->
  exists pre mid post b e, region_at trim_uni bg en (split_on newline values) pre mid post b e /\ block = unlines (b :: mid ++ [e]).
Proof using Hdiff.
  intros He. pose proof He as He'. revert He. unfold extractRegion. destruct (findRegion _ _ _ _) as [[start|] [stop|]] eqn:Hf; try done. intros _.
  apply findRegion_inv in Hf as (pre & mid & post & b & e & Hr & _); [|done]. exists pre, mid, post, b, e. split; [done|].
  rewrite (extract_eq _ _ _ Hdiff _ _ _ _ _ _ Hr) in He'. by injection He'.
Qed.

Lemma without_last_free l : Forall line_free l -> Forall line_free (without_last_empty l).
Proof using Type. destruct (without_last_cases l) as [->|(l' & -> & ->)]; [done|]. by rewrite Forall_app; intros []. Qed.

Lemma splice_roundtrip values block b mid e out :
  block_of trim_uni bg en block b mid e -> spliceRegion trim_uni values block bg en = Some out ->
  extractRegion trim_uni out bg en = Some block /\ spliceRegion trim_uni out block bg en = Some out /\
  exists pre post, (exists old, values +:+ String newline "" = unlines pre +:+ old +:+ unlines post) /\
    out = unlines pre +:+ block +:+ unlines (without_last_empty post).
Proof using Hdiff.
  intros Hb Hs. destruct (spliceRegion_inv _ _ _ Hs) as (pre & omid & post & ob & oe & Hr). pose proof Hs as Hs'.
  rewrite (splice_eq _ _ _ Hdiff _ _ _ _ _ _ _ Hr) in Hs. injection Hs as <-.
  pose proof (split_lines values) as Hfree. rewrite (ra_lines _ _ _ _ _ _ _ _ _ Hr), Forall_app, Forall_cons, Forall_app, Forall_cons in Hfree.
  destruct Hfree as (Hfp & _ & _ & _ & Hfq). pose proof (without_last_free post Hfq) as Hfq'.
  pose proof (spliced_region trim_uni bg en pre (without_last_empty post) b mid e block Hfp Hfq' (ra_pre _ _ _ _ _ _ _ _ _ Hr) Hb) as Hnew.
  split; [|split].
  - rewrite (extract_eq _ _ _ Hdiff _ _ _ _ _ _ Hnew). f_equal. symmetry. apply Hb.
  - rewrite (splice_eq _ _ _ Hdiff _ _ _ _ _ _ _ Hnew). by rewrite without_last_snoc.
  - exists pre, post. split; [|done]. exists (unlines (ob :: omid ++ [oe])). rewrite <-unlines_split, (ra_lines _ _ _ _ _ _ _ _ _ Hr), <-!unlines_app.
    f_equal. f_equal. cbn [app]. by rewrite <-(assoc_L (++)).
Qed.

(** Splicing what is already there changes nothing. *)
Lemma splice_noop values block : en <> "" -> TrimSpace trim_uni "" = "" ->
  extractRegion trim_uni values bg en = Some block -> (exists l, split_on newline values = l ++ [""]) -> spliceRegion trim_uni values block bg en = Some values.
Proof using Hdiff.
  intros Hen Ht He [l Hl]. apply extractRegion_inv in He as (pre & mid & post & b & e & Hr & ->).
  rewrite (splice_eq _ _ _ Hdiff _ _ _ _ _ _ _ Hr). f_equal. pose proof (ra_lines _ _ _ _ _ _ _ _ _ Hr) as Hlines. rewrite Hl in Hlines.
  destruct post as [|x post] using rev_ind.
  - exfalso. replace (pre ++ b :: mid ++ [e]) with ((pre ++ b :: mid) ++ [e]) in Hlines by (by rewrite <-(assoc_L (++))).
    apply app_inj_tail in Hlines as [_ <-]. pose proof (ra_end _ _ _ _ _ _ _ _ _ Hr) as Hend. unfold at_marker in Hend. congruence.
  - clear IHpost. replace (pre ++ b :: mid ++ e :: post ++ [x]) with ((pre ++ b :: mid ++ e :: post) ++ [x]) in Hlines by (by rewrite <-(assoc_L (++)), <-app_comm_cons, <-(assoc_L (++))).
    apply app_inj_tail in Hlines as [-> <-]. rewrite without_last_snoc. symmetry. apply split_ends_line in Hl. rewrite Hl, <-!unlines_app. f_equal. f_equal.
    cbn [app]. by rewrite <-(assoc_L (++)).
Qed.
End splice.

(** ** The configuration block *)

Section config_block.
Context (trim_uni : string -> string).
(** The marker is not ASCII, so trimming it is the library's; it has no blanks
    at its ends. *)
Hypothesis (Htrim : trim_uni BeginMarker = BeginMarker).

Definition body_lines (body : string) : list string := split_on newline (TrimRight_newlines body).
Definition indent (ln : string) : string := if decide (ln = "") then "" else "  " +:+ ln.

(** No line of the rendered body reads as the end marker. *)
Definition no_end_marker (body : string) : Prop := Forall (fun ln => TrimSpace trim_uni (indent ln) <> EndMarker) (body_lines body).

Lemma begin_marker_kept : TrimSpace trim_uni BeginMarker = BeginMarker.
Proof using Htrim. unfold TrimSpace. replace (is_ascii BeginMarker) with false by (vm_compute; reflexivity). exact Htrim. Qed.

Lemma config_block_of body : no_end_marker body ->
  block_of trim_uni BeginMarker EndMarker (config_block body) BeginMarker ("config:" :: map indent (body_lines body)) EndMarker.
Proof using Htrim.
  intros Hno. assert (Forall line_free (body_lines body)) as Hfree by apply split_lines. split.
  - done.
  - apply Forall_cons. split; [vm_compute; reflexivity|]. apply Forall_cons. split; [vm_compute; reflexivity|]. apply Forall_app.
    split; [|repeat constructor; vm_compute; reflexivity]. apply Forall_map. eapply Forall_impl; [exact Hfree|]. intros ln Hln. unfold indent. cbn.
    case_decide; [done|]. unfold line_free. rewrite string_forallb_app. by rewrite Hln.
  - apply begin_marker_kept.
  - apply Forall_cons. split; [unfold at_marker; vm_compute; discriminate|]. apply Forall_map. exact Hno.
  - unfold at_marker. vm_compute. reflexivity.
Qed.

(** Regenerating the chart's configuration converges.  Splicing a freshly
    rendered block into a values file that has the two markers makes the
    extracted region equal that block byte for byte, so the comparison test
    passes; splicing it again changes nothing; the text before and after the
    region survives (but for the final newline, which is added when missing);
    and on a file whose region already is the block the splice is the identity. *)
Theorem config_region_converges values body out :
  no_end_marker body -> SpliceConfigBlock trim_uni values (config_block body) = Some out ->
  ExtractConfigBlock trim_uni out = Some (config_block body) /\
  SpliceConfigBlock trim_uni out (config_block body) = Some out /\
  (exists pre post, (exists old, values +:+ String newline "" = unlines pre +:+ old +:+ unlines post) /\
     out = unlines pre +:+ config_block body +:+ unlines (without_last_empty post)) /\
  (ExtractConfigBlock trim_uni values = Some (config_block body) -> (exists l, split_on newline values = l ++ [""]) -> out = values).
Proof using Htrim.
  intros Hno Hs. assert (BeginMarker <> EndMarker) as Hdiff by (vm_compute; discriminate).
  destruct (splice_roundtrip trim_uni BeginMarker EndMarker Hdiff _ _ _ _ _ _ (config_block_of body Hno) Hs) as (Hx & Hi & Ho). split_and!; [done..|].
  intros He Hl. unfold SpliceConfigBlock in Hs. rewrite (splice_noop trim_uni _ _ Hdiff values (config_block body)) in Hs by (done || (vm_compute; discriminate)).
  by injection Hs.
Qed.
End config_block.

(** ** The ECS file's references *)

Lemma span_newline f s (t : string) : f newline = false -> span f (s +:+ String newline t) = ((span f s).1, (span f s).2 +:+ String newline t).
Proof.
  intros Hf. induction s as [|a s IH]; [rewrite string_app_empty; cbn [span]; by rewrite Hf|]. rewrite string_app_cons. cbn [span]. destruct (f a); [|done].
  rewrite IH. by destruct (span f s).
Qed.

Lemma env_ref_newline s (t : string) : env_ref (s +:+ String newline t) = (fun m : string * string => (m.1, m.2 +:+ String newline t)) <$> env_ref s.
Proof.
  unfold env_ref. destruct s as [|a s]; [done|]. destruct s as [|b s].
  { rewrite string_app_cons, string_app_empty. cbn [has_prefix]. by destruct (Ascii.eqb _ a). }
  rewrite !string_app_cons. cbn [has_prefix string_drop]. destruct (Ascii.eqb _ a); [|done]. destruct (Ascii.eqb _ b); [|done].
  rewrite span_newline by done. destruct (span ident_char s) as [[|x n] [|c r]]; cbn [fst snd]; try done.
  - rewrite string_app_empty. replace (Ascii.eqb newline "}"%char) with false by done. by rewrite andb_false_r.
  - rewrite string_app_cons. by destruct (_ && _).
Qed.

Lemma env_scan_fuel fuel fuel' s : slen s <= fuel -> slen s <= fuel' -> env_scan fuel s = env_scan fuel' s.
Proof.
  revert fuel' s. induction fuel as [|fuel IH]; intros [|fuel'] [|a s] H1 H2; try done; try (simpl in *; lia). cbn [env_scan].
  destruct (env_ref (String a s)) as [[n r]|] eqn:E.
  - apply env_ref_spec in E. apply (f_equal slen) in E. unfold ref_text in E. rewrite !string_app_length in E. simpl in *. f_equal. apply IH; lia.
  - f_equal. apply IH; simpl in *; lia.
Qed.

Lemma env_scan_newline fuel s (t : string) : slen s <= fuel -> slen (s +:+ String newline t) <= fuel ->
  env_scan fuel (s +:+ String newline t) = env_scan fuel s ++ PByte newline :: env_pieces t.
Proof.
  revert s. induction fuel as [|fuel IH]; intros s H1 H2; [rewrite string_app_length in H2; simpl in H2; lia|]. destruct s as [|a s].
  - rewrite string_app_empty. cbn [env_scan]. replace (env_ref (String newline t)) with (@None (string * string)) by done. cbn [app]. f_equal.
    apply env_scan_fuel; rewrite string_app_empty in H2; simpl in *; lia.
  - pose proof (env_ref_newline (String a s) t) as He. rewrite string_app_cons in He, H2 |- *. cbn [env_scan]. rewrite He.
    destruct (env_ref (String a s)) as [[n r]|] eqn:E; cbn [fmap option_fmap option_map fst snd app]; f_equal; apply IH.
    + apply env_ref_spec in E. apply (f_equal slen) in E. unfold ref_text in E. rewrite !string_app_length in E. simpl in *. lia.
    + apply env_ref_spec in E. apply (f_equal slen) in E. unfold ref_text in E. rewrite !string_app_length in E. simpl in *. rewrite string_app_length in *. simpl in *. lia.
    + simpl in *. lia.
    + simpl in *. lia.
Qed.

Lemma env_pieces_newline s (t : string) : env_pieces (s +:+ String newline t) = env_pieces s ++ PByte newline :: env_pieces t.
Proof.
  unfold env_pieces at 1. rewrite env_scan_newline by (rewrite ?string_app_length; simpl; lia). f_equal. apply env_scan_fuel; rewrite ?string_app_length; simpl; lia.
Qed.

(** A reference in a neutralised tail was one in the text. *)
Lemma neutral_span fuel s x c r : c <> "<"%char -> span ident_char (neutral_text (env_scan fuel s)) = (x, String c r) -> slen s <= fuel ->
  exists r', span ident_char s = (x, String c r').
Proof.
  intros Hc. revert s x r. induction fuel as [|fuel IH]; intros s x r.
  { destruct s; discriminate. }
  destruct s as [|a s]; [discriminate|]. cbn [env_scan].
  destruct (env_ref (String a s)) as [[n rr]|] eqn:E; cbn [neutral_text neutral_piece].
  - rewrite !string_app_assoc. change ("<" +:+ ?t) with (String "<"%char t). cbn [span]. intros [= <- <- _]. done.
  - change (String a "" +:+ ?t) with (String a t). cbn [span]. destruct (ident_char a).
    + destruct (span ident_char (neutral_text _)) as [x1 r1] eqn:E1. intros [= <- ->] Hl. destruct (IH _ _ _ E1) as [r' ->]; [simpl in Hl; lia|]. eauto.
    + intros [= <- <- _] _. eauto.
Qed.

Lemma env_ref_shape s name rest : env_ref s = Some (name, rest) ->
  exists s', s = String "$"%char (String "{"%char s') /\ span ident_char s' = (name, String "}"%char rest).
Proof.
  unfold env_ref. destruct (has_prefix "${" s) eqn:Hp; [|done]. apply has_prefix_spec in Hp as [s' ->]. change (string_drop 2 ("${" +:+ s')) with s'.
  intros Hm. exists s'. split; [done|]. destruct (span ident_char s') as [[|a n] [|c r]]; try done. destruct (_ && _) eqn:Hc; [|done].
  apply andb_prop in Hc as [_ ->%Ascii.eqb_eq]. by injection Hm as <- <-.
Qed.

Lemma env_ref_of_span s' a name rest : span ident_char s' = (String a name, String "}"%char rest) -> ident_start a = true ->
  env_ref (String "$"%char (String "{"%char s')) = Some (String a name, rest).
Proof. intros Hs Ha. unfold env_ref. cbn [has_prefix string_drop]. rewrite !Ascii.eqb_refl, Hs, Ha. done. Qed.

Lemma env_ref_start s name rest : env_ref s = Some (name, rest) -> exists a n, name = String a n /\ ident_start a = true.
Proof.
  unfold env_ref. destruct (has_prefix _ _); [|done]. destruct (span _ _) as [[|a n] [|c r]]; try done. destruct (ident_start a) eqn:Ha; [|done]. cbn.
  destruct (Ascii.eqb _ _); [|done]. intros [= <- _]. eauto.
Qed.

Lemma neutral_no_ref fuel s a : slen s <= fuel -> env_ref (String a s) = None -> env_ref (String a (neutral_text (env_scan fuel s))) = None.
Proof.
  intros Hl Hn. destruct (env_ref (String a (neutral_text _))) as [[name rest]|] eqn:E; [|done]. exfalso.
  destruct (env_ref_start _ _ _ E) as (b & n & -> & Hb). apply env_ref_shape in E as (s' & Heq & Hsp). injection Heq as -> Heq.
  destruct fuel as [|fuel]; [done|]. destruct s as [|c s]; [done|]. cbn [env_scan] in Heq.
  destruct (env_ref (String c s)) as [[nn rr]|] eqn:E2; cbn [neutral_text neutral_piece] in Heq; [done|].
  injection Heq as -> Heq. rewrite string_app_empty in Heq. subst s'. apply neutral_span in Hsp as [r' Hr]; [|done|simpl in Hl; lia].
  by rewrite (env_ref_of_span _ _ _ _ Hr Hb) in Hn.
Qed.

(** The characters of a neutralised reference start none. *)
Lemma plain_scan fuel p (t : string) : string_forallb (fun a => negb (Ascii.eqb a "$"%char)) p = true -> slen (p +:+ t) <= fuel ->
  piece_names (env_scan fuel (p +:+ t)) = piece_names (env_scan fuel t).
Proof.
  revert fuel. induction p as [|a p IH]; intros fuel Hp Hl; [done|]. cbn [string_forallb] in Hp. apply andb_prop in Hp as [Ha Hp].
  rewrite string_app_cons in Hl |- *. destruct fuel as [|fuel]; [simpl in Hl; lia|]. cbn [env_scan].
  destruct (env_ref (String a _)) as [[n r]|] eqn:E; [apply env_ref_shape in E as (? & [= -> _] & _); done|].
  change (piece_names (PByte a :: ?l)) with (piece_names l). rewrite IH by (done || simpl in Hl; lia). f_equal. simpl in Hl. rewrite string_app_length in Hl.
  apply (env_scan_fuel fuel (S fuel)); lia.
Qed.

Lemma name_plain s name rest : env_ref s = Some (name, rest) -> string_forallb (fun a => negb (Ascii.eqb a "$"%char)) name = true.
Proof.
  intros (s' & _ & Hs)%env_ref_shape. clear s. revert name rest Hs. induction s' as [|a s' IH]; intros name rest; [done|]. cbn [span].
  destruct (ident_char a) eqn:Ha; [|by intros [= <- _]]. destruct (span ident_char s') as [x y]. intros [= <- ->]. cbn. rewrite (IH _ _ eq_refl), andb_true_r.
  destruct (Ascii.eqb_spec a "$"%char) as [->|]; done.
Qed.

Lemma neutralized_refs b : piece_names (env_pieces (neutralizeEnvRefs b)) = [].
Proof.
  unfold neutralizeEnvRefs, env_pieces at 2. cut (forall fuel s fuel', slen s <= fuel -> slen (neutral_text (env_scan fuel s)) <= fuel' ->
    piece_names (env_scan fuel' (neutral_text (env_scan fuel s))) = []); [intros H; by apply H|].
  induction fuel as [|fuel IH]; intros s fuel' Hl Hl'; [by destruct fuel'|]. destruct s as [|a s]; [by destruct fuel'|]. cbn [env_scan] in Hl' |- *.
  destruct (env_ref (String a s)) as [[n r]|] eqn:E; cbn [neutral_text neutral_piece] in Hl' |- *.
  - pose proof (name_plain _ _ _ E) as Hn. apply env_ref_spec in E. apply (f_equal slen) in E. unfold ref_text in E. rewrite !string_app_length in E.
    rewrite plain_scan; [|rewrite !string_forallb_app, Hn; done|done]. apply IH; rewrite ?string_app_length in *; simpl in *; lia.
  - rewrite string_app_cons, string_app_empty in Hl' |- *. destruct fuel' as [|fuel']; [done|]. cbn [env_scan].
    rewrite (neutral_no_ref fuel s a) by (done || simpl in Hl; lia). apply IH; simpl in *; lia.
Qed.

(** The generated ECS file asks for exactly the secrets of its active part:
    neither the commented examples nor where they are joined add a reference,
    so with those set it always loads. *)
Theorem ecs_file_refs header body examples :
  piece_names (env_pieces (ecs_file header body examples)) = piece_names (env_pieces (header +:+ body)).
Proof.
  unfold ecs_file. rewrite <-string_app_assoc, env_pieces_newline. unfold piece_names. rewrite omap_app. cbn [omap list_omap].
  change (omap _ (env_pieces (neutralizeEnvRefs (example_block examples)))) with (piece_names (env_pieces (neutralizeEnvRefs (example_block examples)))).
  by rewrite neutralized_refs, app_nil_r.
Qed.

(** ** A regeneration *)

Module HelmgenDemo.
Definition nl (l : list string) : string := unlines l.
Definition trim (s : string) : string := s.
Definition values : string := nl ["replicas: 2"; BeginMarker; "config: {}"; EndMarker; "tail: true"].
Definition body : string := nl ["emit:"; "  endpoint: ${E}"].
Definition out : string := nl ["replicas: 2"; BeginMarker; "config:"; "  emit:"; "    endpoint: ${E}"; EndMarker; "tail: true"].
End HelmgenDemo.

Lemma config_region_converges_witness :
  ExtractConfigBlock HelmgenDemo.trim HelmgenDemo.out = Some (config_block HelmgenDemo.body) /\
  SpliceConfigBlock HelmgenDemo.trim HelmgenDemo.out (config_block HelmgenDemo.body) = Some HelmgenDemo.out.
Proof.
  destruct (config_region_converges HelmgenDemo.trim eq_refl HelmgenDemo.values HelmgenDemo.body HelmgenDemo.out) as (Hx & Hi & _).
  - unfold no_end_marker. repeat (apply Forall_cons; split; [vm_compute; discriminate|]). apply Forall_nil. exact I.
  - vm_compute. reflexivity.
  - split; [exact Hx|exact Hi].
Defined.
