(* ===== verification/Cleanup.v ===== *)
(** * The uninstall hook (internal/cleanup/cleanup.go)

    Deletes the Lease and the checkpoint ConfigMap, or keeps both: the Lease's
    transition counter is the epoch fence of the checkpoint. *)

From S2P Require Import Prelude.

Inductive DelErr := NotFound | DelFailed (text : string).

(** The two objects of the namespace, by what they fence: the Lease's
    transition count and the largest epoch stored in the checkpoint; and the
    two delete calls of the API server.  A failed call may have deleted. *)
Class CleanupAPI (W : Type) := {
  kw_lease : W -> option Z;
  kw_checkpoint : W -> option Z;
  kw_delLease : W -> option DelErr * W;
  kw_delCheckpoint : W -> option DelErr * W;
  kw_lease_gone w e w' : kw_delLease w = (e, w') ->
    kw_checkpoint w' = kw_checkpoint w /\
    match e with
    | None => kw_lease w' = None
    | Some NotFound => kw_lease w = None /\ kw_lease w' = None
    | Some (DelFailed _) => kw_lease w' = kw_lease w \/ kw_lease w' = None
    end;
  kw_checkpoint_gone w e w' : kw_delCheckpoint w = (e, w') ->
    kw_lease w' = kw_lease w /\
    match e with
    | None => kw_checkpoint w' = None
    | Some NotFound => kw_checkpoint w = None /\ kw_checkpoint w' = None
    | Some (DelFailed _) => kw_checkpoint w' = kw_checkpoint w \/ kw_checkpoint w' = None
    end
}.

(** A delete that counts: [apierrors.IsNotFound] is success. *)
Definition real_error (what : string) (e : option DelErr) : list string :=
  match e with Some (DelFailed t) => [what +:+ t] | _ => [] end.

Section cleanup.
Context {W : Type} `{CleanupAPI W}.

(** [errors.Join]: no errors is nil. *)
Definition Run (retainCheckpoint : bool) (w : W) : list string * W :=
  if retainCheckpoint then ([], w)
  else
    let '(e1, w) := kw_delLease w in
    let '(e2, w) := kw_delCheckpoint w in
    (real_error "delete lease: " e1 ++ real_error "delete checkpoint configmap: " e2, w).

(** A reinstall's first leader takes the retained Lease, counting one more
    transition, or a fresh one at epoch 0; it can commit when no larger epoch
    is stored. *)
Definition next_epoch (w : W) : Z := match kw_lease w with Some n => (n + 1)%Z | None => 0%Z end.
Definition resumable (w : W) : Prop := match kw_checkpoint w with Some e => (e <= next_epoch w)%Z | None => True end.

(** An uninstall never silently leaves a checkpoint its own fence shuts.
    When the hook reports success it kept both objects as they were or removed
    both, so a reinstall that could resume before still can. *)
Theorem cleanup_consistent retain w w' :
  Run retain w = ([], w') ->
  (if retain then w' = w else kw_lease w' = None /\ kw_checkpoint w' = None) /\
  (resumable w -> resumable w').
Proof.
  unfold Run. destruct retain; [by intros [= <-]|].
  destruct (kw_delLease w) as [e1 w1] eqn:H1. destruct (kw_delCheckpoint w1) as [e2 w2] eqn:H2. intros [= Herr <-].
  apply app_eq_nil in Herr as [Hn1 Hn2]. apply kw_lease_gone in H1 as [_ H1]. apply kw_checkpoint_gone in H2 as [Hl H2].
  assert (kw_lease w1 = None) as Hlease by (destruct e1 as [[]|]; naive_solver).
  assert (kw_checkpoint w2 = None) as Hcp by (destruct e2 as [[]|]; naive_solver).
  rewrite Hl. split; [done|]. intros _. unfold resumable. by rewrite Hcp.
Qed.

(** Deleting only the Lease is what the retained pair avoids. *)
Lemma lone_checkpoint_fenced w e : kw_lease w = None -> kw_checkpoint w = Some e -> (0 < e)%Z -> ~ resumable w.
Proof. intros Hl Hc He. unfold resumable, next_epoch. rewrite Hl, Hc. lia. Qed.
End cleanup.

Module Sim.
Record Cluster := mkCluster { lease : option Z; checkpoint : option Z; flaky : bool }.
Definition del (o : option Z) (fail : bool) : option DelErr :=
  if fail then Some (DelFailed "timeout") else match o with Some _ => None | None => Some NotFound end.
#[global] Program Instance api : CleanupAPI Cluster := {|
  kw_lease := lease; kw_checkpoint := checkpoint;
  kw_delLease c := (del (lease c) false, mkCluster None (checkpoint c) (flaky c));
  kw_delCheckpoint c := (del (checkpoint c) (flaky c), mkCluster (lease c) (if flaky c then checkpoint c else None) (flaky c))
|}.
Next Obligation. intros [l c f] e w' [= <- <-]. split; [done|]. by destruct l. Qed.
Next Obligation. intros [l c f] e w' [= <- <-]. split; [done|]. destruct f, c; simpl; auto. Qed.
End Sim.

Lemma cleanup_consistent_witness :
  Run false (Sim.mkCluster (Some 3%Z) (Some 3%Z) false) = ([], Sim.mkCluster None None false) /\
  (resumable (Sim.mkCluster (Some 3%Z) (Some 3%Z) false) -> resumable (Sim.mkCluster None None false)) /\
  fst (Run false (Sim.mkCluster (Some 3%Z) (Some 3%Z) true)) <> [].
Proof.
  split; [reflexivity|]. split; [|discriminate].
  exact (proj2 (cleanup_consistent false (Sim.mkCluster (Some 3%Z) (Some 3%Z) false) (Sim.mkCluster None None false) eq_refl)).
Defined.
