(* ===== verification/PortkeyStrip.v ===== *)
(** * The export-record strip (internal/source/portkey/logs_strip.go)

    Every downloaded export record passes [strip], a default-deny allow-list,
    before it becomes a [LogRecord].  A record is decoded JSON: the decoder
    (encoding/json), [time.Parse] and [strconv.FormatFloat] are parameters. *)

From S2P Require Import Prelude Model Guard.

(** ** JSON values *)

(** A number carries the [float64] it denotes, [None] when it overflows; an
    object keeps its fields in order, duplicates included. *)
#[warnings="-register-all"]
Inductive json :=
| JNull
| JBool (b : bool)
| JNum (v : option spec_float)
| JStr (s : string)
| JArr (l : list json)
| JObj (fields : list (string * json)).

(** [json.Unmarshal] into a [map[string]json.RawMessage]: the last duplicate
    wins, [null] leaves the map nil. *)
Definition json_object (v : json) : option (gmap string json) :=
  match v with
  | JObj fields => Some (list_to_map (reverse fields))
  | JNull => Some ∅
  | _ => None
  end.

(** ** The policy *)

Record fieldPolicy := mkPolicy {
  indexed : gset string;
  record : gset string;
  useCase : string;
  metadataRecord : gset string;
  metadataTraceID : string;
  traceIDField : string
}.

Definition defaultLogFieldPolicy : fieldPolicy :=
  mkPolicy (list_to_set ["ai_org"; "ai_model"; "response_status_code"])
    (list_to_set ["id"; "trace_id"; "created_at"; "response_time"; "total_units"; "req_units"; "res_units"; "cost";
                  "prompt_slug"; "prompt_version_id"; "prompt_id"])
    "" ∅ "" "".

Definition withExtraRecordFields (p : fieldPolicy) (extra : list string) : fieldPolicy :=
  match extra with
  | [] => p
  | _ => mkPolicy (indexed p) (record p ∪ list_to_set extra) "" ∅ "" ""
  end.

Definition withExtraIndexedFields (p : fieldPolicy) (extra : list string) : fieldPolicy :=
  match extra with
  | [] => p
  | _ => mkPolicy (indexed p ∪ list_to_set extra) (record p) "" ∅ "" ""
  end.

Definition withMetadataFields (p : fieldPolicy) (fields : list string) (traceID : string) : fieldPolicy :=
  if bool_decide (fields = []) && bool_decide (traceID = "") then p
  else
    let mr := list_to_set fields in
    let mr := if decide (traceID = "") then mr else {[traceID]} ∪ mr in
    mkPolicy (indexed p) (record p) "" mr traceID "".

Definition withTraceIDField (p : fieldPolicy) (field : string) : fieldPolicy :=
  if decide (field = "") then p
  else mkPolicy (indexed p) ({[field]} ∪ record p) "" (metadataRecord p) (metadataTraceID p) field.

Definition traceIDAttrKey (p : fieldPolicy) : string :=
  if decide (metadataTraceID p = "") then traceIDField p else metadataTraceID p.

(** logs_settings.go: what may never be requested or opted in. *)
Definition contentRequestKeys : list string :=
  ["prompt"; "request"; "response"; "messages"; "inputs"; "outputs"; "metadata"; "portkeyHeaders"].

Definition hardDeniedLogFields : gset string := list_to_set (AbsoluteNeverDenyKeys ++ contentRequestKeys).

(** ** Trace ids *)

Definition hex_val (a : Ascii.ascii) : option N :=
  let n := N_of_ascii a in
  if byte_in a 48 57 then Some (n - 48)%N
  else if byte_in a 97 102 then Some (n - 87)%N
  else if byte_in a 65 70 then Some (n - 55)%N
  else None.

(** [hex.DecodeString]. *)
Fixpoint hex_decode (s : string) : option string :=
  match s with
  | EmptyString => Some ""
  | String a (String b s') =>
      x ← hex_val a; y ← hex_val b; r ← hex_decode s';
      Some (String (ascii_of_N (16 * x + y)) r)
  | String _ EmptyString => None
  end.

Definition zero_id : string := String.concat "" (replicate 16 (String (ascii_of_N 0) "")).

Definition parseTraceID (s : string) : option string :=
  let h := ReplaceAll s "-" "" in
  if decide (slen h = 32) then
    b ← hex_decode h;
    if decide (b = zero_id) then None else Some b
  else None.

(** ** Records *)

(** [strings.Index] and the slice before it; the whole string when absent. *)
Fixpoint before (sep s : string) : string :=
  if has_prefix sep s then ""
  else match s with EmptyString => "" | String a s' => String a (before sep s') end.

Definition with_indexed (m : gmap string string) (lr : LogRecord) : LogRecord :=
  mkLogRecord (l_Timestamp lr) (l_Body lr) (l_Severity lr) m (l_RecordAttributes lr) (l_TraceID lr).
Definition with_record (m : gmap string string) (lr : LogRecord) : LogRecord :=
  mkLogRecord (l_Timestamp lr) (l_Body lr) (l_Severity lr) (l_IndexedAttributes lr) m (l_TraceID lr).
Definition with_traceid (t : string) (lr : LogRecord) : LogRecord :=
  mkLogRecord (l_Timestamp lr) (l_Body lr) (l_Severity lr) (l_IndexedAttributes lr) (l_RecordAttributes lr) t.
Definition with_timestamp (t : Time) (lr : LogRecord) : LogRecord :=
  mkLogRecord t (l_Body lr) (l_Severity lr) (l_IndexedAttributes lr) (l_RecordAttributes lr) (l_TraceID lr).

Definition useCaseLabelKey : string := "api_key_use_case".

(** usecase.go. *)
Definition stampUseCaseRecord (slug : string) (lr : LogRecord) : LogRecord :=
  if decide (slug = "") then lr else with_record (<[useCaseLabelKey := slug]> (l_RecordAttributes lr)) lr.

Definition stampSource (lr : LogRecord) : LogRecord :=
  with_record (<["source" := "portkey"]> (l_RecordAttributes lr)) lr.

Section strip.
(** [strconv.FormatFloat(f, 'f', -1, 64)]; [time.Parse] with [time.RFC3339]
    and with the [Date.toString] layout. *)
Context (FormatFloat : spec_float -> string) (parse_rfc3339 parse_js : string -> option Time).

Definition scalarToString (v : json) : option string :=
  match v with
  | JStr s => Some s
  | JNum (Some f) => Some (FormatFloat f)
  | JBool b => Some (if b then "true" else "false")
  | _ => None
  end.

Definition parseExportTime (v : json) : option Time :=
  match v with
  | JStr s =>
      if decide (s = "") then None
      else match parse_rfc3339 s with
           | Some t => Some t
           | None => parse_js (before " (" s)
           end
  | _ => None
  end.

(** Where [strip] puts a key: indexed, record, or nowhere. *)
Definition tier (p : fieldPolicy) (k : string) : option bool :=
  if decide (k ∈ indexed p) then Some true else if decide (k ∈ record p) then Some false else None.

(** One iteration of the loop of [strip]. *)
Definition strip_field (p : fieldPolicy) (k : string) (v : json) (lr : LogRecord) : LogRecord :=
  match tier p k with
  | None => lr
  | Some dst =>
      match scalarToString v with
      | None => lr
      | Some s =>
          let lr := if dst : bool then with_indexed (<[k := s]> (l_IndexedAttributes lr)) lr
                    else with_record (<[k := s]> (l_RecordAttributes lr)) lr in
          if bool_decide (traceIDField p <> "") && bool_decide (k = traceIDField p)
          then match parseTraceID s with Some tid => with_traceid tid lr | None => lr end
          else lr
      end
  end.

(** One iteration of the loop of [liftMetadata]. *)
Definition lift_field (p : fieldPolicy) (meta : gmap string json) (k : string) (lr : LogRecord) : LogRecord :=
  if decide (k ∈ hardDeniedLogFields) then lr
  else match meta !! k ≫= scalarToString with
       | None => lr
       | Some s =>
           let lr := match l_RecordAttributes lr !! k with
                     | Some _ => lr
                     | None => with_record (<[k := s]> (l_RecordAttributes lr)) lr
                     end in
           if decide (k = metadataTraceID p)
           then match parseTraceID s with Some tid => with_traceid tid lr | None => lr end
           else lr
       end.

Definition liftMetadata (p : fieldPolicy) (metaRaw : option json) (lr : LogRecord) : LogRecord :=
  if decide (metadataRecord p = ∅) then lr
  else match metaRaw ≫= json_object with
       | None => lr
       | Some meta => set_fold (lift_field p meta) lr (metadataRecord p)
       end.

Definition strip (p : fieldPolicy) (raw : gmap string json) (fallbackTS : Time) : LogRecord :=
  let lr := mkLogRecord fallbackTS "" "" ∅ ∅ "" in
  let lr := map_fold (strip_field p) lr raw in
  let lr := liftMetadata p (raw !! "metadata") lr in
  let lr := match raw !! "created_at" ≫= parseExportTime with Some ts => with_timestamp ts lr | None => lr end in
  stampUseCaseRecord (useCase p) (stampSource lr).

(** ** What the strip lets through *)

(** The scalar a top-level field contributes. *)
Definition top_field (raw : gmap string json) (k : string) : option string := raw !! k ≫= scalarToString.

(** The scalar a sub-key of [metadata] contributes. *)
Definition meta_field (raw : gmap string json) (k : string) : option string :=
  match raw !! "metadata" with
  | Some v => match json_object v with Some meta => meta !! k ≫= scalarToString | None => None end
  | None => None
  end.

Definition liftable (p : fieldPolicy) (k : string) : bool :=
  bool_decide (k ∈ metadataRecord p) && bool_decide (k ∉ hardDeniedLogFields).

(** The trace id the top-level field gives, and the one [metadata] gives. *)
Definition top_trace (p : fieldPolicy) (raw : gmap string json) : option string :=
  if bool_decide (traceIDField p <> "") && bool_decide (is_Some (tier p (traceIDField p)))
  then top_field raw (traceIDField p) ≫= parseTraceID else None.

Definition meta_trace (p : fieldPolicy) (raw : gmap string json) : option string :=
  if liftable p (metadataTraceID p) then meta_field raw (metadataTraceID p) ≫= parseTraceID else None.

Definition kept_top (p : fieldPolicy) (dst : bool) (raw : gmap string json) (k : string) : option string :=
  if decide (tier p k = Some dst) then top_field raw k else None.

Record stripped_top (p : fieldPolicy) (ts : Time) (raw : gmap string json) (lr : LogRecord) : Prop := {
  st_plain : l_Timestamp lr = ts /\ l_Body lr = "" /\ l_Severity lr = "";
  st_indexed k : l_IndexedAttributes lr !! k = kept_top p true raw k;
  st_record k : l_RecordAttributes lr !! k = kept_top p false raw k;
  st_trace : l_TraceID lr = default "" (top_trace p raw)
}.

Lemma kept_top_keep p dst k k' v (m : gmap string json) :
  m !! k = None -> (tier p k = Some dst -> scalarToString v = None) \/ k' <> k ->
  kept_top p dst (<[k := v]> m) k' = kept_top p dst m k'.
Proof.
  intros Hk Hc. unfold kept_top, top_field. case_decide as Ht; [|done].
  destruct (decide (k' = k)) as [->|Hne]; [|by rewrite lookup_insert_ne].
  rewrite lookup_insert_eq, Hk. destruct Hc; auto. done.
Qed.

Lemma kept_top_put p dst k v (m : gmap string json) s :
  tier p k = Some dst -> scalarToString v = Some s -> kept_top p dst (<[k := v]> m) k = Some s.
Proof. intros Ht Hs. unfold kept_top, top_field. rewrite decide_True by done. by rewrite lookup_insert_eq. Qed.

Lemma top_trace_insert p k v (m : gmap string json) :
  m !! k = None ->
  top_trace p (<[k := v]> m) =
    if bool_decide (traceIDField p <> "") && bool_decide (k = traceIDField p) && bool_decide (is_Some (tier p k))
    then scalarToString v ≫= parseTraceID else top_trace p m.
Proof.
  intros Hk. unfold top_trace, top_field. destruct (decide (k = traceIDField p)) as [->|Hne].
  - rewrite lookup_insert_eq, Hk. repeat case_bool_decide; simpl; done.
  - rewrite lookup_insert_ne, (bool_decide_false (k = _)) by done. by rewrite andb_false_r.
Qed.

Lemma top_trace_fresh p (m : gmap string json) : m !! traceIDField p = None -> top_trace p m = None.
Proof. intros Hk. unfold top_trace, top_field. rewrite Hk. by case_match. Qed.

Lemma strip_loop p ts raw : stripped_top p ts raw (map_fold (strip_field p) (mkLogRecord ts "" "" ∅ ∅ "") raw).
Proof.
  apply (map_fold_weak_ind (fun lr raw => stripped_top p ts raw lr)).
  { split; simpl; [done|..]; intros; unfold kept_top, top_trace, top_field; rewrite ?lookup_empty;
      repeat case_decide; repeat case_bool_decide; done. }
  intros k v m lr Hk [Hp Hi Hr Ht]. unfold strip_field.
  destruct (tier p k) as [dst|] eqn:Htier; [destruct (scalarToString v) as [s|] eqn:Hs|].
  - set (lr' := if dst then _ else _).
    assert (stripped_top p ts (<[k := v]> m) (with_traceid (default "" (top_trace p (<[k := v]> m))) lr')) as Hlr'.
    { split; [by destruct dst|..|done]; intros k'; destruct dst; simpl;
        destruct (decide (k' = k)) as [->|Hne]; rewrite ?lookup_insert_eq, ?lookup_insert_ne by done;
        rewrite ?Hi, ?Hr; try (by symmetry; apply kept_top_put); symmetry; apply kept_top_keep; auto; left; congruence. }
    assert (l_TraceID lr' = default "" (top_trace p m)) as Htr by (by destruct dst).
    destruct lr' as [lt lb ls li lx ltr]. simpl in Htr. subst ltr.
    rewrite (top_trace_insert p k v m Hk), Hs, Htier in Hlr'. simpl in Hlr'.
    rewrite ?andb_true_r in Hlr'.
    destruct (bool_decide (traceIDField p <> "")) eqn:Hne; simpl in *; [|exact Hlr'].
    case_bool_decide as Heq; simpl in *; [|exact Hlr'].
    rewrite (top_trace_fresh p m) by congruence. destruct (parseTraceID s); exact Hlr'.
  - split; [done|..].
    + intros k'. rewrite Hi. symmetry. apply kept_top_keep; auto.
    + intros k'. rewrite Hr. symmetry. apply kept_top_keep; auto.
    + rewrite Ht, top_trace_insert by done. case_match eqn:Hc; [|done].
      apply andb_true_iff in Hc as [Hc _]. apply andb_true_iff in Hc as [_ Hc]. case_bool_decide; [|done]. subst.
      rewrite Hs. simpl. by rewrite top_trace_fresh.
  - split; [done|..].
    + intros k'. rewrite Hi. symmetry. apply kept_top_keep; auto. left; congruence.
    + intros k'. rewrite Hr. symmetry. apply kept_top_keep; auto. left; congruence.
    + rewrite Ht, top_trace_insert by done. rewrite Htier, andb_false_r. done.
Qed.

(** *** The metadata lift *)

Definition meta_scalar (meta : gmap string json) (k : string) : option string :=
  if decide (k ∈ hardDeniedLogFields) then None else meta !! k ≫= scalarToString.

Record lifted (p : fieldPolicy) (meta : gmap string json) (lr0 : LogRecord) (X : gset string) (lr : LogRecord) : Prop := {
  li_plain : l_Timestamp lr = l_Timestamp lr0 /\ l_Body lr = l_Body lr0 /\ l_Severity lr = l_Severity lr0;
  li_indexed : l_IndexedAttributes lr = l_IndexedAttributes lr0;
  li_record k : l_RecordAttributes lr !! k =
    match l_RecordAttributes lr0 !! k with
    | Some s => Some s
    | None => if decide (k ∈ X) then meta_scalar meta k else None
    end;
  li_trace : l_TraceID lr =
    default (l_TraceID lr0)
      (if decide (metadataTraceID p ∈ X) then meta_scalar meta (metadataTraceID p) ≫= parseTraceID else None)
}.

Lemma decide_union_eq {A} (k : string) (Y : gset string) (x y : A) : (if decide (k ∈ {[k]} ∪ Y) then x else y) = x.
Proof. by rewrite decide_True by set_solver. Qed.

Lemma decide_union_ne {A} (k k' : string) (Y : gset string) (x y : A) :
  k' <> k -> (if decide (k' ∈ {[k]} ∪ Y) then x else y) = if decide (k' ∈ Y) then x else y.
Proof. intros. destruct (decide (k' ∈ Y)); [by rewrite decide_True by set_solver|by rewrite decide_False by set_solver]. Qed.

Lemma lift_loop p meta lr0 X : lifted p meta lr0 X (set_fold (lift_field p meta) lr0 X).
Proof.
  apply (set_fold_ind_L (fun lr X => lifted p meta lr0 X lr)).
  { split; [done|done|..]; intros; rewrite decide_False by set_solver; by try case_match. }
  intros k Y lr HkY [Hp Hi Hr Ht]. unfold lift_field.
  assert (Hkeep : meta_scalar meta k = None -> lifted p meta lr0 ({[k]} ∪ Y) lr).
  { intros Hn. split; [done|done|..].
    - intros k'. rewrite Hr. destruct (l_RecordAttributes lr0 !! k'); [done|].
      destruct (decide (k' = k)) as [->|Hne]; [|by rewrite decide_union_ne].
      by rewrite decide_union_eq, decide_False.
    - rewrite Ht. destruct (decide (metadataTraceID p = k)) as [->|Hne]; [|by rewrite decide_union_ne].
      by rewrite decide_union_eq, decide_False, Hn. }
  unfold meta_scalar in Hkeep at 1. destruct (decide (k ∈ hardDeniedLogFields)) as [Hd|Hd]; [by apply Hkeep|].
  destruct (meta !! k ≫= scalarToString) as [s|] eqn:Hs; [clear Hkeep|by apply Hkeep].
  assert (Hms : meta_scalar meta k = Some s) by (unfold meta_scalar; by rewrite decide_False).
  set (lr' := match l_RecordAttributes lr !! k with Some _ => lr | None => _ end).
  set (tr := default (l_TraceID lr0) (if decide (metadataTraceID p ∈ {[k]} ∪ Y)
               then meta_scalar meta (metadataTraceID p) ≫= parseTraceID else None)).
  assert (lifted p meta lr0 ({[k]} ∪ Y) (with_traceid tr lr')) as Hlr'.
  { split; [by subst lr'; simpl; destruct (l_RecordAttributes lr !! k)|by subst lr'; simpl; destruct (l_RecordAttributes lr !! k)| |done].
    intros k'. simpl. destruct (decide (k' = k)) as [->|Hne].
    - rewrite decide_union_eq. subst lr'. destruct (l_RecordAttributes lr !! k) eqn:E; simpl.
      + rewrite E. rewrite Hr in E. rewrite decide_False in E by done. by destruct (l_RecordAttributes lr0 !! k).
      + rewrite lookup_insert_eq, Hms. rewrite Hr in E. by destruct (l_RecordAttributes lr0 !! k).
    - assert (l_RecordAttributes lr' !! k' = l_RecordAttributes lr !! k') as ->.
      { subst lr'. destruct (l_RecordAttributes lr !! k); [done|]. simpl. by rewrite lookup_insert_ne. }
      by rewrite Hr, decide_union_ne. }
  assert (l_TraceID lr' = l_TraceID lr) as Htr by (subst lr'; by destruct (l_RecordAttributes lr !! k)).
  subst tr. destruct lr' as [lt lb ls lx ly ltr]. simpl in Htr. subst ltr.
  destruct (decide (k = metadataTraceID p)) as [Hk|Hk].
  - rewrite <-Hk, decide_union_eq, Hms in Hlr'. simpl in Hlr'.
    rewrite Ht, <-Hk, decide_False by done. by destruct (parseTraceID s).
  - rewrite decide_union_ne in Hlr' by congruence. by rewrite Ht.
Qed.

(** The record attributes before the two stamps. *)
Definition kept_record (p : fieldPolicy) (raw : gmap string json) (k : string) : option string :=
  match kept_top p false raw k with
  | Some s => Some s
  | None => if liftable p k then meta_field raw k else None
  end.

Lemma meta_field_object (raw : gmap string json) k :
  (if decide (k ∈ hardDeniedLogFields) then None else meta_field raw k) =
  match raw !! "metadata" ≫= json_object with Some meta => meta_scalar meta k | None => None end.
Proof.
  unfold meta_field, meta_scalar. destruct (raw !! "metadata") as [v|]; simpl; [|by case_decide].
  destruct (json_object v); by case_decide.
Qed.

Lemma liftable_if {A} p k (x : option A) :
  (if liftable p k then x else None) =
  if decide (k ∈ metadataRecord p) then (if decide (k ∈ hardDeniedLogFields) then None else x) else None.
Proof.
  unfold liftable. destruct (decide (k ∈ metadataRecord p)); [rewrite bool_decide_true by done|by rewrite bool_decide_false].
  destruct (decide (k ∈ hardDeniedLogFields)); [by rewrite bool_decide_false by tauto|by rewrite bool_decide_true].
Qed.

Lemma liftMetadata_spec p raw lr :
  (forall k, l_RecordAttributes lr !! k = kept_top p false raw k) ->
  let lr' := liftMetadata p (raw !! "metadata") lr in
  (l_Timestamp lr' = l_Timestamp lr /\ l_Body lr' = l_Body lr /\ l_Severity lr' = l_Severity lr /\
   l_IndexedAttributes lr' = l_IndexedAttributes lr) /\
  (forall k, l_RecordAttributes lr' !! k = kept_record p raw k) /\
  l_TraceID lr' = default (l_TraceID lr) (meta_trace p raw).
Proof.
  intros Hr. cbv zeta. unfold liftMetadata, kept_record.
  assert (forall k, (if liftable p k then meta_field raw k else None) =
    if decide (k ∈ metadataRecord p)
    then match raw !! "metadata" ≫= json_object with Some meta => meta_scalar meta k | None => None end else None) as Hl.
  { intros k. by rewrite liftable_if, meta_field_object. }
  assert (meta_trace p raw = (if liftable p (metadataTraceID p) then meta_field raw (metadataTraceID p) else None) ≫= parseTraceID) as ->.
  { unfold meta_trace. by destruct (liftable p _). }
  rewrite Hl. destruct (decide (metadataRecord p = ∅)) as [Hnil|Hne].
  { split; [done|]. split; [intros k; rewrite Hr, Hl|]; rewrite decide_False by set_solver; simpl; [|done].
    by destruct (kept_top p false raw k). }
  destruct (raw !! "metadata" ≫= json_object) as [meta|].
  - destruct (lift_loop p meta lr (metadataRecord p)) as [(? & ? & ?) Hi2 Hr2 Ht2]. split; [done|]. split.
    + intros k. by rewrite Hr2, Hr, Hl.
    + rewrite Ht2. by destruct (decide (metadataTraceID p ∈ metadataRecord p)).
  - split; [done|]. split.
    + intros k. rewrite Hr, Hl. destruct (kept_top p false raw k); [done|]. by destruct (decide (k ∈ metadataRecord p)).
    + by destruct (decide (metadataTraceID p ∈ metadataRecord p)).
Qed.

(** What [strip] returns, field by field. *)
Lemma strip_spec p raw ts :
  let lr := strip p raw ts in
  l_Body lr = "" /\ l_Severity lr = "" /\
  l_Timestamp lr = default ts (raw !! "created_at" ≫= parseExportTime) /\
  (forall k, l_IndexedAttributes lr !! k = kept_top p true raw k) /\
  (forall k, l_RecordAttributes lr !! k =
     if decide (k = useCaseLabelKey /\ useCase p <> "") then Some (useCase p)
     else if decide (k = "source") then Some "portkey" else kept_record p raw k) /\
  l_TraceID lr = default (default "" (top_trace p raw)) (meta_trace p raw).
Proof.
  intros lr. pose proof (strip_loop p ts raw) as [(Hts & Hb & Hs) Hi Hr Ht].
  set (lr1 := map_fold _ _ _) in *.
  pose proof (liftMetadata_spec p raw lr1 Hr) as ((Hts2 & Hb2 & Hs2 & Hi2) & Hr2 & Ht2).
  subst lr. unfold strip, stampUseCaseRecord, stampSource. fold lr1. set (lr2 := liftMetadata p _ lr1) in *.
  set (lr3 := match _ with Some ts => _ | None => lr2 end).
  assert (l_Timestamp lr3 = default ts (raw !! "created_at" ≫= parseExportTime)) as Et3.
  { subst lr3. destruct (raw !! "created_at" ≫= parseExportTime); simpl; congruence. }
  assert (l_IndexedAttributes lr3 = l_IndexedAttributes lr2 /\ l_RecordAttributes lr3 = l_RecordAttributes lr2 /\
          l_Body lr3 = l_Body lr2 /\ l_Severity lr3 = l_Severity lr2 /\ l_TraceID lr3 = l_TraceID lr2) as (Ei & Er & Eb & Es & Et)
    by (subst lr3; by destruct (raw !! "created_at" ≫= parseExportTime)).
  rewrite Er. split_and!; try (destruct (decide (useCase p = "")); simpl; congruence).
  intros k. rewrite <-Hr2. destruct (decide (useCase p = "")) as [Hu|Hu]; simpl.
  - rewrite decide_False by naive_solver. destruct (decide (k = "source")) as [->|Hk]; by simplify_map_eq.
  - destruct (decide (k = useCaseLabelKey)) as [->|Hk]; [rewrite decide_True by done; by simplify_map_eq|].
    rewrite decide_False by naive_solver. destruct (decide (k = "source")) as [->|Hk']; by simplify_map_eq.
Qed.

(** C31: the strip is a default-deny filter, exactly.  The body is always
    empty; an indexed attribute is a scalar top-level field of an indexed key;
    a record attribute is the producer stamp, the use-case stamp, a scalar
    top-level field of a record key that is not indexed, or a scalar sub-key
    of [metadata] that the operator named and that is not hard-denied; the
    trace id of [metadata] wins over the top-level one. *)
Theorem strip_exact p raw ts :
  let lr := strip p raw ts in
  l_Body lr = "" /\ l_Severity lr = "" /\
  l_Timestamp lr = default ts (raw !! "created_at" ≫= parseExportTime) /\
  (forall k, l_IndexedAttributes lr !! k = kept_top p true raw k) /\
  (forall k, l_RecordAttributes lr !! k =
     if decide (k = useCaseLabelKey /\ useCase p <> "") then Some (useCase p)
     else if decide (k = "source") then Some "portkey" else kept_record p raw k) /\
  l_TraceID lr = default (default "" (top_trace p raw)) (meta_trace p raw).
Proof. apply strip_spec. Qed.

(** What is not allow-listed cannot influence the record at all.  Two
    export records that agree on the allow-listed top-level scalars, on the
    named sub-keys of [metadata] and on [created_at] give the same log record,
    whatever else (prompts, responses, other metadata) they carry. *)
Theorem strip_noninterference p raw1 raw2 ts :
  (forall k, k ∈ indexed p ∪ record p -> top_field raw1 k = top_field raw2 k) ->
  (forall k, k ∈ metadataRecord p ∖ hardDeniedLogFields -> meta_field raw1 k = meta_field raw2 k) ->
  (raw1 !! "created_at" ≫= parseExportTime) = (raw2 !! "created_at" ≫= parseExportTime) ->
  strip p raw1 ts = strip p raw2 ts.
Proof.
  intros Htop Hmeta Hcreated.
  pose proof (strip_spec p raw1 ts) as (Hb1 & Hs1 & Ht1 & Hi1 & Hr1 & Htr1).
  pose proof (strip_spec p raw2 ts) as (Hb2 & Hs2 & Ht2 & Hi2 & Hr2 & Htr2).
  assert (Hkept : forall dst k, kept_top p dst raw1 k = kept_top p dst raw2 k).
  { intros dst k. unfold kept_top, tier. repeat case_decide; try done; apply Htop; set_solver. }
  assert (Hlift : forall k, liftable p k = true -> meta_field raw1 k = meta_field raw2 k).
  { intros k Hk. apply Hmeta. apply andb_prop in Hk as [H1 H2]. apply bool_decide_eq_true in H1, H2. by apply elem_of_difference. }
  destruct (strip p raw1 ts) as [t1 b1 s1 i1 r1 tr1], (strip p raw2 ts) as [t2 b2 s2 i2 r2 tr2]. simpl in *. f_equal; try congruence.
  - apply map_eq. intros k. by rewrite Hi1, Hi2.
  - apply map_eq. intros k. rewrite Hr1, Hr2. unfold kept_record. rewrite Hkept.
    destruct (decide (k = useCaseLabelKey /\ _)); [done|]. destruct (decide (k = "source")); [done|].
    destruct (kept_top p false raw2 k); [done|]. destruct (liftable p k) eqn:Hk; [by apply Hlift|done].
  - rewrite Htr1, Htr2. assert (top_trace p raw1 = top_trace p raw2) as ->.
    { unfold top_trace. destruct (bool_decide (traceIDField p <> "")); [|done]. simpl.
      case_bool_decide as Ht; [|done]. f_equal. apply Htop. unfold tier in Ht.
      destruct (decide (traceIDField p ∈ indexed p)); [set_solver|].
      destruct (decide (traceIDField p ∈ record p)); [set_solver|]. by destruct Ht. }
    unfold meta_trace. destruct (liftable p (metadataTraceID p)) eqn:Hk; [|done]. by rewrite Hlift.
Qed.
End strip.

(** ** A concrete record *)

Module Sim.
Definition fmt (_ : spec_float) : string := "1".
Definition no_time (_ : string) : option Time := None.
Definition policy : fieldPolicy := withMetadataFields defaultLogFieldPolicy ["ticket"] "corr".
Definition raw : gmap string json :=
  {[ "ai_model" := JStr "m"; "cost" := JBool true; "total_units" := JArr [JStr "x"];
     "metadata" := JObj [("corr", JStr "00000000-0000-0000-0000-0000000000ff"); ("owner", JStr "alice")] ]}.
Definition leaky : gmap string json := <["prompt" := JStr "secret"]> raw.
Definition run := strip fmt no_time no_time policy.
End Sim.

(** The strip keeps the scalars and the named sub-key, and maps the trace id. *)
Lemma strip_sim :
  map_to_list (l_IndexedAttributes (Sim.run Sim.leaky 7)) = [("ai_model", "m")] /\
  l_RecordAttributes (Sim.run Sim.leaky 7) !! "cost" = Some "true" /\
  l_RecordAttributes (Sim.run Sim.leaky 7) !! "owner" = None /\
  l_RecordAttributes (Sim.run Sim.leaky 7) !! "prompt" = None /\
  slen (l_TraceID (Sim.run Sim.leaky 7)) = 16.
Proof. vm_compute. done. Qed.

Lemma strip_noninterference_witness :
  Sim.raw <> Sim.leaky /\ Sim.run Sim.raw 7 = Sim.run Sim.leaky 7.
Proof.
  split.
  { intros H. apply (f_equal (fun m : gmap string json => m !! "prompt")) in H. revert H. vm_compute. discriminate. }
  apply strip_noninterference.
  - intros k Hk. unfold top_field, Sim.leaky. rewrite lookup_insert_ne; [reflexivity|]. intros <-.
    revert Hk. apply (bool_decide_unpack _). vm_compute. exact I.
  - intros k _. reflexivity.
  - reflexivity.
Defined.
