(* ===== verification/PortkeyDownload.v ===== *)
(** * Streaming an export object (internal/source/portkey/logs_download.go)

    The bounded line reader over a buffered stream, and one chunk of a page:
    the bytes after a resume point, found by a Range request or by skipping
    lines.  HTTP, the JSON decoder and the amount the transport reads ahead
    are parameters. *)

From S2P Require Import Prelude Model PortkeyStrip.

(** ** The buffered stream *)

(** What is left of a response body, and how it ends: cleanly or with a
    transport error.  [s_eager]: the reader reports the end together with the
    last bytes rather than on the next read. *)
Record Stream := mkStream { s_rest : string; s_fail : bool; s_eager : bool }.

(** The bytes before the first newline and the bytes after it. *)
Fixpoint split_nl (s : string) : option (string * string) :=
  match s with
  | EmptyString => None
  | String a s' =>
      if Ascii.eqb a newline then Some ("", s')
      else match split_nl s' with Some (c, r) => Some (String a c, r) | None => None end
  end.

Inductive slice_end := SliceOk | SliceFull | SliceEOF | SliceErr.

(** [bufio.Reader.ReadSlice] with delimiter [\n] and a buffer of [B] bytes. *)
Definition ReadSlice (B : nat) (st : Stream) : string * slice_end * Stream :=
  let rest := s_rest st in
  let full := if decide (slen rest < B \/ (slen rest = B /\ s_eager st = true)) then
                (rest, (if s_fail st then SliceErr else SliceEOF), mkStream "" (s_fail st) (s_eager st))
              else (string_take B rest, SliceFull, mkStream (string_drop B rest) (s_fail st) (s_eager st)) in
  match split_nl rest with
  | Some (c, r) =>
      if decide (slen c < B) then (c +:+ String newline "", SliceOk, mkStream r (s_fail st) (s_eager st))
      else (string_take B rest, SliceFull, mkStream (string_drop B rest) (s_fail st) (s_eager st))
  | None => full
  end.

Inductive line_end := LineOk | LineEOF | LineErr.

Definition drop_last_newline (s : string) : string := string_take (slen s - 1) s.

(** [readLine]; [None] when [fuel] ran out. *)
Fixpoint readLine_go (fuel B limit : nat) (st : Stream) (buf : string) (total : nat) (tooLong : bool) (consumed : nat)
    : option (string * bool * nat * line_end * Stream) :=
  match fuel with
  | 0 => None
  | S fuel =>
      let '(frag, e, st) := ReadSlice B st in
      let consumed := consumed + slen frag in
      let chunk := match e with SliceOk => drop_last_newline frag | _ => frag end in
      let total := total + slen chunk in
      let long := tooLong || bool_decide (limit < total) in
      let buf := if long then "" else buf +:+ chunk in
      match e with
      | SliceFull => readLine_go fuel B limit st buf total long consumed
      | SliceOk => Some (buf, long, consumed, LineOk, st)
      | SliceEOF => if decide (total = 0) then Some ("", false, consumed, LineEOF, st)
                    else Some (buf, long, consumed, LineOk, st)
      | SliceErr => Some ("", false, consumed, LineErr, st)
      end
  end.

Definition lineReadBufBytes : nat := Z.to_nat 65536.

Definition readLine (B limit : nat) (st : Stream) : option (string * bool * nat * line_end * Stream) :=
  readLine_go (S (slen (s_rest st))) B limit st "" 0 false 0.

(** ** What a line is *)

(** The content of the first line, its raw length, what follows it, and
    whether it is newline-terminated. *)
Definition first_line (s : string) : string * nat * string * bool :=
  match split_nl s with
  | Some (c, r) => (c, S (slen c), r, true)
  | None => (s, slen s, "", false)
  end.

Lemma split_nl_spec s c r : split_nl s = Some (c, r) -> s = c +:+ String newline r.
Proof.
  revert c r. induction s as [|a s IH]; intros c r; simpl; [done|].
  destruct (Ascii.eqb_spec a newline) as [->|]; [by intros [= <- <-]|].
  destruct (split_nl s) as [[c' r']|]; intros [= <- <-]. rewrite string_app_cons. by rewrite (IH _ _ eq_refl) at 1.
Qed.

Lemma string_take_drop n s : string_take n s +:+ string_drop n s = s.
Proof. revert n. induction s as [|a s IH]; intros [|n]; simpl; [done..|]. by rewrite string_app_cons, IH. Qed.

(** A slice without a newline only extends the first line. *)
Lemma split_nl_take n s :
  (forall c r, split_nl s = Some (c, r) -> n <= slen c) ->
  split_nl s = match split_nl (string_drop n s) with
               | Some (c, r) => Some (string_take n s +:+ c, r)
               | None => None
               end.
Proof.
  revert n. induction s as [|a s IH]; intros [|n] Hn; simpl in *; try done.
  - destruct (Ascii.eqb a newline); [done|]. by destruct (split_nl s) as [[]|].
  - destruct (Ascii.eqb a newline); [specialize (Hn _ _ eq_refl); simpl in Hn; lia|].
    rewrite (IH n) at 1.
    + destruct (split_nl (string_drop n s)) as [[c r]|]; [|done]. by rewrite string_app_cons.
    + intros c r E. specialize (Hn (String a c) r). rewrite E in Hn. specialize (Hn eq_refl). simpl in Hn. lia.
Qed.

Lemma string_take_all n s : slen s <= n -> string_take n s = s.
Proof. revert n. induction s as [|a s IH]; intros [|n] Hn; simpl in *; try done; [lia|]. rewrite IH; [done|lia]. Qed.

Lemma drop_last_newline_app c : drop_last_newline (c +:+ String newline "") = c.
Proof.
  unfold drop_last_newline. rewrite string_app_length. simpl. rewrite Nat.add_sub. apply string_take_app.
Qed.

(** What [readLine] returns, said of the bytes alone. *)
Definition line_result (limit : nat) (st : Stream) (buf : string) (total : nat) (tooLong : bool) (consumed : nat)
    : string * bool * nat * line_end * Stream :=
  let '(c, n, r, terminated) := first_line (s_rest st) in
  let st' := mkStream r (s_fail st) (s_eager st) in
  let long := tooLong || bool_decide (limit < total + slen c) in
  let ok := (if long then "" else buf +:+ c, long, consumed + n, LineOk, st') in
  if terminated then ok
  else if s_fail st then ("", false, consumed + n, LineErr, st')
  else if decide (total + slen c = 0) then ("", false, consumed + n, LineEOF, st')
  else ok.

Lemma readLine_go_spec fuel B limit st buf total tooLong consumed :
  0 < B -> slen (s_rest st) < fuel ->
  readLine_go fuel B limit st buf total tooLong consumed = Some (line_result limit st buf total tooLong consumed).
Proof.
  intros HB. revert st buf total tooLong consumed. induction fuel as [|fuel IH]; intros st buf total tooLong consumed Hf; [lia|].
  destruct st as [rest fl eager]. simpl in Hf. cbn [readLine_go]. unfold ReadSlice. cbn [s_rest s_fail s_eager].
  (* the buffer fills up before the line ends *)
  assert (Hfull : (forall c r, split_nl rest = Some (c, r) -> B <= slen c) -> B <= slen rest ->
    readLine_go fuel B limit (mkStream (string_drop B rest) fl eager)
      (if tooLong || bool_decide (limit < total + slen (string_take B rest)) then "" else buf +:+ string_take B rest)
      (total + slen (string_take B rest)) (tooLong || bool_decide (limit < total + slen (string_take B rest)))
      (consumed + slen (string_take B rest)) =
    Some (line_result limit (mkStream rest fl eager) buf total tooLong consumed)).
  { intros Hnl Hlen. rewrite IH by (simpl; rewrite string_drop_length; lia). f_equal.
    unfold line_result, first_line. cbn [s_rest s_fail s_eager]. rewrite (split_nl_take B rest Hnl).
    rewrite !string_take_length, (Nat.min_l B) by done.
    assert (Hadd : forall c, limit < total + B -> limit < total + (B + slen c)) by (intros; lia).
    destruct (split_nl (string_drop B rest)) as [[c r]|].
    - rewrite string_app_length, string_take_length, (Nat.min_l B) by done.
      assert (total + B + slen c = total + (B + slen c)) as -> by lia. assert (consumed + B + S (slen c) = consumed + S (B + slen c)) as -> by lia.
      destruct tooLong; simpl; [done|]. repeat case_bool_decide; simpl; try done; [exfalso; eauto|]. by rewrite string_app_assoc.
    - rewrite string_drop_length. assert (total + B + (slen rest - B) = total + slen rest) as -> by lia.
      assert (consumed + B + (slen rest - B) = consumed + slen rest) as -> by lia.
      destruct fl; [done|]. rewrite !(decide_False (P := _ = 0)) by lia.
      destruct tooLong; simpl; [done|]. repeat case_bool_decide; simpl; try done; [lia|]. by rewrite string_app_assoc, string_take_drop. }
  destruct (split_nl rest) as [[c r]|] eqn:Hs.
  - destruct (decide (slen c < B)) as [Hc|Hc].
    + cbv beta iota zeta. rewrite drop_last_newline_app. unfold line_result, first_line. cbn [s_rest s_fail s_eager]. rewrite Hs.
      rewrite string_app_length. simpl. by rewrite Nat.add_1_r.
    + apply Hfull; [|apply split_nl_spec in Hs as ->; rewrite string_app_length; lia]. intros c' r' [= <- <-]. lia.
  - destruct (decide (slen rest < B \/ _)) as [Hc|Hc]; [|apply Hfull; [done|lia]].
    unfold line_result, first_line. cbn [s_rest s_fail s_eager]. rewrite Hs. destruct fl; [done|].
    cbv beta iota zeta. by destruct (decide (total + slen rest = 0)).
Qed.

(** The bounded reader is the plain line split.  Whatever the size of
    the buffer and however the transport reports the end, [readLine] returns
    the bytes up to the next newline (or an unterminated last line), drops
    exactly the lines longer than the limit, reports the raw bytes it
    consumed, and always terminates. *)
Theorem readLine_exact B limit st :
  0 < B -> readLine B limit st = Some (line_result limit st "" 0 false 0).
Proof. intros HB. apply readLine_go_spec; [done|lia]. Qed.

(** ** The lines of an object *)

(** Its raw lines, newlines included; the last one may lack it. *)
Fixpoint lines (s : string) : list string :=
  match s with
  | EmptyString => []
  | String a s' =>
      if Ascii.eqb a newline then String newline "" :: lines s'
      else match lines s' with [] => [String a ""] | l :: ls => String a l :: ls end
  end.

Definition content (raw : string) : string := match split_nl raw with Some (c, _) => c | None => raw end.
Definition terminated (raw : string) : bool := match split_nl raw with Some _ => true | None => false end.

Definition raw_size (ls : list string) : nat := sum_list_with String.length ls.

(** The byte offset at which line [n] starts. *)
Definition offset (n : nat) (o : string) : nat := raw_size (take n (lines o)).

Lemma string_drop_app_le n (s t : string) : n <= slen s -> string_drop n (s +:+ t) = string_drop n s +:+ t.
Proof. revert s. induction n as [|n IH]; intros [|a s]; simpl; try done; [lia|]. intros. apply IH. lia. Qed.

Lemma lines_nil s : lines s = [] <-> s = "".
Proof.
  split; [|by intros ->]. destruct s as [|a s]; simpl; [done|].
  destruct (Ascii.eqb a newline); [done|]. by destruct (lines s).
Qed.

(** A non-empty string is its first line and then the rest. *)
Lemma lines_cons s l ls :
  lines s = l :: ls ->
  exists r, s = l +:+ r /\ ls = lines r /\ 0 < slen l /\
    first_line s = (content l, slen l, r, terminated l) /\ (terminated l = false -> r = "").
Proof.
  revert l ls. induction s as [|a s IH]; intros l ls; simpl; [done|].
  unfold first_line. simpl. destruct (Ascii.eqb_spec a newline) as [->|Hne].
  { intros [= <- <-]. exists s. split_and!; try done. simpl. lia. }
  apply Ascii.eqb_neq in Hne. destruct (lines s) as [|l' ls'] eqn:Hl; intros [= <- <-].
  - apply lines_nil in Hl as ->. exists "". unfold content, terminated. simpl. rewrite Hne. split_and!; try done. lia.
  - destruct (IH _ _ eq_refl) as (r & -> & -> & Hlen & Hf & Ht). exists r. rewrite string_app_cons.
    unfold content, terminated, first_line in *. simpl. rewrite Hne.
    destruct (split_nl (l' +:+ r)) as [[c r']|]; destruct (split_nl l') as [[c' r'']|]; simplify_eq/=; split_and!; try done; try lia.
    + congruence.
    + by rewrite string_app_nil_r.
Qed.

Lemma lines_app_terminated l r : split_nl l = Some (content l, "") -> lines (l +:+ r) = l :: lines r.
Proof.
  unfold content. induction l as [|a l IH]; [done|]. rewrite string_app_cons. simpl.
  destruct (Ascii.eqb_spec a newline) as [->|].
  - by intros [= ->].
  - destruct (split_nl l) as [[c r']|] eqn:Hs; [|done]. intros [= ->]. by rewrite (IH eq_refl).
Qed.

(** A terminated line ends with its newline. *)
Lemma lines_terminated s l ls : lines s = l :: ls -> terminated l = true -> split_nl l = Some (content l, "").
Proof.
  intros Hl. unfold terminated, content. destruct (lines_cons _ _ _ Hl) as (r & -> & _ & _ & Hf & _). unfold first_line in Hf.
  destruct (split_nl l) as [[c r']|] eqn:Hs; [|done]. intros _. destruct (split_nl (l +:+ r)) as [[c' r'']|] eqn:Hsr; [|unfold terminated in Hf; rewrite Hs in Hf; by injection Hf].
  unfold content in Hf. rewrite Hs in Hf. injection Hf as -> Hlen _ _. apply split_nl_spec in Hs. f_equal. f_equal.
  apply (f_equal String.length) in Hs. rewrite string_app_length in Hs. simpl in Hs. destruct r'; [done|]. simpl in Hs. lia.
Qed.

Lemma offset_S n o l ls : lines o = l :: ls -> offset (S n) o = slen l + raw_size (take n ls).
Proof. intros Hl. unfold offset. by rewrite Hl. Qed.

(** Dropping whole lines leaves the other lines. *)
Lemma lines_offset n o : lines (string_drop (offset n o) o) = drop n (lines o).
Proof.
  revert o. induction n as [|n IH]; intros o; [by destruct o|].
  destruct (lines o) as [|l ls] eqn:Hl.
  { apply lines_nil in Hl as ->. by unfold offset. }
  rewrite (offset_S _ _ _ _ Hl). destruct (lines_cons _ _ _ Hl) as (r & -> & -> & _). simpl.
  change (raw_size (take n (lines r))) with (offset n r). rewrite <-IH. f_equal.
  clear. induction l as [|a l IHl]; [done|]. apply IHl.
Qed.

Lemma offset_le n o : offset n o <= slen o.
Proof.
  revert o. induction n as [|n IH]; intros o; [unfold offset; simpl; lia|].
  destruct (lines o) as [|l ls] eqn:Hl; [unfold offset; rewrite Hl; simpl; lia|].
  rewrite (offset_S _ _ _ _ Hl). destruct (lines_cons _ _ _ Hl) as (r & -> & -> & _).
  change (raw_size (take n (lines r))) with (offset n r). rewrite string_app_length. specialize (IH r). lia.
Qed.

Lemma raw_size_app l k : raw_size (l ++ k) = raw_size l + raw_size k.
Proof. apply sum_list_with_app. Qed.

Lemma offset_add n m o : offset (n + m) o = offset n o + raw_size (take m (drop n (lines o))).
Proof. unfold offset. by rewrite <-raw_size_app, take_take_drop. Qed.

(** Terminated lines of a prefix are lines of the whole. *)
Lemma lines_prefix n p q :
  Forall (fun l => terminated l = true) (take n (lines p)) -> n <= length (lines p) ->
  take n (lines (p +:+ q)) = take n (lines p).
Proof.
  revert p. induction n as [|n IH]; intros p Ht Hn; [done|].
  destruct (lines p) as [|l ls] eqn:Hl; simpl in Hn; [lia|]. simpl in Ht. apply Forall_cons in Ht as [Ht Hts].
  pose proof (lines_terminated _ _ _ Hl Ht) as Hsp. destruct (lines_cons _ _ _ Hl) as (r & -> & -> & _).
  rewrite string_app_assoc, lines_app_terminated by done. simpl. rewrite IH; [done|done|lia].
Qed.

(** Lines that end before the last byte are terminated. *)
Lemma lines_before_end n p : n <= length (lines p) -> offset n p < slen p -> Forall (fun l => terminated l = true) (take n (lines p)).
Proof.
  revert p. induction n as [|n IH]; intros p Hn Ho; [constructor|].
  destruct (lines p) as [|l ls] eqn:Hl; simpl in Hn; [lia|]. rewrite (offset_S _ _ _ _ Hl) in Ho.
  destruct (lines_cons _ _ _ Hl) as (r & -> & -> & _ & _ & Hterm). rewrite string_app_length in Ho. simpl. constructor.
  - destruct (terminated l) eqn:E; [done|]. rewrite Hterm in Ho by done. simpl in Ho. lia.
  - apply IH; [lia|]. unfold offset. lia.
Qed.

(** Lines of the whole that end inside a prefix are lines of the prefix. *)
Lemma lines_of_prefix n p q :
  n <= length (lines (p +:+ q)) -> offset n (p +:+ q) < slen p \/ q = "" ->
  n <= length (lines p) /\ take n (lines p) = take n (lines (p +:+ q)).
Proof.
  intros Hn [Ho| ->]; [|by rewrite string_app_nil_r in *]. revert p Hn Ho. induction n as [|n IH]; intros p Hn Ho; [split; [lia|done]|].
  destruct (lines (p +:+ q)) as [|l ls] eqn:Hl; simpl in Hn; [lia|]. rewrite (offset_S _ _ _ _ Hl) in Ho.
  destruct (lines_cons _ _ _ Hl) as (r & Heq & -> & Hpos & _ & Hterm).
  assert (exists p', p = l +:+ p' /\ r = p' +:+ q) as (p' & -> & ->).
  { assert (slen l <= slen p) as Hle by lia. clear -Heq Hle. revert p Heq Hle.
    induction l as [|a l IHl]; intros p Heq Hle; [by exists p|]. destruct p as [|b p]; simpl in Hle; [lia|].
    rewrite !string_app_cons in Heq. injection Heq as -> Heq. destruct (IHl p Heq) as (p' & -> & ->); [lia|]. by exists p'. }
  assert (terminated l = true) as Ht.
  { destruct (terminated l) eqn:E; [done|]. pose proof (Hterm eq_refl) as Hnil. rewrite string_app_length in Ho.
    apply (f_equal String.length) in Hnil. rewrite string_app_length in Hnil. simpl in Hnil. lia. }
  pose proof (lines_terminated _ _ _ Hl Ht) as Hsp. rewrite lines_app_terminated by done. simpl.
  rewrite string_app_length in Ho. destruct (IH p') as [Hn' ->]; [lia|unfold offset; lia|]. split; [lia|done].
Qed.

(** ** One chunk of a page *)

Record DlResp := mkResp {
  r_status : Z; r_contentRange : string; r_body : string; r_fail : bool; r_eager : bool;
  r_ahead : nat (* how far the transport had read past the last consumed byte *)
}.

(** GET with an optional [Range: bytes=k-]; [None] is a transport error. *)
Class ObjectStore (W : Type) := { dl_Do : string -> option Z -> W -> option DlResp * W }.

(** The errors, without their texts. *)
Inductive DlErr := DlBadURL | DlTransport | DlRange | DlStatus (code : Z) | DlStream | DlTooLarge.

Record DlConfig := mkDlConfig { downloadMaxBytes : Z; maxLineBytes : Z; dl_policy : fieldPolicy }.

Record Chunk := mkChunk { ch_recs : list LogRecord; ch_lines : nat; ch_next : Z; ch_eof : bool }.

Definition defaultDownloadMaxBytes : Z := 536870912.
Definition maxLogLineBytes : Z := 1048576.

Definition max_bytes (l : DlConfig) : Z := if (downloadMaxBytes l <=? 0)%Z then defaultDownloadMaxBytes else downloadMaxBytes l.
Definition line_cap (l : DlConfig) : nat := Z.to_nat (if (maxLineBytes l <=? 0)%Z then maxLogLineBytes else maxLineBytes l).

Section download.
Context {W : Type} `{ObjectStore W}.
(** Whether [http.NewRequest] takes the URL; [json.Unmarshal]; the parameters
    of the strip and of [strings.TrimSpace]. *)
Context (valid_url : string -> bool) (json_decode : string -> option json).
Context (FormatFloat : spec_float -> string) (parse_rfc3339 parse_js : string -> option Time) (trim_uni : string -> string).
(** The size of the reader's buffer. *)
Context (B : nat).

(** The start of [Content-Range: bytes START-END/TOTAL]. *)
Definition contentRangeStart (h : string) : option Z :=
  let h := TrimSpace trim_uni h in
  if has_prefix "bytes " h then
    let rest := string_drop 6 h in
    let start := before "-" rest in
    if contains rest "-" && bool_decide (start <> "") then
      n ← ParseInt (TrimSpace trim_uni start);
      if (n <? 0)%Z then None else Some n
    else None
  else None.

(** One line: the record it gives, if any, and the self-metrics it fires. *)
Definition line_record (l : DlConfig) (ts : Time) (line : string) (tooLong : bool) : option LogRecord * list string :=
  if tooLong then (None, ["line_oversize"])
  else match json_decode line ≫= json_object with
       | None => (None, ["line_unparseable"])
       | Some raw =>
           let r := strip FormatFloat parse_rfc3339 parse_js (dl_policy l) raw ts in
           let f := traceIDAttrKey (dl_policy l) in
           (Some r, if bool_decide (f <> "") && bool_decide (l_TraceID r = "")
                       && bool_decide (default "" (l_RecordAttributes r !! f) <> "")
                    then ["trace_id_unparsed"] else [])
       end.

Inductive skipped := SkipEnd (consumed : nat) | SkipFailed | SkipDone (consumed : nat) (st : Stream).

Fixpoint skip_lines (n cap : nat) (st : Stream) (consumed : nat) : option skipped :=
  match n with
  | 0 => Some (SkipDone consumed st)
  | S n =>
      '(_, _, c, e, st) ← readLine B cap st;
      match e with
      | LineEOF => Some (SkipEnd (consumed + c))
      | LineErr => Some SkipFailed
      | LineOk => skip_lines n cap st (consumed + c)
      end
  end.

(** The main loop: records, lines read, bytes consumed, whether the stream
    failed, whether it ended, the events. *)
Fixpoint read_lines (n cap : nat) (l : DlConfig) (ts : Time) (st : Stream) (consumed : nat)
    : option (list LogRecord * nat * nat * line_end * list string) :=
  match n with
  | 0 => Some ([], 0, consumed, LineOk, [])
  | S n =>
      '(line, tooLong, c, e, st) ← readLine B cap st;
      match e with
      | LineEOF => Some ([], 0, consumed, LineEOF, [])
      | LineErr => Some ([], 0, consumed + c, LineErr, [])
      | LineOk =>
          let '(r, ev) := line_record l ts line tooLong in
          '(recs, lines, consumed, e, evs) ← read_lines n cap l ts st (consumed + c);
          Some (match r with Some r => r :: recs | None => recs end, S lines, consumed, e, ev ++ evs)
      end
  end.

(** The stream behind the counting reader: at most one byte more than the cap. *)
Definition capped (l : DlConfig) (resp : DlResp) : Stream :=
  let limit := Z.to_nat (max_bytes l + 1) in
  let eager := r_eager resp && bool_decide (slen (r_body resp) <= limit) in
  mkStream (string_take limit (r_body resp)) (r_fail resp && (bool_decide (slen (r_body resp) < limit) || eager)) eager.

Definition downloadChunk (l : DlConfig) (url : string) (skip : nat) (byteOffset : Z) (max : nat) (ts : Time) (w : W)
    : option (result DlErr Chunk * list string * W) :=
  if negb (valid_url url) then Some (Err DlBadURL, [], w)
  else
    let '(resp, w) := dl_Do url (if (0 <? byteOffset)%Z then Some byteOffset else None) w in
    match resp with
    | None => Some (Err DlTransport, [], w)
    | Some resp =>
        let honored := bool_decide (r_status resp = 206%Z) && (0 <? byteOffset)%Z
                       && bool_decide (contentRangeStart (r_contentRange resp) = Some byteOffset) in
        if negb (r_status resp =? 200)%Z && negb (r_status resp =? 206)%Z then Some (Err (DlStatus (r_status resp)), [], w)
        else if (r_status resp =? 206)%Z && negb honored then Some (Err DlRange, [], w)
        else
          let st := capped l resp in
          let size := slen (s_rest st) in
          let base := if honored then byteOffset else 0%Z in
          let skipLines := if honored then 0 else skip in
          s ← skip_lines skipLines (line_cap l) st 0;
          match s with
          | SkipEnd consumed => Some (Ok (mkChunk [] skip (base + Z.of_nat consumed) true), [], w)
          | SkipFailed => Some (Err DlStream, [], w)
          | SkipDone consumed st =>
              '(recs, lines, consumed, e, evs) ← read_lines max (line_cap l) l ts st consumed;
              let fetched := match e with
                             | LineEOF => size
                             | _ => Nat.min size (consumed + r_ahead resp)
                             end in
              match e with
              | LineErr => Some (Err DlStream, evs, w)
              | _ => if (max_bytes l <? Z.of_nat fetched)%Z then Some (Err DlTooLarge, evs, w)
                     else Some (Ok (mkChunk recs lines (base + Z.of_nat consumed) (bool_decide (lines < max))), evs, w)
              end
          end
    end.

(** *** What a chunk contains *)

(** What one raw line of the object gives. *)
Definition raw_record (l : DlConfig) (ts : Time) (raw : string) : option LogRecord * list string :=
  let long := bool_decide (line_cap l < slen (content raw)) in
  line_record l ts (if long then "" else content raw) long.

Definition page_records (l : DlConfig) (ts : Time) (raws : list string) : list LogRecord :=
  omap (fun raw => (raw_record l ts raw).1) raws.
Definition page_events (l : DlConfig) (ts : Time) (raws : list string) : list string :=
  concat (map (fun raw => (raw_record l ts raw).2) raws).

(** The next line of a stream, by cases. *)
Lemma readLine_lines cap st (HB : 0 < B) :
  match lines (s_rest st) with
  | [] => s_fail st = false /\ readLine B cap st = Some ("", false, 0, LineEOF, st) \/
          s_fail st = true /\ exists c st', readLine B cap st = Some ("", false, c, LineErr, st')
  | l :: ls =>
      (terminated l = true \/ s_fail st = false) /\
      (exists r, s_rest st = l +:+ r /\ ls = lines r /\ (terminated l = false -> r = "") /\
       let long := bool_decide (cap < slen (content l)) in
       readLine B cap st = Some (if long then "" else content l, long, slen l, LineOk, mkStream r (s_fail st) (s_eager st))) \/
      s_fail st = true /\ exists c st', readLine B cap st = Some ("", false, c, LineErr, st')
  end.
Proof.
  rewrite readLine_exact by done. unfold line_result. destruct st as [rest fl eager]. simpl.
  destruct (lines rest) as [|l ls] eqn:Hl.
  - apply lines_nil in Hl as ->. simpl. destruct fl; [right; eauto|by left].
  - destruct (lines_cons _ _ _ Hl) as (r & -> & -> & Hpos & Hf & Ht). rewrite Hf.
    destruct (terminated l) eqn:E; [left; split; [by left|]; exists r; by split_and!|].
    destruct fl; [right; eauto|]. left. split; [by right|]. exists r. split_and!; try done.
    assert (content l = l) as Hc by (unfold content, terminated in *; by destruct (split_nl l) as [[]|]).
    rewrite decide_False; [done|]. rewrite Hc. lia.
Qed.

Lemma skip_lines_spec n cap st consumed :
  0 < B ->
  skip_lines n cap st consumed = Some SkipFailed \/
  (s_fail st = false /\ length (lines (s_rest st)) < n /\ exists c, skip_lines n cap st consumed = Some (SkipEnd c)) \/
  (n <= length (lines (s_rest st)) /\
   (s_fail st = true -> Forall (fun l => terminated l = true) (take n (lines (s_rest st)))) /\
   skip_lines n cap st consumed =
     Some (SkipDone (consumed + offset n (s_rest st)) (mkStream (string_drop (offset n (s_rest st)) (s_rest st)) (s_fail st) (s_eager st)))).
Proof.
  intros HB. revert st consumed. induction n as [|n IH]; intros st consumed.
  { right; right. simpl. destruct st as [rest fl eager]. simpl. rewrite Nat.add_0_r. split_and!; [lia|constructor|by destruct rest]. }
  pose proof (readLine_lines cap st HB) as Hrl. cbn [skip_lines]. destruct (lines (s_rest st)) as [|l ls] eqn:Hl.
  - destruct Hrl as [[Hf ->]|[_ (c & st' & ->)]]; [|by left]. right; left. simpl. split_and!; [done|lia|by eexists].
  - destruct Hrl as [[Hterm (r & Hr & -> & _ & ->)]|[_ (c & st' & ->)]]; [|by left]. simpl.
    destruct (IH (mkStream r (s_fail st) (s_eager st)) (consumed + slen l)) as [->|[(? & Hlen & c & ->)|(Hlen & Hall & ->)]];
      simpl in *; [by left|right; left; split_and!; [done|lia|by eexists]|right; right].
    split_and!; [lia|intros Hf; constructor; [destruct Hterm; congruence|by apply Hall]|].
    rewrite (offset_S _ _ _ _ Hl). change (raw_size (take n (lines r))) with (offset n r).
    rewrite Hr, Nat.add_assoc. do 3 f_equal. clear. induction l as [|a l IHl]; [done|]. apply IHl.
Qed.

(** The main loop either meets a transport error or reads the next lines. *)
Lemma read_lines_spec n cap l ts st consumed :
  0 < B -> cap = line_cap l ->
  exists recs k consumed' e evs, read_lines n cap l ts st consumed = Some (recs, k, consumed', e, evs) /\
  (e = LineErr \/
   let got := take n (lines (s_rest st)) in
   k = length got /\ recs = page_records l ts got /\ evs = page_events l ts got /\
   consumed' = consumed + raw_size got /\
   (e = LineEOF <-> k < n) /\ (s_fail st = true -> e = LineOk /\ Forall (fun r => terminated r = true) got)).
Proof.
  intros HB ->. revert st consumed. induction n as [|n IH]; intros st consumed.
  { do 5 eexists. split; [done|]. right. simpl. unfold raw_size. simpl. split_and!; try done; try lia. split; [done|lia]. }
  pose proof (readLine_lines (line_cap l) st HB) as Hrl. cbn [read_lines]. destruct (lines (s_rest st)) as [|x xs] eqn:Hl.
  - destruct Hrl as [[Hnf ->]|[_ (c & st' & ->)]]; simpl; do 5 eexists; (split; [reflexivity|]).
    2: by left.
    right. unfold raw_size. simpl. split_and!; try done; try lia; [split; [lia|done]|congruence].
  - destruct Hrl as [[Hterm (r & Hr & -> & _ & ->)]|[_ (c & st' & ->)]]; simpl.
    2: { do 5 eexists. split; [done|]. by left. }
    destruct (line_record l ts _ _) as [rec ev] eqn:Hrec.
    destruct (IH (mkStream r (s_fail st) (s_eager st)) (consumed + slen x)) as (recs & k & consumed' & e & evs & -> & Hres).
    simpl. do 5 eexists. split; [done|]. destruct Hres as [->|(Hk & Hrecs & Hevs & Hcons & Heof & Hfail)]; [by left|right].
    assert (raw_record l ts x = (rec, ev)) as Hx by exact Hrec. simpl in *. split_and!.
    + by rewrite Hk.
    + unfold page_records. simpl. rewrite Hx. simpl. rewrite Hrecs. by destruct rec.
    + unfold page_events. simpl. rewrite Hx. simpl. by rewrite Hevs.
    + unfold raw_size in *. simpl. lia.
    + rewrite Heof. lia.
    + intros Hf. destruct (Hfail Hf) as [-> Hts]. split; [done|]. constructor; [|done]. destruct Hterm; congruence.
Qed.

(** What the store serves for [o]: a full answer carries a prefix of it, the
    whole unless the transfer failed; a partial one the same of the part the
    header names. *)
Definition part_of (resp : DlResp) (o : string) : Prop :=
  exists q, o = r_body resp +:+ q /\ (r_fail resp = false -> q = "").

Definition serves (url o : string) (w : W) : Prop :=
  forall range resp w', dl_Do url range w = (Some resp, w') ->
    (r_status resp = 200%Z -> part_of resp o) /\
    (r_status resp = 206%Z -> forall k, range = Some k -> contentRangeStart (r_contentRange resp) = Some k ->
       part_of resp (string_drop (Z.to_nat k) o)).

(** The two loops over a capped body, from a resume point of it. *)
Lemma chunk_lines l ts max o skip st body consumed ahead q :
  0 < B -> o = body +:+ q ->
  (s_fail st = false -> q = "" \/ Z.of_nat (slen body) = (max_bytes l + 1)%Z) ->
  s_rest st = string_drop (offset skip body) body -> consumed = offset skip body ->
  skip <= length (lines body) -> take skip (lines body) = take skip (lines o) ->
  exists recs k consumed' e evs, read_lines max (line_cap l) l ts st consumed = Some (recs, k, consumed', e, evs) /\
  (e = LineErr \/ forall fetched,
   (fetched = match e with LineEOF => slen body | _ => Nat.min (slen body) (consumed' + ahead) end ->
    (Z.of_nat fetched <= max_bytes l)%Z ->
    let got := take max (drop skip (lines o)) in
    k = length got /\ recs = page_records l ts got /\ evs = page_events l ts got /\ consumed' = offset (skip + k) o)).
Proof.
  intros HB -> Hend Hrest -> Hskip Htake.
  destruct (read_lines_spec max (line_cap l) l ts st (offset skip body) HB eq_refl) as (recs & k & consumed' & e & evs & Hrun & Hres).
  exists recs, k, consumed', e, evs. split; [done|]. destruct Hres as [->|(Hk & Hrecs & Hevs & Hcons & Heof & Hfail)]; [by left|right].
  intros fetched Hfe Hcap. rewrite Hrest, lines_offset in Hk, Hrecs, Hevs, Hcons, Hfail.
  set (got := take max (drop skip (lines body))) in *.
  assert (Hoff : offset skip (body +:+ q) = offset skip body) by (unfold offset; by rewrite Htake).
  assert (Hgot : take max (drop skip (lines (body +:+ q))) = got).
  { destruct (decide (q = "")) as [->|Hq]; [by rewrite string_app_nil_r|].
    assert (Hfull : k = max /\ Forall (fun r => terminated r = true) got).
    { assert (k <= max) by (rewrite Hk; unfold got; rewrite length_take; lia).
      destruct (s_fail st) eqn:Hf; [destruct (Hfail eq_refl) as [-> ?]; split; [|done]; destruct (decide (k < max)) as [Hlt|]; [apply Heof in Hlt; discriminate|lia]|].
      destruct (Hend eq_refl) as [?|Hlen]; [done|]. destruct (decide (k < max)) as [Hlt|]; [apply Heof in Hlt as ->; lia|].
      assert (fetched = Nat.min (slen body) (consumed' + ahead)) as Hfe' by (destruct e; [done| |done]; lia || (exfalso; assert (k < max) by tauto; lia)).
      split; [lia|]. assert (Hall : Forall (fun r => terminated r = true) (take (skip + k) (lines body))).
      { apply lines_before_end; [rewrite Hk; unfold got; rewrite length_take, length_drop; lia|].
        rewrite offset_add. assert (take k (drop skip (lines body)) = got) as -> by (assert (k = max) as -> by lia; done). lia. }
      rewrite <-take_take_drop in Hall. apply Forall_app in Hall as [_ Hall]. assert (k = max) as Hkm by lia. by rewrite Hkm in Hall. }
    destruct Hfull as [Hkm Hterm]. unfold got. rewrite <-!lines_offset, Hoff.
    rewrite string_drop_app_le by apply offset_le.
    apply lines_prefix; rewrite lines_offset; [exact Hterm|]. fold got. rewrite Hkm in Hk. unfold got in Hk. rewrite length_take in Hk. lia. }
  simpl. rewrite Hgot. split_and!; [done..|].
  rewrite offset_add, Hoff, Hcons. f_equal. transitivity (raw_size (take k got)).
  - by rewrite Hk, firstn_all.
  - rewrite <-Hgot, take_take. f_equal. f_equal. rewrite Hk. unfold got. rewrite length_take. lia.
Qed.

(** What the cap leaves of a served part. *)
Lemma capped_part l resp part :
  part_of resp part ->
  exists q, part = s_rest (capped l resp) +:+ q /\
  (s_fail (capped l resp) = false -> q = "" \/ Z.of_nat (slen (s_rest (capped l resp))) = (max_bytes l + 1)%Z).
Proof.
  intros (q & -> & Hq). unfold capped. simpl. set (limit := Z.to_nat (max_bytes l + 1)).
  exists (string_drop limit (r_body resp) +:+ q). split; [by rewrite <-string_app_assoc, string_take_drop|].
  assert (0 <= max_bytes l + 1)%Z as Hpos.
  { unfold max_bytes, defaultDownloadMaxBytes. destruct (Z.leb_spec (downloadMaxBytes l) 0); lia. }
  rewrite string_take_length. intros Hf. destruct (decide (slen (r_body resp) < limit)) as [Hlt|Hge]; [|right; lia].
  left. rewrite bool_decide_true, andb_true_r in Hf by done. rewrite Hq, string_app_nil_r by done.
  assert (slen (string_drop limit (r_body resp)) = 0) by (rewrite string_drop_length; lia).
  by destruct (string_drop limit (r_body resp)).
Qed.

Definition chunk_ok (l : DlConfig) (ts : Time) (o : string) (skip max : nat) (chunk : Chunk) (evs : list string) : Prop :=
  let got := take max (drop skip (lines o)) in
  ch_recs chunk = page_records l ts got /\ ch_lines chunk = length got /\
  ch_next chunk = Z.of_nat (offset (skip + length got) o) /\ ch_eof chunk = bool_decide (length got < max) /\
  evs = page_events l ts got.

Lemma downloadChunk_spec l url o skip max ts w :
  0 < B -> serves url o w -> skip <= length (lines o) -> (Z.of_nat (offset skip o) <= max_bytes l)%Z ->
  exists r evs w', downloadChunk l url skip (Z.of_nat (offset skip o)) max ts w = Some (r, evs, w') /\
  forall chunk, r = Ok chunk -> chunk_ok l ts o skip max chunk evs.
Proof.
  intros HB Hserve Hskip Hcap. unfold downloadChunk.
  destruct (valid_url url); cbn [negb]; [|by do 3 eexists].
  destruct (dl_Do url _ w) as [resp w'] eqn:Hdo. destruct resp as [resp|]; [|by do 3 eexists].
  destruct (Hserve _ _ _ Hdo) as [H200 H206]. set (off := Z.of_nat (offset skip o)) in *.
  set (honored := _ && _ && _).
  destruct (negb (r_status resp =? 200)%Z && negb (r_status resp =? 206)%Z) eqn:Hst; [by do 3 eexists|].
  destruct ((r_status resp =? 206)%Z && negb honored) eqn:Hr; [by do 3 eexists|].
  (* the part the body is served from, and what is left to skip in it *)
  assert (exists part skip', part_of resp part /\ (if honored then 0 else skip) = skip' /\
    offset skip' part + (if honored then offset skip o else 0) = offset skip o /\ skip' <= length (lines part) /\
    (offset skip' part = 0 \/ offset skip' part = offset skip o) /\
    drop skip' (lines part) = drop skip (lines o) /\
    forall n, offset (skip' + n) part + (if honored then offset skip o else 0) = offset (skip + n) o) as
    (part & skip' & Hpart & -> & Hoff & Hskip' & Hoff' & Hlines & Hadd).
  { subst honored. destruct (Z.eqb_spec (r_status resp) 206) as [E|E].
    - simpl in Hr. destruct (bool_decide (r_status resp = 206%Z) && (0 <? off)%Z && _) eqn:Hh; [|done].
      apply andb_prop in Hh as [Hh Hc]. apply andb_prop in Hh as [_ Hpos]. apply bool_decide_eq_true in Hc. rewrite Hpos in Hdo, H206.
      exists (string_drop (offset skip o) o), 0. split_and!; try done; [|lia|by left|by rewrite lines_offset|].
      + specialize (H206 E _ eq_refl Hc). unfold off in H206. by rewrite Nat2Z.id in H206.
      + intros n. simpl. unfold offset at 1. rewrite lines_offset, offset_add. lia.
    - rewrite bool_decide_false by done. simpl. exists o, skip. rewrite Nat.add_0_r.
      destruct (Z.eqb_spec (r_status resp) 200); [|done]. split_and!; auto; intros; lia. }
  destruct (capped_part l resp part Hpart) as (q & Hq & Hend). cbv zeta. set (st := capped l resp) in *. clearbody st.
  destruct (skip_lines_spec skip' (line_cap l) st 0 HB) as [->|[(Hf & Hlen & c & ->)|(Hlen & Hall & ->)]]; simpl; [by do 3 eexists|exfalso|].
  { destruct (lines_of_prefix skip' (s_rest st) q) as [? _]; [by rewrite <-Hq| |lia].
    rewrite <-Hq. destruct (Hend Hf) as [->|Hsize]; [by right|left]. unfold off in Hcap. lia. }
  assert (Htake : take skip' (lines (s_rest st)) = take skip' (lines part)).
  { rewrite Hq. destruct (s_fail st) eqn:Hf; [symmetry; apply lines_prefix; auto|].
    apply lines_of_prefix; [rewrite <-Hq; lia|]. rewrite <-Hq. destruct (Hend eq_refl) as [->|Hsize]; [by right|left]. unfold off in Hcap. lia. }
  set (st2 := mkStream (string_drop _ _) _ _).
  destruct (chunk_lines l ts max part skip' st2 (s_rest st) (offset skip' (s_rest st)) (r_ahead resp) q)
    as (recs & k & consumed' & e & evs & -> & Hres); try done. simpl.
  destruct Hres as [->|Hres]; [by do 3 eexists|]. specialize (Hres _ eq_refl).
  destruct e; [| |by do 3 eexists].
  all: match goal with |- context [(?c <? ?d)%Z] => destruct (Z.ltb_spec c d) end; do 3 eexists; (split; [reflexivity|]).
  all: intros chunk Hc; try discriminate Hc; injection Hc as <-.
  all: destruct Hres as (Hk & Hrecs & Hevs & Hcons); [lia|]; rewrite Hlines in Hk, Hrecs, Hevs.
  all: unfold chunk_ok; simpl; rewrite <-Hk; split_and!; try done.
  all: rewrite <-Hadd, Hcons; destruct honored; unfold off; lia.
Qed.

(** A chunk is exactly the next lines of the object, wherever the bytes
    come from.  Resuming at line [skip], whether the server honours the Range,
    ignores it or breaks off mid-transfer, a chunk that succeeds holds the
    stripped records of the next [max] lines, counts those lines, and leaves
    the byte cursor at the start of the line after them; it reports the end of
    the page iff there were fewer than [max].  The call always returns. *)
Theorem downloadChunk_exact l url o skip max ts w :
  0 < B -> serves url o w -> skip <= length (lines o) -> (Z.of_nat (offset skip o) <= max_bytes l)%Z ->
  exists r evs w', downloadChunk l url skip (Z.of_nat (offset skip o)) max ts w = Some (r, evs, w') /\
  forall chunk, r = Ok chunk -> chunk_ok l ts o skip max chunk evs.
Proof. apply downloadChunk_spec. Qed.

(** *** A page over many chunks *)

(** The calls for one page, each on the world it meets; a failed one is
    repeated from the saved cursor.  Returns the records emitted and whether
    the page ended. *)
Fixpoint page_run (l : DlConfig) (url : string) (max : nat) (ts : Time) (ws : list W) (skip : nat) (off : Z)
    : list LogRecord * bool :=
  match ws with
  | [] => ([], false)
  | w :: ws =>
      match downloadChunk l url skip off max ts w with
      | Some (Ok c, _, _) =>
          if ch_eof c then (ch_recs c, true)
          else let '(recs, ended) := page_run l url max ts ws (skip + ch_lines c) (ch_next c) in (ch_recs c ++ recs, ended)
      | _ => page_run l url max ts ws skip off
      end
  end.

End download.

(** ** A concrete object store *)

Module Sim.
(** How the next request is answered. *)
Inductive mode := Full | Ranged | Broken (n : nat) | Down.
Record World := mkWorld { w_object : string; w_mode : mode }.

Definition answer (range : option Z) (w : World) : option DlResp :=
  let o := w_object w in
  match w_mode w, range with
  | Full, _ | Ranged, None => Some (mkResp 200 "" o false false 0)
  | Ranged, Some k => Some (mkResp 206 ("bytes " +:+ FormatInt k +:+ "-99/100") (string_drop (Z.to_nat k) o) false false 0)
  | Broken n, _ => Some (mkResp 200 "" (string_take n o) true false 0)
  | Down, _ => None
  end.

#[global] Instance store : ObjectStore World := {| dl_Do _ range w := (answer range w, w) |}.

Definition id (s : string) : string := s.
Definition any_url (_ : string) : bool := true.
Definition decode (s : string) : option json := if decide (s = "bad") then None else Some (JObj [("id", JStr s)]).
Definition fmt (_ : spec_float) : string := "".
Definition no_time (_ : string) : option Time := None.
Definition config (cap : Z) : DlConfig := mkDlConfig cap 5 defaultLogFieldPolicy.
Definition nl : string := String newline "".
Definition object : string := "one" +:+ nl +:+ "bad" +:+ nl +:+ "a-long-line" +:+ nl +:+ "two" +:+ nl +:+ "three".
Definition run (cap : Z) (o : string) (max : nat) (modes : list mode) :=
  page_run any_url decode fmt no_time no_time id 4 (config cap) "u" max 0 (mkWorld o <$> modes) 0 0.

Lemma serves_object o m : serves id "u" o (mkWorld o m).
Proof.
  intros range resp w' Hdo. injection Hdo as Hans _. unfold answer in Hans. simpl in Hans.
  destruct m as [| |n|]; [| destruct range as [k|]| |done]; injection Hans as <-; simpl; split; try done; intros _.
  - exists "". by rewrite string_app_nil_r.
  - intros k' [= <-] _. exists "". by rewrite string_app_nil_r.
  - exists "". by rewrite string_app_nil_r.
  - exists (string_drop n o). split; [symmetry; apply string_take_drop|done].
Qed.
End Sim.

Lemma readLine_exact_witness :
  readLine 4 5 (mkStream Sim.object false true) =
    Some ("one", false, 4, LineOk, mkStream (string_drop 4 Sim.object) false true) /\
  readLine 4 5 (mkStream Sim.object false true) = Some (line_result 5 (mkStream Sim.object false true) "" 0 false 0).
Proof. split; [vm_compute; reflexivity|]. apply readLine_exact. lia. Defined.

Lemma downloadChunk_exact_witness :
  exists r evs w', downloadChunk Sim.any_url Sim.decode Sim.fmt Sim.no_time Sim.no_time Sim.id 4 (Sim.config 100) "u" 1 4 2 0
                     (Sim.mkWorld Sim.object Sim.Ranged) = Some (r, evs, w') /\
  evs = ["line_unparseable"; "line_oversize"] /\
  forall chunk, r = Ok chunk ->
    chunk_ok Sim.decode Sim.fmt Sim.no_time Sim.no_time (Sim.config 100) 0 Sim.object 1 2 chunk evs.
Proof.
  destruct (downloadChunk_exact Sim.any_url Sim.decode Sim.fmt Sim.no_time Sim.no_time Sim.id 4 (Sim.config 100) "u" Sim.object 1 2 0
    (Sim.mkWorld Sim.object Sim.Ranged)) as (r & evs & w' & Hrun & Hok).
  - lia.
  - apply Sim.serves_object.
  - vm_compute. lia.
  - vm_compute. discriminate.
  - exists r, evs, w'. change (Z.of_nat (offset 1 Sim.object)) with 4%Z in Hrun. split; [exact Hrun|]. split; [|exact Hok].
    vm_compute in Hrun. injection Hrun as _ <- _. reflexivity.
Defined.


(** A page larger than the download cap that was resumed by Range past the cap
    and then meets one answer that ignores the Range: skipping the consumed
    lines runs into the cap, which is taken for the end of the object, and the
    page ends without its last line ([e]). *)
Lemma page_truncated_in_skip :
  let o := "a" +:+ Sim.nl +:+ "b" +:+ Sim.nl +:+ "c" +:+ Sim.nl +:+ "d" +:+ Sim.nl +:+ "e" +:+ Sim.nl in
  let r := Sim.run 5 o 1 [Sim.Full; Sim.Ranged; Sim.Ranged; Sim.Ranged; Sim.Full] in
  r.2 = true /\ length r.1 = 4 /\
  length (page_records Sim.decode Sim.fmt Sim.no_time Sim.no_time (Sim.config 5) 0 (lines o)) = 5.
Proof. vm_compute. done. Qed.
