(* ===== verification/PortkeyUseCase.v ===== *)
(** * Use cases and key filters (internal/source/portkey/usecase.go, derive.go)

    The settings the Portkey loops share: the cleaned CSV of api-key ids, the
    slug of a use-case label, and the resolution of the configured use cases
    into the passes every loop runs. *)

From S2P Require Import Prelude Model Config PortkeyStrip.

(** [m[k]] of a Go map of strings. *)
Definition setting (m : gmap string string) (k : string) : string := default "" (m !! k).

(** portkey.go: the cap on every decoded control-plane answer. *)
Definition maxResponseBytes : Z := 1048576.

(** labels.go: what the composition root adds to the guard's allow-list. *)
Definition AllowedLabelKeys : list string :=
  ["quantile"; "token_type"; "ai_model"; "ai_org"; "response_status_code"; "metadata_key"; "metadata_value"; "prompt"; useCaseLabelKey].

(** ** Slugs *)

Definition comma : Ascii.ascii := ","%char.
Definition underscore : Ascii.ascii := "_"%char.

Definition slug_char (a : Ascii.ascii) : bool := byte_in a 97 122 || byte_in a 48 57.

(** The rune loop.  Every byte of a rune beyond ASCII fails [slug_char], so
    bytes and runes give the same text. *)
Fixpoint slug_go (s : string) (prevUnderscore : bool) : string :=
  match s with
  | EmptyString => ""
  | String a s' =>
      if slug_char a then String a (slug_go s' false)
      else if prevUnderscore then slug_go s' true
      else String underscore (slug_go s' true)
  end.

Section usecase.
(** [strings.ToLower] and [strings.TrimSpace] beyond ASCII. *)
Context (uni trim_uni : string -> string).

Definition slugifyUseCase (label : string) : option string :=
  let slug := trim_by (Ascii.eqb underscore) (slug_go (ToLower uni label) false) in
  if decide (slug = "") then None else Some slug.

(** groups.go. *)
Definition splitCSV (s : string) : list string :=
  filter (fun t => t <> "") (map (TrimSpace trim_uni) (split_on comma s)).

(** derive.go. *)
Definition cleanAPIKeyIDs (s : string) : string := join_with comma (splitCSV s).

(** ** Resolution *)

Record resolvedUseCase := mkResolved { slug : string; apiKeyIDsCSV : string }.

Inductive UcErr := UcAmbiguous | UcEmptyLabel | UcNoIDs | UcDupSlug | UcDupID.

(** The id loop: [seenUUID] after it. *)
Fixpoint resolve_ids (ids : list string) (label : string) (seenUUID : gmap string string) : option (gmap string string) :=
  match ids with
  | [] => Some seenUUID
  | id :: ids =>
      match seenUUID !! id with
      | Some _ => None
      | None => resolve_ids ids label (<[id := label]> seenUUID)
      end
  end.

(** The entry loop. *)
Fixpoint resolve_entries (ucs : list APIKeyUseCase) (seenSlug seenUUID : gmap string string)
    : result UcErr (list resolvedUseCase) :=
  match ucs with
  | [] => Ok []
  | uc :: ucs =>
      match slugifyUseCase (uc_Label uc) with
      | None => Err UcEmptyLabel
      | Some slug =>
          let csv := cleanAPIKeyIDs (join_with comma (uc_APIKeyIDs uc)) in
          if decide (csv = "") then Err UcNoIDs
          else match seenSlug !! slug with
               | Some _ => Err UcDupSlug
               | None =>
                   match resolve_ids (split_on comma csv) (uc_Label uc) seenUUID with
                   | None => Err UcDupID
                   | Some seenUUID =>
                       let? out := resolve_entries ucs (<[slug := uc_Label uc]> seenSlug) seenUUID in
                       Ok (mkResolved slug csv :: out)
                   end
               end
      end
  end.

Definition double_filter (lp : LoopConfig) : bool :=
  lc_Enabled lp && bool_decide (cleanAPIKeyIDs (setting (lc_Settings lp) "api_key_ids") <> "").

Definition resolveUseCases (cfg : SourceConfig) : result UcErr (list resolvedUseCase) :=
  match sc_APIKeyUseCases cfg with
  | [] => Ok []
  | ucs =>
      if existsb (fun kv => double_filter kv.2) (map_to_list (sc_Loops cfg)) then Err UcAmbiguous
      else resolve_entries ucs ∅ ∅
  end.

Definition with_label (k v : string) (s : Sample) : Sample :=
  mkSample (s_Name s) (s_Kind s) (s_Temporality s) (s_Monotonic s) (s_Unit s) (<[k := v]> (s_Labels s)) (s_Value s) (s_Timestamp s).

(** The samples carry maps of their own: labelling one labels no other. *)
Definition stampUseCase (samples : list Sample) (slug : string) : list Sample :=
  if decide (slug = "") then samples else map (with_label useCaseLabelKey slug) samples.

(** ** What a slug is *)

(** The maximal runs of [a-z0-9]. *)
Fixpoint words (s : string) : list string :=
  match s with
  | EmptyString => []
  | String a s' =>
      if slug_char a then
        match s' with
        | String b _ => if slug_char b then match words s' with w :: ws => String a w :: ws | [] => [String a ""] end
                        else String a "" :: words s'
        | EmptyString => [String a ""]
        end
      else words s'
  end.

Definition slug_word (w : string) : Prop := w <> "" /\ string_forallb slug_char w = true.

Definition starts_slug (s : string) : bool := match s with String a _ => slug_char a | EmptyString => false end.

Lemma words_slug s : Forall slug_word (words s).
Proof.
  induction s as [|a s IH]; simpl; [constructor|]. destruct (slug_char a) eqn:Ha; [|done].
  assert (slug_word (String a "")) by (split; simpl; [done|by rewrite Ha]).
  destruct s as [|b s]; [by constructor|]. destruct (slug_char b); [|by constructor].
  destruct (words (String b s)) as [|w ws]; [by constructor|].
  inversion IH as [|? ? [Hw1 Hw2] ?]; subst. constructor; [split; simpl; [done|by rewrite Ha]|done].
Qed.

Lemma words_starts s : starts_slug s = true -> words s <> [].
Proof.
  destruct s as [|a s]; [done|]. simpl. intros ->. destruct s as [|b s]; [done|].
  destruct (slug_char b); [|done]. by destruct (words (String b s)).
Qed.

(** The rune loop writes the words between single underscores. *)
Lemma slug_go_words s :
  (exists t, (t = "" \/ t = "_" /\ words s <> []) /\ slug_go s true = join_with underscore (words s) +:+ t) /\
  slug_go s false = (if decide (s = "") then "" else if starts_slug s then "" else "_") +:+ slug_go s true.
Proof.
  induction s as [|a s [(t & Ht & IH) IHf]]; [split; [by exists ""; auto|done]|].
  simpl. destruct (slug_char a) eqn:Ha; [|split; [by exists t|done]]. split; [|done].
  rewrite IHf. destruct s as [|b s]; [by exists ""; auto|].
  rewrite decide_False by done. change (starts_slug (String b s)) with (slug_char b).
  destruct (slug_char b) eqn:Hb.
  - pose proof (words_starts (String b s) Hb). rewrite IH. destruct (words (String b s)) as [|w ws] eqn:Hw; [done|].
    exists t. split; [naive_solver|]. by destruct ws.
  - rewrite IH. destruct (words (String b s)) as [|w ws] eqn:Hw.
    + exists "_". split; [by right|]. destruct Ht as [->|[_ ?]]; done.
    + exists t. split; [naive_solver|done].
Qed.

Lemma join_cons w ws : ws <> [] -> join_with underscore (w :: ws) = w +:+ "_" +:+ join_with underscore ws.
Proof. by destruct ws. Qed.

Lemma trim_left_slug w (t : string) : slug_word w -> trim_left (Ascii.eqb underscore) (w +:+ t) = w +:+ t.
Proof.
  intros [Hw Hs]. destruct w as [|a w]; [done|]. cbn [string_forallb] in Hs. apply andb_prop in Hs as [Ha _].
  rewrite string_app_cons. cbn [trim_left]. destruct (Ascii.eqb_spec underscore a) as [<-|]; done.
Qed.

Lemma rev_slug_word w : slug_word w -> slug_word (rev_string w).
Proof.
  intros [Hw Hs]. split.
  - intros Hr. apply (f_equal rev_string) in Hr. rewrite rev_string_involutive in Hr. done.
  - clear Hw. induction w as [|a w IH]; [done|]. simpl in Hs. apply andb_prop in Hs as [Ha Hs].
    change (String a w) with (String a "" +:+ w). rewrite rev_string_app, string_forallb_app, IH by done. simpl. by rewrite Ha.
Qed.

(** A join of words ends in a word. *)
Lemma join_last ws : ws <> [] -> Forall slug_word ws -> exists u w, slug_word w /\ join_with underscore ws = u +:+ w.
Proof.
  intros Hne Hws. induction Hws as [|w ws Hw Hws IH]; [done|]. destruct ws as [|w' ws]; [by exists "", w|].
  destruct IH as (u & v & Hv & Hj); [done|]. rewrite join_cons, Hj by done. exists (w +:+ "_" +:+ u), v.
  by rewrite !string_app_assoc.
Qed.

Lemma trim_join ws t :
  ws <> [] -> Forall slug_word ws -> t = "" \/ t = "_" ->
  trim_by (Ascii.eqb underscore) (join_with underscore ws +:+ t) = join_with underscore ws.
Proof.
  intros Hne Hws Ht. destruct (join_last ws Hne Hws) as (u & w & Hw & Hj).
  assert (trim_left (Ascii.eqb underscore) (join_with underscore ws +:+ t) = join_with underscore ws +:+ t) as Hl.
  { inversion Hws as [|v vs Hv ?]; subst; [done|]. destruct vs; [by apply trim_left_slug|].
    rewrite join_cons, !string_app_assoc by done. by apply trim_left_slug. }
  unfold trim_by. rewrite Hl, Hj, !rev_string_app.
  replace (trim_left (Ascii.eqb underscore) (rev_string t +:+ (rev_string w +:+ rev_string u))) with (rev_string w +:+ rev_string u).
  - by rewrite <-rev_string_app, rev_string_involutive.
  - destruct Ht as [-> | ->]; symmetry; exact (trim_left_slug _ _ (rev_slug_word _ Hw)).
Qed.

(** The slug of a label is its lower-case words joined by underscores; a label
    without one is refused. *)
Lemma slugify_words label :
  slugifyUseCase label =
  match words (ToLower uni label) with [] => None | ws => Some (join_with underscore ws) end.
Proof.
  unfold slugifyUseCase. destruct (slug_go_words (ToLower uni label)) as [(t & Ht & Hg) ->].
  pose proof (words_slug (ToLower uni label)) as Hws. rewrite Hg. set (ws := words (ToLower uni label)) in *.
  set (p := if decide (ToLower uni label = "") then "" else _).
  assert (p = "" \/ p = "_") as Hp by (subst p; repeat case_match; auto).
  assert (trim_by (Ascii.eqb underscore) (p +:+ (join_with underscore ws +:+ t)) =
          trim_by (Ascii.eqb underscore) (join_with underscore ws +:+ t)) as -> by (by destruct Hp as [-> | ->]).
  destruct ws as [|w ws'] eqn:Ew.
  - destruct Ht as [-> | [_ ?]]; done.
  - rewrite trim_join; [|done|done|naive_solver]. rewrite decide_False; [done|].
    destruct (join_last (w :: ws') ltac:(done) Hws) as (u & v & [Hv _] & ->). destruct u; done.
Qed.

(** ** What resolution accepts *)

Definition ids_of (r : resolvedUseCase) : list string := split_on comma (apiKeyIDsCSV r).

Definition entry_ok (uc : APIKeyUseCase) (r : resolvedUseCase) : Prop :=
  slugifyUseCase (uc_Label uc) = Some (slug r) /\
  apiKeyIDsCSV r = cleanAPIKeyIDs (join_with comma (uc_APIKeyIDs uc)) /\ apiKeyIDsCSV r <> "".

Definition fresh (l : list string) (seen : gmap string string) : Prop := forall x, x ∈ l -> seen !! x = None.

Lemma fresh_insert l seen x v : fresh l (<[x := v]> seen) <-> (x ∉ l) /\ fresh l seen.
Proof.
  unfold fresh. split.
  - intros H. split; [intros Hx; specialize (H x Hx); by rewrite lookup_insert_eq in H|].
    intros y Hy. specialize (H y Hy). by apply lookup_insert_None in H as [? _].
  - intros [Hx H] y Hy. rewrite lookup_insert_ne; [by apply H|by intros ->].
Qed.

Lemma resolve_ids_spec ids label seen :
  match resolve_ids ids label seen with
  | Some seen' => NoDup ids /\ fresh ids seen /\ forall l, fresh l seen' <-> fresh l seen /\ forall x, x ∈ l -> x ∉ ids
  | None => ~ (NoDup ids /\ fresh ids seen)
  end.
Proof.
  revert seen. induction ids as [|id ids IH]; intros seen; simpl.
  - split_and!; [constructor|by intros x []%not_elem_of_nil|]. intros l. split; [|naive_solver]. intros H. split; [done|].
    intros x _. by apply not_elem_of_nil.
  - destruct (seen !! id) as [v|] eqn:Hid.
    + intros [_ H]. specialize (H id ltac:(left)). congruence.
    + specialize (IH (<[id := label]> seen)). destruct (resolve_ids ids label _) as [seen'|].
      * destruct IH as (Hnd & [Hni Hf]%fresh_insert & Hl). split_and!; [by constructor| |].
        -- intros x [->|Hx]%elem_of_cons; auto.
        -- intros l. rewrite Hl, fresh_insert. setoid_rewrite not_elem_of_cons. split.
           ++ intros [[H1 H2] H3]. split; [done|]. intros x Hx. split; [by intros ->|auto].
           ++ intros [H1 H2]. split_and!; [intros Hx; by destruct (H2 id Hx)|done|]. intros x Hx. by apply H2.
      * intros [[Hni Hnd]%NoDup_cons Hf]. apply IH. split; [done|]. apply fresh_insert. split; [done|]. intros x Hx. apply Hf. by right.
Qed.

Definition accepted (seenSlug seenUUID : gmap string string) (out : list resolvedUseCase) : Prop :=
  NoDup (map slug out) /\ fresh (map slug out) seenSlug /\
  NoDup (concat (map ids_of out)) /\ fresh (concat (map ids_of out)) seenUUID.

Lemma fresh_app l k seen : fresh (l ++ k) seen <-> fresh l seen /\ fresh k seen.
Proof. unfold fresh. setoid_rewrite elem_of_app. naive_solver. Qed.

Lemma accepted_cons r out sS sU sU' label :
  resolve_ids (ids_of r) label sU = Some sU' ->
  accepted sS sU (r :: out) <-> sS !! slug r = None /\ accepted (<[slug r := label]> sS) sU' out.
Proof.
  intros Hr. pose proof (resolve_ids_spec (ids_of r) label sU) as Hs. rewrite Hr in Hs. destruct Hs as (Hnd & Hf & Hl).
  unfold accepted. cbn [map concat]. rewrite NoDup_cons, NoDup_app, fresh_app, fresh_insert, Hl.
  change (fresh (slug r :: map slug out) sS) with (fresh ([slug r] ++ map slug out) sS). rewrite fresh_app.
  assert (fresh [slug r] sS <-> sS !! slug r = None) as ->.
  { unfold fresh. setoid_rewrite list_elem_of_singleton. naive_solver. }
  naive_solver.
Qed.

Lemma resolve_entries_spec ucs seenSlug seenUUID out :
  resolve_entries ucs seenSlug seenUUID = Ok out <-> Forall2 entry_ok ucs out /\ accepted seenSlug seenUUID out.
Proof.
  split.
  - revert seenSlug seenUUID out. induction ucs as [|uc ucs IH]; intros sS sU out; simpl.
    { intros [= <-]. split; [constructor|]. split_and!; simpl; constructor || (intros x []%not_elem_of_nil). }
    destruct (slugifyUseCase (uc_Label uc)) as [sl|] eqn:Hsl; [|done].
    destruct (decide _) as [|Hne]; [done|]. destruct (sS !! sl) eqn:HS; [done|].
    set (csv := cleanAPIKeyIDs (join_with comma (uc_APIKeyIDs uc))) in *.
    destruct (resolve_ids _ _ _) as [sU'|] eqn:Hr; [|done].
    destruct (resolve_entries _ _ _) as [out'|] eqn:Ho; [|done]. intros [= <-]. apply IH in Ho as [H2 Ha]. split; [by constructor|].
    rewrite (accepted_cons (mkResolved sl csv) out' sS sU sU' (uc_Label uc)) by done. done.
  - intros [H2 Ha]. revert seenSlug seenUUID Ha. induction H2 as [|uc r ucs out (Hsl & Hcsv & Hne) H2 IH]; intros sS sU Ha; [done|].
    simpl. rewrite Hsl, <-Hcsv, decide_False by done. pose proof (resolve_ids_spec (ids_of r) (uc_Label uc) sU) as Hs.
    unfold ids_of in Hs at 1. destruct (resolve_ids (split_on comma (apiKeyIDsCSV r)) (uc_Label uc) sU) as [sU'|] eqn:Hr.
    + pose proof (proj1 (accepted_cons r out sS sU sU' (uc_Label uc) Hr) Ha) as [-> Ha2]. rewrite IH by done. by destruct r.
    + exfalso. apply Hs. destruct Ha as (_ & _ & [Hnd _]%NoDup_app & [Hf _]%fresh_app). done.
Qed.

Definition accepts (cfg : SourceConfig) (out : list resolvedUseCase) : Prop :=
  (forall name lp, sc_Loops cfg !! name = Some lp -> double_filter lp = false) /\
  Forall2 entry_ok (sc_APIKeyUseCases cfg) out /\
  NoDup (map slug out) /\ NoDup (concat (map ids_of out)).

(** The use cases are accepted exactly when they partition the traffic.
    With use cases configured, [resolveUseCases] succeeds if and only if no
    enabled loop filters keys itself, every label has a slug and some key,
    slugs are pairwise distinct and no key is listed twice, within an entry or
    across two; the result then is, in order, each label's slug with its
    cleaned keys.  A slug is the label's lower-case [a-z0-9] words joined by
    single underscores, never empty. *)
Theorem resolveUseCases_exact cfg out :
  (resolveUseCases cfg = Ok out <->
     if decide (sc_APIKeyUseCases cfg = []) then out = [] else accepts cfg out) /\
  forall label, slugifyUseCase label =
    match words (ToLower uni label) with [] => None | ws => Some (join_with underscore ws) end.
Proof.
  split; [|apply slugify_words]. unfold resolveUseCases. destruct (sc_APIKeyUseCases cfg) as [|uc ucs] eqn:Hu.
  { rewrite decide_True by done. naive_solver. }
  rewrite decide_False by done. unfold accepts. rewrite Hu.
  assert (existsb (fun kv => double_filter kv.2) (map_to_list (sc_Loops cfg)) = false <->
          forall name lp, sc_Loops cfg !! name = Some lp -> double_filter lp = false) as Hex.
  { rewrite <-not_true_iff_false, existsb_exists. split.
    - intros H name lp Hlp. apply not_true_is_false. intros Hd. apply H. exists (name, lp). split; [|done].
      by apply list_elem_of_In, elem_of_map_to_list.
    - intros H ([name lp] & Hin%list_elem_of_In%elem_of_map_to_list & Hd). specialize (H _ _ Hin). simpl in Hd. congruence. }
  destruct (existsb _ _).
  - split; [done|]. intros [H _]. apply Hex in H. done.
  - rewrite resolve_entries_spec. unfold accepted. split.
    + intros (H2 & ? & _ & ? & _). split_and!; try done. by apply Hex.
    + intros (_ & H2 & ? & ?). split_and!; done.
Qed.
End usecase.

(** A control plane whose longer answers are server errors. *)
Module Demo.
Definition ok_text (text : string) : Z * string :=
  if (Z.of_nat (slen text) <=? maxResponseBytes)%Z then (200%Z, text) else (500%Z, "").

Lemma ok_text_inv text code text' :
  ok_text text = (code, text') -> (200 <= code < 300)%Z -> LimitReader maxResponseBytes text' = text.
Proof.
  unfold ok_text. destruct (Z.of_nat (slen text) <=? maxResponseBytes)%Z eqn:Hl; intros [= <- <-] ?; [|lia].
  unfold LimitReader. by rewrite Hl.
Qed.
End Demo.
