(* ===== verification/LogsExport.v ===== *)
(** * The logs-export state machine (internal/source/portkey/logs_export.go, logs_client.go)

    One [Collect] advances an export job by at most one step: create, start,
    poll, download a chunk, next page.  The job's state rides in the
    watermark's cursor.  The control plane and the clock are an interface;
    JSON, time formatting and URL parsing are parameters. *)

From S2P Require Import Prelude Model Source PortkeyStrip PortkeyDownload PortkeyUseCase.

(** ** The cursor *)

Definition phaseIdle : string := "idle".
Definition phaseCreated : string := "created".
Definition phasePolling : string := "polling".
Definition phaseDownloading : string := "downloading".
Definition phaseBlocked : string := "blocked".

Record exportCursor := mkCursor {
  c_Phase : string; c_JobID : string; c_WinMin : string; c_WinMax : string;
  c_Page : Z; c_Pages : Z; c_TotalRecords : Z; c_PageOffsetDone : Z; c_PageByteOffset : Z;
  c_PollDeadline : string; c_LifecycleTraceID : string; c_LifecycleSpanID : string
}.

Definition idleCursor : exportCursor := mkCursor phaseIdle "" "" "" 0 0 0 0 0 "" "" "".

Definition with_phase (p : string) (c : exportCursor) : exportCursor :=
  mkCursor p (c_JobID c) (c_WinMin c) (c_WinMax c) (c_Page c) (c_Pages c) (c_TotalRecords c) (c_PageOffsetDone c)
    (c_PageByteOffset c) (c_PollDeadline c) (c_LifecycleTraceID c) (c_LifecycleSpanID c).
Definition with_job (j : string) (c : exportCursor) : exportCursor :=
  mkCursor (c_Phase c) j (c_WinMin c) (c_WinMax c) (c_Page c) (c_Pages c) (c_TotalRecords c) (c_PageOffsetDone c)
    (c_PageByteOffset c) (c_PollDeadline c) (c_LifecycleTraceID c) (c_LifecycleSpanID c).
Definition with_page (p : Z) (c : exportCursor) : exportCursor :=
  mkCursor (c_Phase c) (c_JobID c) (c_WinMin c) (c_WinMax c) p (c_Pages c) (c_TotalRecords c) (c_PageOffsetDone c)
    (c_PageByteOffset c) (c_PollDeadline c) (c_LifecycleTraceID c) (c_LifecycleSpanID c).
Definition with_offsets (lines bytes : Z) (c : exportCursor) : exportCursor :=
  mkCursor (c_Phase c) (c_JobID c) (c_WinMin c) (c_WinMax c) (c_Page c) (c_Pages c) (c_TotalRecords c) lines
    bytes (c_PollDeadline c) (c_LifecycleTraceID c) (c_LifecycleSpanID c).
Definition with_deadline (d : string) (c : exportCursor) : exportCursor :=
  mkCursor (c_Phase c) (c_JobID c) (c_WinMin c) (c_WinMax c) (c_Page c) (c_Pages c) (c_TotalRecords c) (c_PageOffsetDone c)
    (c_PageByteOffset c) d (c_LifecycleTraceID c) (c_LifecycleSpanID c).
Definition with_trace (t s : string) (c : exportCursor) : exportCursor :=
  mkCursor (c_Phase c) (c_JobID c) (c_WinMin c) (c_WinMax c) (c_Page c) (c_Pages c) (c_TotalRecords c) (c_PageOffsetDone c)
    (c_PageByteOffset c) (c_PollDeadline c) t s.

(** ** The loop and its world *)

Record logsExportLoop := mkLoop {
  x_sourceInstance : string; x_workspaceID : string;
  x_window : Duration; x_settle : Duration; x_maxBackfill : Duration;
  x_pageSize : Z; x_maxPagesPerWindow : Z; x_chunkMaxRecords : nat;
  x_download : DlConfig; x_allowPrivate : bool; x_jobPollTimeout : Duration;
  x_requestedData : list string; x_signedURLAllowHosts : list string;
  x_useCase : string; x_apiKeyIDs : string
}.

(** The errors a step returns, without their texts. *)
Inductive ExErr :=
| ExTransport | ExStatus (code : Z) | ExDecode | ExNoSignedURL
| ExRefused (why : string) | ExBlocked (pages : Z) | ExDownload (e : DlErr).

Inductive ExEvent :=
| AuthFailed                       (* onAuthError *)
| DataIncomplete (reason : string) (* onDataIncomplete *)
| UnstorableSpan                   (* the warn of stepIdle *).

(** The body of a create request; [json.Marshal] writes it. *)
Record ExportRequest := mkRequest {
  q_workspace_id : string; q_time_min : string; q_time_max : string; q_page_size : Z; q_current_page : Z;
  q_api_key_ids : option (list string); q_requested_data : list string; q_description : string
}.

(** A control-plane request: method, path, JSON body; [None] is a transport
    error, otherwise the status and the body.  [ex_span] is the identity of
    the current tracing span. *)
Class ExportAPI (W : Type) := {
  ex_http : string -> string -> option ExportRequest -> W -> option (Z * string) * W;
  ex_now : W -> Time;
  ex_span : W -> option (string * string)
}.

Definition statusDraft : string := "draft".
Definition statusQueued : string := "queued".
Definition statusInProgress : string := "in_progress".
Definition statusSuccess : string := "success".

Definition lifecycleStepName (cur : exportCursor) : string :=
  if decide (c_Phase cur = phaseCreated) then
    if decide (c_JobID cur = "") then "portkey.logs_export.page" else "portkey.logs_export.start"
  else if decide (c_Phase cur = phasePolling) then "portkey.logs_export.poll"
  else if decide (c_Phase cur = phaseDownloading) then "portkey.logs_export.download"
  else if decide (c_Phase cur = phaseBlocked) then "portkey.logs_export.blocked"
  else "portkey.logs_export.create".

Section export.
Context {W : Type} `{ExportAPI W, ObjectStore W}.
(** [json.Marshal] and [json.Unmarshal] of a cursor; [json.Decoder.Decode]
    into the three response types. *)
Context (cursor_json : exportCursor -> string) (cursor_unjson : string -> option exportCursor).
Context (dec_create : string -> option (string * Z)) (dec_detail dec_download : string -> option string).
(** [time.Format] and [time.Parse] with RFC3339Nano, [time.Format] with RFC3339. *)
Context (fmt_nano : Time -> string) (parse_nano : string -> option Time) (fmt_rfc3339 : Time -> string).
(** [url.PathEscape]; [url.Parse]: scheme and host name; [strings.ToLower] on
    non-ASCII text; whether two hex strings are a valid span identity. *)
Context (PathEscape : string -> string) (url_parse : string -> option (string * string)) (uni : string -> string).
Context (valid_span : string -> string -> bool).
(** The download's parameters. *)
Context (valid_url : string -> bool) (json_decode : string -> option json).
Context (FormatFloat : spec_float -> string) (parse_rfc3339 parse_js : string -> option Time) (trim_uni : string -> string).
Context (B : nat).
(** The fingerprint hash of [model.Fingerprint]. *)
Context (sha256_hex : string -> string).

Definition Step (A : Type) : Type := result ExErr A * list ExEvent * W.

(** ** logs_client.go *)

(** One control-plane call; [decode] is the decoder of the expected answer. *)
Definition lifecycle {A} (method path : string) (body : option ExportRequest) (decode : string -> option A) (w : W) : Step A :=
  let '(resp, w) := ex_http method path body w in
  match resp with
  | None => (Err ExTransport, [], w)
  | Some (code, text) =>
      if (code <? 200)%Z || (300 <=? code)%Z
      then (Err (ExStatus code), (if IsAuthStatus code then [AuthFailed] else []), w)
      else match decode (LimitReader maxResponseBytes text) with Some a => (Ok a, [], w) | None => (Err ExDecode, [], w) end
  end.

Definition create_body (l : logsExportLoop) (winMin winMax : Time) (page : Z) : ExportRequest :=
  mkRequest (x_workspaceID l) (fmt_rfc3339 winMin) (fmt_rfc3339 winMax) (x_pageSize l) page
    (if decide (x_apiKeyIDs l = "") then None else Some (split_on ","%char (x_apiKeyIDs l))) (x_requestedData l)
    ("genai-otel-bridge/" +:+ x_sourceInstance l +:+ "/logs/" +:+ fmt_rfc3339 winMin +:+ ".." +:+ fmt_rfc3339 winMax).

Definition createExport (l : logsExportLoop) (winMin winMax : Time) (page : Z) (w : W) : Step (string * Z) :=
  lifecycle "POST" "/logs/exports" (Some (create_body l winMin winMax page)) dec_create w.

Definition startExport (jobID : string) (w : W) : Step unit :=
  lifecycle "POST" ("/logs/exports/" +:+ PathEscape jobID +:+ "/start") None (fun _ => Some tt) w.

Definition pollExport (jobID : string) (w : W) : Step string :=
  lifecycle "GET" ("/logs/exports/" +:+ PathEscape jobID) None dec_detail w.

Definition getDownloadURL (jobID : string) (w : W) : Step string :=
  match lifecycle "GET" ("/logs/exports/" +:+ PathEscape jobID +:+ "/download") None dec_download w with
  | (Ok url, ev, w) => if decide (url = "") then (Err ExNoSignedURL, ev, w) else (Ok url, ev, w)
  | r => r
  end.

Definition cancelExport (jobID : string) (w : W) : Step unit :=
  lifecycle "POST" ("/logs/exports/" +:+ PathEscape jobID +:+ "/cancel") None (fun _ => Some tt) w.

(** logs_download.go: [None] when the URL may be fetched.  [url.Parse] yields
    an ASCII scheme, so [EqualFold] is the ASCII one. *)
Definition validateSignedURLHost (l : logsExportLoop) (signedURL : string) : option string :=
  match url_parse signedURL with
  | None => Some "parse signed url"
  | Some (scheme, hostname) =>
      let host := ToLower uni hostname in
      if decide (host = "") then Some "signed url has no host"
      else if negb (bool_decide (string_map lower_byte scheme = "https")) && negb (x_allowPrivate l) then
        Some "signed-url scheme is not https"
      else if existsb (fun h => bool_decide (ToLower uni h = host)) (x_signedURLAllowHosts l) then None
      else Some "signed-url host not in signed_url_allow_hosts"
  end.

(** ** The cursor's encoding *)

Definition decodeCursor (s : string) : exportCursor :=
  if decide (s = "") then idleCursor
  else match cursor_unjson s with
       | Some c => if decide (c_Phase c = "") then idleCursor else c
       | None => idleCursor
       end.

Definition parseCursorTime (s : string) : option Time := if decide (s = "") then None else parse_nano s.

Definition windowBounds (c : exportCursor) : option (Time * Time) :=
  winMin ← parseCursorTime (c_WinMin c); winMax ← parseCursorTime (c_WinMax c); Some (winMin, winMax).

(** Epoch 0: the runner stamps the leader's. *)
Definition advanceCursor (t : Time) (c : exportCursor) : Watermark := mkWm t (cursor_json c) 0.
Definition resetIdle (t : Time) : Watermark := mkWm t (cursor_json idleCursor) 0.

(** ** logs_export.go *)

Definition IndexedKeys (l : logsExportLoop) : list string := sort_strings (elements (indexed (dl_policy (x_download l)))).

Definition Key (l : logsExportLoop) : CheckpointKey :=
  let naming := if decide (x_useCase l = "") then "logs_export" else "logs_export" +:+ ",api_key_use_case=" +:+ x_useCase l in
  mkKey (x_sourceInstance l) "logs_export" (Fingerprint sha256_hex trim_uni (IndexedKeys l) naming).

Definition batch (l : logsExportLoop) (logs : list LogRecord) (wm : Watermark) : Batch := mkBatch (Key l) [] logs wm.

(** The window, and whether any of it has settled. *)
Definition windowBoundsFor (l : logsExportLoop) (sinceTime now : Time) : Time * Time * bool :=
  let winMin := if IsZero sinceTime then Add now (- x_window l) else sinceTime in
  let floor := Add now (- x_maxBackfill l) in
  let winMin := if Before winMin floor then floor else winMin in
  let winMax := Add winMin (x_window l) in
  let cutoff := Add now (- x_settle l) in
  let winMax := if After winMax cutoff then cutoff else winMax in
  (winMin, winMax, After winMax winMin).

(** [int] arithmetic, truncated division. *)
Definition page_count (l : logsExportLoop) (total : Z) : Z := Z.quot (wrap64 (total + x_pageSize l - 1)) (x_pageSize l).

Definition stepIdle (l : logsExportLoop) (since : Watermark) (now : Time) (w : W) : Step Batch :=
  let raw := wm_Time since in
  let ev0 := if negb (IsZero raw) && Before raw (Add now (- x_maxBackfill l)) then [UnstorableSpan] else [] in
  let '(winMin, winMax, settled) := windowBoundsFor l raw now in
  if negb settled then (Ok (batch l [] since), ev0, w)
  else
    match createExport l winMin winMax 0 w with
    | (Err e, ev, w) => (Err e, ev0 ++ ev, w)
    | (Ok (jobID, total), ev, w) =>
        let pages := page_count l total in
        let cur p j := mkCursor p j (fmt_nano winMin) (fmt_nano winMax) 0 pages total 0 0 "" "" "" in
        if (total <=? 0)%Z || (pages =? 0)%Z then (Ok (batch l [] (mkWm winMax "" 0)), ev0 ++ ev, w)
        else if (0 <? x_maxPagesPerWindow l)%Z && (x_maxPagesPerWindow l <? pages)%Z then
          (Ok (batch l [] (advanceCursor raw (cur phaseBlocked ""))), ev0 ++ ev ++ [DataIncomplete "window_oversize"], w)
        else (Ok (batch l [] (advanceCursor raw (cur phaseCreated jobID))), ev0 ++ ev, w)
    end.

Definition stepBlocked (l : logsExportLoop) (since : Watermark) (cur : exportCursor) (now : Time) (w : W) : Step Batch :=
  let '(winMin, winMax, settled) := windowBoundsFor l (wm_Time since) now in
  match windowBounds cur with
  | Some (curMin, curMax) =>
      if negb settled || negb (Equal winMin curMin) || negb (Equal winMax curMax)
      then (Ok (batch l [] (resetIdle (wm_Time since))), [], w)
      else (Err (ExBlocked (c_Pages cur)), [], w)
  | None => (Ok (batch l [] (resetIdle (wm_Time since))), [], w)
  end.

Definition to_polling (l : logsExportLoop) (since : Watermark) (cur : exportCursor) (w : W) : Batch :=
  batch l [] (advanceCursor (wm_Time since)
    (with_deadline (fmt_nano (Add (ex_now w) (x_jobPollTimeout l))) (with_phase phasePolling cur))).

Definition stepCreated (l : logsExportLoop) (since : Watermark) (cur : exportCursor) (w : W) : Step Batch :=
  if decide (c_JobID cur = "") then
    match windowBounds cur with
    | None => (Ok (batch l [] (resetIdle (wm_Time since))), [], w)
    | Some (winMin, winMax) =>
        match createExport l winMin winMax (c_Page cur) w with
        | (Err e, ev, w) => (Err e, ev, w)
        | (Ok (jobID, _), ev, w) => (Ok (batch l [] (advanceCursor (wm_Time since) (with_job jobID cur))), ev, w)
        end
    end
  else
    match startExport (c_JobID cur) w with
    | (Ok _, ev, w) => (Ok (to_polling l since cur w), ev, w)
    | (Err e, ev, w) =>
        match pollExport (c_JobID cur) w with
        | (Ok status, ev', w) =>
            if decide (status = statusDraft) then (Err e, ev ++ ev', w) else (Ok (to_polling l since cur w), ev ++ ev', w)
        | (Err _, ev', w) => (Err e, ev ++ ev', w)
        end
    end.

Definition stepPolling (l : logsExportLoop) (since : Watermark) (cur : exportCursor) (now : Time) (w : W) : Step Batch :=
  match pollExport (c_JobID cur) w with
  | (Err e, ev, w) => (Err e, ev, w)
  | (Ok status, ev, w) =>
      if decide (status = statusSuccess) then
        (Ok (batch l [] (advanceCursor (wm_Time since) (with_offsets 0 (c_PageByteOffset cur) (with_phase phaseDownloading cur)))), ev, w)
      else if decide (status = statusDraft) then
        (Ok (batch l [] (advanceCursor (wm_Time since) (with_phase phaseCreated cur))), ev, w)
      else if decide (status = statusQueued \/ status = statusInProgress) then
        match parseCursorTime (c_PollDeadline cur) with
        | Some deadline =>
            if After now deadline then
              let '(_, ev', w) := cancelExport (c_JobID cur) w in
              (Ok (batch l [] (resetIdle (wm_Time since))), ev ++ [DataIncomplete "export_stuck"] ++ ev', w)
            else (Ok (batch l [] since), ev, w)
        | None => (Ok (batch l [] since), ev, w)
        end
      else (Ok (batch l [] (resetIdle (wm_Time since))), ev ++ [DataIncomplete "export_failed"], w)
  end.

Definition download (l : logsExportLoop) (url : string) (cur : exportCursor) (winMax : Time) (w : W)
    : option (result DlErr Chunk * list string * W) :=
  downloadChunk valid_url json_decode FormatFloat parse_rfc3339 parse_js trim_uni B (x_download l) url
    (Z.to_nat (c_PageOffsetDone cur)) (c_PageByteOffset cur) (x_chunkMaxRecords l) winMax w.

(** [None] when a loop of the download ran out of fuel. *)
Definition stepDownloading (l : logsExportLoop) (since : Watermark) (cur : exportCursor) (w : W) : option (Step Batch) :=
  match windowBounds cur with
  | None => Some (Ok (batch l [] (resetIdle (wm_Time since))), [], w)
  | Some (_, winMax) =>
      match getDownloadURL (c_JobID cur) w with
      | (Err e, ev, w) => Some (Err e, ev, w)
      | (Ok signedURL, ev, w) =>
          match validateSignedURLHost l signedURL with
          | Some why => Some (Err (ExRefused why), ev, w)
          | None =>
              '(r, reasons, w) ← download l signedURL cur winMax w;
              let ev := ev ++ (DataIncomplete <$> reasons) in
              Some match r with
              | Err e => (Err (ExDownload e), ev, w)
              | Ok c =>
                  let cur := with_offsets (c_PageOffsetDone cur + Z.of_nat (ch_lines c)) (ch_next c) cur in
                  if negb (ch_eof c) then (Ok (batch l (ch_recs c) (advanceCursor (wm_Time since) cur)), ev, w)
                  else if (c_Page cur + 1 <? c_Pages cur)%Z then
                    let cur := with_phase phaseCreated (with_job "" (with_offsets 0 0 (with_page (c_Page cur + 1) cur))) in
                    (Ok (batch l (ch_recs c) (advanceCursor (wm_Time since) cur)), ev, w)
                  else (Ok (batch l (ch_recs c) (mkWm winMax "" 0)), ev, w)
              end
          end
      end
  end.

(** The span identity of the first step rides along in the cursor. *)
Definition lifecycleSpanContext (c : exportCursor) : option (string * string) :=
  if valid_span (c_LifecycleTraceID c) (c_LifecycleSpanID c) then Some (c_LifecycleTraceID c, c_LifecycleSpanID c) else None.

Definition persistLifecycleLink (b : Batch) (prior : exportCursor) (current : option (string * string)) : Batch :=
  let next := decodeCursor (wm_Cursor (b_Watermark b)) in
  if decide (c_Phase next = phaseIdle) then b
  else
    let next := match lifecycleSpanContext prior, current with
                | Some (t, s), _ | None, Some (t, s) => with_trace t s next
                | None, None => next
                end in
    mkBatch (b_Key b) (b_Samples b) (b_Logs b) (mkWm (wm_Time (b_Watermark b)) (cursor_json next) (wm_Epoch (b_Watermark b))).

(** The switch of [Collect]. *)
Definition stepPhase (l : logsExportLoop) (since : Watermark) (cur : exportCursor) (now : Time) (w : W) : option (Step Batch) :=
  if decide (c_Phase cur = phaseCreated) then Some (stepCreated l since cur w)
  else if decide (c_Phase cur = phasePolling) then Some (stepPolling l since cur now w)
  else if decide (c_Phase cur = phaseDownloading) then stepDownloading l since cur w
  else if decide (c_Phase cur = phaseBlocked) then Some (stepBlocked l since cur now w)
  else Some (stepIdle l since now w).

Definition Collect (l : logsExportLoop) (since : Watermark) (w : W) : option (Step Batch) :=
  let cur := decodeCursor (wm_Cursor since) in
  let span := ex_span w in
  '(r, ev, w) ← stepPhase l since cur (ex_now w) w;
  Some (match r with Ok b => Ok (persistLifecycleLink b cur span) | Err e => Err e end, ev, w).

(** ** What the control plane promises *)

Section guarantees.
Context (l : logsExportLoop).

(** What an export job was asked for. *)
Definition job_def (winMin winMax : Time) (page : Z) : string * string * Z := (fmt_rfc3339 winMin, fmt_rfc3339 winMax, page).

(** A job id names one definition for ever, a definition one stable object,
    and a signed URL serves the object of its job.  A window, named by its
    formatted bounds, has a fixed list of record texts: creating its first job
    reports how many, and the object of page [p] holds, one to a line, those
    from [p * page_size] on, [page_size] of them or what is left. *)
Class ExportServer := {
  ex_job : string -> option (string * string * Z);
  ex_url : string -> option (string * string * Z);
  ex_object : string * string * Z -> string;
  ex_texts : string -> string -> list string;
  ex_total winMin winMax w code text w' id total :
    ex_http "POST" "/logs/exports" (Some (create_body l winMin winMax 0)) w = (Some (code, text), w') ->
    (200 <= code < 300)%Z -> dec_create (LimitReader maxResponseBytes text) = Some (id, total) ->
    total = Z.of_nat (length (ex_texts (fmt_rfc3339 winMin) (fmt_rfc3339 winMax)));
  ex_pages a b p : (0 <= p)%Z ->
    map content (lines (ex_object (a, b, p))) =
    take (Z.to_nat (x_pageSize l)) (drop (Z.to_nat (p * x_pageSize l)) (ex_texts a b));
  ex_create_ok winMin winMax page w code text w' id total :
    ex_http "POST" "/logs/exports" (Some (create_body l winMin winMax page)) w = (Some (code, text), w') ->
    (200 <= code < 300)%Z -> dec_create (LimitReader maxResponseBytes text) = Some (id, total) -> ex_job id = Some (job_def winMin winMax page);
  ex_download_ok j w code text w' url :
    ex_http "GET" ("/logs/exports/" +:+ PathEscape j +:+ "/download") None w = (Some (code, text), w') ->
    (200 <= code < 300)%Z -> dec_download (LimitReader maxResponseBytes text) = Some url -> ex_url url = ex_job j;
  ex_serves url def w : ex_url url = Some def -> serves trim_uni url (ex_object def) w
}.
Context `{ExportServer}.
Context (cursor_roundtrip : forall c, cursor_unjson (cursor_json c) = Some c).
Context (cursor_nonempty : forall c, cursor_json c <> "").
Context (parse_fmt : forall t t', parse_nano (fmt_nano t) = Some t' -> t' = t).
Context (HB : 0 < B) (Hchunk : 0 < x_chunkMaxRecords l).
Context (clock_ok : forall w, (x_window l <= ex_now w)%Z).
Context (objects_fit : forall def, (Z.of_nat (slen (ex_object def)) <= max_bytes (x_download l))%Z).
Context (page_pos : (0 < x_pageSize l)%Z).
Context (texts_fit : forall a b, (Z.of_nat (length (ex_texts a b)) + x_pageSize l <= maxInt64)%Z).







(** *** Many ticks *)

(** What became of a tick's batch: emitted and committed, or not committed,
    with its records delivered or not. *)
Inductive outcome := Committed | Lost (delivered : bool).

(** The state is the saved watermark and every record delivered so far. *)
Definition tick (s : Watermark * list LogRecord) (x : W * outcome) : Watermark * list LogRecord :=
  let '(since, em) := s in
  match Collect l since x.1 with
  | Some (Ok b, _, _) =>
      match x.2 with
      | Committed => (b_Watermark b, em ++ b_Logs b)
      | Lost true => (since, em ++ b_Logs b)
      | Lost false => (since, em)
      end
  | _ => (since, em)
  end.

Definition ticks (xs : list (W * outcome)) (s : Watermark * list LogRecord) : Watermark * list LogRecord := foldl tick s xs.

(** *** The invariant *)

(** The clock readings of the ticks of a run. *)
Section seen.
Context (seen : Time -> Prop).








(** *** Lemmas on the cursor *)








(** *** Pages and the window *)












(** *** The steps *)











(** *** One tick *)








(** *** Many ticks *)






End seen.

End guarantees.
End export.

(** ** A concrete control plane *)

Module Sim.
Import PortkeyDownload.Sim PortkeyUseCase.Demo.

Definition cursor_fields (c : exportCursor) : list string :=
  [c_Phase c; c_JobID c; c_WinMin c; c_WinMax c; str_encode (c_Page c); str_encode (c_Pages c); str_encode (c_TotalRecords c);
   str_encode (c_PageOffsetDone c); str_encode (c_PageByteOffset c); c_PollDeadline c; c_LifecycleTraceID c; c_LifecycleSpanID c].
Definition fields_cursor (l : list string) : option exportCursor :=
  match l with
  | [a; b; c; d; e; f; g; h; i; j; k; m] =>
      e ← str_decode e; f ← str_decode f; g ← str_decode g; h ← str_decode h; i ← str_decode i;
      Some (mkCursor a b c d e f g h i j k m)
  | _ => None
  end.
Definition json_of (c : exportCursor) : string := "c" +:+ str_encode (cursor_fields c).
Definition cursor_of (s : string) : option exportCursor := str_decode (string_drop 1 s) ≫= fields_cursor.


Record World := mkWorld { w_now : Time; w_mode : mode; w_status : string }.

(** Job ids spell out what was asked for. *)
Definition id_of (a b : string) (page : Z) : string := str_encode [a; b; str_encode page].
Definition job_of (id : string) : option (string * string * Z) :=
  match str_decode (A := list string) id with Some [a; b; p] => p ← str_decode p; Some (a, b, p) | _ => None end.
Definition object_of (def : string * string * Z) : string :=
  if decide (def.2 = 0%Z) then "one" +:+ nl +:+ "two" +:+ nl else if decide (def.2 = 1%Z) then "three" else "".

Definition http (method path : string) (body : option ExportRequest) (w : World) : option (Z * string) * World :=
  let j := string_drop 14 path in
  let d := string_take (slen j - 9) j in
  match body with
  | Some q => (Some (ok_text (id_of (q_time_min q) (q_time_max q) (q_current_page q))), w)
  | None =>
      if decide (method = "GET") then
        if decide (string_drop (slen j - 9) j = "/download") then (Some (ok_text d), w)
        else (Some (200%Z, w_status w), w)
      else (Some (200%Z, ""), w)
  end.

#[global] Instance api : ExportAPI World := {| ex_http := http; ex_now w := Z.max 100 (w_now w); ex_span _ := None |}.
#[global] Instance objects : ObjectStore World :=
  {| dl_Do url range w := (job_of url ≫= (fun def => PortkeyDownload.Sim.answer range (PortkeyDownload.Sim.mkWorld (object_of def) (w_mode w))), w) |}.

Definition loop : logsExportLoop :=
  mkLoop "prod" "ws" 100 10 500 2 50 2 (config 100) false 60 ["id"] ["s3"] "" "".
Definition host (u : string) : option (string * string) := Some ("https", "s3").
Definition no_span (_ _ : string) : bool := false.
Definition create_of (s : string) : option (string * Z) := Some (s, 3%Z).

#[global] Program Instance server :
  ExportServer (W := World) create_of Some FormatInt id id loop :=
  {| ex_job := job_of; ex_url := job_of; ex_object := object_of; ex_texts _ _ := ["one"; "two"; "three"] |}.
Next Obligation. intros mn mx w code text w' id total _ _ [= _ <-]. reflexivity. Qed.
Next Obligation.
  intros a b p Hp. unfold object_of. simpl. repeat case_decide; subst; [reflexivity..|].
  rewrite drop_ge; [done|]. simpl. lia.
Qed.
Next Obligation.
  intros mn mx page w code text w' id total Hh Hc [= <- <-]. injection Hh as Ht <-.
  rewrite (ok_text_inv _ _ _ Ht Hc). unfold job_of, id_of. rewrite str_decode_encode. simpl. by rewrite str_decode_encode.
Qed.
Next Obligation.
  intros j w code text w' url Hh Hc [= <-].
  assert (Hj : string_drop 14 ("/logs/exports/" +:+ id j +:+ "/download") = j +:+ "/download") by apply (string_drop_app "/logs/exports/").
  unfold ex_http in Hh. cbn [api] in Hh. unfold http in Hh. rewrite Hj, string_app_length in Hh.
  change (slen "/download") with 9 in Hh. rewrite Nat.add_sub, string_take_app, string_drop_app in Hh. injection Hh as Ht _.
  by rewrite (ok_text_inv _ _ _ Ht Hc).
Qed.
Next Obligation.
  intros url def w Hurl range resp w' Hdo. injection Hdo as Hans _. change (job_of url = Some def) in Hurl. rewrite Hurl in Hans.
  apply (PortkeyDownload.Sim.serves_object (object_of def) (w_mode w) range resp (PortkeyDownload.Sim.mkWorld (object_of def) (w_mode w))).
  simpl in *. by rewrite Hans.
Qed.

Definition tick_in := ticks (W := World) json_of cursor_of create_of Some Some FormatInt ParseInt FormatInt id host id no_span
  any_url decode fmt no_time no_time id 4 id loop.
(** Two pages; a poll that finds the job running, a chunk whose commit is lost,
    a transfer that breaks off, an ignored Range. *)
Definition run : list (World * outcome) :=
  let w m s := mkWorld 1000 m s in
  [(w Full "", Committed); (w Full "", Committed); (w Full "queued", Committed); (w Full "success", Committed);
   (w Full "", Lost true); (w (Broken 3) "", Committed); (w Full "", Committed); (w Ranged "", Committed);
   (w Full "", Committed); (w Full "", Committed); (w Full "success", Committed); (w Full "", Committed)].


Definition delivered : list (option string) := map (fun r => l_RecordAttributes r !! "id") (snd (tick_in run (zeroWm, []))).
End Sim.



