(* ===== verification/LogsSettings.v ===== *)
(** * The logs-export settings (internal/source/portkey/logs_settings.go)

    The defaults, the operator's overlay, the validation that refuses content
    fields and an open download host list, and the loop they build. *)

From S2P Require Import Prelude Model Config Guard PortkeyStrip PortkeyDownload PortkeyUseCase LogsExport.

Definition portkeyPageSizeMax : Z := 50000.

Record logsSettings := mkLogsSettings {
  ls_window : Duration;
  ls_settle : Duration;
  ls_maxBackfill : Duration;
  ls_pageSize : Z;
  ls_maxPagesPerWindow : Z;
  ls_chunkMaxRecords : Z;
  ls_jobPollTimeout : Duration;
  ls_downloadTimeout : Duration;
  ls_requestedData : list string;
  ls_extraRecordFields : list string;
  ls_extraIndexedFields : list string;
  ls_signedURLAllowHosts : list string;
  ls_workspaceID : string;
  ls_metadataRecordFields : list string;
  ls_metadataTraceIDField : string;
  ls_traceIDField : string
}.

Definition defaultRequestedData : list string :=
  sort_strings (elements (indexed defaultLogFieldPolicy) ++ elements (record defaultLogFieldPolicy)).

Definition defaultLogsSettings : logsSettings :=
  mkLogsSettings Hour (10 * Minute) (24 * Hour) portkeyPageSizeMax 50 5000 (30 * Minute) (5 * Minute)
    defaultRequestedData ["cache_status"] [] [] "" [] "" "".

Section settings.
(** [time.ParseDuration] and [strings.TrimSpace] beyond ASCII. *)
Context (ParseDuration : string -> option Duration) (trim_uni : string -> string).

Definition parsePositiveDuration (v : string) : option Duration :=
  d ← ParseDuration v; if (d <=? 0)%Z then None else Some d.
Definition parseNonNegDuration (v : string) : option Duration :=
  d ← ParseDuration v; if (d <? 0)%Z then None else Some d.
Definition parsePositiveInt (v : string) : option Z :=
  n ← ParseInt v; if (n <=? 0)%Z then None else Some n.

(** One setting; an unknown key is ignored. *)
Definition apply_setting (s : logsSettings) (kv : string * string) : option logsSettings :=
  let '(k, v) := kv in
  let '(mkLogsSettings w st mb ps mp cm jp dt rd er ei sh wi mr mt ti) := s in
  let csv := splitCSV trim_uni v in
  if decide (k = "window") then w ← parsePositiveDuration v; Some (mkLogsSettings w st mb ps mp cm jp dt rd er ei sh wi mr mt ti)
  else if decide (k = "settle") then st ← parseNonNegDuration v; Some (mkLogsSettings w st mb ps mp cm jp dt rd er ei sh wi mr mt ti)
  else if decide (k = "max_backfill") then mb ← parsePositiveDuration v; Some (mkLogsSettings w st mb ps mp cm jp dt rd er ei sh wi mr mt ti)
  else if decide (k = "job_poll_timeout") then jp ← parsePositiveDuration v; Some (mkLogsSettings w st mb ps mp cm jp dt rd er ei sh wi mr mt ti)
  else if decide (k = "download_timeout") then dt ← parsePositiveDuration v; Some (mkLogsSettings w st mb ps mp cm jp dt rd er ei sh wi mr mt ti)
  else if decide (k = "page_size") then ps ← parsePositiveInt v; Some (mkLogsSettings w st mb ps mp cm jp dt rd er ei sh wi mr mt ti)
  else if decide (k = "max_pages_per_window") then mp ← parsePositiveInt v; Some (mkLogsSettings w st mb ps mp cm jp dt rd er ei sh wi mr mt ti)
  else if decide (k = "chunk_max_records") then cm ← parsePositiveInt v; Some (mkLogsSettings w st mb ps mp cm jp dt rd er ei sh wi mr mt ti)
  else if decide (k = "requested_data") then Some (mkLogsSettings w st mb ps mp cm jp dt csv er ei sh wi mr mt ti)
  else if decide (k = "extra_record_fields") then Some (mkLogsSettings w st mb ps mp cm jp dt rd csv ei sh wi mr mt ti)
  else if decide (k = "extra_indexed_fields") then Some (mkLogsSettings w st mb ps mp cm jp dt rd er csv sh wi mr mt ti)
  else if decide (k = "metadata_record_fields") then Some (mkLogsSettings w st mb ps mp cm jp dt rd er ei sh wi csv mt ti)
  else if decide (k = "metadata_trace_id_field") then Some (mkLogsSettings w st mb ps mp cm jp dt rd er ei sh wi mr v ti)
  else if decide (k = "trace_id_field") then Some (mkLogsSettings w st mb ps mp cm jp dt rd er ei sh wi mr mt v)
  else if decide (k = "signed_url_allow_hosts") then Some (mkLogsSettings w st mb ps mp cm jp dt rd er ei csv wi mr mt ti)
  else if decide (k = "workspace_id") then Some (mkLogsSettings w st mb ps mp cm jp dt rd er ei sh v mr mt ti)
  else Some s.

Definition denied (l : list string) : bool := existsb (fun f => bool_decide (f ∈ hardDeniedLogFields)) l.

(** A field that names one key: content-free and not a list. *)
Definition bad_trace_field (f : string) : bool :=
  bool_decide (f <> "") && (bool_decide (f ∈ hardDeniedLogFields) || contains f ",").

Definition validateLogsSettings (s : logsSettings) : bool :=
  negb ((ls_window s <=? 0)%Z
    || (portkeyPageSizeMax <? ls_pageSize s)%Z
    || (ls_chunkMaxRecords s <=? 0)%Z
    || bool_decide (ls_workspaceID s = "")
    || bool_decide (ls_signedURLAllowHosts s = [])
    || existsb (fun f => bool_decide (f ∈ contentRequestKeys)) (ls_requestedData s)
    || denied (ls_extraRecordFields s)
    || denied (ls_extraIndexedFields s)
    || denied (ls_metadataRecordFields s)
    || bad_trace_field (ls_metadataTraceIDField s)
    || bad_trace_field (ls_traceIDField s)
    || (bool_decide (ls_traceIDField s <> "") && bool_decide (ls_metadataTraceIDField s <> ""))).

(** [None] is an error; which one depends on the order of a Go map. *)
Definition applyLogsSettings (s : logsSettings) (settings : gmap string string) : option logsSettings :=
  s ← foldl (fun s kv => s ← s; apply_setting s kv) (Some s) (map_to_list settings);
  if validateLogsSettings s then Some s else None.

Definition mergeSortedUnique (lists : list (list string)) : list string :=
  sort_strings (elements (list_to_set (filter (fun s => s <> "") (concat lists)) : gset string)).

(** The builder chain, then the use case. *)
Definition build_policy (s : logsSettings) (useCase : string) : fieldPolicy :=
  let p := withTraceIDField (withMetadataFields (withExtraIndexedFields (withExtraRecordFields defaultLogFieldPolicy
             (ls_extraRecordFields s)) (ls_extraIndexedFields s)) (ls_metadataRecordFields s) (ls_metadataTraceIDField s))
             (ls_traceIDField s) in
  mkPolicy (indexed p) (record p) useCase (metadataRecord p) (metadataTraceID p) (traceIDField p).

(** The fields of the download client stay with it; [downloadMaxBytes] and
    [maxLineBytes] are left at 0, the defaults. *)
Definition newLogsExportLoop (cfg : SourceConfig) (lp : LoopConfig) (uc : resolvedUseCase) : option logsExportLoop :=
  if decide (lc_Window lp = 0%Z) then
    s ← applyLogsSettings defaultLogsSettings (lc_Settings lp);
    let requested := mergeSortedUnique [ls_requestedData s; ls_extraRecordFields s; ls_extraIndexedFields s; [ls_traceIDField s]] in
    Some (mkLoop (sc_SourceInstance cfg) (ls_workspaceID s) (ls_window s) (ls_settle s) (ls_maxBackfill s)
            (ls_pageSize s) (ls_maxPagesPerWindow s) (Z.to_nat (ls_chunkMaxRecords s))
            (mkDlConfig 0 0 (build_policy s (slug uc))) (sc_AllowPrivate cfg) (ls_jobPollTimeout s) requested
            (ls_signedURLAllowHosts s) (slug uc) (apiKeyIDsCSV uc))
  else None.

(** ** What the overlay keeps *)

(** The numbers every settings value keeps positive, or not negative. *)
Record knobs_ok (s : logsSettings) : Prop := {
  ko_window : (0 < ls_window s)%Z;
  ko_settle : (0 <= ls_settle s)%Z;
  ko_maxBackfill : (0 < ls_maxBackfill s)%Z;
  ko_pageSize : (0 < ls_pageSize s)%Z;
  ko_maxPages : (0 < ls_maxPagesPerWindow s)%Z;
  ko_chunk : (0 < ls_chunkMaxRecords s)%Z;
  ko_poll : (0 < ls_jobPollTimeout s)%Z;
  ko_download : (0 < ls_downloadTimeout s)%Z
}.

Lemma parsePositiveDuration_pos v d : parsePositiveDuration v = Some d -> (0 < d)%Z.
Proof. unfold parsePositiveDuration. destruct (ParseDuration v) as [d'|]; [|done]. simpl. case_match eqn:E; [done|]. intros [= <-]. lia. Qed.
Lemma parseNonNegDuration_pos v d : parseNonNegDuration v = Some d -> (0 <= d)%Z.
Proof. unfold parseNonNegDuration. destruct (ParseDuration v) as [d'|]; [|done]. simpl. case_match eqn:E; [done|]. intros [= <-]. lia. Qed.
Lemma parsePositiveInt_pos v n : parsePositiveInt v = Some n -> (0 < n)%Z.
Proof. unfold parsePositiveInt. destruct (ParseInt v) as [d'|]; [|done]. simpl. case_match eqn:E; [done|]. intros [= <-]. lia. Qed.

Lemma defaultLogsSettings_ok : knobs_ok defaultLogsSettings.
Proof. split; vm_compute; done. Qed.

Lemma apply_setting_ok s kv s' : knobs_ok s -> apply_setting s kv = Some s' -> knobs_ok s'.
Proof.
  destruct kv as [k v], s. intros []. simpl in *. revert s'. unfold apply_setting.
  repeat first [apply if_some | apply bind_some; intros ? Hp]; intros s' [= <-];
    try first [apply parsePositiveDuration_pos in Hp | apply parseNonNegDuration_pos in Hp | apply parsePositiveInt_pos in Hp];
    by split.
Qed.

Lemma overlay_ok kvs s s' :
  knobs_ok s -> foldl (fun s kv => s ← s; apply_setting s kv) (Some s) kvs = Some s' -> knobs_ok s'.
Proof. apply foldl_option_inv. intros s1 kv s2. apply apply_setting_ok. Qed.

(** The content gates of [validateLogsSettings]. *)
Record gates_ok (s : logsSettings) : Prop := {
  go_pageSize : (ls_pageSize s <= portkeyPageSizeMax)%Z;
  go_workspace : ls_workspaceID s <> "";
  go_hosts : ls_signedURLAllowHosts s <> [];
  go_requested f : f ∈ ls_requestedData s -> f ∉ contentRequestKeys;
  go_record f : f ∈ ls_extraRecordFields s -> f ∉ hardDeniedLogFields;
  go_indexed f : f ∈ ls_extraIndexedFields s -> f ∉ hardDeniedLogFields;
  go_metadata f : f ∈ ls_metadataRecordFields s -> f ∉ hardDeniedLogFields;
  go_trace : ls_traceIDField s ∉ hardDeniedLogFields;
  go_metatrace : ls_metadataTraceIDField s ∉ hardDeniedLogFields;
  go_one_trace : ls_traceIDField s = "" \/ ls_metadataTraceIDField s = ""
}.

Lemma empty_not_denied : "" ∉ hardDeniedLogFields.
Proof. apply (bool_decide_unpack _). vm_compute. exact I. Qed.

Lemma not_denied l f : denied l = false -> f ∈ l -> f ∉ hardDeniedLogFields.
Proof. intros Hd Hf Hin. apply not_true_iff_false in Hd. apply Hd. apply existsb_exists. exists f. split; [by apply list_elem_of_In|by apply bool_decide_eq_true]. Qed.

Lemma bad_trace_field_spec f : bad_trace_field f = false -> f ∉ hardDeniedLogFields.
Proof.
  unfold bad_trace_field. intros Hb Hin. apply andb_false_iff in Hb as [Hb|Hb].
  - apply bool_decide_eq_false, dec_stable in Hb. subst f. exact (empty_not_denied Hin).
  - apply orb_false_iff in Hb as [Hb _]. apply bool_decide_eq_false in Hb. exact (Hb Hin).
Qed.

Lemma validate_gates s : validateLogsSettings s = true -> gates_ok s.
Proof.
  unfold validateLogsSettings. rewrite negb_true_iff, !orb_false_iff.
  intros (((((((((((_ & Hp) & _) & Hw) & Hh) & Hreq) & Hr) & Hi) & Hm) & Hmt) & Ht) & Hone).
  split.
  - by apply Z.ltb_ge in Hp.
  - by apply bool_decide_eq_false in Hw.
  - by apply bool_decide_eq_false in Hh.
  - intros f Hf Hc. apply not_true_iff_false in Hreq. apply Hreq, existsb_exists. exists f.
    split; [by apply list_elem_of_In|by apply bool_decide_eq_true].
  - exact (fun f => not_denied _ f Hr).
  - exact (fun f => not_denied _ f Hi).
  - exact (fun f => not_denied _ f Hm).
  - exact (bad_trace_field_spec _ Ht).
  - exact (bad_trace_field_spec _ Hmt).
  - apply andb_false_iff in Hone as [H|H]; apply bool_decide_eq_false, dec_stable in H; auto.
Qed.

Lemma applyLogsSettings_ok m s : applyLogsSettings defaultLogsSettings m = Some s -> knobs_ok s /\ gates_ok s.
Proof.
  unfold applyLogsSettings. destruct (foldl _ _ _) as [s'|] eqn:Ho; [|done]. simpl.
  destruct (validateLogsSettings s') eqn:Hv; [|done]. intros [= <-].
  split; [|by apply validate_gates]. by eapply overlay_ok, Ho; apply defaultLogsSettings_ok.
Qed.

(** *** The policy the settings build *)

Lemma default_not_denied k : k ∈ indexed defaultLogFieldPolicy ∪ record defaultLogFieldPolicy -> k ∉ hardDeniedLogFields.
Proof.
  assert (indexed defaultLogFieldPolicy ∪ record defaultLogFieldPolicy ## hardDeniedLogFields) as Hd
    by (apply (bool_decide_unpack _); vm_compute; exact I).
  intros Hk Hin. exact (Hd k Hk Hin).
Qed.

Lemma withExtraRecordFields_record p extra : record (withExtraRecordFields p extra) = record p ∪ list_to_set extra.
Proof using Type. clear ParseDuration trim_uni. destruct extra; simpl; [apply leibniz_equiv; set_solver|done]. Qed.
Lemma withExtraRecordFields_indexed p extra : indexed (withExtraRecordFields p extra) = indexed p.
Proof. by destruct extra. Qed.
Lemma withExtraIndexedFields_indexed p extra : indexed (withExtraIndexedFields p extra) = indexed p ∪ list_to_set extra.
Proof using Type. clear ParseDuration trim_uni. destruct extra; simpl; [apply leibniz_equiv; set_solver|done]. Qed.
Lemma withExtraIndexedFields_record p extra : record (withExtraIndexedFields p extra) = record p.
Proof. by destruct extra. Qed.
Lemma withMetadataFields_tiers p fields t :
  indexed (withMetadataFields p fields t) = indexed p /\ record (withMetadataFields p fields t) = record p.
Proof. unfold withMetadataFields. by destruct (_ && _). Qed.
Lemma withTraceIDField_tiers p f :
  indexed (withTraceIDField p f) = indexed p /\ metadataRecord (withTraceIDField p f) = metadataRecord p /\
  (forall k, k ∈ record (withTraceIDField p f) -> k ∈ record p \/ k = f).
Proof using Type. clear ParseDuration trim_uni. unfold withTraceIDField. case_decide; simpl; set_solver. Qed.

Lemma metadata_lifted p fields t k :
  metadataRecord p = ∅ -> k ∈ metadataRecord (withMetadataFields p fields t) -> k ∈ fields \/ k = t.
Proof using Type. clear ParseDuration trim_uni. intros Hp. unfold withMetadataFields. destruct (_ && _); [set_solver|]. simpl. case_decide; set_solver. Qed.

Lemma opt_in_no_metadata p er ei : metadataRecord p = ∅ -> metadataRecord (withExtraIndexedFields (withExtraRecordFields p er) ei) = ∅.
Proof. by destruct er, ei. Qed.

(** No tier of the policy names a hard-denied field. *)
Lemma policy_content_free s uc k :
  gates_ok s ->
  k ∈ indexed (build_policy s uc) ∪ record (build_policy s uc) ∪ metadataRecord (build_policy s uc) -> k ∉ hardDeniedLogFields.
Proof.
  intros Hg. unfold build_policy. cbv zeta. cbn [indexed record metadataRecord].
  set (p1 := withExtraIndexedFields (withExtraRecordFields defaultLogFieldPolicy (ls_extraRecordFields s)) (ls_extraIndexedFields s)).
  set (p2 := withMetadataFields p1 _ _).
  assert (metadataRecord p1 = ∅) as H1 by by apply opt_in_no_metadata.
  pose proof (withTraceIDField_tiers p2 (ls_traceIDField s)) as (Hti & Htm & Htr).
  pose proof (withMetadataFields_tiers p1 (ls_metadataRecordFields s) (ls_metadataTraceIDField s)) as [Hmi Hmr].
  pose proof (metadata_lifted p1 (ls_metadataRecordFields s) (ls_metadataTraceIDField s) k H1) as Hml.
  rewrite !elem_of_union, Hti, Htm. fold p2 in Hmi, Hmr, Hml. rewrite Hmi.
  subst p1. rewrite withExtraIndexedFields_indexed, withExtraRecordFields_indexed, withExtraIndexedFields_record,
    withExtraRecordFields_record in *. rewrite elem_of_union, elem_of_list_to_set.
  intros [[[Hk|Hk]|Hk]|Hk].
  - apply default_not_denied, elem_of_union. by left.
  - exact (go_indexed s Hg k Hk).
  - apply Htr in Hk as [Hk| ->]; [|exact (go_trace s Hg)]. rewrite Hmr, elem_of_union, elem_of_list_to_set in Hk.
    destruct Hk as [Hk|Hk]; [apply default_not_denied, elem_of_union; by right|exact (go_record s Hg k Hk)].
  - apply Hml in Hk as [Hk| ->]; [exact (go_metadata s Hg k Hk)|exact (go_metatrace s Hg)].
Qed.

Lemma elem_of_mergeSortedUnique lists f : f ∈ mergeSortedUnique lists <-> f <> "" /\ exists l, l ∈ lists /\ f ∈ l.
Proof.
  unfold mergeSortedUnique. rewrite sort_strings_perm, elem_of_elements, elem_of_list_to_set, list_elem_of_filter, list_elem_of_In, in_concat.
  split; intros [Hf (l & H1 & H2)]; (split; [done|]); exists l; by rewrite ?list_elem_of_In in *.
Qed.

Lemma newLogsExportLoop_inv cfg lp uc l :
  newLogsExportLoop cfg lp uc = Some l ->
  exists s, knobs_ok s /\ gates_ok s /\
    dl_policy (x_download l) = build_policy s (slug uc) /\
    x_requestedData l = mergeSortedUnique [ls_requestedData s; ls_extraRecordFields s; ls_extraIndexedFields s; [ls_traceIDField s]] /\
    x_window l = ls_window s /\ x_settle l = ls_settle s /\ x_maxBackfill l = ls_maxBackfill s /\
    x_pageSize l = ls_pageSize s /\ x_chunkMaxRecords l = Z.to_nat (ls_chunkMaxRecords s) /\
    x_signedURLAllowHosts l = ls_signedURLAllowHosts s.
Proof.
  unfold newLogsExportLoop. case_decide; [|done]. destruct (applyLogsSettings _ _) as [s|] eqn:Ha; [|done].
  intros [= <-]. apply applyLogsSettings_ok in Ha as [Hk Hg]. by exists s.
Qed.

Lemma content_hard_denied f : f ∈ contentRequestKeys -> f ∈ hardDeniedLogFields.
Proof. intros Hf. apply elem_of_list_to_set, elem_of_app. by right. Qed.

Section content.
Context (FormatFloat : spec_float -> string) (parse_rfc3339 parse_js : string -> option Time).

Lemma tier_named p k b : tier p k = Some b -> k ∈ indexed p ∪ record p.
Proof. unfold tier. repeat case_decide; set_solver. Qed.

Lemma kept_top_named p b raw k v :
  kept_top FormatFloat p b raw k = Some v -> k ∈ indexed p ∪ record p.
Proof. unfold kept_top. case_decide as Ht; [|done]. intros _. by eapply tier_named. Qed.

(** C6: accepted settings keep content out, whatever the operator opts in.
    The create request never names a content field; no attribute of an
    exported record is a hard-denied field and the body is empty; two records
    that agree outside the hard-denied top-level fields and outside the
    hard-denied sub-keys of [metadata] export the same; and the download is
    restricted to a non-empty host list, with a positive window and chunk and
    a page size of at most 50,000. *)
Theorem logs_content_free cfg lp uc l raw1 raw2 ts :
  newLogsExportLoop cfg lp uc = Some l ->
  let export raw := strip FormatFloat parse_rfc3339 parse_js (dl_policy (x_download l)) raw ts in
  (forall f, f ∈ x_requestedData l -> f ∉ contentRequestKeys) /\
  l_Body (export raw1) = "" /\
  (forall k, is_Some (l_IndexedAttributes (export raw1) !! k) \/ is_Some (l_RecordAttributes (export raw1) !! k) ->
     k ∉ hardDeniedLogFields) /\
  ((forall k, k ∉ hardDeniedLogFields ->
      raw1 !! k = raw2 !! k /\ meta_field FormatFloat raw1 k = meta_field FormatFloat raw2 k) ->
   export raw1 = export raw2) /\
  x_signedURLAllowHosts l <> [] /\ (0 < x_window l)%Z /\ (0 < x_pageSize l <= 50000)%Z /\ 0 < x_chunkMaxRecords l.
Proof.
  intros Hl export. destruct (newLogsExportLoop_inv _ _ _ _ Hl) as (s & Hk & Hg & Hp & Hreq & Hw & _ & _ & Hps & Hc & Hh).
  pose proof (policy_content_free s (slug uc)) as Hfree. rewrite <-Hp in Hfree.
  pose proof (strip_spec FormatFloat parse_rfc3339 parse_js (dl_policy (x_download l)) raw1 ts) as (Hb & _ & _ & Hi & Hr & _).
  fold (export raw1) in Hb, Hi, Hr. split; [|split; [exact Hb|repeat apply conj]].
  - intros f Hf Hin. rewrite Hreq in Hf. apply elem_of_mergeSortedUnique in Hf as (_ & l' & Hl' & Hf).
    pose proof (content_hard_denied f Hin) as Hd. set_unfold in Hl'. destruct Hl' as [->|[->|[->|[->|[]]]]].
    + exact (go_requested s Hg f Hf Hin).
    + exact (go_record s Hg f Hf Hd).
    + exact (go_indexed s Hg f Hf Hd).
    + apply list_elem_of_singleton in Hf as ->. exact (go_trace s Hg Hd).
  - intros k [Hk'|Hk'].
    + rewrite Hi in Hk'. destruct Hk' as [v Hv]. apply kept_top_named in Hv. apply (Hfree k Hg). set_solver.
    + rewrite Hr in Hk'. case_decide as Hu; [destruct Hu as [-> _]; by apply (bool_decide_unpack _); vm_compute|].
      case_decide as Hs; [subst k; by apply (bool_decide_unpack _); vm_compute|].
      unfold kept_record in Hk'. destruct (kept_top _ _ _ _ _) eqn:Hkt.
      * apply kept_top_named in Hkt. apply (Hfree k Hg). set_solver.
      * unfold liftable in Hk'. destruct (bool_decide (k ∉ hardDeniedLogFields)) eqn:Hd.
        { by apply bool_decide_eq_true in Hd. }
        rewrite andb_false_r in Hk'. destruct Hk' as [? [=]].
  - intros Hag. apply strip_noninterference.
    + intros k Hin. unfold top_field. f_equal. apply (Hag k), (Hfree k Hg). set_solver.
    + intros k Hin. apply elem_of_difference in Hin as [_ Hin]. apply (Hag k Hin).
    + f_equal. apply (Hag "created_at"). by apply (bool_decide_unpack _); vm_compute.
  - rewrite Hh. apply (go_hosts s Hg).
  - rewrite Hw. apply (ko_window s Hk).
  - rewrite Hps. apply (ko_pageSize s Hk).
  - rewrite Hps. apply (go_pageSize s Hg).
  - rewrite Hc. pose proof (ko_chunk s Hk). lia.
Qed.
End content.
End settings.

(** ** The first window *)

Section bootstrap.
Context {W : Type} `{ExportAPI W, ObjectStore W}.
Context (cursor_json : exportCursor -> string) (cursor_unjson : string -> option exportCursor).
Context (dec_create : string -> option (string * Z)) (dec_detail dec_download : string -> option string).
Context (fmt_nano : Time -> string) (parse_nano : string -> option Time) (fmt_rfc3339 : Time -> string).
Context (PathEscape : string -> string) (url_parse : string -> option (string * string)) (uni : string -> string).
Context (valid_span : string -> string -> bool).
Context (valid_url : string -> bool) (json_decode : string -> option json).
Context (FormatFloat : spec_float -> string) (parse_rfc3339 parse_js : string -> option Time) (trim_uni : string -> string).
Context (B : nat) (sha256_hex : string -> string).

Local Abbreviation collect := (Collect cursor_json cursor_unjson dec_create dec_detail dec_download fmt_nano parse_nano fmt_rfc3339
  PathEscape url_parse uni valid_span valid_url json_decode FormatFloat parse_rfc3339 parse_js trim_uni B sha256_hex).

(** The first export, exactly.  With no frontier a loop looks back over
    the smaller of its window and its back-fill bound.  When the settle lag
    leaves some of that span settled, a tick creates the export job of
    exactly that span; when it does not, the tick does nothing at all: no
    request, no signal, no error, and the frontier stays unset, so every later
    tick does the same.  Nothing in the settings' validation excludes this. *)
Theorem logs_bootstrap l w :
  let reach := Z.min (x_window l) (x_maxBackfill l) in
  let winMin := (ex_now w - reach)%Z in
  let winMax := Z.min (winMin + x_window l) (ex_now w - x_settle l) in
  ((reach <= x_settle l)%Z -> collect l zeroWm w = Some (Ok (batch trim_uni sha256_hex l [] zeroWm), [], w)) /\
  ((x_settle l < reach)%Z -> (0 < x_window l)%Z ->
   let '(created, ev, w1) := createExport dec_create fmt_rfc3339 l winMin winMax 0 w in
   (winMin < winMax)%Z /\
   exists r ev', collect l zeroWm w = Some (r, ev ++ ev', w1) /\
     forall e, created = Err e -> r = Err e).
Proof.
  intros reach winMin winMax.
  assert (Hb : windowBoundsFor l zeroTime (ex_now w) = (winMin, winMax, (winMin <? winMax)%Z)).
  { unfold windowBoundsFor, IsZero, Before, After, Add, zeroTime. change (0 =? 0)%Z with true. cbv zeta iota.
    assert ((if (ex_now w + - x_window l <? ex_now w + - x_maxBackfill l)%Z then (ex_now w + - x_maxBackfill l)%Z
             else (ex_now w + - x_window l)%Z) = winMin) as -> by (subst winMin reach; zbool; lia).
    assert ((if (ex_now w + - x_settle l <? winMin + x_window l)%Z then (ex_now w + - x_settle l)%Z
             else (winMin + x_window l)%Z) = winMax) as -> by (subst winMax; zbool; lia).
    done. }
  unfold Collect. cbn [wm_Cursor zeroWm]. change (decodeCursor cursor_unjson "") with idleCursor.
  unfold stepPhase. rewrite !decide_False by (cbn; discriminate). unfold stepIdle. cbn [wm_Time zeroWm].
  change (IsZero zeroTime) with true. cbn [negb andb]. rewrite Hb. split.
  - intros Hle. assert ((winMin <? winMax)%Z = false) as -> by (apply Z.ltb_ge; lia). cbn. done.
  - intros Hlt Hw. assert ((winMin <? winMax)%Z = true) as -> by (apply Z.ltb_lt; lia). cbn [negb].
    destruct (createExport _ _ _ _ _ _ _) as [[created ev] w1]. split; [lia|].
    destruct created as [[jobID total]|e]; cbn [app].
    + repeat case_match; simpl; rewrite <-?app_assoc; try (do 2 eexists; split; [reflexivity|done]);
        (do 2 eexists; split; [rewrite <-(app_nil_r ev) at 1; reflexivity|done]).
    + exists (Err e), []. rewrite app_nil_r. split; [done|]. by intros ? [= ->].
Qed.
End bootstrap.

(** ** Concrete settings *)

Module Sim.
Definition dur (s : string) : option Duration := if decide (s = "5m") then Some (5 * Minute)%Z else None.
Definition src : SourceConfig := plain_source "portkey" "" "prod" ∅ [] "" "".
Definition settings (extra : list (string * string)) : LoopConfig :=
  mkLoopConfig true 0 0 0 0 0 "" [] (list_to_map (extra ++ [("workspace_id", "ws"); ("signed_url_allow_hosts", "s3, s4")])).
Definition build (extra : list (string * string)) : option logsExportLoop :=
  newLogsExportLoop dur id src (settings extra) (mkResolved "" "").
Definition legacy : logsExportLoop := default LogsExport.Sim.loop (build []).
Definition short : logsExportLoop := default LogsExport.Sim.loop (build [("window", "5m")]).
Definition collect (l : logsExportLoop) (now : Time) :=
  Collect (W := LogsExport.Sim.World) LogsExport.Sim.json_of LogsExport.Sim.cursor_of LogsExport.Sim.create_of Some Some FormatInt ParseInt
    FormatInt id LogsExport.Sim.host id LogsExport.Sim.no_span PortkeyDownload.Sim.any_url PortkeyDownload.Sim.decode PortkeyDownload.Sim.fmt
    PortkeyDownload.Sim.no_time PortkeyDownload.Sim.no_time id 4 id l zeroWm (LogsExport.Sim.mkWorld now PortkeyDownload.Sim.Full "").
Definition strip_with (l : logsExportLoop) (raw : gmap string json) : LogRecord :=
  strip PortkeyStrip.Sim.fmt PortkeyStrip.Sim.no_time PortkeyStrip.Sim.no_time (dl_policy (x_download l)) raw 7.

Lemma leaky_else k : k <> "prompt" -> PortkeyStrip.Sim.raw !! k = PortkeyStrip.Sim.leaky !! k.
Proof. intros Hk. symmetry. apply lookup_insert_ne. congruence. Qed.
End Sim.

(** What is refused: an export without a host list or with a content field. *)
Example settings_refused :
  newLogsExportLoop Sim.dur id Sim.src (mkLoopConfig true 0 0 0 0 0 "" [] {[ "workspace_id" := "ws" ]}) (mkResolved "" "") = None /\
  Sim.build [("requested_data", "id,prompt")] = None /\
  Sim.build [("trace_id_field", "trace_id"); ("metadata_trace_id_field", "corr")] = None /\
  Sim.build [("page_size", "50001")] = None.
Proof. split_and!; vm_compute; reflexivity. Qed.

(** The floor of the guard covers prefixes, the check of the settings does
    not: a flattened content field can be opted in, and the guard then drops
    every record that carries it. *)
Example prefix_opt_in_drops :
  exists l, Sim.build [("extra_record_fields", "gen_ai.prompt.0.content")] = Some l /\
  let lr := Sim.strip_with l {[ "id" := JStr "r1"; "gen_ai.prompt.0.content" := JStr "x" ]} in
  l_RecordAttributes lr !! "gen_ai.prompt.0.content" = Some "x" /\
  forall g loop, (okLog g loop lr).1.1 = false.
Proof.
  eexists. split; [vm_compute; reflexivity|]. cbv zeta. split; [vm_compute; reflexivity|].
  intros g loop. set (lr := Sim.strip_with _ _). destruct (okLog g loop lr) as [[b g'] ev] eqn:Hok. destruct b; [|done].
  apply okLog_spec in Hok as (_ & _ & Hok). destruct (Hok eq_refl) as (_ & Hr & _).
  destruct (Hr "gen_ai.prompt.0.content") as [_ Hf]; [by vm_compute; eexists|]. by vm_compute in Hf.
Qed.

Lemma logs_content_free_witness :
  Sim.build [] = Some Sim.legacy /\
  Sim.strip_with Sim.legacy PortkeyStrip.Sim.raw = Sim.strip_with Sim.legacy PortkeyStrip.Sim.leaky /\
  x_signedURLAllowHosts Sim.legacy = ["s3"; "s4"].
Proof.
  assert (Sim.build [] = Some Sim.legacy) as Hl by (vm_compute; reflexivity). split; [exact Hl|]. split; [|vm_compute; reflexivity].
  destruct (logs_content_free Sim.dur id PortkeyStrip.Sim.fmt PortkeyStrip.Sim.no_time PortkeyStrip.Sim.no_time _ _ _ _
    PortkeyStrip.Sim.raw PortkeyStrip.Sim.leaky 7 Hl) as (_ & _ & _ & Hs & _).
  apply Hs. intros k Hk. assert (k <> "prompt").
  { intros ->. apply Hk. apply (bool_decide_unpack _). vm_compute. exact I. }
  unfold meta_field. rewrite <-!Sim.leaky_else by done. split; reflexivity.
Defined.

Lemma logs_bootstrap_witness :
  (Sim.build [("window", "5m")] = Some Sim.short /\ 
   Sim.collect Sim.short (48 * Hour) =
     Some (Ok (batch id id Sim.short [] zeroWm), [], LogsExport.Sim.mkWorld (48 * Hour) PortkeyDownload.Sim.Full "")) /\
  exists r ev w, Sim.collect Sim.legacy (48 * Hour) = Some (r, ev, w).
Proof.
  split.
  - split; [vm_compute; reflexivity|].
    apply (proj1 (logs_bootstrap LogsExport.Sim.json_of LogsExport.Sim.cursor_of LogsExport.Sim.create_of Some Some FormatInt ParseInt
      FormatInt id LogsExport.Sim.host id LogsExport.Sim.no_span PortkeyDownload.Sim.any_url PortkeyDownload.Sim.decode PortkeyDownload.Sim.fmt
      PortkeyDownload.Sim.no_time PortkeyDownload.Sim.no_time id 4 id Sim.short (LogsExport.Sim.mkWorld (48 * Hour) PortkeyDownload.Sim.Full ""))).
    apply (bool_decide_unpack _). vm_compute. exact I.
  - pose proof (proj2 (logs_bootstrap LogsExport.Sim.json_of LogsExport.Sim.cursor_of LogsExport.Sim.create_of Some Some FormatInt ParseInt
      FormatInt id LogsExport.Sim.host id LogsExport.Sim.no_span PortkeyDownload.Sim.any_url PortkeyDownload.Sim.decode PortkeyDownload.Sim.fmt
      PortkeyDownload.Sim.no_time PortkeyDownload.Sim.no_time id 4 id Sim.legacy (LogsExport.Sim.mkWorld (48 * Hour) PortkeyDownload.Sim.Full ""))
      ltac:(apply (bool_decide_unpack _); vm_compute; exact I) ltac:(vm_compute; reflexivity)) as Hb.
    destruct (createExport _ _ _ _ _ _ _) as [[c ev] w1]. destruct Hb as (_ & r & ev' & Hc & _).
    exists r, (ev ++ ev'), w1. exact Hc.
Defined.
