(* ===== verification/PortkeyScope.v ===== *)
(** * The Portkey analytics API and the workspace-scope assertion (internal/source/portkey/scope.go)

    What the metric loops ask of the API, the hooks they call, and the
    three-state probe that refuses a key whose analytics scope is not exactly
    the expected workspace. *)

From S2P Require Import Prelude Model Source PortkeyStrip PortkeyUseCase.

(** A GET through the hardened client: [None] is a transport error, otherwise
    the status and the body. *)
Class PortkeyAPI (W : Type) := {
  pk_Get : string -> W -> option (Z * string) * W;
  pk_now : W -> Time
}.

(** The hooks of a metric loop. *)
Inductive PkEvent :=
| AuthError
| Capability (what : string) (state : string)
| BucketRevised (age : Duration)
| Incomplete (reason : string).

(** Why [Collect] fails, without the texts. *)
Inductive PkErr :=
| PkBadURL | PkTransport | PkDecode | PkStatus (code : Z)
| PkScopeMismatch (seen : string) | PkScopeProbe (e : PkErr)
| PkQuota | PkAllMissing | PkAllFailed | PkBadTimestamp | PkGranularity (graph : string).

(** groups_derive.go: the fields of the envelope the code reads; a row keeps
    its raw fields. *)
Record groupsResponse := mkGroups { gs_IsQuotaExceeded : bool; gs_Data : list (gmap string json) }.

(** [json.Unmarshal] into a fresh string, the error dropped. *)
Definition as_string (v : json) : string := match v with JStr s => s | _ => "" end.

Definition CapabilityTransient404 : string := "transient-404".
Definition CapabilityPermissionDenied : string := "permission-denied".

Inductive workspaceScopeResult := scopeMatched | scopeMismatch | scopeUndeterminable.

Definition scopeProbeWindow : Duration := (7 * Day)%Z.

Section scope.
Context {W : Type} `{PortkeyAPI W}.
(** [time.Format(time.RFC3339)]; [url.Parse], [url.Values.Encode] and
    [URL.String] of a base and its query; the decoder of the envelope. *)
Context (fmt_rfc3339 : Time -> string) (url_with : string -> list (string * string) -> option string).
Context (dec_groups : string -> option groupsResponse).

(** A GET whose 200 is decoded through the size cap. *)
Definition get_groups (url : string) (w : W) : result PkErr (Z * groupsResponse) * W :=
  let '(resp, w) := pk_Get url w in
  (match resp with
   | None => Err PkTransport
   | Some (code, text) =>
       if decide (code = 200%Z) then
         match dec_groups (LimitReader maxResponseBytes text) with Some r => Ok (code, r) | None => Err PkDecode end
       else Ok (code, mkGroups false [])
   end, w).

Definition seen_workspaces (r : groupsResponse) : gset string :=
  list_to_set (filter (fun ws => ws <> "") (map (fun row => default "" (as_string <$> row !! "workspace")) (gs_Data r))).

(** The workspaces seen, in order. *)
Definition scope_detail (seen : gset string) : string := join_with comma (sort_strings (elements seen)).

Definition checkWorkspaceScope (baseURL expected : string) (now : Time) (w : W)
    : result PkErr (workspaceScopeResult * string) * list PkEvent * W :=
  match url_with (baseURL +:+ "/analytics/groups/workspace")
          [("time_of_generation_min", fmt_rfc3339 (Add now (- scopeProbeWindow))); ("time_of_generation_max", fmt_rfc3339 now);
           ("page_size", "100"); ("current_page", "0")] with
  | None => (Err PkBadURL, [], w)
  | Some url =>
      let '(r, w) := get_groups url w in
      match r with
      | Err e => (Err e, [], w)
      | Ok (code, gr) =>
          if decide (code = 200%Z) then
            let seen := seen_workspaces gr in
            if decide (seen = ∅) then (Ok (scopeUndeterminable, "no workspace rows in the probe window"), [], w)
            else if decide (size seen = 1 /\ expected ∈ seen) then (Ok (scopeMatched, expected), [], w)
            else (Ok (scopeMismatch, scope_detail seen), [], w)
          else (Err (PkStatus code), if IsAuthStatus code then [AuthError] else [], w)
      end
  end.

(** Whether the loop may emit, and whether the answer may be kept. *)
Definition verifyScopeForCollect (baseURL expected : string) (now : Time) (w : W) : result PkErr bool * list PkEvent * W :=
  match checkWorkspaceScope baseURL expected now w with
  | (Err e, ev, w) => (Err (PkScopeProbe e), ev, w)
  | (Ok (scopeMatched, _), ev, w) => (Ok true, ev, w)
  | (Ok (scopeUndeterminable, _), ev, w) => (Ok false, ev, w)
  | (Ok (scopeMismatch, detail), ev, w) =>
      (Err (PkScopeMismatch detail), ev ++ [Capability "workspace_scope" CapabilityPermissionDenied], w)
  end.

(** The guard at the top of a [Collect]: [Ok] with the cached answer, or the
    error that refuses to emit. *)
Definition scope_gate (baseURL expected : string) (scopeVerified : bool) (now : Time) (w : W)
    : result PkErr bool * list PkEvent * W :=
  if bool_decide (expected <> "") && negb scopeVerified then verifyScopeForCollect baseURL expected now w
  else (Ok scopeVerified, [], w).

(** What the workspaces of an answer say of the key. *)
Lemma seen_workspaces_spec r ws :
  ws ∈ seen_workspaces r <-> ws <> "" /\ exists row, row ∈ gs_Data r /\ row !! "workspace" = Some (JStr ws).
Proof.
  unfold seen_workspaces. rewrite elem_of_list_to_set, list_elem_of_filter, list_elem_of_fmap. split.
  - intros (Hne & row & -> & Hin). split; [done|]. exists row. split; [done|].
    destruct (row !! "workspace") as [[]|]; done.
  - intros (Hne & row & Hin & Hw). split; [done|]. exists row. by rewrite Hw.
Qed.

(** The gate opens only for a key whose observed analytics scope is the
    expected workspace alone, or while nothing was observed. *)
Lemma scope_gate_ok baseURL expected now w v ev w' :
  scope_gate baseURL expected false now w = (Ok v, ev, w') -> expected <> "" ->
  exists url gr, get_groups url w = (Ok (200%Z, gr), w') /\
    (v = true /\ seen_workspaces gr = {[expected]} \/ v = false /\ seen_workspaces gr = ∅).
Proof.
  unfold scope_gate, verifyScopeForCollect, checkWorkspaceScope. intros Hg Hne.
  rewrite bool_decide_eq_true_2 in Hg by done. cbn [negb andb] in Hg.
  destruct (url_with _ _) as [url|]; [|done]. destruct (get_groups url w) as [[[code gr]|e] w1] eqn:Hget; [|done].
  destruct (decide (code = 200%Z)) as [->|]; [|done].
  destruct (decide (seen_workspaces gr = ∅)) as [He|He].
  { injection Hg as <- <- <-. eauto 10. }
  destruct (decide _) as [[H1 H2]|]; [|done]. injection Hg as <- <- <-. exists url, gr. split; [done|]. left. split; [done|].
  apply size_1_elem_of in H1 as [x Hx%leibniz_equiv]. rewrite Hx in H2 |- *. by apply elem_of_singleton in H2 as ->.
Qed.
End scope.
