(* ===== verification/PortkeyDerive.v ===== *)
(** * Deriving the analytics gauges (internal/source/portkey/derive.go, revision.go)

    The pure derivation of settled, forward-only gauges from the graph answers,
    and the bounded history that detects late revisions.  [time.Parse] is a
    parameter. *)

From S2P Require Import Prelude Model Source PortkeyStrip PortkeyUseCase PortkeyScope.

(** ** The derivation (derive.go) *)

Record dataPoint := mkPoint {
  dp_Timestamp : string;
  dp_Total : spec_float;
  dp_TotalRequestUnits : spec_float;
  dp_TotalResponseUnits : spec_float;
  dp_Avg : spec_float;
  dp_P50 : spec_float;
  dp_P90 : spec_float;
  dp_P99 : spec_float
}.

(** [Object] is decoded and never read. *)
Record graphResponse := mkGraph { gr_DataPoints : list dataPoint; gr_IsQuotaExceeded : bool }.

Definition metricSuffix : gmap string string :=
  list_to_map [("requests", "requests"); ("cost", "cost_usd"); ("tokens", "tokens"); ("latency", "latency_seconds");
               ("errors", "errors"); ("users", "users")].

Definition latencyStats : list string := ["p50"; "p90"; "p99"; "avg"].

Definition tokenTypes : list (string * (dataPoint -> spec_float)) :=
  [("total", dp_Total); ("input", dp_TotalRequestUnits); ("output", dp_TotalResponseUnits)].

Definition msPerSecond : spec_float := f64_of_Z 1000.

Definition quantile (dp : dataPoint) (q : string) : spec_float :=
  if decide (q = "p50") then dp_P50 dp
  else if decide (q = "p90") then dp_P90 dp
  else if decide (q = "p99") then dp_P99 dp
  else if decide (q = "avg") then dp_Avg dp
  else S754_zero false.

Definition nameFor (prefix graph : string) : string := prefix +:+ "_" +:+ default "" (metricSuffix !! graph).

Definition gauge (name : string) (labels : gmap string string) (v : spec_float) (ts : Time) : Sample :=
  mkSample name Gauge TempUnset false "" labels v ts.

(** portkey.go: one-minute buckets. *)
Definition granularity : Duration := Minute.

Section derivation.
(** [time.Parse(time.RFC3339, _)]. *)
Context (parse_rfc3339 : string -> option Time).

(** The samples of one bucket: one per latency statistic, one per token type,
    else one. *)
Definition point_samples (prefix g : string) (bend : Time) (dp : dataPoint) : list Sample :=
  if decide (g = "latency") then
    map (fun q => gauge (nameFor prefix g) {[ "quantile" := q ]} (f64_div (quantile dp q) msPerSecond) bend) latencyStats
  else if decide (g = "tokens") then
    map (fun tt => gauge (nameFor prefix g) {[ "token_type" := tt.1 ]} (tt.2 dp) bend) tokenTypes
  else [gauge (nameFor prefix g) ∅ (dp_Total dp) bend].

Definition parse_point (dp : dataPoint) : option (Time * dataPoint) :=
  t ← parse_rfc3339 (dp_Timestamp dp); Some (t, dp).

(** Consecutive steps are positive multiples of the granularity. *)
Fixpoint granular (gran : Duration) (ts : list Time) : bool :=
  match ts with
  | t :: (u :: _) as ts' =>
      let step := Sub u t in
      negb ((step <=? 0)%Z || negb (Z.rem step gran =? 0)%Z) && granular gran ts'
  | _ => true
  end.

(** [sort.Slice] is not stable, but points of equal times are refused. *)
Definition by_time (p q : Time * dataPoint) : bool := Before p.1 q.1.
Definition sort_points (pts : list (Time * dataPoint)) : list (Time * dataPoint) := stable_sort by_time pts.

Definition bucket_end (gran : Duration) (startSemantics : bool) (t : Time) : Time :=
  if startSemantics then Add t gran else t.

(** Forward-only and settled. *)
Definition emits (since cutoff : Time) (bend : Time) : bool := After bend since && negb (After bend cutoff).

Definition derive_graph (prefix : string) (since cutoff : Time) (gran : Duration) (startSemantics : bool) (g : string)
    (r : graphResponse) : result PkErr (list Sample) :=
  match mapM parse_point (gr_DataPoints r) with
  | None => Err PkBadTimestamp
  | Some pts =>
      let pts := sort_points pts in
      if granular gran pts.*1 then
        Ok (concat (map (fun p => let bend := bucket_end gran startSemantics p.1 in
                                  if emits since cutoff bend then point_samples prefix g bend p.2 else []) pts))
      else Err (PkGranularity g)
  end.

Fixpoint derive_graphs (prefix : string) (since cutoff : Time) (gran : Duration) (startSemantics : bool)
    (resp : list (string * graphResponse)) : result PkErr (list Sample) :=
  match resp with
  | [] => Ok []
  | (g, r) :: resp =>
      let? out := derive_graph prefix since cutoff gran startSemantics g r in
      let? rest := derive_graphs prefix since cutoff gran startSemantics resp in
      Ok (out ++ rest)
  end.

(** The responses are visited in the order of their graph names. *)
Definition ordered_graphs (resp : gmap string graphResponse) : list (string * graphResponse) :=
  omap (fun g => r ← resp !! g; Some (g, r)) (sorted_keys resp).

Definition derive (resp : gmap string graphResponse) (prefix : string) (since now : Time) (settle gran : Duration)
    (startSemantics : bool) : result PkErr (list Sample) :=
  derive_graphs prefix since (Add now (- settle)) gran startSemantics (ordered_graphs resp).

(** *** What the derivation emits *)

(** The identity of a point: the series and the instant. *)
Definition series_point (s : Sample) : string * gmap string string * Time := (s_Name s, s_Labels s, s_Timestamp s).

Definition point_times (pts : list (Time * dataPoint)) : list Time := pts.*1.

Lemma granular_cons gran t u ts :
  granular gran (t :: u :: ts) = negb ((Sub u t <=? 0)%Z || negb (Z.rem (Sub u t) gran =? 0)%Z) && granular gran (u :: ts).
Proof. reflexivity. Qed.

Lemma granular_increasing gran ts : granular gran ts = true -> StronglySorted Z.lt ts.
Proof.
  intros Hg. apply Sorted_StronglySorted; [intros x y z; lia|].
  induction ts as [|t ts IH]; [constructor|]. destruct ts as [|u ts]; [by repeat constructor|].
  rewrite granular_cons in Hg. apply andb_prop in Hg as [Hs Hg]. constructor; [by apply IH|]. constructor.
  apply negb_true_iff, orb_false_iff in Hs as [Hs _]. apply Z.leb_gt in Hs. by apply Sub_sign.
Qed.

Lemma parse_points dps pts :
  mapM parse_point dps = Some pts ->
  forall t dp, (t, dp) ∈ pts <-> dp ∈ dps /\ parse_rfc3339 (dp_Timestamp dp) = Some t.
Proof.
  intros Hm%mapM_Some. induction Hm as [|dp' [t' dp''] dps pts Hp Hm IH]; intros t dp.
  - split; [by intros ?%not_elem_of_nil|by intros [?%not_elem_of_nil _]].
  - unfold parse_point in Hp. destruct (parse_rfc3339 (dp_Timestamp dp')) as [u|] eqn:Hu; [|done]. injection Hp as <- <-.
    rewrite !elem_of_cons, IH. naive_solver.
Qed.

Lemma sort_points_elem pts x : x ∈ sort_points pts <-> x ∈ pts.
Proof. unfold sort_points. by rewrite (stable_sort_perm by_time pts). Qed.

Lemma point_samples_ts prefix g bend dp s : s ∈ point_samples prefix g bend dp -> s_Timestamp s = bend /\ s_Name s = nameFor prefix g.
Proof.
  unfold point_samples. intros Hs. repeat case_decide.
  - apply list_elem_of_fmap in Hs as (q & -> & _). done.
  - apply list_elem_of_fmap in Hs as (q & -> & _). done.
  - by apply list_elem_of_singleton in Hs as ->.
Qed.

Lemma emits_spec since cutoff bend : emits since cutoff bend = true <-> (since < bend <= cutoff)%Z.
Proof. unfold emits, After. rewrite andb_true_iff, negb_true_iff, Z.ltb_lt, Z.ltb_ge. lia. Qed.

(** The samples of one bucket that fall in the window. *)
Definition bucket_samples (prefix : string) (since cutoff : Time) (gran : Duration) (startSemantics : bool) (g : string)
    (p : Time * dataPoint) : list Sample :=
  let bend := bucket_end gran startSemantics p.1 in if emits since cutoff bend then point_samples prefix g bend p.2 else [].

Lemma bucket_samples_elem prefix since cutoff gran ss g p s :
  s ∈ bucket_samples prefix since cutoff gran ss g p <->
  (since < bucket_end gran ss p.1 <= cutoff)%Z /\ s ∈ point_samples prefix g (bucket_end gran ss p.1) p.2.
Proof.
  unfold bucket_samples. cbn zeta. rewrite <-emits_spec. destruct (emits _ _ _); [tauto|].
  split; [by intros ?%not_elem_of_nil|by intros [? _]].
Qed.

Lemma derive_graph_elem prefix since cutoff gran ss g r out :
  derive_graph prefix since cutoff gran ss g r = Ok out -> forall s,
  s ∈ out <-> exists dp t, dp ∈ gr_DataPoints r /\ parse_rfc3339 (dp_Timestamp dp) = Some t /\
    (since < bucket_end gran ss t <= cutoff)%Z /\ s ∈ point_samples prefix g (bucket_end gran ss t) dp.
Proof.
  unfold derive_graph. destruct (mapM _ _) as [pts|] eqn:Hm; [|done]. destruct (granular _ _); [|done].
  intros [= <-] s. match goal with |- _ <-> ?R => change (s ∈ concat (map (bucket_samples prefix since cutoff gran ss g) (sort_points pts)) <-> R) end.
  rewrite elem_concat. setoid_rewrite list_elem_of_fmap. split.
  - intros (l & Hs & [t dp] & -> & Hp). apply bucket_samples_elem in Hs as [Hb Hs].
    apply sort_points_elem, (parse_points _ _ Hm) in Hp as [? ?]. by exists dp, t.
  - intros (dp & t & Hdp & Ht & Hb & Hs). exists (bucket_samples prefix since cutoff gran ss g (t, dp)).
    split; [by apply bucket_samples_elem|]. exists (t, dp). split; [done|]. by apply sort_points_elem, (parse_points _ _ Hm).
Qed.

Lemma singleton_label_inj (k : string) (name : string) (ts : Time) :
  Inj (=) (=) (fun v => (name, ({[ k := v ]} : gmap string string), ts)).
Proof.
  intros x y Hxy. apply (f_equal (fun t => t.1.2 !! k)) in Hxy. cbv beta in Hxy.
  cbn [fst snd] in Hxy. rewrite !lookup_singleton_eq in Hxy. by injection Hxy.
Qed.

Lemma point_samples_nodup prefix g bend dp : NoDup (map series_point (point_samples prefix g bend dp)).
Proof.
  unfold point_samples. repeat case_decide.
  - assert (NoDup (map (fun q => (nameFor prefix g, ({["quantile" := q]} : gmap string string), bend)) latencyStats)) as Hn;
      [|by rewrite map_map]. apply NoDup_fmap; [|apply (bool_decide_unpack _); vm_compute; exact I].
    apply singleton_label_inj.
  - assert (NoDup (map (fun q => (nameFor prefix g, ({["token_type" := q]} : gmap string string), bend)) (map fst tokenTypes))) as Hn;
      [|by rewrite !map_map in *]. apply NoDup_fmap; [|apply (bool_decide_unpack _); vm_compute; exact I].
    apply singleton_label_inj.
  - apply NoDup_singleton.
Qed.

Lemma derive_graph_nodup prefix since cutoff gran ss g r out :
  derive_graph prefix since cutoff gran ss g r = Ok out -> NoDup (map series_point out).
Proof.
  unfold derive_graph. destruct (mapM _ _) as [pts|]; [|done]. destruct (granular _ _) eqn:Hg; [|done]. intros [= <-].
  apply granular_increasing in Hg. set (pts' := sort_points pts) in *.
  apply (NoDup_concat_tagged (bucket_samples prefix since cutoff gran ss g) series_point
    (fun p => bucket_end gran ss p.1) snd).
  - rewrite <-(map_map fst (bucket_end gran ss)). apply NoDup_fmap.
    + intros x y. unfold bucket_end, Add. destruct ss; lia.
    + apply (StronglySorted_NoDup _ _ Z.lt_irrefl Hg).
  - intros x s Hs. apply bucket_samples_elem in Hs as [_ Hs]. unfold series_point. cbn [snd]. by apply point_samples_ts in Hs as [-> _].
  - intros x. unfold bucket_samples. cbn zeta. destruct (emits _ _ _); [apply point_samples_nodup|constructor].
Qed.

Definition known (g : string) : Prop := is_Some (metricSuffix !! g).

Lemma nameFor_inj prefix g g' : known g -> known g' -> nameFor prefix g = nameFor prefix g' -> g = g'.
Proof.
  intros [x Hx] [y Hy]. unfold nameFor. rewrite Hx, Hy. cbn [default from_option].
  intros Heq%(inj (String.append prefix))%(inj (String.append "_")). unfold id in Heq. subst y.
  assert (NoDup (map snd (map_to_list metricSuffix))) as Hnd by (apply (bool_decide_unpack _); vm_compute; exact I).
  assert ((g, x) = (g', x)) as Hgg; [|by injection Hgg].
  eapply NoDup_fmap_inj; [exact Hnd|by apply elem_of_map_to_list..|done].
Qed.

Lemma derive_graphs_elem prefix since cutoff gran ss resp out :
  derive_graphs prefix since cutoff gran ss resp = Ok out -> forall s,
  s ∈ out <-> exists g r o, (g, r) ∈ resp /\ derive_graph prefix since cutoff gran ss g r = Ok o /\ s ∈ o.
Proof.
  revert out. induction resp as [|[g r] resp IH]; intros out; simpl.
  { intros [= <-] s. split; [by intros ?%not_elem_of_nil|]. by intros (? & ? & ? & ?%not_elem_of_nil & _). }
  destruct (derive_graph _ _ _ _ _ g r) as [o|] eqn:Hg; [|done].
  destruct (derive_graphs _ _ _ _ _ resp) as [rest|] eqn:Hr; [|done]. intros [= <-] s.
  rewrite elem_of_app, (IH rest eq_refl). split.
  - intros [Hs|(g' & r' & o' & Hin & Ho & Hs)]; [exists g, r, o; split; [left|done]|exists g', r', o'; split; [by right|done]].
  - intros (g' & r' & o' & [[= -> ->]|Hin]%elem_of_cons & Ho & Hs); [left; congruence|right; eauto 10].
Qed.

Lemma derive_graphs_each prefix since cutoff gran ss resp out g r :
  derive_graphs prefix since cutoff gran ss resp = Ok out -> (g, r) ∈ resp ->
  exists o, derive_graph prefix since cutoff gran ss g r = Ok o.
Proof.
  revert out. induction resp as [|[g' r'] resp IH]; intros out; simpl; [by intros _ ?%not_elem_of_nil|].
  destruct (derive_graph _ _ _ _ _ g' r') as [o|] eqn:Hg; [|done].
  destruct (derive_graphs _ _ _ _ _ resp) as [rest|] eqn:Hr; [|done]. intros _ [[= -> ->]|Hin]%elem_of_cons; eauto.
Qed.

Lemma derive_graphs_nodup prefix since cutoff gran ss resp out :
  derive_graphs prefix since cutoff gran ss resp = Ok out -> NoDup (map (fun p => nameFor prefix p.1) resp) ->
  NoDup (map series_point out).
Proof.
  revert out. induction resp as [|[g r] resp IH]; intros out; simpl; [by intros [= <-]; constructor|].
  destruct (derive_graph _ _ _ _ _ g r) as [o|] eqn:Hg; [|done].
  destruct (derive_graphs _ _ _ _ _ resp) as [rest|] eqn:Hr; [|done]. intros [= <-] [Hni Hnd]%NoDup_cons.
  rewrite map_app. apply NoDup_app. split_and!; [by eapply derive_graph_nodup| |by apply IH].
  intros q (s & -> & Hs)%list_elem_of_fmap (s' & Hq & Hs')%list_elem_of_fmap.
  apply (derive_graph_elem _ _ _ _ _ _ _ _ Hg) in Hs as (? & ? & _ & _ & _ & [_ Hn]%point_samples_ts).
  apply (derive_graphs_elem _ _ _ _ _ _ _ Hr) in Hs' as (g' & r' & o' & Hin & Ho & Hs').
  apply (derive_graph_elem _ _ _ _ _ _ _ _ Ho) in Hs' as (? & ? & _ & _ & _ & [_ Hn']%point_samples_ts).
  apply Hni, list_elem_of_fmap. exists (g', r'). split; [|done]. injection Hq as Hq _ _. simpl. congruence.
Qed.

Lemma ordered_graphs_perm resp : ordered_graphs resp ≡ₚ map_to_list resp.
Proof.
  unfold ordered_graphs. rewrite (sorted_keys_perm resp).
  assert (forall l, (forall g r, (g, r) ∈ l -> resp !! g = Some r) -> omap (fun g => r ← resp !! g; Some (g, r)) l.*1 = l) as Hl.
  { induction l as [|[g r] l IH]; intros H; [done|]. cbn. rewrite (H g r) by left. cbn. f_equal. apply IH. intros. apply H. by right. }
  rewrite Hl; [done|]. intros g r. apply elem_of_map_to_list.
Qed.

Lemma derive_elem resp prefix since now settle gran ss out :
  derive resp prefix since now settle gran ss = Ok out -> forall s,
  s ∈ out <-> exists g r dp t, resp !! g = Some r /\ dp ∈ gr_DataPoints r /\ parse_rfc3339 (dp_Timestamp dp) = Some t /\
    (since < bucket_end gran ss t <= now - settle)%Z /\ s ∈ point_samples prefix g (bucket_end gran ss t) dp.
Proof.
  intros Hd s. rewrite (derive_graphs_elem _ _ _ _ _ _ _ Hd). unfold derive, Add in Hd. split.
  - intros (g & r & o & Hin & Ho & Hs). apply (derive_graph_elem _ _ _ _ _ _ _ _ Ho) in Hs as (dp & t & ? & ? & ? & ?).
    exists g, r, dp, t. split; [|done]. by rewrite ordered_graphs_perm, elem_of_map_to_list in Hin.
  - intros (g & r & dp & t & Hr & Hdp & Ht & Hb & Hs). apply elem_of_map_to_list in Hr. rewrite <-ordered_graphs_perm in Hr.
    destruct (derive_graphs_each _ _ _ _ _ _ _ _ _ Hd Hr) as [o Ho]. exists g, r, o. split_and!; [done..|].
    apply (derive_graph_elem _ _ _ _ _ _ _ _ Ho). eauto 10.
Qed.

Lemma derive_nodup resp prefix since now settle gran ss out :
  derive resp prefix since now settle gran ss = Ok out -> (forall g, g ∈ dom resp -> known g) -> NoDup (map series_point out).
Proof.
  intros Hd Hk. apply (derive_graphs_nodup _ _ _ _ _ _ _ Hd).
  rewrite (Permutation_map (fun p => nameFor prefix p.1) (ordered_graphs_perm resp)).
  rewrite <-(map_map fst (nameFor prefix)). apply NoDup_fmap_2_strong; [|apply NoDup_fst_map_to_list].
  intros g g' [[? r] [-> Hin]]%list_elem_of_fmap [[? r'] [-> Hin']]%list_elem_of_fmap. apply nameFor_inj; apply Hk, elem_of_dom.
  - apply elem_of_map_to_list in Hin. eauto.
  - apply elem_of_map_to_list in Hin'. eauto.
Qed.

(** *** When the derivation succeeds *)

(** Every timestamp parses, no two are equal, and they lie on one grid. *)
Definition on_grid (gran : Duration) (ts : list Time) : Prop :=
  NoDup ts /\ forall t u, t ∈ ts -> u ∈ ts -> (gran | u - t)%Z.

Definition regular (gran : Duration) (r : graphResponse) : Prop :=
  exists pts, mapM parse_point (gr_DataPoints r) = Some pts /\ on_grid gran pts.*1.

(** Any two timestamps are less than about 292 years apart. *)
Definition spans (r : graphResponse) : Prop :=
  forall dp dp' t u, dp ∈ gr_DataPoints r -> dp' ∈ gr_DataPoints r ->
  parse_rfc3339 (dp_Timestamp dp) = Some t -> parse_rfc3339 (dp_Timestamp dp') = Some u -> in_int64 (u - t).

Lemma granular_grid gran ts :
  (0 < gran)%Z -> StronglySorted Z.le ts -> (forall t u, t ∈ ts -> u ∈ ts -> in_int64 (u - t)) ->
  granular gran ts = true <-> on_grid gran ts.
Proof.
  intros Hgr Hs Hr. split.
  - intros Hg. split; [exact (StronglySorted_NoDup _ _ Z.lt_irrefl (granular_increasing _ _ Hg))|].
    induction Hs as [|t ts Hs IH Ht]; [by intros ? ? ?%not_elem_of_nil|].
    assert (forall u, u ∈ ts -> (gran | u - t)%Z) as Hd.
    { destruct ts as [|v ts]; [by intros ? ?%not_elem_of_nil|]. rewrite granular_cons in Hg. apply andb_prop in Hg as [Hv Hg].
      apply negb_true_iff, orb_false_iff in Hv as [_ Hv]. apply negb_false_iff, Z.eqb_eq in Hv.
      rewrite Sub_exact in Hv by (apply Hr; [left|right; left]). apply Z.rem_divide in Hv; [|lia].
      intros u Hu. replace (u - t)%Z with ((u - v) + (v - t))%Z by lia. apply Z.divide_add_r; [|done].
      apply IH; [|done|by left|done]. intros x y Hx Hy. apply Hr; by right. }
    assert (granular gran ts = true) as Hg'.
    { destruct ts; [done|]. rewrite granular_cons in Hg. by apply andb_prop in Hg as [_ Hg]. }
    intros x y [->|Hx]%elem_of_cons [->|Hy]%elem_of_cons.
    + rewrite Z.sub_diag. apply Z.divide_0_r.
    + by apply Hd.
    + replace (t - x)%Z with (- (x - t))%Z by lia. by apply Z.divide_opp_r, Hd.
    + apply IH; [|done..]. intros x' y' Hx' Hy'. apply Hr; by right.
  - intros [Hnd Hd]. induction Hs as [|t ts Hs IH Ht]; [done|]. destruct ts as [|v ts]; [done|]. rewrite granular_cons.
    apply NoDup_cons in Hnd as [Hni Hnd]. apply Forall_cons in Ht as [Htv _].
    assert (t <> v) by (intros ->; apply Hni; left).
    rewrite IH; [|by intros x y Hx Hy; apply Hr; right|done|by intros x y Hx Hy; apply Hd; right].
    rewrite andb_true_r, negb_true_iff, orb_false_iff, negb_false_iff, Z.leb_gt, Z.eqb_eq.
    rewrite Sub_exact by (apply Hr; [left|right; left]). split; [lia|]. apply Z.rem_divide; [lia|].
    apply Hd; [left|right; left].
Qed.

Lemma sort_points_sorted pts : StronglySorted Z.le (sort_points pts).*1.
Proof.
  assert (StronglySorted (fun p q : Time * dataPoint => (p.1 <= q.1)%Z) (sort_points pts)) as Hs.
  { apply stable_sort_sorted.
    - intros x y z ? ?. lia.
    - intros x y. unfold by_time, Before. rewrite Z.ltb_lt. lia.
    - intros x y. unfold by_time, Before. rewrite Z.ltb_ge. lia. }
  induction Hs as [|p l _ IH Hp]; [constructor|]. rewrite fmap_cons. constructor; [done|]. by apply Forall_fmap.
Qed.

Lemma derive_graph_regular prefix since cutoff gran ss g r :
  (0 < gran)%Z -> spans r -> is_ok (derive_graph prefix since cutoff gran ss g r) = true <-> regular gran r.
Proof.
  intros Hgr Hsp. unfold derive_graph, regular. destruct (mapM parse_point (gr_DataPoints r)) as [pts|] eqn:Hm;
    [|split; [done|by intros (? & ? & _)]].
  assert ((sort_points pts).*1 ≡ₚ pts.*1) as Hp by apply fmap_Permutation, stable_sort_perm.
  assert (forall t u, t ∈ (sort_points pts).*1 -> u ∈ (sort_points pts).*1 -> in_int64 (u - t)) as Hr.
  { intros t u. rewrite Hp. intros ([t' dp] & -> & Hin)%list_elem_of_fmap ([u' dp'] & -> & Hin')%list_elem_of_fmap.
    apply (parse_points _ _ Hm) in Hin as [Hd Ht], Hin' as [Hd' Ht']. exact (Hsp _ _ _ _ Hd Hd' Ht Ht'). }
  pose proof (granular_grid gran (sort_points pts).*1 Hgr (sort_points_sorted pts) Hr) as Hg.
  assert (forall xs ys, xs ≡ₚ ys -> on_grid gran xs -> on_grid gran ys) as Hgrid.
  { intros xs ys Hxy [H1 H2]. split; [by rewrite <-Hxy|]. intros t u. rewrite <-!Hxy. apply H2. }
  destruct (granular gran (sort_points pts).*1).
  - split; [|done]. intros _. exists pts. split; [done|]. by apply (Hgrid _ _ Hp), Hg.
  - split; [done|]. intros (? & [= <-] & H). symmetry in Hp. by apply (Hgrid _ _ Hp), Hg in H.
Qed.

Lemma derive_graphs_ok prefix since cutoff gran ss resp :
  is_ok (derive_graphs prefix since cutoff gran ss resp) = true <->
  Forall (fun p => is_ok (derive_graph prefix since cutoff gran ss p.1 p.2) = true) resp.
Proof.
  induction resp as [|[g r] resp IH]; simpl; [split; [constructor|done]|]. rewrite Forall_cons, <-IH. simpl.
  destruct (derive_graph _ _ _ _ _ g r); simpl; [|naive_solver]. destruct (derive_graphs _ _ _ _ _ resp); simpl; naive_solver.
Qed.

(** The derivation emits exactly the settled, forward buckets.  It
    succeeds if and only if every graph's timestamps parse, are distinct and
    lie on the granularity's grid, in whatever order the API listed them (an
    omitted bucket is no error).  A sample is then emitted if and only if it
    is one of the samples of a listed bucket whose end lies after the frontier
    and not after [now - settle]; and no series gets two points at one
    instant. *)
Theorem derive_exact resp prefix since now settle gran ss :
  (0 < gran)%Z -> (forall g r, resp !! g = Some r -> spans r) ->
  (is_ok (derive resp prefix since now settle gran ss) = true <-> forall g r, resp !! g = Some r -> regular gran r) /\
  forall out, derive resp prefix since now settle gran ss = Ok out ->
    (forall s, s ∈ out <-> exists g r dp t, resp !! g = Some r /\ dp ∈ gr_DataPoints r /\
       parse_rfc3339 (dp_Timestamp dp) = Some t /\ (since < bucket_end gran ss t <= now - settle)%Z /\
       s ∈ point_samples prefix g (bucket_end gran ss t) dp) /\
    ((forall g, g ∈ dom resp -> known g) -> NoDup (map series_point out)).
Proof.
  intros Hgr Hsp. split; [|intros out Hd; split; [exact (derive_elem _ _ _ _ _ _ _ _ Hd)|exact (derive_nodup _ _ _ _ _ _ _ _ Hd)]].
  unfold derive. rewrite derive_graphs_ok, ordered_graphs_perm, Forall_forall. split.
  - intros H g r Hg. eapply derive_graph_regular; [done|by eapply Hsp|]. apply (H (g, r)). by apply elem_of_map_to_list.
  - intros H [g r] Hin%elem_of_map_to_list. simpl. apply derive_graph_regular; [done|by eapply Hsp|by eapply H].
Qed.

(** ** Revisions (revision.go) *)

Record revisionHistory := mkHistory {
  h_band : Duration;
  h_seen : gmap string spec_float;
  h_when : gmap string Time
}.

Definition newRevisionHistory (band : Duration) : revisionHistory := mkHistory band ∅ ∅.

Definition revisionKey (s : Sample) : string :=
  lp (s_Name s) +:+ lp (s_Unit s) +:+ lp_pairs (sorted_kvs (s_Labels s)) +:+ "@" +:+ FormatInt (UnixNano (s_Timestamp s)).

(** One iteration of the loop of [observe]; [!=] is the comparison of floats. *)
Definition observe_one (h : revisionHistory) (s : Sample) : option Time * revisionHistory :=
  let k := revisionKey s in
  (match h_seen h !! k with
   | Some prev => if SFeqb prev (s_Value s) then None else Some (s_Timestamp s)
   | None => None
   end,
   mkHistory (h_band h) (<[k := s_Value s]> (h_seen h)) (<[k := s_Timestamp s]> (h_when h))).

Fixpoint observe_all (h : revisionHistory) (samples : list Sample) : list Time * revisionHistory :=
  match samples with
  | [] => ([], h)
  | s :: samples =>
      let '(r, h) := observe_one h s in
      let '(revised, h) := observe_all h samples in
      (option_list r ++ revised, h)
  end.

Definition evict (h : revisionHistory) (now : Time) : revisionHistory :=
  let cutoff := Add now (- h_band h) in
  let old k := match h_when h !! k with Some t => Before t cutoff | None => false end in
  mkHistory (h_band h) (filter (fun kv => old kv.1 = false) (h_seen h)) (filter (fun kv => old kv.1 = false) (h_when h)).

Definition observe (h : revisionHistory) (samples : list Sample) (now : Time) : list Time * revisionHistory :=
  let '(revised, h) := observe_all h samples in (revised, evict h now).

(** *** What is remembered and what is reported *)

Definition history_ok (h : revisionHistory) : Prop := dom (h_seen h) = dom (h_when h).

(** What [observe] should report for a sample: a remembered, different value. *)
Definition is_revision (h : revisionHistory) (s : Sample) : option Time :=
  prev ← h_seen h !! revisionKey s; if SFeqb prev (s_Value s) then None else Some (s_Timestamp s).

Definition record_all (h : revisionHistory) (samples : list Sample) : revisionHistory :=
  mkHistory (h_band h)
    (foldl (fun m s => <[revisionKey s := s_Value s]> m) (h_seen h) samples)
    (foldl (fun m s => <[revisionKey s := s_Timestamp s]> m) (h_when h) samples).

Lemma observe_all_spec h samples :
  NoDup (map revisionKey samples) -> observe_all h samples = (omap (is_revision h) samples, record_all h samples).
Proof.
  revert h. induction samples as [|s samples IH]; intros h; [by destruct h|]. intros [Hni Hnd]%NoDup_cons.
  simpl. rewrite IH by done. f_equal.
  assert (omap (is_revision (observe_one h s).2) samples = omap (is_revision h) samples) as Hsame.
  { apply list_omap_ext, Forall2_same_length_lookup. split; [done|]. intros i x y Hx Hy. simplify_eq.
    unfold is_revision. simpl. rewrite lookup_insert_ne; [done|]. intros Heq. apply Hni, list_elem_of_fmap.
    exists x. split; [done|]. by apply list_elem_of_lookup_2 in Hx. }
  cbn in Hsame. rewrite Hsame. unfold is_revision at 2. destruct (h_seen h !! revisionKey s) as [v|]; [|done]. simpl.
  by destruct (SFeqb v (s_Value s)).
Qed.

Lemma record_lookup {A} (f : Sample -> A) samples (m : gmap string A) k :
  NoDup (map revisionKey samples) ->
  foldl (fun m s => <[revisionKey s := f s]> m) m samples !! k =
  match list_find (fun s => revisionKey s = k) samples with Some (_, s) => Some (f s) | None => m !! k end.
Proof.
  revert m. induction samples as [|s samples IH]; intros m; [done|]. intros [Hni Hnd]%NoDup_cons. simpl. rewrite IH by done.
  destruct (decide (revisionKey s = k)) as [<-|Hne].
  - assert (list_find (fun x => revisionKey x = revisionKey s) samples = None) as ->.
    { apply list_find_None, Forall_forall. intros x Hx Hxs. apply Hni. apply list_elem_of_fmap. by exists x. }
    apply lookup_insert_eq.
  - destruct (list_find _ samples) as [[? ?]|]; [done|]. by apply lookup_insert_ne.
Qed.

Lemma revisionKey_inj s s' :
  revisionKey s = revisionKey s' <->
  s_Name s = s_Name s' /\ s_Unit s = s_Unit s' /\ s_Labels s = s_Labels s' /\
  UnixNano (s_Timestamp s) = UnixNano (s_Timestamp s').
Proof.
  unfold revisionKey. split; [|by intros (-> & -> & -> & ->)].
  intros Heq. apply lp_inj in Heq as [-> Heq]. apply lp_inj in Heq as [-> Heq].
  apply (lp_pairs_sep_inj _ _ "@"%char) in Heq as [Hl Ht]; [|done]. split_and!; [done..|by apply sorted_kvs_inj|by apply FormatInt_inj].
Qed.

Definition last_seen (samples : list Sample) (k : string) : option Sample :=
  snd <$> list_find (fun s => revisionKey s = k) samples.

Lemma evict_lookup h now k :
  history_ok h ->
  h_seen (evict h now) !! k = (t ← h_when h !! k; if Before t (now - h_band h)%Z then None else h_seen h !! k) /\
  h_when (evict h now) !! k = (t ← h_when h !! k; if Before t (now - h_band h)%Z then None else Some t).
Proof.
  intros Hok. unfold evict. cbn zeta. simpl. assert (is_Some (h_seen h !! k) <-> is_Some (h_when h !! k)) as Hd.
  { by rewrite <-!elem_of_dom, Hok. }
  split; rewrite map_lookup_filter.
  - destruct (h_when h !! k) as [t|] eqn:Ht; simpl.
    + destruct (h_seen h !! k) as [v|] eqn:Hv; simpl; [|by case_match]. rewrite Ht. unfold Add.
      change (now - h_band h)%Z with (now + - h_band h)%Z. destruct (Before _ _); [by rewrite option_guard_False|by rewrite option_guard_True].
    + destruct (h_seen h !! k) eqn:Hv; [|done]. destruct (proj1 Hd ltac:(eauto)) as [? ?]. congruence.
  - destruct (h_when h !! k) as [t|] eqn:Ht; simpl; [|done]. rewrite Ht. unfold Add.
    change (now - h_band h)%Z with (now + - h_band h)%Z. destruct (Before _ _); [by rewrite option_guard_False|by rewrite option_guard_True].
Qed.

Lemma record_all_ok h samples : history_ok h -> history_ok (record_all h samples).
Proof.
  unfold history_ok, record_all. destruct h as [band seen when]. simpl. revert seen when.
  induction samples as [|s samples IH]; intros seen when Hok; [done|]. simpl. apply IH. by rewrite !dom_insert_L, Hok.
Qed.

Lemma evict_ok h now : history_ok h -> history_ok (evict h now).
Proof.
  intros Hok. unfold history_ok. apply set_eq. intros k. rewrite !elem_of_dom.
  destruct (evict_lookup h now k Hok) as [-> ->]. assert (is_Some (h_seen h !! k) <-> is_Some (h_when h !! k)) as Hd.
  { by rewrite <-!elem_of_dom, Hok. }
  destruct (h_when h !! k) as [t|]; simpl; [|done]. destruct (Before _ _); [done|]. naive_solver.
Qed.

(** A revision is reported exactly when a remembered bucket changes.  For
    a poll that names no bucket twice, [observe] reports, in order, the samples
    whose remembered value differs; afterwards it remembers the poll's values
    and the older ones it had, all without those older than the trailing band,
    so memory is bounded by the band; and the key it remembers them under never
    confuses two buckets. *)
Theorem observe_exact h samples now :
  history_ok h -> NoDup (map revisionKey samples) ->
  let '(revised, h') := observe h samples now in
  revised = omap (is_revision h) samples /\ history_ok h' /\
  (forall k t, h_when h' !! k = Some t -> (now - h_band h <= t)%Z) /\
  (forall k, h_seen h' !! k =
     match last_seen samples k with
     | Some s => if Before (s_Timestamp s) (now - h_band h)%Z then None else Some (s_Value s)
     | None => t ← h_when h !! k; if Before t (now - h_band h)%Z then None else h_seen h !! k
     end) /\
  forall s s', revisionKey s = revisionKey s' <->
    s_Name s = s_Name s' /\ s_Unit s = s_Unit s' /\ s_Labels s = s_Labels s' /\
    UnixNano (s_Timestamp s) = UnixNano (s_Timestamp s').
Proof.
  intros Hok Hnd. unfold observe. rewrite observe_all_spec by done. pose proof (record_all_ok h samples Hok) as Hr.
  split_and!; [done|by apply evict_ok| | |apply revisionKey_inj].
  - intros k t. destruct (evict_lookup _ now k Hr) as [_ ->]. simpl.
    destruct (foldl _ _ _ !! k) as [u|]; simpl; [|done]. unfold Before. zbool; [done|]. intros [= <-]. lia.
  - intros k. destruct (evict_lookup _ now k Hr) as [-> _]. unfold record_all. simpl. rewrite !record_lookup by done.
    unfold last_seen. destruct (list_find _ samples) as [[? ?]|]; done.
Qed.

End derivation.

(** ** Concrete answers *)

Module Sample.
Definition point (m : Z) : Time * dataPoint :=
  let v := f64_of_Z m in let t := (m * Minute)%Z in (t, mkPoint (FormatInt t) v v v v v v v).
(** Out of order, an hour apart, one bucket left out between. *)
Definition answer : gmap string graphResponse :=
  {[ "requests" := mkGraph [(point 64).2; (point 62).2; (point 61).2] false; "latency" := mkGraph [(point 61).2] false ]}.

Definition early (dp : dataPoint) : bool :=
  match ParseInt (dp_Timestamp dp) with Some t => (0 <=? t)%Z && (t <? 100 * Minute)%Z | None => true end.

Lemma all_points (P : dataPoint -> bool) (m : gmap string graphResponse) g r dp :
  forallb (fun kv => forallb P (gr_DataPoints kv.2)) (map_to_list m) = true -> m !! g = Some r -> dp ∈ gr_DataPoints r -> P dp = true.
Proof.
  intros Hf Hr%elem_of_map_to_list Hdp. rewrite forallb_forall in Hf. apply list_elem_of_In in Hr. specialize (Hf _ Hr). simpl in Hf.
  rewrite forallb_forall in Hf. apply Hf. by apply list_elem_of_In.
Qed.

Definition remembered : revisionHistory :=
  snd (observe (newRevisionHistory (20 * Minute)) (point_samples "p" "requests" (62 * Minute) (point 1).2) (70 * Minute)).
End Sample.

Lemma derive_exact_witness :
  (is_ok (derive ParseInt Sample.answer "p" (62 * Minute) (75 * Minute) (10 * Minute) granularity true) = true <->
   forall g r, Sample.answer !! g = Some r -> regular ParseInt granularity r) /\
  match derive ParseInt Sample.answer "p" (62 * Minute) (75 * Minute) (10 * Minute) granularity true with
  | Ok out => map s_Timestamp out = [63 * Minute; 65 * Minute]%Z /\
      ((forall g, g ∈ dom Sample.answer -> known g) -> NoDup (map series_point out))
  | Err _ => False
  end.
Proof.
  assert (forall g r, Sample.answer !! g = Some r -> spans ParseInt r) as Hsp.
  { intros g r Hr dp dp' t u Hdp Hdp' Ht Hu.
    assert (forall dp t, dp ∈ gr_DataPoints r -> ParseInt (dp_Timestamp dp) = Some t -> (0 <= t < 100 * Minute)%Z) as Hb.
    { clear -Hr. intros dp t Hdp Ht. pose proof (Sample.all_points Sample.early Sample.answer g r dp ltac:(vm_compute; reflexivity) Hr Hdp) as He.
      unfold Sample.early in He. rewrite Ht in He. apply andb_prop in He as [?%Z.leb_le ?%Z.ltb_lt]. done. }
    pose proof (Hb _ _ Hdp Ht). pose proof (Hb _ _ Hdp' Hu). unfold in_int64, minInt64, maxInt64, Minute in *. lia. }
  split.
  - exact (proj1 (derive_exact ParseInt Sample.answer "p" (62 * Minute) (75 * Minute) (10 * Minute) granularity true ltac:(reflexivity) Hsp)).
  - destruct (derive ParseInt Sample.answer "p" _ _ _ _ _) as [out|e] eqn:Hd; [|vm_compute in Hd; discriminate]. split.
    + vm_compute in Hd. injection Hd as <-. reflexivity.
    + exact (proj2 (proj2 (derive_exact ParseInt Sample.answer "p" (62 * Minute) (75 * Minute) (10 * Minute) granularity true ltac:(reflexivity) Hsp) out Hd)).
Defined.

Lemma observe_exact_witness :
  let s := point_samples "p" "requests" (62 * Minute) (Sample.point 2).2 in
  (observe Sample.remembered s (70 * Minute)).1 = [62 * Minute]%Z /\
  let '(revised, h') := observe Sample.remembered s (70 * Minute) in
  revised = omap (is_revision Sample.remembered) s /\ history_ok h' /\
  (forall k t, h_when h' !! k = Some t -> (50 * Minute <= t)%Z).
Proof.
  cbv zeta. split; [vm_compute; reflexivity|].
  pose proof (observe_exact Sample.remembered (point_samples "p" "requests" (62 * Minute) (Sample.point 2).2) (70 * Minute)
    ltac:(unfold history_ok; vm_compute; reflexivity) ltac:(apply NoDup_singleton)) as Ho.
  destruct (observe Sample.remembered _ _) as [revised h']. destruct Ho as (H1 & H2 & H3 & _). exact (conj H1 (conj H2 H3)).
Defined.
