(* ===== verification/PortkeyAnalytics.v ===== *)
(** * The analytics loop (internal/source/portkey/portkey.go)

    The time-bucketed loop: its construction, the window arithmetic, the
    fetches of one pass, the detection pass and one [Collect], and what a run
    of ticks delivers.  JSON, URL and time formatting are parameters; the API
    is [PortkeyScope]'s interface. *)

From S2P Require Import Prelude Model Config Source PortkeyStrip PortkeyUseCase PortkeyScope PortkeyDerive.

(** ** The loop (portkey.go) *)

Record analyticsLoop := mkAnalytics {
  a_baseURL : string;
  a_prefix : string;
  a_sourceInstance : string;
  a_graphs : list string;
  a_window : Duration;
  a_settle : Duration;
  a_bootstrap : Duration;
  a_maxBackfill : Duration;
  a_cadence : Duration;
  a_startSemantics : bool;
  a_expectedWorkspace : string;
  a_passes : list resolvedUseCase;
  a_band : Duration
}.

(** What a [Collect] leaves behind. *)
Record analyticsState := mkAState { scopeVerified : bool; histories : gmap string revisionHistory }.

Definition detectionBand (settle : Duration) : Duration :=
  let band := wrap64 (2 * settle) in if (band <? Minute)%Z then Minute else band.

Inductive AnalyticsErr := NoGraphs | UnknownGraph (g : string) | NoWindow | ShortBootstrap | ShortBackfill.

Section collect.
(** [time.Parse(time.RFC3339, _)]. *)
Context (parse_rfc3339 : string -> option Time).
Context {W : Type} `{PortkeyAPI W}.
Context (fmt_rfc3339 : Time -> string) (url_with : string -> list (string * string) -> option string).
Context (dec_groups : string -> option groupsResponse) (dec_graph : string -> option graphResponse).
(** [url.QueryEscape], [http.NewRequest]'s check of a URL, SHA-256 in hex and
    the white space beyond ASCII. *)
Context (QueryEscape : string -> string) (valid_url : string -> bool) (sha256_hex trim_uni : string -> string).

Definition newAnalyticsLoop (cfg : SourceConfig) (lp : LoopConfig) (ucs : list resolvedUseCase)
    : result AnalyticsErr (analyticsLoop * analyticsState) :=
  let prefix := if decide (lc_MetricPrefix lp = "") then "portkey_api" else lc_MetricPrefix lp in
  let graphs := sort_strings (lc_Graphs lp) in
  if decide (graphs = []) then Err NoGraphs
  else match filter (fun g => metricSuffix !! g = None) graphs with
  | g :: _ => Err (UnknownGraph g)
  | [] =>
      let settle := lc_BucketSettle lp in
      if (lc_Window lp <=? 0)%Z then Err NoWindow
      else if (lc_BootstrapLookback lp <=? settle)%Z then Err ShortBootstrap
      else if (lc_MaxBackfill lp <=? settle)%Z then Err ShortBackfill
      else
        let band := detectionBand settle in
        let passes := match ucs with
                      | [] => [mkResolved "" (cleanAPIKeyIDs trim_uni (setting (lc_Settings lp) "api_key_ids"))]
                      | _ => ucs
                      end in
        Ok (mkAnalytics (sc_BaseURL cfg) prefix (sc_SourceInstance cfg) graphs (lc_Window lp) settle (lc_BootstrapLookback lp)
              (lc_MaxBackfill lp) (lc_Cadence lp) true (TrimSpace trim_uni (setting (lc_Settings lp) "expected_workspace"))
              passes band,
            mkAState false (list_to_map (map (fun p => (slug p, newRevisionHistory band)) passes)))
  end.

Definition SeriesNames (l : analyticsLoop) : list string := map (nameFor (a_prefix l)) (a_graphs l).

Definition Key (l : analyticsLoop) : CheckpointKey :=
  mkKey (a_sourceInstance l) "analytics" (Fingerprint sha256_hex trim_uni (SeriesNames l) ("prefix=" +:+ a_prefix l)).

Definition graph_url (l : analyticsLoop) (graph : string) (start until : Time) (apiKeyIDs : string) : string :=
  a_baseURL l +:+ "/analytics/graphs/" +:+ graph +:+ "?time_of_generation_min=" +:+ fmt_rfc3339 start
  +:+ "&time_of_generation_max=" +:+ fmt_rfc3339 until
  +:+ (if decide (apiKeyIDs = "") then "" else "&api_key_ids=" +:+ QueryEscape apiKeyIDs).

Definition fetch (l : analyticsLoop) (graph : string) (start until : Time) (apiKeyIDs : string) (w : W)
    : result PkErr (graphResponse * Z) * W :=
  let url := graph_url l graph start until apiKeyIDs in
  if negb (valid_url url) then (Err PkBadURL, w)
  else
    let '(resp, w) := pk_Get url w in
    (match resp with
     | None => Err PkTransport
     | Some (code, text) =>
         if decide (code = 200%Z) then
           match dec_graph (LimitReader maxResponseBytes text) with Some r => Ok (r, code) | None => Err PkDecode end
         else Ok (mkGraph [] false, code)
     end, w).

(** The fetch loop of [collectPass] over the remaining graphs. *)
Fixpoint fetch_graphs (l : analyticsLoop) (ids : string) (fetchStart until : Time) (graphs : list string)
    (resp : gmap string graphResponse) (w : W) : result PkErr (gmap string graphResponse) * list PkEvent * W :=
  match graphs with
  | [] => (Ok resp, [], w)
  | g :: graphs =>
      let '(r, w) := fetch l g fetchStart until ids w in
      match r with
      | Err e => (Err e, [], w)
      | Ok (r, code) =>
          if decide (code = 404%Z) then
            let '(r, ev, w) := fetch_graphs l ids fetchStart until graphs resp w in
            (r, Capability g CapabilityTransient404 :: ev, w)
          else if decide (code = 200%Z) then
            if gr_IsQuotaExceeded r then (Err PkQuota, [], w)
            else fetch_graphs l ids fetchStart until graphs (<[g := r]> resp) w
          else (Err (PkStatus code), if IsAuthStatus code then [AuthError] else [], w)
      end
  end.

(** The detection pass: it touches the history of the slug, never the batch. *)
Definition detect (l : analyticsLoop) (slug : string) (resp : gmap string graphResponse) (fetchStart until now : Time)
    (hs : gmap string revisionHistory) : list PkEvent * gmap string revisionHistory :=
  match hs !! slug with
  | None => ([], hs)
  | Some h =>
      match derive parse_rfc3339 resp (a_prefix l) fetchStart now (a_settle l) granularity (a_startSemantics l) with
      | Err _ => ([], hs)
      | Ok settled =>
          let '(revised, h) := observe h settled until in
          (map (fun bend => BucketRevised (Sub now bend)) revised, <[slug := h]> hs)
      end
  end.

Definition collectPass (l : analyticsLoop) (p : resolvedUseCase) (start until fetchStart now : Time)
    (hs : gmap string revisionHistory) (w : W)
    : result PkErr (list Sample) * list PkEvent * gmap string revisionHistory * W :=
  let '(r, ev, w) := fetch_graphs l (apiKeyIDsCSV p) fetchStart until (a_graphs l) ∅ w in
  match r with
  | Err e => (Err e, ev, hs, w)
  | Ok resp =>
      if decide (resp = ∅) then (Err PkAllMissing, ev, hs, w)
      else match derive parse_rfc3339 resp (a_prefix l) start now (a_settle l) granularity (a_startSemantics l) with
      | Err e => (Err e, ev, hs, w)
      | Ok samples =>
          let '(ev', hs) := detect l (slug p) resp fetchStart until now hs in
          (Ok (stampUseCase samples (slug p)), ev ++ ev', hs, w)
      end
  end.

Fixpoint collect_passes (l : analyticsLoop) (ps : list resolvedUseCase) (start until fetchStart now : Time)
    (hs : gmap string revisionHistory) (w : W)
    : result PkErr (list Sample) * list PkEvent * gmap string revisionHistory * W :=
  match ps with
  | [] => (Ok [], [], hs, w)
  | p :: ps =>
      let '(r, ev, hs, w) := collectPass l p start until fetchStart now hs w in
      match r with
      | Err e => (Err e, ev, hs, w)
      | Ok s =>
          let '(r, ev', hs, w) := collect_passes l ps start until fetchStart now hs w in
          (let? rest := r in Ok (s ++ rest), ev ++ ev', hs, w)
      end
  end.

Definition maxRange : Duration := (55 * Minute)%Z.

(** [start] and [until] of a [Collect]. *)
Definition collect_window (l : analyticsLoop) (sinceTime now : Time) : Time * Time :=
  let start := if IsZero sinceTime then Add now (- a_bootstrap l) else sinceTime in
  let floor := Add now (- a_maxBackfill l) in
  let start := if Before start floor then floor else start in
  let until := Add now (- a_settle l) in
  let until := if (a_window l <? Sub until start)%Z then Add start (a_window l) else until in
  let until := if (maxRange <? Sub until start)%Z then Add start maxRange else until in
  (start, until).

(** The lower bound of the fetch, widened for the detection pass. *)
Definition fetch_start (l : analyticsLoop) (start until now : Time) : Time :=
  if (0 <? a_band l)%Z then
    let fs := Add start (- a_band l) in
    let floor := Add now (- a_maxBackfill l) in
    let fs := if Before fs floor then floor else fs in
    let minFetch := Add until (- maxRange) in
    if Before fs minFetch then minFetch else fs
  else start.

Definition Collect (l : analyticsLoop) (since : Watermark) (st : analyticsState) (w : W)
    : result PkErr Batch * list PkEvent * analyticsState * W :=
  let now := pk_now w in
  let '(gate, ev, w) := scope_gate fmt_rfc3339 url_with dec_groups (a_baseURL l) (a_expectedWorkspace l) (scopeVerified st) now w in
  match gate with
  | Err e => (Err e, ev, st, w)
  | Ok verified =>
      let '(start, until) := collect_window l (wm_Time since) now in
      if negb (After until start) then (Ok (mkBatch (Key l) [] [] since), ev, mkAState verified (histories st), w)
      else
        let fetchStart := fetch_start l start until now in
        let '(r, ev', hs, w) := collect_passes l (a_passes l) start until fetchStart now (histories st) w in
        (let? all := r in Ok (mkBatch (Key l) all [] (mkWm until (wm_Cursor since) (wm_Epoch since))),
         ev ++ ev', mkAState verified hs, w)
  end.

(** *** The loops that are built *)

Record accepted_loop (l : analyticsLoop) : Prop := {
  al_window : (0 < a_window l)%Z;
  al_bootstrap : (a_settle l < a_bootstrap l)%Z;
  al_backfill : (a_settle l < a_maxBackfill l)%Z;
  al_graphs : a_graphs l <> [] /\ forall g, g ∈ a_graphs l -> known g;
  al_start : a_startSemantics l = true;
  al_band : a_band l = detectionBand (a_settle l)
}.

Lemma newAnalyticsLoop_ok cfg lp ucs l st :
  newAnalyticsLoop cfg lp ucs = Ok (l, st) ->
  accepted_loop l /\
  a_passes l = match ucs with
               | [] => [mkResolved "" (cleanAPIKeyIDs trim_uni (setting (lc_Settings lp) "api_key_ids"))] | _ => ucs end.
Proof.
  unfold newAnalyticsLoop. cbn zeta. destruct (decide (sort_strings (lc_Graphs lp) = [])) as [|Hne]; [done|].
  destruct (filter _ _) as [|g gs] eqn:Hf; [|done]. zbool; [done..|]. intros [= <- <-]. split; [|done].
  constructor; simpl; try done; try lia. split; [done|]. intros g Hg. unfold known. destruct (metricSuffix !! g) eqn:Hm; [eauto|].
  exfalso. assert (g ∈ filter (fun g => metricSuffix !! g = None) (sort_strings (lc_Graphs lp))) as Hin by by apply list_elem_of_filter.
  rewrite Hf in Hin. by apply not_elem_of_nil in Hin.
Qed.

(** *** The window *)

(** Cutting an interval's length at a positive bound.  [Sub] saturates, so a
    bound of the largest duration does not cut. *)
Lemma cut_spec start until d :
  (0 < d)%Z -> (if (d <? Sub until start)%Z then Add start d else until) =
               (if (d <? maxInt64)%Z then Z.min until (start + d) else until).
Proof. intros Hd. unfold Sub, Add, maxInt64, minInt64 in *. cbn zeta. zbool; lia. Qed.

(** The window of a tick: from the frontier, or the bootstrap look-back when
    there is none, but not past the back-fill floor; to the settle cutoff, but
    no further than the configured window and 55 minutes allow. *)
Definition window_ok (l : analyticsLoop) (sinceTime now start until : Time) : Prop :=
  let from := if decide (sinceTime = zeroTime) then (now - a_bootstrap l)%Z else sinceTime in
  let fs := fetch_start l start until now in
  start = Z.max from (now - a_maxBackfill l) /\
  until = Z.min (now - a_settle l) (start + Z.min (a_window l) (55 * Minute)) /\
  (start < until -> fs <= start /\ until - fs <= 55 * Minute /\ now - a_maxBackfill l <= fs)%Z /\
  (sinceTime = zeroTime \/ sinceTime < now - a_settle l -> start < until)%Z.

Lemma collect_window_ok l sinceTime now :
  accepted_loop l -> let '(start, until) := collect_window l sinceTime now in window_ok l sinceTime now start until.
Proof.
  intros [Hw Hb Hm _ _ Hband]. unfold collect_window, window_ok, fetch_start. cbn zeta.
  set (from := if decide (sinceTime = zeroTime) then (now - a_bootstrap l)%Z else sinceTime).
  assert ((if IsZero sinceTime then Add now (- a_bootstrap l) else sinceTime) = from) as ->.
  { subst from. unfold IsZero, Add, zeroTime. case_decide; zbool; lia. }
  assert ((if Before from (Add now (- a_maxBackfill l)) then Add now (- a_maxBackfill l) else from) =
    Z.max from (now - a_maxBackfill l))%Z as -> by (unfold Before, Add; zbool; lia).
  assert (sinceTime = zeroTime \/ sinceTime < now - a_settle l -> from < now - a_settle l)%Z as Hlt.
  { subst from. unfold zeroTime. case_decide; lia. }
  clearbody from. rewrite !cut_spec by (done || reflexivity). change (maxRange <? maxInt64)%Z with true. cbv iota.
  assert (0 < a_band l)%Z as Hb0.
  { rewrite Hband. unfold detectionBand, Minute. cbn zeta. zbool; lia. }
  rewrite (proj2 (Z.ltb_lt _ _) Hb0). unfold Before, Add, maxRange, Minute, maxInt64 in *. split_and!; zbool; lia.
Qed.

(** The bounds that follow. *)
Lemma window_bounds l sinceTime now start until :
  window_ok l sinceTime now start until ->
  (sinceTime <> zeroTime -> sinceTime <= start)%Z /\ (now - a_maxBackfill l <= start)%Z /\ (until <= now - a_settle l)%Z.
Proof. unfold window_ok. cbn zeta. intros (-> & -> & _). case_decide; split_and!; try done; lia. Qed.

(** C36: the analytics window, exactly.  For a loop that [newAnalyticsLoop]
    accepts, the window starts at the frontier, or at the bootstrap look-back
    when there is no frontier yet, or at the back-fill floor when that is later;
    it ends at the settle cutoff [now - settle], or earlier where the
    configured window or 55 minutes are shorter.  What is fetched, widened for
    the detection of revisions, still spans at most 55 minutes and nothing past
    the floor; and with no frontier or one behind the settle cutoff the window
    is never empty, so no configuration stalls it silently. *)
Theorem analytics_window cfg lp ucs l st sinceTime now :
  newAnalyticsLoop cfg lp ucs = Ok (l, st) ->
  let '(start, until) := collect_window l sinceTime now in
  let from := if decide (sinceTime = zeroTime) then (now - a_bootstrap l)%Z else sinceTime in
  let fs := fetch_start l start until now in
  start = Z.max from (now - a_maxBackfill l) /\
  until = Z.min (now - a_settle l) (start + Z.min (a_window l) (55 * Minute)) /\
  (start < until -> fs <= start /\ until - fs <= 55 * Minute /\ now - a_maxBackfill l <= fs)%Z /\
  (sinceTime = zeroTime \/ sinceTime < now - a_settle l -> start < until)%Z.
Proof. intros [Hl _]%newAnalyticsLoop_ok. by apply collect_window_ok. Qed.

(** *** What one pass fetches *)

Context (clock_forward : forall url w, (pk_now w <= pk_now (snd (pk_Get url w)))%Z).

(** [r] is the answer to one of the pass's requests for [g]. *)
Definition answered (l : analyticsLoop) (ids : string) (fs until now : Time) (g : string) (r : graphResponse) : Prop :=
  exists w text w', pk_Get (graph_url l g fs until ids) w = (Some (200%Z, text), w') /\ (now <= pk_now w)%Z /\
    dec_graph (LimitReader maxResponseBytes text) = Some r /\ gr_IsQuotaExceeded r = false.

(** The API answered 404 to a request for [g] that the pass made. *)
Definition gone (l : analyticsLoop) (ids : string) (now : Time) (g : string) : Prop :=
  exists a b w text w', pk_Get (graph_url l g a b ids) w = (Some (404%Z, text), w') /\ (now <= pk_now w)%Z.

Lemma fetch_404 l g fs until ids w r w' now :
  (now <= pk_now w)%Z -> fetch l g fs until ids w = (Ok (r, 404%Z), w') -> gone l ids now g.
Proof.
  intros Hnow. unfold fetch. destruct (negb _); [done|]. destruct (pk_Get _ w) as [[[c text]|] w2] eqn:Hget; [|done].
  destruct (decide (c = 200%Z)); [destruct (dec_graph _); intros; simplify_eq|]. intros [= _ -> _]. by exists fs, until, w, text, w2.
Qed.

Lemma fetch_now l g fs until ids w : (pk_now w <= pk_now (fetch l g fs until ids w).2)%Z.
Proof using clock_forward.
  unfold fetch. destruct (negb _); [simpl; lia|]. pose proof (clock_forward (graph_url l g fs until ids) w) as Hc.
  by destruct (pk_Get _ w) as [resp w'].
Qed.

Lemma fetch_graphs_spec l ids fs until graphs resp now w resp' ev w' :
  (now <= pk_now w)%Z -> fetch_graphs l ids fs until graphs resp w = (Ok resp', ev, w') ->
  (forall g r, resp !! g = Some r -> answered l ids fs until now g r) ->
  (forall g r, resp' !! g = Some r -> answered l ids fs until now g r) /\
  (forall g, g ∈ graphs -> (Capability g CapabilityTransient404 ∈ ev /\ gone l ids now g) \/ is_Some (resp' !! g)) /\
  (forall g, is_Some (resp !! g) -> is_Some (resp' !! g)) /\
  (forall g, is_Some (resp' !! g) -> is_Some (resp !! g) \/ g ∈ graphs) /\
  (pk_now w <= pk_now w')%Z.
Proof using clock_forward.
  revert resp ev w. induction graphs as [|g graphs IH]; intros resp ev w Hnow Hf Hresp.
  { injection Hf as <- <- <-. split_and!; [done|by intros ? ?%not_elem_of_nil|done|by left|lia]. }
  simpl in Hf. pose proof (fetch_now l g fs until ids w) as Hclk.
  destruct (fetch l g fs until ids w) as [[[r code]|e] w1] eqn:Hfe; [|done]. simpl in Hclk.
  destruct (decide (code = 404%Z)) as [->|].
  - destruct (fetch_graphs _ _ _ _ graphs resp w1) as [[r2 ev2] w2] eqn:Hg. injection Hf as -> <- <-.
    destruct (IH resp ev2 w1 ltac:(lia) Hg Hresp) as (H1 & H2 & H3 & H4 & H5). split_and!; [done| |done| |lia].
    + intros g' [->|Hin]%elem_of_cons; [left; split; [left|by eapply fetch_404]|].
      destruct (H2 g' Hin) as [[? ?]|]; [left; split; [by right|done]|by right].
    + intros g' Hs. destruct (H4 g' Hs); [by left|right; by right].
  - destruct (decide (code = 200%Z)) as [->|]; [|done]. destruct (gr_IsQuotaExceeded r) eqn:Hq; [done|].
    destruct (IH _ _ w1 ltac:(lia) Hf) as (H1 & H2 & H3 & H4 & H5).
    + intros g' r' [[<- <-]|[_ Hr]]%lookup_insert_Some; [|by apply Hresp].
      unfold fetch in Hfe. destruct (negb _); [done|]. destruct (pk_Get _ w) as [[[c text]|] w2] eqn:Hget; [|done].
      destruct (decide (c = 200%Z)) as [->|]; [|congruence]. destruct (dec_graph _) as [r0|] eqn:Hd; [|done].
      injection Hfe as -> ->. by exists w, text, w1.
    + split_and!; [done| | | |lia].
      * intros g' [->|Hin]%elem_of_cons; [right; apply H3; by rewrite lookup_insert_eq|by apply H2].
      * intros g' Hs. apply H3. destruct (decide (g = g')) as [->|]; [by rewrite lookup_insert_eq|by rewrite lookup_insert_ne].
      * intros g' Hs. destruct (H4 g' Hs) as [Hi|]; [|right; by right]. destruct (decide (g = g')) as [->|]; [right; left|].
        rewrite lookup_insert_ne in Hi by done. by left.
Qed.

Record pass_ok (l : analyticsLoop) (p : resolvedUseCase) (start until fs now : Time) (ev : list PkEvent) (out : list Sample)
    (resp : gmap string graphResponse) (s0 : list Sample) : Prop := {
  po_answered g r : resp !! g = Some r -> answered l (apiKeyIDsCSV p) fs until now g r;
  po_complete g : g ∈ a_graphs l ->
    (Capability g CapabilityTransient404 ∈ ev /\ gone l (apiKeyIDsCSV p) now g) \/ is_Some (resp !! g);
  po_graphs g : is_Some (resp !! g) -> g ∈ a_graphs l;
  po_derive : derive parse_rfc3339 resp (a_prefix l) start now (a_settle l) granularity (a_startSemantics l) = Ok s0;
  po_out : out = stampUseCase s0 (slug p)
}.

Lemma collect_passes_spec l ps start until fs now hs w all ev hs' w' :
  (now <= pk_now w)%Z -> collect_passes l ps start until fs now hs w = (Ok all, ev, hs', w') ->
  exists outs, all = concat outs /\ Forall2 (fun p out => exists resp s0, pass_ok l p start until fs now ev out resp s0) ps outs.
Proof using clock_forward.
  revert hs w all ev. induction ps as [|p ps IH]; intros hs w all ev Hnow Hc.
  { injection Hc as <- <- _ _. by exists []. }
  simpl in Hc. unfold collectPass in Hc.
  destruct (fetch_graphs l (apiKeyIDsCSV p) fs until (a_graphs l) ∅ w) as [[r1 ev1] w1] eqn:Hf. destruct r1 as [resp|]; [|done].
  destruct (decide (resp = ∅)); [done|]. destruct (derive parse_rfc3339 resp _ _ _ _ _ _) as [s0|] eqn:Hd; [|done].
  destruct (detect _ _ _ _ _ _ _) as [ev2 hs2]. cbn beta iota in Hc.
  destruct (collect_passes l ps start until fs now hs2 w1) as [[[r2 ev3] hs3] w3] eqn:Hr. destruct r2 as [rest|]; [|done].
  injection Hc as <- <- <- <-.
  destruct (fetch_graphs_spec l _ fs until _ ∅ now w resp ev1 w1 Hnow Hf) as (H1 & H2 & _ & H4 & H5).
  { intros g r Hg. by rewrite lookup_empty in Hg. }
  destruct (IH _ w1 _ _ ltac:(lia) Hr) as (outs & -> & HF). exists (stampUseCase s0 (slug p) :: outs). split; [done|].
  constructor.
  - exists resp, s0. constructor; try done.
    + intros g Hg. destruct (H2 g Hg) as [[Hin Hgo]|]; [left|by right]. split; [|done]. rewrite !elem_of_app. auto.
    + intros g Hg. destruct (H4 g Hg) as [[? Hx]|]; [by rewrite lookup_empty in Hx|done].
  - eapply Forall2_impl; [exact HF|]. intros p' out' (resp' & s' & [P1 P2 P3 P4 P5]). exists resp', s'. constructor; try done.
    intros g Hg. destruct (P2 g Hg) as [[? ?]|]; [left|by right]. split; [|done]. rewrite elem_of_app. auto.
Qed.

(** *** One [Collect] *)

Lemma scope_gate_now base expected v now w :
  (pk_now w <= pk_now (scope_gate fmt_rfc3339 url_with dec_groups base expected v now w).2)%Z.
Proof using clock_forward.
  unfold scope_gate, verifyScopeForCollect, checkWorkspaceScope, get_groups. destruct (_ && _); [|simpl; lia].
  destruct (url_with _ _) as [url|]; [|simpl; lia]. pose proof (clock_forward url w) as Hc.
  destruct (pk_Get url w) as [resp w']. simpl in Hc. repeat case_match; simplify_eq; simpl; lia.
Qed.

Lemma Collect_spec l since st w b ev st' w' :
  Collect l since st w = (Ok b, ev, st', w') ->
  let '(start, until) := collect_window l (wm_Time since) (pk_now w) in
  if After until start then
    wm_Time (b_Watermark b) = until /\
    exists outs, b_Samples b = concat outs /\
      Forall2 (fun p out => exists resp s0, pass_ok l p start until (fetch_start l start until (pk_now w)) (pk_now w) ev out resp s0)
        (a_passes l) outs
  else b_Watermark b = since /\ b_Samples b = [].
Proof using clock_forward.
  unfold Collect. cbn zeta. pose proof (scope_gate_now (a_baseURL l) (a_expectedWorkspace l) (scopeVerified st) (pk_now w) w) as Hgn.
  destruct (scope_gate _ _ _ _ _ _ _ w) as [[gate ev0] w1]. destruct gate as [v|]; [|done]. simpl in Hgn.
  destruct (collect_window l (wm_Time since) (pk_now w)) as [start until]. destruct (After until start) eqn:Ha; simpl; [|by intros [= <- _ _ _]].
  destruct (collect_passes _ _ _ _ _ _ _ w1) as [[[r ev1] hs] w2] eqn:Hc. destruct r as [all|]; [|done].
  intros [= <- <- _ _]. split; [done|]. destruct (collect_passes_spec _ _ _ _ _ (pk_now w) _ w1 _ _ _ _ Hgn Hc) as (outs & -> & HF).
  exists outs. split; [done|]. eapply Forall2_impl; [exact HF|]. intros p out (resp & s0 & [P1 P2 P3 P4 P5]). exists resp, s0.
  constructor; try done. intros g Hg. destruct (P2 g Hg) as [[? ?]|]; [left|by right]. split; [|done]. apply elem_of_app. by right.
Qed.

(** *** Ticks *)

(** What a committed tick left: the clock at its start, the saved frontier
    before and after it, and the events it reported. *)
Record commit_point := mkCommit { c_now : Time; c_before : Time; c_after : Time; c_events : list PkEvent }.

(** The saved watermark, the loop's memory, every sample of a committed batch,
    the committed ticks, and the windows that ended before the settle cutoff. *)
Record trail := mkTrail {
  t_since : Watermark;
  t_st : analyticsState;
  t_out : list Sample;
  t_commits : list commit_point;
  t_behind : list (Time * Time)
}.

(** A tick that is committed saves the batch's watermark; a tick whose batch is
    not committed, or that fails, is pulled again. *)
Definition tick (l : analyticsLoop) (s : trail) (x : W * bool) : trail :=
  match Collect l (t_since s) (t_st s) x.1 with
  | (Ok b, ev, st, _) =>
      if x.2 then
        let '(start, until) := collect_window l (wm_Time (t_since s)) (pk_now x.1) in
        mkTrail (b_Watermark b) st (t_out s ++ b_Samples b)
          (t_commits s ++ [mkCommit (pk_now x.1) (wm_Time (t_since s)) (wm_Time (b_Watermark b)) ev])
          (t_behind s ++ if After until start && (until <? pk_now x.1 - a_settle l)%Z then [(start, until)] else [])
      else mkTrail (t_since s) st (t_out s) (t_commits s) (t_behind s)
  | (Err _, _, st, _) => mkTrail (t_since s) st (t_out s) (t_commits s) (t_behind s)
  end.

Definition ticks (l : analyticsLoop) (xs : list (W * bool)) (s : trail) : trail := foldl (tick l) s xs.

Definition start_trail (since : Watermark) (st : analyticsState) : trail := mkTrail since st [] [] [].

(** The samples of one bucket of one pass. *)
Definition pass_samples (l : analyticsLoop) (p : resolvedUseCase) (g : string) (t : Time) (dp : dataPoint) : list Sample :=
  stampUseCase (point_samples (a_prefix l) g (Add t granularity) dp) (slug p).

Lemma stampUseCase_elem samples sl s :
  s ∈ stampUseCase samples sl <-> exists s0, s0 ∈ samples /\ s = if decide (sl = "") then s0 else with_label useCaseLabelKey sl s0.
Proof.
  unfold stampUseCase. case_decide; [naive_solver|]. rewrite list_elem_of_fmap. naive_solver.
Qed.

(** *** What a run delivers *)

(** An answer lists every settled bucket that meets the window, with its final
    value; what it says of younger buckets is free. *)
Definition answers (T : list (Time * dataPoint)) (settle : Duration) (a b now : Time) (r : graphResponse) : Prop :=
  (forall t dp, (t, dp) ∈ T -> (a < t + granularity)%Z -> (t < b)%Z -> (t + granularity + settle <= now)%Z ->
     dp ∈ gr_DataPoints r /\ parse_rfc3339 (dp_Timestamp dp) = Some t) /\
  (forall t dp, dp ∈ gr_DataPoints r -> parse_rfc3339 (dp_Timestamp dp) = Some t -> (t + granularity + settle <= now)%Z ->
     (t, dp) ∈ T).

Section delivery.
Context (l : analyticsLoop).

(** The final buckets of every key filter and graph. *)
Class AnalyticsServer := {
  sv_table : string -> string -> list (Time * dataPoint);
  sv_answers p g a b w text w' r :
    p ∈ a_passes l -> g ∈ a_graphs l ->
    pk_Get (graph_url l g a b (apiKeyIDsCSV p)) w = (Some (200%Z, text), w') ->
    dec_graph (LimitReader maxResponseBytes text) = Some r -> gr_IsQuotaExceeded r = false ->
    answers (sv_table (apiKeyIDsCSV p) g) (a_settle l) a b (pk_now w) r
}.
Context `{AnalyticsServer}.
Context (Hl : accepted_loop l).

(** The three ways the frontier may pass a bucket that was not delivered.  In
    the tick that passed it, the API answered 404 to the pass's request for the
    graph, and the tick reported that; or the bucket was further back than the
    back-fill floor; or it was the first tick, and the bucket was further back
    than the bootstrap look-back. *)
Definition given_up (c : commit_point) (p : resolvedUseCase) (g : string) (bend : Time) : Prop :=
  (c_before c < bend <= c_after c)%Z /\
  (Capability g CapabilityTransient404 ∈ c_events c /\ gone l (apiKeyIDsCSV p) (c_now c) g \/
   (bend <= c_now c - a_maxBackfill l)%Z \/
   c_before c = zeroTime /\ (bend <= c_now c - a_bootstrap l)%Z).

(** A bucket of the table that is due: delivered, or given up. *)
Definition accounted (out : list Sample) (commits : list commit_point) (p : resolvedUseCase) (g : string)
    (t : Time) (dp : dataPoint) : Prop :=
  (forall s, s ∈ pass_samples l p g t dp -> s ∈ out) \/ exists c, c ∈ commits /\ given_up c p g (t + granularity).

Definition from_table (s : Sample) : Prop :=
  exists p g t dp, p ∈ a_passes l /\ g ∈ a_graphs l /\ (t, dp) ∈ sv_table (apiKeyIDsCSV p) g /\ s ∈ pass_samples l p g t dp.

Definition delivered (t0 : Time) (s : trail) : Prop :=
  (forall p g t dp, p ∈ a_passes l -> g ∈ a_graphs l -> (t, dp) ∈ sv_table (apiKeyIDsCSV p) g ->
     (t0 < t + granularity <= wm_Time (t_since s))%Z -> accounted (t_out s) (t_commits s) p g t dp) /\
  (forall x, x ∈ t_out s -> from_table x).

(** One pass of one committed window. *)
Lemma pass_delivers p since start until now ev out resp s0 :
  p ∈ a_passes l -> (start < until)%Z -> window_ok l since now start until ->
  pass_ok l p start until (fetch_start l start until now) now ev out resp s0 ->
  (forall g t dp, g ∈ a_graphs l -> (t, dp) ∈ sv_table (apiKeyIDsCSV p) g -> (start < t + granularity <= until)%Z ->
     (forall s, s ∈ pass_samples l p g t dp -> s ∈ out) \/
     Capability g CapabilityTransient404 ∈ ev /\ gone l (apiKeyIDsCSV p) now g) /\
  (forall x, x ∈ out -> from_table x).
Proof using All.
  intros Hp Hsu Hwin [P1 P2 P3 P4 ->]. destruct (window_bounds _ _ _ _ _ Hwin) as (_ & _ & Hset).
  destruct Hwin as (_ & _ & Hfs & _). specialize (Hfs Hsu).
  destruct Hl as [_ _ _ _ Hss _]. rewrite Hss in P4. pose proof (derive_elem _ _ _ _ _ _ _ _ _ P4) as Hel.
  unfold bucket_end, Add in Hel. split.
  - intros g t dp Hg Ht Hb. destruct (P2 g Hg) as [|[r Hr]]; [by right|left]. intros s Hs.
    unfold pass_samples in Hs. apply stampUseCase_elem in Hs as (s1 & Hs1 & ->). apply stampUseCase_elem.
    exists s1. split; [|done]. apply Hel. destruct (P1 g r Hr) as (w & text & w' & Hget & Hnow & Hd & Hq).
    destruct (sv_answers p g _ _ w text w' r Hp Hg Hget Hd Hq) as [Hc _].
    destruct (Hc t dp Ht) as [Hin Hpt]; [lia|unfold granularity, Minute in *; lia|lia|].
    exists g, r, dp, t. split_and!; [done..|lia|lia|done].
  - intros x Hx. apply stampUseCase_elem in Hx as (s1 & Hs1 & ->). apply Hel in Hs1 as (g & r & dp & t & Hr & Hin & Hpt & Hb & Hs).
    assert (g ∈ a_graphs l) as Hg by (apply P3; eauto). destruct (P1 g r Hr) as (w & text & w' & Hget & Hnow & Hd & Hq).
    destruct (sv_answers p g _ _ w text w' r Hp Hg Hget Hd Hq) as [_ Hf].
    exists p, g, t, dp. split_and!; [done..| |]; [apply Hf; [done|done|lia]|]. apply stampUseCase_elem. eauto.
Qed.

Lemma accounted_more out out' cs cs' p g t dp :
  accounted out cs p g t dp -> accounted (out ++ out') (cs ++ cs') p g t dp.
Proof.
  intros [H1|(c & H1 & H2)]; [left|right].
  - intros s Hs. apply elem_of_app. auto.
  - exists c. split; [|done]. apply elem_of_app. auto.
Qed.

Lemma tick_delivers t0 s x : delivered t0 s -> delivered t0 (tick l s x).
Proof using All.
  intros (HA & HB). unfold tick. pose proof (Collect_spec l (t_since s) (t_st s) x.1) as HC.
  destruct (Collect l (t_since s) (t_st s) x.1) as [[[r ev] st'] w']. destruct r as [b|e]; [|done]. destruct x.2; [|done].
  specialize (HC b ev st' w' eq_refl). pose proof (collect_window_ok l (wm_Time (t_since s)) (pk_now x.1) Hl) as Hw.
  destruct (collect_window l _ _) as [start until]. unfold delivered. cbn [t_since t_out t_commits].
  destruct (After until start) eqn:Ha.
  2: { destruct HC as [-> ->]. rewrite app_nil_r. split; [|done]. intros p g t dp Hp Hg Ht Hb.
       rewrite <-(app_nil_r (t_out s)). by apply accounted_more, HA. }
  destruct HC as [Hwm (outs & Hs & HF)]. apply Z.ltb_lt in Ha. rewrite Hwm. split.
  - intros p g t dp Hp Hg Ht Hb. destruct (decide (t + granularity <= wm_Time (t_since s))%Z).
    { apply accounted_more, HA; [done..|lia]. }
    assert (forall c, c = mkCommit (pk_now x.1) (wm_Time (t_since s)) until ev -> given_up c p g (t + granularity) ->
      accounted (t_out s ++ b_Samples b) (t_commits s ++ [c]) p g t dp) as Hgive.
    { intros c _ Hc. right. exists c. split; [|done]. apply elem_of_app. right. by left. }
    destruct (decide (t + granularity <= start)%Z).
    { apply Hgive; [done|]. split; [simpl; lia|]. right. destruct Hw as [Hstart _]. cbn [c_now c_before].
      destruct (decide (wm_Time (t_since s) = zeroTime)) as [Hz|]; [|left; lia].
      destruct (decide (t + granularity <= pk_now x.1 - a_maxBackfill l)%Z); [by left|right; split; [done|lia]]. }
    destruct (Forall2_elem_l _ _ _ _ HF Hp) as (out & Hout & resp & s0 & HP).
    destruct (pass_delivers p _ _ _ _ _ _ _ _ Hp Ha Hw HP) as [Hd _].
    destruct (Hd g t dp Hg Ht ltac:(lia)) as [Hd'|Hcap].
    + left. intros y Hy. rewrite Hs. apply elem_of_app. right. apply elem_concat. eauto.
    + apply Hgive; [done|]. split; [simpl; lia|by left].
  - intros y [Hy|Hy]%elem_of_app; [by apply HB|]. rewrite Hs in Hy. apply elem_concat in Hy as (out & Hy & Hout).
    destruct (Forall2_elem_r _ _ _ _ HF Hout) as (p & Hp & resp & s0 & HP).
    by apply (pass_delivers p _ _ _ _ _ _ _ _ Hp Ha Hw HP).
Qed.

(** C4: the analytics loop is gap-free, and what it delivers is final.  Run
    any number of ticks against an API that lists every settled bucket of a
    window with its final value, with failed fetches, missing graphs and
    batches that are not committed.  Every bucket whose end the saved frontier
    has passed, of every configured key filter and graph, has had all its
    samples delivered in a committed batch, unless in the tick that passed it
    the API answered 404 to the request for that graph and key filter (and the
    capability hook reported it), or the bucket ended at or before [now] less
    the maximum back-fill, or it was the first tick and the bucket ended at or
    before [now] less the bootstrap look-back; and every delivered sample
    carries the final value of its bucket. *)
Theorem analytics_gap_free since0 st0 xs :
  let s := ticks l xs (start_trail since0 st0) in
  (forall p g t dp, p ∈ a_passes l -> g ∈ a_graphs l -> (t, dp) ∈ sv_table (apiKeyIDsCSV p) g ->
     (wm_Time since0 < t + granularity <= wm_Time (t_since s))%Z -> accounted (t_out s) (t_commits s) p g t dp) /\
  (forall x, x ∈ t_out s -> from_table x).
Proof using All.
  cbn zeta. enough (delivered (wm_Time since0) (ticks l xs (start_trail since0 st0))) as [? ?] by done.
  assert (delivered (wm_Time since0) (start_trail since0 st0)) as Hd.
  { split; simpl; [intros; lia|by intros ? ?%not_elem_of_nil]. }
  unfold ticks. generalize dependent (start_trail since0 st0). induction xs as [|x xs IH]; intros s Hd; [done|].
  simpl. by apply IH, tick_delivers.
Qed.
End delivery.

(** *** No point is committed twice *)

Section once.
Context (l : analyticsLoop) (Hl : accepted_loop l) (Hslugs : NoDup (map slug (a_passes l))).
Context (clock_late : forall w, (a_maxBackfill l < pk_now w)%Z).

Definition use_case_of (s : Sample) : option string := s_Labels s !! useCaseLabelKey.
Definition tag (p : resolvedUseCase) : option string := if decide (slug p = "") then None else Some (slug p).

Lemma point_samples_unlabelled prefix g bend dp s : s ∈ point_samples prefix g bend dp -> use_case_of s = None.
Proof.
  unfold point_samples, use_case_of. intros Hs. repeat case_decide.
  - apply list_elem_of_fmap in Hs as (q & -> & _). by apply lookup_singleton_ne.
  - apply list_elem_of_fmap in Hs as (q & -> & _). by apply lookup_singleton_ne.
  - by apply list_elem_of_singleton in Hs as ->.
Qed.

Lemma stamp_nodup s0 sl :
  (forall s, s ∈ s0 -> use_case_of s = None) -> NoDup (map series_point s0) -> NoDup (map series_point (stampUseCase s0 sl)).
Proof.
  intros Hu Hnd. unfold stampUseCase. case_decide; [done|]. rewrite map_map.
  induction s0 as [|s s0 IH]; [constructor|]. cbn [map] in *. apply NoDup_cons in Hnd as [Hni Hnd]. constructor.
  - intros (s' & Hq & Hs')%list_elem_of_fmap. apply Hni, list_elem_of_fmap. exists s'. split; [|done].
    unfold series_point, with_label in *. simpl in *. injection Hq as H1 H2 H3. f_equal; [f_equal|]; [done| |done].
    pose proof (Hu s ltac:(left)) as Hs. pose proof (Hu s' ltac:(by right)) as Hs2. unfold use_case_of in *.
    by rewrite <-(delete_insert_id (s_Labels s) useCaseLabelKey sl), <-(delete_insert_id (s_Labels s') useCaseLabelKey sl), H2.
  - apply IH; [|done]. intros x Hx. apply Hu. by right.
Qed.

Lemma pass_points p start until fs now ev out resp s0 :
  pass_ok l p start until fs now ev out resp s0 ->
  NoDup (map series_point out) /\
  forall s, s ∈ out -> use_case_of s = tag p /\ (start < s_Timestamp s <= now - a_settle l)%Z.
Proof using All.
  intros [_ _ P3 P4 ->]. pose proof (derive_elem _ _ _ _ _ _ _ _ _ P4) as Hel.
  assert (forall s, s ∈ s0 -> use_case_of s = None /\ (start < s_Timestamp s <= now - a_settle l)%Z) as Hs0.
  { intros s (g & r & dp & t & _ & _ & _ & Hb & Hs)%Hel. split; [by eapply point_samples_unlabelled|].
    by apply point_samples_ts in Hs as [-> _]. }
  split.
  - apply stamp_nodup; [intros s Hs; by apply Hs0|]. apply (derive_nodup _ _ _ _ _ _ _ _ _ P4).
    intros g Hg%elem_of_dom. destruct Hl as [_ _ _ [_ Hk] _ _]. by apply Hk, P3.
  - intros s (s1 & Hs1 & ->)%stampUseCase_elem. destruct (Hs0 s1 Hs1) as [Hu Ht]. unfold tag. case_decide; [done|].
    split; [|done]. unfold use_case_of. simpl. by rewrite lookup_insert_eq.
Qed.

Lemma tag_inj p q : tag p = tag q -> slug p = slug q.
Proof. unfold tag. repeat case_decide; congruence. Qed.

Lemma passes_points ps outs start until fs now ev :
  NoDup (map slug ps) ->
  Forall2 (fun p out => exists resp s0, pass_ok l p start until fs now ev out resp s0) ps outs ->
  NoDup (map series_point (concat outs)) /\
  forall s, s ∈ concat outs -> (exists p, p ∈ ps /\ use_case_of s = tag p) /\ (start < s_Timestamp s <= now - a_settle l)%Z.
Proof using All.
  intros Hnd HF. induction HF as [|p out ps outs (resp & s0 & HP) HF IH].
  { split; [constructor|by intros ? ?%not_elem_of_nil]. }
  cbn [map concat] in *. apply NoDup_cons in Hnd as [Hni Hnd]. destruct (IH Hnd) as [IH1 IH2].
  destruct (pass_points _ _ _ _ _ _ _ _ _ HP) as [HP1 HP2]. split.
  - rewrite map_app. apply NoDup_app. split_and!; [done| |done].
    intros q (s & -> & Hs)%list_elem_of_fmap (s' & Hq & Hs')%list_elem_of_fmap.
    destruct (IH2 s' Hs') as [(p' & Hp' & Hu') _]. destruct (HP2 s Hs) as [Hu _].
    apply Hni, list_elem_of_fmap. exists p'. split; [|done]. apply tag_inj. rewrite <-Hu, <-Hu'.
    injection Hq as _ Hlab _. unfold use_case_of. by rewrite Hlab.
  - intros s [Hs|Hs]%elem_of_app.
    + destruct (HP2 s Hs) as [Hu Ht]. split; [|done]. exists p. split; [left|done].
    + destruct (IH2 s Hs) as [(p' & Hp' & Hu') Ht]. split; [|done]. exists p'. split; [by right|done].
Qed.

Definition points_once (s : trail) : Prop :=
  t_behind s = [] ->
  NoDup (map series_point (t_out s)) /\
  (t_out s = [] \/ wm_Time (t_since s) <> zeroTime) /\
  forall x, x ∈ t_out s -> (s_Timestamp x <= wm_Time (t_since s))%Z.

Lemma tick_once s x : points_once s -> points_once (tick l s x).
Proof using All.
  intros Hs. unfold tick. pose proof (Collect_spec l (t_since s) (t_st s) x.1) as HC.
  destruct (Collect l (t_since s) (t_st s) x.1) as [[[r ev] st'] w']. destruct r as [b|e]; [|done]. destruct x.2; [|done].
  specialize (HC b ev st' w' eq_refl). pose proof (collect_window_ok l (wm_Time (t_since s)) (pk_now x.1) Hl) as Hw.
  destruct (collect_window l _ _) as [start until]. destruct (After until start) eqn:Ha; cbn [andb].
  2: { destruct HC as [-> ->]. unfold points_once. cbn [t_since t_out t_behind]. by rewrite !app_nil_r. }
  destruct HC as [Hwm (outs & Hb & HF)]. apply Z.ltb_lt in Ha. unfold points_once. cbn [t_since t_out t_behind].
  rewrite Hwm, Hb. intros [Hnil Hbe]%app_nil. destruct (Hs Hnil) as (Hnd & Hz & Hle).
  destruct (Z.ltb_spec until (pk_now x.1 - a_settle l)) as [|Hge]; [done|].
  destruct (passes_points _ _ _ _ _ _ _ Hslugs HF) as [Hnd' Hnew].
  destruct (window_bounds _ _ _ _ _ Hw) as (Hst & Hfl & Hse). pose proof (clock_late x.1) as Hcl.
  assert (forall y, y ∈ t_out s -> (s_Timestamp y <= start)%Z) as Hold.
  { intros y Hy. destruct Hz as [Hz|Hz]; [rewrite Hz in Hy; by apply not_elem_of_nil in Hy|]. specialize (Hle y Hy). specialize (Hst Hz). lia. }
  split_and!.
  - rewrite map_app. apply NoDup_app. split_and!; [done| |done].
    intros q (y & -> & Hy)%list_elem_of_fmap (y' & Hq & Hy')%list_elem_of_fmap.
    specialize (Hold y Hy). destruct (Hnew y' Hy') as [_ Hy2]. injection Hq as _ _ Ht. lia.
  - right. unfold zeroTime. lia.
  - intros y [Hy|Hy]%elem_of_app; [specialize (Hold y Hy); lia|]. destruct (Hnew y Hy) as [_ ?]. lia.
Qed.

(** C29: no point is committed twice.  Run any number of ticks, failed or not
    committed ones included, over an arbitrary API: as long as every committed
    window reached the settle cutoff, no series gets a second point at an
    instant, across passes, graphs and ticks. *)
Theorem analytics_exactly_once since0 st0 xs :
  let s := ticks l xs (start_trail since0 st0) in
  t_behind s = [] -> NoDup (map series_point (t_out s)).
Proof using All.
  cbn zeta. intros Hb. enough (points_once (ticks l xs (start_trail since0 st0))) as Hp by by apply Hp.
  clear Hb. assert (points_once (start_trail since0 st0)) as Hd.
  { intros _. split_and!; simpl; [constructor|by left|by intros ? ?%not_elem_of_nil]. }
  unfold ticks. generalize dependent (start_trail since0 st0). induction xs as [|x xs IH]; intros s Hd; [done|].
  simpl. by apply IH, tick_once.
Qed.
End once.

(** The detection pass never reaches the batch: what [Collect] returns and the
    requests it makes do not depend on the histories. *)
Lemma Collect_history_free l since v hs hs' w :
  let '(r, _, _, w1) := Collect l since (mkAState v hs) w in
  let '(r', _, _, w2) := Collect l since (mkAState v hs') w in r = r' /\ w1 = w2.
Proof.
  unfold Collect. cbn zeta. cbn [scopeVerified histories]. destruct (scope_gate _ _ _ _ _ _ _ w) as [[[v'|e] ev0] w0]; [|done].
  destruct (collect_window l _ _) as [start until]. destruct (negb _); [done|].
  set (fs := fetch_start _ _ _ _).
  assert (forall ps hs hs' w0,
    let '(r, _, _, w1) := collect_passes l ps start until fs (pk_now w) hs w0 in
    let '(r', _, _, w2) := collect_passes l ps start until fs (pk_now w) hs' w0 in r = r' /\ w1 = w2) as Hps.
  { induction ps as [|p ps IH]; intros h1 h2 u; [done|]. simpl. unfold collectPass.
    destruct (fetch_graphs _ _ _ _ _ _ u) as [[[resp|e] ev1] u1]; [|done]. destruct (decide (resp = ∅)); [done|].
    destruct (derive parse_rfc3339 resp _ start _ _ _ _); [|done].
    destruct (detect _ _ _ _ _ _ h1) as [ev2 h1'], (detect _ _ _ _ _ _ h2) as [ev2' h2']. cbn beta iota.
    specialize (IH h1' h2' u1). destruct (collect_passes _ ps _ _ _ _ h1' u1) as [[[r1 ?] ?] ?].
    destruct (collect_passes _ ps _ _ _ _ h2' u1) as [[[r2 ?] ?] ?]. by destruct IH as [-> ->]. }
  specialize (Hps (a_passes l) hs hs' w0). destruct (collect_passes _ _ _ _ _ _ hs w0) as [[[r1 ?] ?] ?].
  destruct (collect_passes _ _ _ _ _ _ hs' w0) as [[[r2 ?] ?] ?]. by destruct Hps as [-> ->].
Qed.
End collect.

(** ** A concrete API *)

Module Sim.
Import PortkeyUseCase.Demo PortkeyDerive.Sample.

Record World := mkWorld { w_now : Time; w_missing : list string; w_down : bool }.

Definition minutes : list Z := seqZ 180 30.
Definition fmt (t : Time) : string := FormatInt (Z.of_N (Z.to_N t)).
Definition table : list (Time * dataPoint) := map point minutes.

(** Every bucket that meets the window, latest first. *)
Definition listed (a b : Time) : list dataPoint :=
  (filter (fun p => (a < p.1 + granularity /\ p.1 < b)%Z) (reverse table)).*2.

Definition field (s : string) : option Z := ParseInt (hd "" (split_on "&"%char s)).
Definition dec (url : string) : option graphResponse :=
  match split_on "="%char url with
  | _ :: x :: y :: _ => a ← field x; b ← field y; Some (mkGraph (listed a b) false)
  | _ => None
  end.
Definition get (url : string) (w : World) : option (Z * string) * World :=
  if w_down w then (None, w)
  else if existsb (fun g => contains url ("/" +:+ g +:+ "?")) (w_missing w) then (Some (404%Z, ""), w)
  else (Some (ok_text url), w).

#[global] Instance api : PortkeyAPI World := {| pk_Get := get; pk_now w := Z.max (100 * Minute) (w_now w) |}.

Definition no_url (_ : string) (_ : list (string * string)) : option string := None.
Definition no_groups (_ : string) : option groupsResponse := None.
Definition any_url (_ : string) : bool := true.
Definition same (s : string) : string := s.

Definition loop_config (window : Duration) : LoopConfig :=
  mkLoopConfig true Minute window (2 * Minute) (5 * Minute) (20 * Minute) "" ["requests"; "tokens"] ∅.
Definition source : SourceConfig := plain_source "portkey" "" "prod" ∅ [] "" "".
Definition passes : list resolvedUseCase := [mkResolved "search" "k1"; mkResolved "chat" "k2"].
Definition built (window : Duration) := newAnalyticsLoop same source (loop_config window) passes.
Definition loop (window : Duration) : analyticsLoop :=
  mkAnalytics "" "portkey_api" "prod" ["requests"; "tokens"] window (2 * Minute) (5 * Minute) (20 * Minute) Minute true ""
    passes (4 * Minute).
Definition memory : analyticsState :=
  mkAState false (list_to_map (map (fun p => (slug p, newRevisionHistory (4 * Minute))) passes)).

Example built_loop window : (0 < window)%Z -> built window = Ok (loop window, memory).
Proof. intros Hw. unfold built, newAnalyticsLoop. cbn [lc_Window loop_config]. rewrite (proj2 (Z.leb_gt _ _) Hw). vm_compute. reflexivity. Qed.

Lemma fmt_plain t sep : is_digit sep = false -> string_forallb (fun a => negb (Ascii.eqb a sep)) (fmt t) = true.
Proof.
  intros Hs. unfold fmt.
  assert (string_forallb is_digit (FormatInt (Z.of_N (Z.to_N t))) = true) as Hd by (destruct (Z.to_N t); [done|apply pretty_N_digits]).
  induction (FormatInt _) as [|a r IH]; [done|].
  simpl in *. apply andb_prop in Hd as [Ha Hd]. rewrite IH by done. rewrite andb_true_r, negb_true_iff.
  apply Ascii.eqb_neq. intros ->. congruence.
Qed.

Lemma fmt_field t (rest : string) z : field (fmt t +:+ String "&" rest) = Some z -> z = Z.of_N (Z.to_N t).
Proof. unfold field. rewrite split_on_app by by apply fmt_plain. simpl. apply ParseInt_FormatInt_inv. Qed.

Lemma dec_url window g a b ids r :
  g ∈ ["requests"; "tokens"] -> ids <> "" ->
  dec (graph_url fmt same (loop window) g a b ids) = Some r ->
  r = mkGraph (listed (Z.of_N (Z.to_N a)) (Z.of_N (Z.to_N b))) false.
Proof.
  intros Hg Hids. unfold graph_url. rewrite decide_False by done. cbn [a_baseURL loop].
  set (u := "" +:+ _). assert (u = ("/analytics/graphs/" +:+ g +:+ "?time_of_generation_min") +:+ String "="
    ((fmt a +:+ String "&" "time_of_generation_max") +:+ String "=" ((fmt b +:+ String "&" "api_key_ids") +:+ String "=" ids))) as ->.
  { unfold u. rewrite !string_app_assoc. reflexivity. }
  unfold dec. rewrite split_on_app.
  2: { repeat (apply elem_of_cons in Hg as [->|Hg]; [reflexivity|]). by apply not_elem_of_nil in Hg. }
  rewrite split_on_app by (by rewrite string_forallb_app, fmt_plain).
  rewrite split_on_app by (by rewrite string_forallb_app, fmt_plain).
  destruct (field (fmt a +:+ _)) as [a'|] eqn:Ha, (field (fmt b +:+ _)) as [b'|] eqn:Hb; simpl; try (intros [=]; done).
  intros [= <-]. by rewrite (fmt_field _ _ _ Ha), (fmt_field _ _ _ Hb).
Qed.

Lemma listed_elem a b dp : dp ∈ listed a b <-> exists t, (t, dp) ∈ table /\ (a < t + granularity /\ t < b)%Z.
Proof.
  unfold listed. rewrite list_elem_of_fmap. setoid_rewrite list_elem_of_filter. setoid_rewrite elem_of_reverse. split.
  - intros ([t dp'] & -> & H & Hin). by exists t.
  - intros (t & Hin & H). by exists (t, dp).
Qed.

Lemma table_elem t dp : (t, dp) ∈ table -> exists m, (180 <= m < 210)%Z /\ t = (m * Minute)%Z /\ dp = (point m).2.
Proof. intros (m & [= -> ->] & Hm%elem_of_seqZ)%list_elem_of_fmap. exists m. split; [lia|done]. Qed.

Lemma table_parse t dp : (t, dp) ∈ table -> ParseInt (dp_Timestamp dp) = Some t.
Proof.
  intros (m & Hm & -> & ->)%table_elem. apply ParseInt_FormatInt. unfold in_int64, minInt64, maxInt64, Minute. lia.
Qed.

Lemma get_ok url w text w' : get url w = (Some (200%Z, text), w') -> LimitReader maxResponseBytes text = url.
Proof.
  unfold get. destruct (w_down w); [done|]. destruct (existsb _ _); [done|]. intros Hget. injection Hget as Hok _.
  apply (ok_text_inv _ _ _ Hok). lia.
Qed.

Lemma listed_answers settle a b now :
  answers ParseInt table settle a b now (mkGraph (listed (Z.of_N (Z.to_N a)) (Z.of_N (Z.to_N b))) false).
Proof.
  split; cbn [gr_DataPoints].
  - intros t dp Ht Ha Hb _. split; [|by apply table_parse]. apply listed_elem. exists t. split; [done|].
    destruct (table_elem _ _ Ht) as (m & Hm & -> & _). unfold granularity, Minute in *. lia.
  - intros t dp (t' & Ht' & _)%listed_elem Hpt _. rewrite (table_parse _ _ Ht') in Hpt. by injection Hpt as ->.
Qed.

Lemma api_answers window p g a b w text w' r :
  p ∈ a_passes (loop window) -> g ∈ a_graphs (loop window) ->
  pk_Get (graph_url fmt same (loop window) g a b (apiKeyIDsCSV p)) w = (Some (200%Z, text), w') ->
  dec (LimitReader maxResponseBytes text) = Some r -> gr_IsQuotaExceeded r = false ->
  answers ParseInt table (a_settle (loop window)) a b (pk_now w) r.
Proof.
  intros Hp Hg Hget Hdec _. rewrite (get_ok _ _ _ _ Hget) in Hdec. apply dec_url in Hdec as ->; [apply listed_answers|done|].
  repeat (apply elem_of_cons in Hp as [->|Hp]; [done|]). by apply not_elem_of_nil in Hp.
Qed.

#[global] Instance server window : AnalyticsServer (W := World) ParseInt fmt dec same (loop window) :=
  {| sv_table _ _ := table; sv_answers := api_answers window |}.

Definition at_ (seconds : Z) : Time := (200 * Minute + seconds * Second)%Z.

(** A first window, a window in which one graph is missing, an outage, a batch
    that is not committed, a recovery. *)
Definition run : list (World * bool) :=
  [(mkWorld (at_ 20) [] false, true); (mkWorld (at_ 80) ["tokens"] false, true); (mkWorld (at_ 140) [] true, true);
   (mkWorld (at_ 150) [] false, false); (mkWorld (at_ 260) [] false, true)].
Abbreviation final window since xs :=
  (ticks (W := World) ParseInt fmt no_url no_groups dec same any_url same same (loop window) xs (start_trail (mkWm since "" 0) memory)).

Lemma forward url w : (pk_now w <= pk_now (snd (pk_Get url w)))%Z.
Proof.
  change (snd (pk_Get url w)) with (snd (get url w)). assert (snd (get url w) = w) as -> by (unfold get; repeat case_match; done).
  apply Z.le_refl.
Qed.

Definition accepted_in window (Hw : (0 < window)%Z) : accepted_loop (loop window) :=
  proj1 (newAnalyticsLoop_ok same _ _ _ _ _ (built_loop window Hw)).

(** Two windows of a loop that is catching up: both end inside a minute. *)
Definition catching_up : list (World * bool) := [(mkWorld (at_ 20) [] false, true); (mkWorld (at_ 80) [] false, true)].

End Sim.

Lemma analytics_window_witness :
  collect_window (Sim.loop (4 * Minute)) (Sim.at_ 0) (Sim.at_ 1500) = (Sim.at_ 300, Sim.at_ 540) /\
  (Sim.at_ 540 <= Sim.at_ 1500 - 2 * Minute)%Z.
Proof.
  split; [vm_compute; reflexivity|].
  pose proof (analytics_window Sim.same Sim.source (Sim.loop_config (4 * Minute)) Sim.passes (Sim.loop (4 * Minute)) Sim.memory
    (Sim.at_ 0) (Sim.at_ 1500) (Sim.built_loop (4 * Minute) ltac:(reflexivity))) as Hw.
  assert (collect_window (Sim.loop (4 * Minute)) (Sim.at_ 0) (Sim.at_ 1500) = (Sim.at_ 300, Sim.at_ 540)) as He by (vm_compute; reflexivity).
  rewrite He in Hw. destruct Hw as (_ & Hu & _). rewrite Hu. apply Z.le_min_l.
Defined.

Lemma analytics_gap_free_witness :
  let s := Sim.final (4 * Minute) 0 Sim.run in
  wm_Time (t_since s) = (Sim.at_ 260 - 2 * Minute)%Z /\ length (t_out s) = 50 /\
  map (fun c => (c_before c, c_after c)) (t_commits s) =
    [(0, Sim.at_ (-100)); (Sim.at_ (-100), Sim.at_ (-40)); (Sim.at_ (-40), Sim.at_ 140)]%Z /\
  map (fun c => bool_decide (c_events c = [])) (t_commits s) = [true; false; true] /\
  forall p g t dp, p ∈ Sim.passes -> g ∈ ["requests"; "tokens"] -> (t, dp) ∈ Sim.table ->
    (0 < t + granularity <= wm_Time (t_since s))%Z -> accounted Sim.fmt Sim.same (Sim.loop (4 * Minute)) (t_out s) (t_commits s) p g t dp.
Proof.
  cbv zeta. split; [vm_compute; reflexivity|]. split; [vm_compute; reflexivity|]. split; [vm_compute; reflexivity|].
  split; [vm_compute; reflexivity|].
  apply (analytics_gap_free ParseInt Sim.fmt Sim.no_url Sim.no_groups Sim.dec Sim.same Sim.any_url Sim.same Sim.same
    Sim.forward (Sim.loop (4 * Minute))
    (Sim.accepted_in (4 * Minute) ltac:(reflexivity)) (mkWm 0 "" 0) Sim.memory Sim.run).
Defined.

Lemma analytics_exactly_once_witness :
  t_behind (Sim.final (4 * Minute) 0 Sim.run) = [] /\
  NoDup (map series_point (t_out (Sim.final (4 * Minute) 0 Sim.run))).
Proof.
  assert (t_behind (Sim.final (4 * Minute) 0 Sim.run) = []) as Hb by (vm_compute; reflexivity). split; [exact Hb|].
  exact (analytics_exactly_once ParseInt Sim.fmt Sim.no_url Sim.no_groups Sim.dec Sim.same Sim.any_url Sim.same Sim.same
    Sim.forward (Sim.loop (4 * Minute))
    (Sim.accepted_in (4 * Minute) ltac:(reflexivity)) ltac:(apply (bool_decide_unpack _); vm_compute; exact I)
    ltac:(intros w; simpl; unfold Minute; lia) (mkWm 0 "" 0) Sim.memory Sim.run Hb).
Defined.

(** While it catches up the analytics loop commits a bucket twice.  The
    window is not cut at a bucket boundary: a window that ends inside a minute
    emits the bucket of that minute, whose end is settled though later than
    the saved frontier, and the next window emits it again. *)
Theorem analytics_catch_up_repeats :
  let s := Sim.final Minute (Sim.at_ (-290)) Sim.catching_up in
  t_behind s = [(Sim.at_ (-290), Sim.at_ (-230)); (Sim.at_ (-230), Sim.at_ (-170))] /\
  ~ NoDup (map series_point (t_out s)).
Proof.
  cbv zeta. split; [vm_compute; reflexivity|]. apply (bool_decide_unpack _). vm_compute. exact I.
Qed.
