(* ===== verification/PortkeyGroups.v ===== *)
(** * The groups loop (internal/source/portkey/groups.go, groups_derive.go)

    The window-total loop: its settings, the parsing of a page's rows, the
    paginated all-or-nothing collection of one dimension, the gauges and one
    [Collect].  A page's rows keep their raw JSON fields. *)

From S2P Require Import Prelude Model Config Source PortkeyStrip PortkeyUseCase PortkeyScope PortkeyDerive.

(** ** Settings *)

Record groupsSettings := mkGroupsSettings {
  g_windowSpan : Duration;
  g_settle : Duration;
  g_pageSize : Z;
  g_maxGroups : Z;
  g_metadataKeys : list string;
  g_emitCost : bool;
  g_emitPrompts : bool;
  g_expectedWS : string;
  g_apiKeyIDs : string
}.

Definition defaultGroupsSettings : groupsSettings :=
  mkGroupsSettings Hour (10 * Minute) 1000 10000 [] true true "" "".

(** [strconv.ParseBool]. *)
Definition ParseBool (s : string) : option bool :=
  if decide (s ∈ ["1"; "t"; "T"; "TRUE"; "true"; "True"]) then Some true
  else if decide (s ∈ ["0"; "f"; "F"; "FALSE"; "false"; "False"]) then Some false
  else None.

Section settings.
(** [time.ParseDuration] and [strings.TrimSpace] beyond ASCII. *)
Context (ParseDuration : string -> option Duration) (trim_uni : string -> string).

(** One setting; an unknown key is ignored. *)
Definition apply_setting (g : groupsSettings) (kv : string * string) : option groupsSettings :=
  let '(k, v) := kv in
  let '(mkGroupsSettings ws st ps mg mk ec ep ew ids) := g in
  if decide (k = "window_span") then
    d ← ParseDuration v; if (d <=? 0)%Z then None else Some (mkGroupsSettings d st ps mg mk ec ep ew ids)
  else if decide (k = "settle") then
    d ← ParseDuration v; if (d <? 0)%Z then None else Some (mkGroupsSettings ws d ps mg mk ec ep ew ids)
  else if decide (k = "page_size") then
    n ← ParseInt v; if (n <=? 0)%Z then None else Some (mkGroupsSettings ws st n mg mk ec ep ew ids)
  else if decide (k = "max_groups") then
    n ← ParseInt v; if (n <=? 0)%Z then None else Some (mkGroupsSettings ws st ps n mk ec ep ew ids)
  else if decide (k = "metadata_keys") then Some (mkGroupsSettings ws st ps mg (splitCSV trim_uni v) ec ep ew ids)
  else if decide (k = "emit_cost") then b ← ParseBool v; Some (mkGroupsSettings ws st ps mg mk b ep ew ids)
  else if decide (k = "emit_prompts") then b ← ParseBool v; Some (mkGroupsSettings ws st ps mg mk ec b ew ids)
  else if decide (k = "expected_workspace") then Some (mkGroupsSettings ws st ps mg mk ec ep (TrimSpace trim_uni v) ids)
  else if decide (k = "api_key_ids") then Some (mkGroupsSettings ws st ps mg mk ec ep ew (cleanAPIKeyIDs trim_uni v))
  else Some g.

(** [None] is an error; which one depends on the order of a Go map. *)
Definition applyGroupsSettings (g : groupsSettings) (s : gmap string string) : option groupsSettings :=
  g ← foldl (fun g kv => g ← g; apply_setting g kv) (Some g) (map_to_list s);
  if (g_windowSpan g <=? g_settle g)%Z then None else Some g.
End settings.

(** ** Rows (groups_derive.go) *)

Record groupRow := mkRow { dimValue : string; requests : spec_float; cost : spec_float; hasCost : bool }.

(** [json.Unmarshal] into a [float64] field: [null] leaves it alone. *)
Definition to_float (v : json) : option spec_float :=
  match v with JNum (Some f) => Some f | JNull => Some (S754_zero false) | _ => None end.

Definition parse_row (dimField : string) (raw : gmap string json) : option groupRow :=
  rq ← raw !! "requests";
  requests ← to_float rq;
  let dim := default "" (as_string <$> raw !! dimField) in
  match raw !! "cost" with
  | Some c => cost ← to_float c; Some (mkRow dim requests cost true)
  | None => Some (mkRow dim requests (S754_zero false) false)
  end.

Definition parseGroupRows (data : list (gmap string json)) (dimField : string) : option (list groupRow) :=
  mapM (parse_row dimField) data.

Definition groupMetricName (prefix metric dim : string) : string := prefix +:+ "_" +:+ metric +:+ "_by_" +:+ dim.

Definition row_samples (prefix dim : string) (baseLabels : gmap string string) (valueLabelKey : string) (emitCost : bool)
    (at_ : Time) (r : groupRow) : list Sample :=
  let labels := <[valueLabelKey := dimValue r]> baseLabels in
  gauge (groupMetricName prefix "requests" dim) labels (requests r) at_ ::
  if emitCost && hasCost r then [gauge (groupMetricName prefix "cost_usd" dim) labels (f64_div (cost r) (f64_of_Z 100)) at_] else [].

Definition deriveGroups (rows : list groupRow) (prefix dim : string) (baseLabels : gmap string string) (valueLabelKey : string)
    (emitCost : bool) (at_ : Time) : list Sample :=
  concat (map (row_samples prefix dim baseLabels valueLabelKey emitCost at_) rows).

(** ** The loop *)

Record groupsLoop := mkGroupsLoop {
  gl_baseURL : string;
  gl_prefix : string;
  gl_sourceInstance : string;
  gl_cadence : Duration;
  gl_windowSpan : Duration;
  gl_settle : Duration;
  gl_pageSize : Z;
  gl_maxGroups : Z;
  gl_metadataKeys : list string;
  gl_emitCost : bool;
  gl_emitPrompts : bool;
  gl_expectedWorkspace : string;
  gl_passes : list resolvedUseCase
}.

Record groupsEndpoint := mkEndpoint {
  urlPath : string;
  label : string;
  dim : string;
  dimField : string;
  valueLabelKey : string;
  baseLabels : gmap string string;
  emitCost : bool
}.

Definition SeriesNames (l : groupsLoop) : list string :=
  let p := gl_prefix l in
  [groupMetricName p "requests" "model"] ++
  (if gl_emitCost l then [groupMetricName p "cost_usd" "model"] else []) ++
  (if decide (gl_metadataKeys l = []) then [] else
     [groupMetricName p "requests" "metadata"] ++ (if gl_emitCost l then [groupMetricName p "cost_usd" "metadata"] else [])) ++
  (if gl_emitPrompts l then [groupMetricName p "requests" "prompt"] else []).

Definition IncompleteDuplicateDimension : string := "duplicate_dimension".

Section collect.
Context {W : Type} `{PortkeyAPI W}.
Context (fmt_rfc3339 : Time -> string) (url_with : string -> list (string * string) -> option string).
Context (dec_groups : string -> option groupsResponse).
Definition fetchPage (l : groupsLoop) (path : string) (from until : Time) (page : Z) (apiKeyIDs : string) (w : W)
    : result PkErr (Z * groupsResponse) * W :=
  match url_with (gl_baseURL l +:+ "/analytics/groups/" +:+ path)
          ([("time_of_generation_min", fmt_rfc3339 from); ("time_of_generation_max", fmt_rfc3339 until);
            ("page_size", FormatInt (gl_pageSize l)); ("current_page", FormatInt page)] ++
           (if decide (apiKeyIDs = "") then [] else [("api_key_ids", apiKeyIDs)])) with
  | None => (Err PkBadURL, w)
  | Some url => get_groups dec_groups url w
  end.

(** The rows of one page: [inl] when [max_groups] is reached, [inr] the rows,
    the values seen and the number dropped. *)
Fixpoint add_rows (maxGroups : Z) (pageRows : list groupRow) (seen : gset string) (rows : list groupRow) (dropped : nat)
    : (list groupRow * nat) + (list groupRow * gset string * nat) :=
  match pageRows with
  | [] => inr (rows, seen, dropped)
  | r :: pageRows =>
      if decide (dimValue r ∈ seen) then add_rows maxGroups pageRows seen rows (S dropped)
      else
        let rows := rows ++ [r] in
        if (maxGroups <=? Z.of_nat (length rows))%Z then inl (rows, dropped)
        else add_rows maxGroups pageRows ({[dimValue r]} ∪ seen) rows dropped
  end.

Definition maxPages (l : groupsLoop) : Z := Z.max (Z.quot (wrap64 (gl_maxGroups l + gl_pageSize l - 1)) (gl_pageSize l)) 1.

(** The page loop; [more] pages may follow this one. *)
Fixpoint collect_pages (l : groupsLoop) (ep : groupsEndpoint) (from until : Time) (apiKeyIDs : string) (more : nat) (page : Z)
    (seen : gset string) (rows : list groupRow) (dropped : nat) (w : W) : option (list groupRow * nat) * list PkEvent * W :=
  let '(r, w) := fetchPage l (urlPath ep) from until page apiKeyIDs w in
  match r with
  | Err _ => (None, [], w)
  | Ok (code, resp) =>
      if decide (code = 200%Z) then
        if gs_IsQuotaExceeded resp then (None, [], w)
        else match parseGroupRows (gs_Data resp) (dimField ep) with
        | None => (None, [], w)
        | Some pageRows =>
            match add_rows (gl_maxGroups l) pageRows seen rows dropped with
            | inl (rows, dropped) => (Some (rows, dropped), [], w)
            | inr (rows, seen, dropped) =>
                if bool_decide (pageRows = []) || (Z.of_nat (length pageRows) <? gl_pageSize l)%Z then (Some (rows, dropped), [], w)
                else match more with
                     | 0 => (Some (rows, dropped), [], w)
                     | S more => collect_pages l ep from until apiKeyIDs more (page + 1) seen rows dropped w
                     end
            end
        end
      else if decide (code = 404%Z) then (None, [Capability (label ep) CapabilityTransient404], w)
      else (None, if IsAuthStatus code then [AuthError] else [], w)
  end.

Definition collectEndpoint (l : groupsLoop) (ep : groupsEndpoint) (from until : Time) (apiKeyIDs : string) (w : W)
    : option (list groupRow) * list PkEvent * W :=
  let '(r, ev, w) := collect_pages l ep from until apiKeyIDs (Z.to_nat (maxPages l - 1)) 0 ∅ [] 0 w in
  (fst <$> r,
   ev ++ match r with Some (_, S _) => [Incomplete IncompleteDuplicateDimension] | _ => [] end, w).

(** *** One page of rows *)

Lemma add_rows_distinct mg pageRows seen rows dropped :
  (Z.of_nat (length rows) < mg)%Z -> NoDup (map dimValue pageRows) -> (forall r, r ∈ pageRows -> dimValue r ∉ seen) ->
  add_rows mg pageRows seen rows dropped =
  if (mg <=? Z.of_nat (length (rows ++ pageRows)))%Z then inl (take (Z.to_nat mg) (rows ++ pageRows), dropped)
  else inr (rows ++ pageRows, list_to_set (map dimValue pageRows) ∪ seen, dropped).
Proof.
  revert seen rows. induction pageRows as [|r pageRows IH]; intros seen rows Hlen Hnd Hf.
  - rewrite app_nil_r. rewrite (proj2 (Z.leb_gt _ _) Hlen). simpl. by rewrite (left_id_L ∅ (∪)).
  - cbn [add_rows map] in *. apply NoDup_cons in Hnd as [Hni Hnd]. rewrite decide_False by (apply Hf; left).
    change (rows ++ r :: pageRows) with (rows ++ [r] ++ pageRows). rewrite (assoc_L (++)).
    destruct (Z.leb_spec mg (Z.of_nat (length (rows ++ [r])))) as [Hge|Hlt].
    + assert (mg = Z.of_nat (length (rows ++ [r]))) as -> by (rewrite length_app in *; simpl in *; lia).
      rewrite (proj2 (Z.leb_le _ _)); [|rewrite !length_app; lia]. by rewrite Nat2Z.id, take_app_length.
    + rewrite IH; [|done|done|].
      * destruct (_ <=? _)%Z; [done|]. do 3 f_equal. set_solver.
      * intros x Hx [Hs%elem_of_singleton|Hs]%elem_of_union; [|by eapply Hf; [right|]].
        apply Hni. rewrite <-Hs. apply list_elem_of_fmap. by exists x.
Qed.

(** Whatever the server sends: distinct values, at most [max_groups] rows. *)
Definition rows_ok (mg : Z) (rows : list groupRow) : Prop := NoDup (map dimValue rows) /\ (Z.of_nat (length rows) <= mg)%Z.

Lemma add_rows_ok mg pageRows seen rows dropped :
  rows_ok mg rows -> (Z.of_nat (length rows) < mg)%Z -> (forall r, r ∈ rows -> dimValue r ∈ seen) ->
  match add_rows mg pageRows seen rows dropped with
  | inl (rows, _) => rows_ok mg rows
  | inr (rows, seen, _) => rows_ok mg rows /\ (Z.of_nat (length rows) < mg)%Z /\ forall r, r ∈ rows -> dimValue r ∈ seen
  end.
Proof.
  revert seen rows dropped. induction pageRows as [|r pageRows IH]; intros seen rows dropped Hok Hlen Hs; [done|]. simpl.
  destruct (decide (dimValue r ∈ seen)) as [|Hn]; [by apply IH|].
  assert (rows_ok mg (rows ++ [r])) as Hok'.
  { destruct Hok as [Hnd _]. split; [|rewrite length_app; simpl; lia]. rewrite map_app. apply NoDup_app.
    split_and!; [done| |apply NoDup_singleton]. intros x (r' & -> & Hr')%list_elem_of_fmap Hx%list_elem_of_singleton.
    apply Hn. rewrite <-Hx. by apply Hs. }
  destruct (Z.leb_spec mg (Z.of_nat (length (rows ++ [r])))); [done|]. apply IH; [done..|].
  intros x [Hx|Hx%list_elem_of_singleton]%elem_of_app; [|subst]; set_solver.
Qed.

(** *** A dimension *)

Section dimension.
Context (l : groupsLoop) (Hps : (0 < gl_pageSize l)%Z) (Hmg : (0 < gl_maxGroups l)%Z)
  (Hint : (gl_maxGroups l + gl_pageSize l <= maxInt64)%Z).

Lemma collect_pages_ok ep from until ids more page seen rows dropped w rows' d' ev w' :
  rows_ok (gl_maxGroups l) rows -> (Z.of_nat (length rows) < gl_maxGroups l)%Z -> (forall r, r ∈ rows -> dimValue r ∈ seen) ->
  collect_pages l ep from until ids more page seen rows dropped w = (Some (rows', d'), ev, w') -> rows_ok (gl_maxGroups l) rows'.
Proof.
  revert page seen rows dropped w. induction more as [|more IH]; intros page seen rows dropped w Hok Hlen Hs; simpl;
    destruct (fetchPage l (urlPath ep) from until page ids w) as [[[code resp]|e] w1]; try done;
    (destruct (decide (code = 200%Z)); [|by case_match]); (destruct (gs_IsQuotaExceeded resp); [done|]);
    (destruct (parseGroupRows (gs_Data resp) (dimField ep)) as [pageRows|]; [|done]);
    pose proof (add_rows_ok (gl_maxGroups l) pageRows seen rows dropped Hok Hlen Hs) as Ha;
    (destruct (add_rows _ _ _ _ _) as [[rows2 d2]|[[rows2 seen2] d2]]; [by intros [= <- <- <- <-]|]);
    destruct Ha as (Ha1 & Ha2 & Ha3); (destruct (_ || _); [by intros [= <- <- <- <-]|]).
  - by intros [= <- <- <- <-].
  - by apply IH.
Qed.

(** The API of one dimension: a fixed list of rows, cut into pages. *)
Definition pages_of (T : list (gmap string json)) (ep : groupsEndpoint) (from until : Time) (ids : string) : Prop :=
  forall page w code resp w', (0 <= page)%Z -> fetchPage l (urlPath ep) from until page ids w = (Ok (code, resp), w') -> code = 200%Z ->
  gs_Data resp = take (Z.to_nat (gl_pageSize l)) (drop (Z.to_nat (page * gl_pageSize l)) T).

Lemma parse_slice T field rows n k :
  parseGroupRows T field = Some rows -> parseGroupRows (take n (drop k T)) field = Some (take n (drop k rows)).
Proof.
  unfold parseGroupRows. rewrite !mapM_Some. intros HF. by apply Forall2_take, Forall2_drop.
Qed.

Lemma maxPages_spec : (gl_maxGroups l <= maxPages l * gl_pageSize l)%Z /\ (1 <= maxPages l)%Z.
Proof using Hps Hmg Hint.
  unfold maxPages. split; [|lia]. rewrite wrap64_id by (unfold in_int64, minInt64 in *; lia).
  rewrite Z.quot_div_nonneg by lia. pose proof (Z.div_mod (gl_maxGroups l + gl_pageSize l - 1) (gl_pageSize l)).
  pose proof (Z.mod_pos_bound (gl_maxGroups l + gl_pageSize l - 1) (gl_pageSize l)). nia.
Qed.

Lemma collect_pages_exact T ep from until ids rows more page w rows' d' ev w' :
  pages_of T ep from until ids -> parseGroupRows T (dimField ep) = Some rows -> NoDup (map dimValue rows) ->
  (0 <= page)%Z -> (page + 1 + Z.of_nat more = maxPages l)%Z ->
  let done_ := take (Z.to_nat (page * gl_pageSize l)) rows in
  (Z.of_nat (length done_) < gl_maxGroups l)%Z ->
  collect_pages l ep from until ids more page (list_to_set (map dimValue done_)) done_ 0 w = (Some (rows', d'), ev, w') ->
  rows' = take (Z.to_nat (gl_maxGroups l)) rows /\ d' = 0 /\ ev = [].
Proof using Hps Hmg Hint.
  intros Hp Hr Hnd. cbn zeta. destruct maxPages_spec as [Hmp _]. revert page w.
  assert (forall page : Z, (0 <= page)%Z ->
    take (Z.to_nat (page * gl_pageSize l)) rows ++ take (Z.to_nat (gl_pageSize l)) (drop (Z.to_nat (page * gl_pageSize l)) rows) =
    take (Z.to_nat ((page + 1) * gl_pageSize l)) rows) as Hcat.
  { intros page Hpg. rewrite take_take_drop. f_equal. nia. }
  induction more as [|more IH]; intros page w Hpg Hm Hlen Hc; cbn [collect_pages] in Hc;
    (destruct (fetchPage l (urlPath ep) from until page ids w) as [[[code resp]|e] w1] eqn:Hf; [|done]);
    (destruct (decide (code = 200%Z)) as [->|]; [|by case_match]); (destruct (gs_IsQuotaExceeded resp); [done|]);
    pose proof (Hp _ _ _ _ _ Hpg Hf eq_refl) as Hd;
    (rewrite Hd, (parse_slice _ _ _ _ _ Hr) in Hc);
    set (page_rows := take (Z.to_nat (gl_pageSize l)) (drop (Z.to_nat (page * gl_pageSize l)) rows)) in *;
    specialize (Hcat page Hpg); fold page_rows in Hcat;
    set (done_ := take (Z.to_nat (page * gl_pageSize l)) rows) in *.
  all: assert (NoDup (map dimValue (done_ ++ page_rows))) as Hnd2 by
    (rewrite Hcat; rewrite <-(take_drop (Z.to_nat ((page + 1) * gl_pageSize l)) rows), map_app in Hnd; by apply NoDup_app in Hnd as [? _]).
  all: rewrite map_app in Hnd2; apply NoDup_app in Hnd2 as (_ & Hdis & Hnd2).
  all: rewrite add_rows_distinct in Hc;
    [|done|done|intros r Hr' [x Hx]%elem_of_list_to_set%list_elem_of_lookup; apply (Hdis (dimValue r));
      [by eapply list_elem_of_lookup_2|apply list_elem_of_fmap; eauto]].
  all: rewrite Hcat in Hc; destruct (Z.leb_spec (gl_maxGroups l) (Z.of_nat (length (take (Z.to_nat ((page + 1) * gl_pageSize l)) rows)))) as [Hcap|Hcap];
    [injection Hc as <- <- <- <-; split; [|done]; rewrite take_take; f_equal; rewrite length_take in Hcap; lia|].
  all: assert (page_rows = [] \/ (Z.of_nat (length page_rows) < gl_pageSize l)%Z ->
    take (Z.to_nat ((page + 1) * gl_pageSize l)) rows = take (Z.to_nat (gl_maxGroups l)) rows) as Hend by
    (intros Hshort; assert (length rows <= Z.to_nat ((page + 1) * gl_pageSize l)) as Hle by
       (destruct Hshort as [He|He]; [apply (f_equal length) in He; simpl in He|]; unfold page_rows in He;
        rewrite length_take, length_drop in He; nia);
     rewrite length_take in Hcap; rewrite !take_ge by lia; done).
  all: destruct (bool_decide (page_rows = []) || (Z.of_nat (length page_rows) <? gl_pageSize l)%Z) eqn:Hs;
    [injection Hc as <- <- <- <-; split; [|done]; apply Hend; apply orb_true_iff in Hs as [Hs|Hs];
      [left; by apply bool_decide_eq_true in Hs|right; by apply Z.ltb_lt]|].
  all: apply orb_false_iff in Hs as [_ Hs]; apply Z.ltb_ge in Hs; unfold page_rows in Hs; rewrite length_take, length_drop in Hs.
  - exfalso. rewrite length_take in Hcap. nia.
  - apply (IH (page + 1)%Z w1); [lia|lia|done|]. rewrite <-Hc. f_equal. rewrite <-Hcat, map_app, list_to_set_app_L. set_solver.
Qed.

(** A page that the loop gives up on. *)
Definition page_fails (ep : groupsEndpoint) (from until : Time) (ids : string) : Prop :=
  exists page w, match (fetchPage l (urlPath ep) from until page ids w).1 with
                 | Ok (code, resp) => code = 200%Z -> gs_IsQuotaExceeded resp = true
                 | Err _ => True
                 end.

Lemma collect_pages_none T ep from until ids rows more page seen acc dropped w ev w' :
  pages_of T ep from until ids -> parseGroupRows T (dimField ep) = Some rows -> (0 <= page)%Z ->
  collect_pages l ep from until ids more page seen acc dropped w = (None, ev, w') -> page_fails ep from until ids.
Proof.
  intros Hp Hr. revert page seen acc dropped w. induction more as [|more IH]; intros page seen acc dropped w Hpg; cbn [collect_pages];
    pose proof (fun code resp w' => Hp page w code resp w' Hpg) as Hpage;
    (destruct (fetchPage l (urlPath ep) from until page ids w) as [r w1] eqn:Hf);
    (assert (match r with Ok (code, resp) => code = 200%Z -> gs_IsQuotaExceeded resp = true | Err _ => True end -> page_fails ep from until ids)
       as Hfail by (intros; exists page, w; by rewrite Hf));
    destruct r as [[code resp]|e]; try (intros _; by apply Hfail);
    (destruct (decide (code = 200%Z)) as [->|]; [|intros _; by apply Hfail]);
    (destruct (gs_IsQuotaExceeded resp); [intros _; by apply Hfail|]);
    rewrite (Hpage _ _ _ eq_refl eq_refl), (parse_slice _ _ _ _ _ Hr);
    (destruct (add_rows _ _ _ _ _) as [[? ?]|[[? ?] ?]]; [done|]); (destruct (_ || _); [done|]); [done|].
  apply IH. lia.
Qed.

(** C34: a dimension is collected whole or not at all.  Against an API that
    cuts a fixed list of rows with distinct values into pages, whatever pages
    fail, [collectEndpoint] returns the first [max_groups] rows, in order,
    each once, and reports nothing dropped, or it returns nothing because some
    page failed; and whatever an API answers, overlapping pages or the same
    page for ever, the page loop ends with at most [max_groups] rows of
    distinct values.  The page size and the row cap are positive and their sum
    fits an [int64], so the page count does not overflow. *)
Theorem collectEndpoint_exact ep from until ids w :
  let '(r, ev, _) := collectEndpoint l ep from until ids w in
  (forall out, r = Some out -> rows_ok (gl_maxGroups l) out) /\
  forall T rows, pages_of T ep from until ids -> parseGroupRows T (dimField ep) = Some rows -> NoDup (map dimValue rows) ->
  match r with
  | Some out => out = take (Z.to_nat (gl_maxGroups l)) rows /\ ev = []
  | None => page_fails ep from until ids
  end.
Proof using Hps Hmg Hint.
  unfold collectEndpoint. destruct maxPages_spec as [_ Hmp].
  destruct (collect_pages _ _ _ _ _ _ _ _ _ _ w) as [[r ev] w'] eqn:Hc. split.
  - intros out Hout. destruct r as [[out' d]|]; [|done]. injection Hout as <-.
    eapply collect_pages_ok; [| | |exact Hc]; [split; [constructor|simpl; lia]|simpl; lia|by intros ? ?%not_elem_of_nil].
  - intros T rows Hp Hr Hnd. destruct r as [[out d]|]; simpl; [|by eapply collect_pages_none].
    destruct (collect_pages_exact T ep from until ids rows (Z.to_nat (maxPages l - 1)) 0 w out d ev w') as (-> & -> & ->);
      [done..|lia| |exact Hc|done].
    rewrite Z.mul_0_l. simpl. lia.
Qed.
End dimension.

(** ** The loop's operations *)

(** [url.PathEscape], SHA-256 in hex, the white space beyond ASCII and
    [time.ParseDuration]. *)
Context (PathEscape sha256_hex trim_uni : string -> string) (ParseDuration : string -> option Duration).

Definition newGroupsLoop (cfg : SourceConfig) (lp : LoopConfig) (ucs : list resolvedUseCase) : option groupsLoop :=
  let prefix := if decide (lc_MetricPrefix lp = "") then "portkey_api" else lc_MetricPrefix lp in
  gs ← applyGroupsSettings ParseDuration trim_uni defaultGroupsSettings (lc_Settings lp);
  let cadence := if (lc_Cadence lp <=? 0)%Z then (5 * Minute)%Z else lc_Cadence lp in
  let passes := match ucs with [] => [mkResolved "" (g_apiKeyIDs gs)] | _ => ucs end in
  Some (mkGroupsLoop (sc_BaseURL cfg) prefix (sc_SourceInstance cfg) cadence (g_windowSpan gs) (g_settle gs) (g_pageSize gs)
          (g_maxGroups gs) (g_metadataKeys gs) (g_emitCost gs) (g_emitPrompts gs) (g_expectedWS gs) passes).

Definition Key (l : groupsLoop) : CheckpointKey :=
  mkKey (gl_sourceInstance l) "groups" (Fingerprint sha256_hex trim_uni (SeriesNames l) ("prefix=" +:+ gl_prefix l)).

Definition endpoints (l : groupsLoop) : list groupsEndpoint :=
  [mkEndpoint "ai-models" "ai-models" "model" "ai_model" "ai_model" ∅ (gl_emitCost l)] ++
  map (fun k => mkEndpoint ("metadata/" +:+ PathEscape k) ("metadata/" +:+ k) "metadata" "metadata_value" "metadata_value"
                  {[ "metadata_key" := k ]} (gl_emitCost l)) (gl_metadataKeys l) ++
  (if gl_emitPrompts l then [mkEndpoint "prompt" "prompt" "prompt" "prompt" "prompt" ∅ false] else []).

(** The endpoint loop of one pass: samples, and how many endpoints failed. *)
Fixpoint collect_endpoints (l : groupsLoop) (p : resolvedUseCase) (from until stamp : Time) (eps : list groupsEndpoint) (w : W)
    : list Sample * nat * list PkEvent * W :=
  match eps with
  | [] => ([], 0, [], w)
  | ep :: eps =>
      let '(r, ev, w) := collectEndpoint l ep from until (apiKeyIDsCSV p) w in
      let '(rest, skipped, ev', w) := collect_endpoints l p from until stamp eps w in
      match r with
      | None => (rest, S skipped, ev ++ ev', w)
      | Some rows =>
          (stampUseCase (deriveGroups rows (gl_prefix l) (dim ep) (baseLabels ep) (valueLabelKey ep) (emitCost ep) stamp) (slug p)
             ++ rest, skipped, ev ++ ev', w)
      end
  end.

Fixpoint collect_passes (l : groupsLoop) (from until stamp : Time) (ps : list resolvedUseCase) (w : W)
    : list Sample * nat * list PkEvent * W :=
  match ps with
  | [] => ([], 0, [], w)
  | p :: ps =>
      let '(s, k, ev, w) := collect_endpoints l p from until stamp (endpoints l) w in
      let '(rest, k', ev', w) := collect_passes l from until stamp ps w in
      (s ++ rest, k + k', ev ++ ev', w)
  end.

Definition Collect (l : groupsLoop) (since : Watermark) (scopeVerified : bool) (w : W)
    : result PkErr Batch * list PkEvent * bool * W :=
  let now := pk_now w in
  let '(gate, ev, w) := scope_gate fmt_rfc3339 url_with dec_groups (gl_baseURL l) (gl_expectedWorkspace l) scopeVerified now w in
  match gate with
  | Err e => (Err e, ev, scopeVerified, w)
  | Ok verified =>
      let until := Add now (- gl_settle l) in
      let from := Add now (- gl_windowSpan l) in
      let stamp := Truncate until Minute in
      let '(samples, skipped, ev', w) := collect_passes l from until stamp (gl_passes l) w in
      let total := length (gl_passes l) * length (endpoints l) in
      ((if decide (skipped = total) then Err PkAllFailed
        else Ok (mkBatch (Key l) samples [] (mkWm now (wm_Cursor since) (wm_Epoch since)))),
       ev ++ ev', verified, w)
  end.

(** *** What [Collect] emits *)

Lemma deriveGroups_elem rows prefix d base vk ec at_ s :
  s ∈ deriveGroups rows prefix d base vk ec at_ <-> exists r, r ∈ rows /\ s ∈ row_samples prefix d base vk ec at_ r.
Proof. unfold deriveGroups. rewrite elem_concat. setoid_rewrite list_elem_of_fmap. naive_solver. Qed.

(** A sample of an endpoint's rows, labelled by its pass. *)
Definition endpoint_sample (l : groupsLoop) (stamp : Time) (p : resolvedUseCase) (ep : groupsEndpoint) (s : Sample) : Prop :=
  exists rows, s ∈ stampUseCase (deriveGroups rows (gl_prefix l) (dim ep) (baseLabels ep) (valueLabelKey ep) (emitCost ep) stamp) (slug p).

Lemma collect_endpoints_elem l p from until stamp eps w :
  let '(samples, skipped, _, _) := collect_endpoints l p from until stamp eps w in
  (forall s, s ∈ samples -> exists ep, ep ∈ eps /\ endpoint_sample l stamp p ep s) /\ skipped <= length eps.
Proof.
  revert w. induction eps as [|ep eps IH]; intros w; simpl; [split; [by intros ? ?%not_elem_of_nil|done]|].
  destruct (collectEndpoint l ep from until (apiKeyIDsCSV p) w) as [[r ev] w1].
  specialize (IH w1). destruct (collect_endpoints l p from until stamp eps w1) as [[[rest k] ev'] w2]. destruct IH as [IH Hk].
  destruct r as [rows|]; (split; [|lia]); intros s.
  - intros [Hs|Hs]%elem_of_app; [exists ep; split; [left|by exists rows]|].
    destruct (IH s Hs) as (ep' & ? & ?). exists ep'. split; [by right|done].
  - intros Hs. destruct (IH s Hs) as (ep' & ? & ?). exists ep'. split; [by right|done].
Qed.

Lemma collect_passes_elem l from until stamp ps w :
  let '(samples, _, _, _) := collect_passes l from until stamp ps w in
  forall s, s ∈ samples -> exists p ep, p ∈ ps /\ ep ∈ endpoints l /\ endpoint_sample l stamp p ep s.
Proof.
  revert w. induction ps as [|p ps IH]; intros w; cbn [collect_passes]; [by intros ? ?%not_elem_of_nil|].
  pose proof (collect_endpoints_elem l p from until stamp (endpoints l) w) as He.
  destruct (collect_endpoints l p from until stamp (endpoints l) w) as [[[s0 k] ev] w1]. destruct He as [He _].
  specialize (IH w1). destruct (collect_passes l from until stamp ps w1) as [[[rest k'] ev'] w2].
  intros s [Hs|Hs]%elem_of_app.
  - destruct (He s Hs) as (ep & ? & ?). exists p, ep. split; [left|done].
  - destruct (IH s Hs) as (p' & ep & ? & ? & ?). exists p', ep. split; [by right|done].
Qed.

(** An endpoint's series are declared and its label keys allow-listed. *)
Definition declared (l : groupsLoop) (ep : groupsEndpoint) : Prop :=
  groupMetricName (gl_prefix l) "requests" (dim ep) ∈ SeriesNames l /\
  (emitCost ep = true -> groupMetricName (gl_prefix l) "cost_usd" (dim ep) ∈ SeriesNames l) /\
  valueLabelKey ep ∈ AllowedLabelKeys /\ forall k v, baseLabels ep !! k = Some v -> k ∈ AllowedLabelKeys.

Lemma endpoints_declared l ep : ep ∈ endpoints l -> declared l ep.
Proof.
  unfold endpoints, declared, SeriesNames. cbn zeta. intros Hep.
  rewrite !elem_of_app. apply elem_of_cons in Hep as [Hep|[Hep|Hep]%elem_of_app].
  - subst ep. cbn [dim emitCost valueLabelKey baseLabels].
    split_and!; [left; left|intros ->; right; left; left|by apply (bool_decide_unpack _)|]. intros k v Hk. by rewrite lookup_empty in Hk.
  - apply list_elem_of_fmap in Hep as (k & -> & Hk). cbn [dim emitCost valueLabelKey baseLabels].
    rewrite decide_False by (intros He; rewrite He in Hk; by apply not_elem_of_nil in Hk). rewrite !elem_of_app.
    split_and!; [right; right; left; left; left|intros ->; right; right; left; right; left|by apply (bool_decide_unpack _)|].
    intros k' v [<- _]%lookup_singleton_Some. by apply (bool_decide_unpack _).
  - destruct (gl_emitPrompts l); [|by apply not_elem_of_nil in Hep]. apply list_elem_of_singleton in Hep as ->.
    cbn [dim emitCost valueLabelKey baseLabels].
    split_and!; [right; right; right; left|done|by apply (bool_decide_unpack _)|]. intros k v Hk. by rewrite lookup_empty in Hk.
Qed.

Lemma use_case_allowed : useCaseLabelKey ∈ AllowedLabelKeys.
Proof. apply (bool_decide_unpack _). vm_compute. exact I. Qed.

(** The groups loop emits what it declares and nothing else.  Whatever the
    API answers, every sample of a [Collect] carries a series name declared for
    the ownership check, only label keys on the source's allow-list, and the
    minute of [now - settle]; and the watermark is [now]. *)
Theorem groups_owned l since v w b ev v' w' :
  Collect l since v w = (Ok b, ev, v', w') ->
  wm_Time (b_Watermark b) = pk_now w /\ b_Logs b = [] /\
  forall s, s ∈ b_Samples b ->
    s_Name s ∈ SeriesNames l /\ (forall k x, s_Labels s !! k = Some x -> k ∈ AllowedLabelKeys) /\
    s_Timestamp s = Truncate (pk_now w - gl_settle l) Minute.
Proof.
  unfold Collect. cbn zeta. destruct (scope_gate _ _ _ _ _ _ _ w) as [[[verified|e] ev0] w0]; [|done].
  pose proof (collect_passes_elem l (Add (pk_now w) (- gl_windowSpan l)) (Add (pk_now w) (- gl_settle l))
    (Truncate (Add (pk_now w) (- gl_settle l)) Minute) (gl_passes l) w0) as He.
  destruct (collect_passes _ _ _ _ _ w0) as [[[samples k] ev1] w1]. case_decide; [done|]. intros [= <- _ _ _].
  split_and!; [done..|]. intros s Hs. destruct (He s Hs) as (p & ep & _ & Hep & rows & Hin). clear He Hs.
  destruct (endpoints_declared l ep Hep) as (H1 & H2 & H3 & H4).
  assert (forall s0, s0 ∈ deriveGroups rows (gl_prefix l) (dim ep) (baseLabels ep) (valueLabelKey ep) (emitCost ep)
      (Truncate (Add (pk_now w) (- gl_settle l)) Minute) ->
    s_Name s0 ∈ SeriesNames l /\ (forall k x, s_Labels s0 !! k = Some x -> k ∈ AllowedLabelKeys) /\
    s_Timestamp s0 = Truncate (pk_now w - gl_settle l) Minute) as Hs0.
  { intros s0 (r & _ & Hr)%deriveGroups_elem. unfold row_samples in Hr. cbn zeta in Hr.
    assert (forall k x, <[valueLabelKey ep := dimValue r]> (baseLabels ep) !! k = Some x -> k ∈ AllowedLabelKeys) as Hl.
    { intros k' x [[<- _]|[_ Hk]]%lookup_insert_Some; [done|by eapply H4]. }
    apply elem_of_cons in Hr as [->|Hr]; [done|]. destruct (emitCost ep && hasCost r) eqn:Hc; [|by apply not_elem_of_nil in Hr].
    apply list_elem_of_singleton in Hr as ->. apply andb_prop in Hc as [Hc _]. split_and!; [by apply H2|done|done]. }
  unfold stampUseCase in Hin. case_decide; [by apply Hs0|].
  apply list_elem_of_fmap in Hin as (s0 & -> & Hin). destruct (Hs0 s0 Hin) as (Hn & Hlab & Ht). split_and!; [done| |done].
  intros k' x. simpl. intros [[<- _]|[_ Hk]]%lookup_insert_Some; [exact use_case_allowed|by eapply Hlab].
Qed.
End collect.

(** ** A concrete API *)

Module Sim.
Import PortkeyUseCase.Demo.

(** The pages that answer 500. *)
Record World := mkWorld { w_now : Time; w_broken : list Z }.

Definition row (name : string) (n : Z) : gmap string json :=
  {[ "ai_model" := JStr name; "requests" := JNum (Some (f64_of_Z n)); "cost" := JNum (Some (f64_of_Z (100 * n))) ]}.
Definition table : list (gmap string json) := [row "a" 1; row "b" 2; row "c" 3; row "d" 4; row "e" 5].

(** A URL lists the path and the query's values. *)
Definition url_with (base : string) (q : list (string * string)) : option string := Some (str_encode (base :: q.*2)).
Definition values (url : string) : option (Z * Z) :=
  match str_decode (A := list string) url with
  | Some (_ :: _ :: _ :: size :: page :: _) => s ← ParseInt size; p ← ParseInt page; Some (s, p)
  | _ => None
  end.
Definition dec (url : string) : option groupsResponse :=
  '(size, page) ← values url; Some (mkGroups false (take (Z.to_nat size) (drop (Z.to_nat (page * size)) table))).
Definition get (url : string) (w : World) : option (Z * string) * World :=
  match values url with
  | Some (_, page) => if decide (page ∈ w_broken w) then (Some (500%Z, ""), w) else (Some (ok_text url), w)
  | None => (Some (400%Z, ""), w)
  end.

#[global] Instance api : PortkeyAPI World := {| pk_Get := get; pk_now := w_now |}.

Definition same (s : string) : string := s.
Definition loop : groupsLoop :=
  mkGroupsLoop "" "portkey_api" "prod" Minute Hour (10 * Minute) 2 4 ["team"] true false "" [mkResolved "search" "k1"].
Definition models : groupsEndpoint := mkEndpoint "ai-models" "ai-models" "model" "ai_model" "ai_model" ∅ true.
Definition rows : list groupRow := default [] (parseGroupRows table "ai_model").
Definition collect (broken : list Z) :=
  collectEndpoint FormatInt url_with dec loop models 0 Hour "k1" (mkWorld (2 * Hour) broken).
Definition world : World := mkWorld (2 * Hour + 30 * Second)%Z [].

Lemma groups_get_ok url w text w' : get url w = (Some (200%Z, text), w') -> LimitReader maxResponseBytes text = url.
Proof.
  unfold get. destruct (values url) as [[? ?]|]; [|done]. case_decide; [done|]. intros Hget. injection Hget as Hok _.
  apply (ok_text_inv _ _ _ Hok). lia.
Qed.

Lemma pages : pages_of FormatInt url_with dec loop table models 0 Hour "k1".
Proof.
  intros page w code resp w' Hpage Hf ->. unfold fetchPage in Hf.
  match type of Hf with context [url_with ?b ?q] => set (url := str_encode (b :: q.*2)) in Hf; change (url_with b q) with (Some url) in Hf end.
  cbn beta iota in Hf. unfold get_groups in Hf. change (pk_Get url w) with (get url w) in Hf.
  destruct (get url w) as [[[code text]|] w1] eqn:Hget; [|done].
  destruct (decide (code = 200%Z)) as [->|]; [|congruence].
  rewrite (groups_get_ok _ _ _ _ Hget) in Hf. unfold dec, values in Hf. unfold url in Hf. rewrite str_decode_encode in Hf.
  cbn [app fmap list_fmap snd] in Hf. destruct (ParseInt (FormatInt (gl_pageSize loop))) as [s|] eqn:Hs; [|done].
  destruct (ParseInt (FormatInt page)) as [p|] eqn:Hp; [|done]. cbn in Hf.
  apply ParseInt_FormatInt_inv in Hs, Hp. subst s p. by injection Hf as <- _.
Qed.
End Sim.

Lemma collectEndpoint_exact_witness :
  (exists ev w, Sim.collect [] = (Some (take 4 Sim.rows), ev, w)) /\ (exists ev w, Sim.collect [1%Z] = (None, ev, w)) /\
  let '(r, ev, _) := Sim.collect [] in
  (forall out, r = Some out -> rows_ok 4 out) /\
  match r with Some out => out = take 4 Sim.rows /\ ev = [] | None => True end.
Proof.
  split; [do 2 eexists; vm_compute; reflexivity|]. split; [do 2 eexists; vm_compute; reflexivity|].
  pose proof (collectEndpoint_exact FormatInt Sim.url_with Sim.dec Sim.loop ltac:(simpl; lia) ltac:(simpl; lia)
    ltac:(vm_compute; discriminate) Sim.models 0 Hour "k1" (Sim.mkWorld (2 * Hour) [])) as He.
  fold (Sim.collect []) in He. destruct (Sim.collect []) as [[r ev] w']. destruct He as [H1 H2]. split; [exact H1|].
  specialize (H2 Sim.table Sim.rows Sim.pages ltac:(vm_compute; reflexivity) ltac:(apply (bool_decide_unpack _); vm_compute; exact I)).
  destruct r; [exact H2|exact I].
Defined.

Lemma groups_owned_witness :
  match Collect FormatInt Sim.url_with Sim.dec Sim.same Sim.same Sim.same Sim.loop zeroWm false Sim.world with
  | (Ok b, _, _, _) =>
      map s_Name (b_Samples b) = concat (replicate 4 ["portkey_api_requests_by_model"; "portkey_api_cost_usd_by_model"])
        ++ ["portkey_api_requests_by_metadata"; "portkey_api_cost_usd_by_metadata"] /\
      forall s, s ∈ b_Samples b -> s_Name s ∈ SeriesNames Sim.loop
  | _ => False
  end.
Proof.
  assert (match Collect FormatInt Sim.url_with Sim.dec Sim.same Sim.same Sim.same Sim.loop zeroWm false Sim.world with
    | (Ok b, _, _, _) => map s_Name (b_Samples b) = concat (replicate 4 ["portkey_api_requests_by_model"; "portkey_api_cost_usd_by_model"])
        ++ ["portkey_api_requests_by_metadata"; "portkey_api_cost_usd_by_metadata"] | _ => False end) as Hn by (vm_compute; reflexivity).
  destruct (Collect FormatInt Sim.url_with Sim.dec Sim.same Sim.same Sim.same Sim.loop zeroWm false Sim.world)
    as [[[r ev] v'] w'] eqn:Hc.
  destruct r as [b|e]; [|contradiction]. split; [exact Hn|]. intros s Hs.
  exact (proj1 (proj2 (proj2 (groups_owned FormatInt Sim.url_with Sim.dec Sim.same Sim.same Sim.same (fun _ => None) Sim.loop zeroWm
    false Sim.world b ev v' w' Hc)) s Hs)).
Defined.
