(* ===== verification/Portkey.v ===== *)
(** * The Portkey source (internal/source/portkey/portkey.go [New])

    Which loops a configuration builds, and that their checkpoints never
    collide: the logs loop runs once per use case, under a fingerprint that
    names it. *)

From S2P Require Import Prelude Model Config Source PortkeyStrip PortkeyUseCase PortkeyDerive.
From S2P Require Import PortkeyAnalytics PortkeyGroups PortkeyDownload LogsExport LogsSettings.

Inductive pkLoop :=
| PkAnalytics (l : analyticsLoop) (st : analyticsState)
| PkGroups (l : groupsLoop)
| PkLogs (l : logsExportLoop).

Section source.
(** [time.ParseDuration], [strings.TrimSpace] and [strings.ToLower] beyond ASCII. *)
Context (ParseDuration : string -> option Duration) (trim_uni uni : string -> string).

(** The loop configured under a name, when it is enabled. *)
Definition pk_enabled (cfg : SourceConfig) (name : string) : option LoopConfig :=
  lp ← sc_Loops cfg !! name; if lc_Enabled lp then Some lp else None.

Definition build_analytics (cfg : SourceConfig) (lp : LoopConfig) (ucs : list resolvedUseCase) : option (list pkLoop) :=
  match newAnalyticsLoop trim_uni cfg lp ucs with Ok (l, st) => Some [PkAnalytics l st] | Err _ => None end.
Definition build_groups (cfg : SourceConfig) (lp : LoopConfig) (ucs : list resolvedUseCase) : option (list pkLoop) :=
  l ← newGroupsLoop trim_uni ParseDuration cfg lp ucs; Some [PkGroups l].

(** One loop per use case; a single unlabelled one when none is configured. *)
Definition logs_passes (ucs : list resolvedUseCase) : list resolvedUseCase := match ucs with [] => [mkResolved "" ""] | _ => ucs end.
Definition build_logs (cfg : SourceConfig) (lp : LoopConfig) (ucs : list resolvedUseCase) : option (list pkLoop) :=
  ls ← mapM (newLogsExportLoop ParseDuration trim_uni cfg lp) (logs_passes ucs); Some (map PkLogs ls).

(** [None] is an error.  The shared client is the HTTP client's. *)
Definition portkey_New (cfg : SourceConfig) : option (list pkLoop) :=
  let analytics := pk_enabled cfg "analytics" in
  let groups := pk_enabled cfg "groups" in
  let logs := pk_enabled cfg "logs_export" in
  match analytics, groups, logs with
  | None, None, None => Some []
  | _, _, _ =>
      match resolveUseCases uni trim_uni cfg with
      | Err _ => None
      | Ok ucs =>
          let build o f := match o with Some lp => f cfg lp ucs | None => Some ([] : list pkLoop) end in
          a ← build analytics build_analytics; g ← build groups build_groups; l ← build logs build_logs; Some (a ++ g ++ l)
      end
  end.

Context (sha256_hex : string -> string).

Definition pk_key (l : pkLoop) : CheckpointKey :=
  match l with
  | PkAnalytics l _ => PortkeyAnalytics.Key trim_uni sha256_hex l
  | PkGroups l => PortkeyGroups.Key trim_uni sha256_hex l
  | PkLogs l => LogsExport.Key trim_uni sha256_hex l
  end.

Definition pk_name (l : pkLoop) : string := match l with PkAnalytics _ _ => "analytics" | PkGroups _ => "groups" | PkLogs _ => "logs_export" end.

(** What the fingerprint of a logs loop hashes. *)
Definition logs_naming (useCase : string) : string :=
  if decide (useCase = "") then "logs_export" else "logs_export" +:+ ",api_key_use_case=" +:+ useCase.
Definition logs_input (l : logsExportLoop) : string := fingerprint_input trim_uni (IndexedKeys l) (logs_naming (x_useCase l)).

(** ** Naming configs survive trimming *)

Definition slug_like (a : Ascii.ascii) : bool := slug_char a || Ascii.eqb underscore a.

Lemma slug_like_plain a : slug_like a = true -> byte_in a 0 127 = true /\ (slug_char a = true -> is_space a = false).
Proof. destruct a as [[] [] [] [] [] [] [] []]; vm_compute; by intros. Qed.

(** A slug: letters, digits and underscores, ending in a word. *)
Definition slug_ok (s : string) : Prop := string_forallb slug_like s = true /\ exists u w, slug_word w /\ s = u +:+ w.

Lemma slug_word_like w : slug_word w -> string_forallb slug_like w = true.
Proof.
  intros [_ Hw]. induction w as [|a w IH]; [done|]. cbn [string_forallb] in *. apply andb_prop in Hw as [Ha Hw].
  rewrite IH by done. unfold slug_like. by rewrite Ha.
Qed.

Lemma slugify_ok label s : slugifyUseCase uni label = Some s -> slug_ok s.
Proof.
  rewrite (slugify_words uni trim_uni). pose proof (words_slug (ToLower uni label)) as Hws.
  destruct (words (ToLower uni label)) as [|w ws] eqn:E; [done|]. intros [= <-]. split; [|apply (join_last (w :: ws)); done].
  clear E. induction Hws as [|v vs Hv Hvs IH]; [done|]. destruct vs as [|v' vs]; [by apply slug_word_like|].
  rewrite join_cons by done. rewrite !string_forallb_app. rewrite slug_word_like by done.
  assert (string_forallb slug_like (join_with underscore (v' :: vs)) = true) as -> by (apply IH). reflexivity.
Qed.

Lemma trim_left_solid f a (s : string) : f a = false -> trim_left f (String a s) = String a s.
Proof. intros Ha. cbn [trim_left]. by rewrite Ha. Qed.

Lemma logs_naming_trim s : slug_ok s -> TrimSpace trim_uni (logs_naming s) = "logs_export,api_key_use_case=" +:+ s.
Proof.
  intros [Hs (u & w & Hw & ->)]. unfold logs_naming.
  rewrite decide_False by (intros Hn; destruct Hw as [Hw _]; by destruct u, w).
  change ("logs_export" +:+ ",api_key_use_case=" +:+ ?x) with ("logs_export,api_key_use_case=" +:+ x).
  set (n := "logs_export,api_key_use_case="). unfold TrimSpace.
  assert (is_ascii (n +:+ (u +:+ w)) = true) as ->.
  { unfold is_ascii. rewrite string_forallb_app. change (string_forallb _ n) with true. cbn [andb]. clear -Hs.
    induction (u +:+ w) as [|a s IH]; [done|]. cbn [string_forallb] in *. apply andb_prop in Hs as [Ha Hs].
    rewrite IH by done. by destruct (slug_like_plain a Ha) as [-> _]. }
  unfold trim_by. replace (trim_left is_space (n +:+ (u +:+ w))) with (n +:+ (u +:+ w)) by reflexivity.
  rewrite <-string_app_assoc, rev_string_app. destruct (rev_slug_word w Hw) as [Hne Hrw].
  destruct (rev_string w) as [|a t] eqn:Hr; [done|]. cbn [string_forallb] in Hrw. apply andb_prop in Hrw as [Ha _].
  rewrite string_app_cons, trim_left_solid.
  2: { apply slug_like_plain; [unfold slug_like; by rewrite Ha|done]. }
  rewrite <-string_app_cons, <-Hr, <-rev_string_app, rev_string_involutive. done.
Qed.

(** ** The use cases of the logs loops *)

Lemma resolved_slugs cfg ucs :
  resolveUseCases uni trim_uni cfg = Ok ucs -> NoDup (map slug ucs) /\ Forall (fun r => slug_ok (slug r)) ucs.
Proof.
  unfold resolveUseCases. destruct (sc_APIKeyUseCases cfg) as [|uc rest]; [intros [= <-]; split; constructor|].
  destruct (existsb _ _); [done|]. intros [He [Hnd _]]%resolve_entries_spec. split; [exact Hnd|].
  apply (Forall2_Forall_r _ _ _ _ He). apply Forall_forall. intros uc' _ r (Hs & _). by eapply slugify_ok.
Qed.

Lemma newLogsExportLoop_naming cfg lp uc1 uc2 l1 l2 :
  newLogsExportLoop ParseDuration trim_uni cfg lp uc1 = Some l1 -> newLogsExportLoop ParseDuration trim_uni cfg lp uc2 = Some l2 ->
  IndexedKeys l1 = IndexedKeys l2 /\ x_useCase l1 = slug uc1.
Proof.
  unfold newLogsExportLoop. case_decide; [|done]. destruct (applyLogsSettings _ _ _ _) as [s|]; [|done]. intros [= <-] [= <-]. done.
Qed.

(** The slugs of the passes: distinct, and slugs unless there is only the
    unlabelled one. *)
Lemma logs_passes_slugs cfg ucs :
  resolveUseCases uni trim_uni cfg = Ok ucs ->
  NoDup (map slug (logs_passes ucs)) /\
  forall r r', r ∈ logs_passes ucs -> r' ∈ logs_passes ucs ->
    TrimSpace trim_uni (logs_naming (slug r)) = TrimSpace trim_uni (logs_naming (slug r')) -> slug r = slug r'.
Proof.
  intros [Hnd Hok]%resolved_slugs. destruct ucs as [|uc ucs]; cbn [logs_passes].
  - split; [apply NoDup_singleton|]. by intros r r' ->%list_elem_of_singleton ->%list_elem_of_singleton.
  - split; [exact Hnd|]. rewrite Forall_forall in Hok. intros r r' Hr Hr'. rewrite !logs_naming_trim by auto.
    intros [_ ->]%string_app_inj_length; done.
Qed.

Lemma build_logs_keys cfg lp ucs ls :
  resolveUseCases uni trim_uni cfg = Ok ucs -> build_logs cfg lp ucs = Some ls ->
  (forall l l', PkLogs l ∈ ls -> PkLogs l' ∈ ls -> Fingerprint sha256_hex trim_uni (IndexedKeys l) (logs_naming (x_useCase l)) =
     Fingerprint sha256_hex trim_uni (IndexedKeys l') (logs_naming (x_useCase l')) -> logs_input l = logs_input l') ->
  NoDup (map pk_key ls) /\ map pk_name ls = replicate (length (logs_passes ucs)) "logs_export".
Proof.
  intros Hr. destruct (logs_passes_slugs _ _ Hr) as [Hnd Hinj]. unfold build_logs.
  destruct (mapM _ _) as [lps|] eqn:Hm; [|done]. intros [= <-] Hhash. apply mapM_Some in Hm.
  assert (map x_useCase lps = map slug (logs_passes ucs)) as Huse.
  { clear -Hm. induction Hm as [|uc l ucs' lps Hl _ IH]; [done|]. cbn [map]. rewrite IH.
    by destruct (newLogsExportLoop_naming _ _ _ _ _ _ Hl Hl) as [_ ->]. }
  split.
  - rewrite map_map. rewrite <-Huse in Hnd. apply NoDup_fmap_2_strong; [|by eapply NoDup_fmap_1].
    intros l l' Hl Hl' Heq. apply (NoDup_fmap_inj x_useCase lps); [done..|].
    assert (logs_input l = logs_input l') as Hin.
    { apply Hhash; [by apply list_elem_of_fmap_2..|]. unfold pk_key, LogsExport.Key in Heq. injection Heq as _ Hfp. exact Hfp. }
    destruct (Forall2_elem_r _ _ _ _ Hm Hl) as (uc & Huc & Hb), (Forall2_elem_r _ _ _ _ Hm Hl') as (uc' & Huc' & Hb').
    destruct (newLogsExportLoop_naming _ _ _ _ _ _ Hb Hb') as [Hidx Hu]. destruct (newLogsExportLoop_naming _ _ _ _ _ _ Hb' Hb) as [_ Hu'].
    unfold logs_input, fingerprint_input in Hin. rewrite Hidx, Hu, Hu' in Hin.
    apply string_app_inj_length in Hin as [_ Hin]; [|done]. rewrite Hu, Hu'. by apply Hinj.
  - rewrite map_map. apply Forall2_length in Hm. rewrite Hm. clear. induction lps; [done|]. cbn. by f_equal.
Qed.

(** Loops that all carry one name, under distinct keys. *)
Record named_loops (n : string) (k : nat) (ls : list pkLoop) : Prop := {
  nl_names : map pk_name ls = replicate k n;
  nl_keys : NoDup (map pk_key ls)
}.

Lemma build_analytics_named cfg lp ucs ls : build_analytics cfg lp ucs = Some ls -> named_loops "analytics" 1 ls.
Proof. unfold build_analytics. destruct (newAnalyticsLoop _ _ _ _) as [[l st]|]; [|done]. intros [= <-]. split; [done|apply NoDup_singleton]. Qed.
Lemma build_groups_named cfg lp ucs ls : build_groups cfg lp ucs = Some ls -> named_loops "groups" 1 ls.
Proof. unfold build_groups. destruct (newGroupsLoop _ _ _ _ _) as [l|]; [|done]. intros [= <-]. split; [done|apply NoDup_singleton]. Qed.

Lemma pk_key_name l : k_Loop (pk_key l) = pk_name l.
Proof. by destruct l. Qed.

Lemma named_elem n k ls l : named_loops n k ls -> l ∈ ls -> pk_name l = n.
Proof.
  intros [Hn _] Hl. apply (list_elem_of_fmap_2 pk_name) in Hl. change (pk_name l ∈ map pk_name ls) in Hl. rewrite Hn in Hl.
  by apply elem_of_replicate in Hl as [-> _].
Qed.

(** Loops of different names never share a key. *)
Lemma keys_app n k ls ls' :
  named_loops n k ls -> NoDup (map pk_key ls') -> (forall l, l ∈ ls' -> pk_name l <> n) -> NoDup (map pk_key (ls ++ ls')).
Proof.
  intros Hn Hnd Hne. rewrite map_app. apply NoDup_app. split_and!; [apply Hn| |done].
  intros key (l & -> & Hl)%list_elem_of_fmap (l' & Hk & Hl')%list_elem_of_fmap. apply (Hne l' Hl').
  by rewrite <-pk_key_name, <-Hk, pk_key_name, (named_elem n k ls).
Qed.

(** How many loops of a name the configuration asks for. *)
Definition expected (cfg : SourceConfig) (n : string) (k : nat) : nat := match pk_enabled cfg n with Some _ => k | None => 0 end.

Definition expected_names (cfg : SourceConfig) : list string :=
  replicate (expected cfg "analytics" 1) "analytics" ++ replicate (expected cfg "groups" 1) "groups" ++
  replicate (expected cfg "logs_export" (Nat.max 1 (length (sc_APIKeyUseCases cfg)))) "logs_export".

Lemma logs_passes_length cfg ucs :
  resolveUseCases uni trim_uni cfg = Ok ucs -> length (logs_passes ucs) = Nat.max 1 (length (sc_APIKeyUseCases cfg)).
Proof.
  unfold resolveUseCases. destruct (sc_APIKeyUseCases cfg) as [|uc rest]; [by intros [= <-]|].
  destruct (existsb _ _); [done|]. intros [He%Forall2_length _]%resolve_entries_spec. destruct ucs; [done|]. cbn [logs_passes length] in *. lia.
Qed.

Definition optional (cfg : SourceConfig) (n : string) (f : SourceConfig -> LoopConfig -> list resolvedUseCase -> option (list pkLoop))
    (ucs : list resolvedUseCase) : option (list pkLoop) :=
  match pk_enabled cfg n with Some lp => f cfg lp ucs | None => Some [] end.

Lemma optional_named cfg n f ucs k ls :
  optional cfg n f ucs = Some ls -> (forall lp, f cfg lp ucs = Some ls -> named_loops n k ls) -> named_loops n (expected cfg n k) ls.
Proof.
  unfold optional, expected. destruct (pk_enabled cfg n) as [lp|]; [by eauto|]. intros [= <-] _. split; [done|constructor].
Qed.

Lemma portkey_New_inv cfg loops :
  portkey_New cfg = Some loops ->
  (loops = [] /\ expected_names cfg = []) \/
  exists ucs a g ls, resolveUseCases uni trim_uni cfg = Ok ucs /\ loops = a ++ g ++ ls /\
    optional cfg "analytics" build_analytics ucs = Some a /\ optional cfg "groups" build_groups ucs = Some g /\
    optional cfg "logs_export" build_logs ucs = Some ls.
Proof.
  intros Hnew.
  assert ((loops = [] /\ expected_names cfg = []) \/
    match resolveUseCases uni trim_uni cfg with
    | Err _ => None
    | Ok ucs => a ← optional cfg "analytics" build_analytics ucs; g ← optional cfg "groups" build_groups ucs;
                l ← optional cfg "logs_export" build_logs ucs; Some (a ++ g ++ l)
    end = Some loops) as [?|Hsome]; [|by left|right].
  { revert Hnew. unfold portkey_New, expected_names, expected, optional. cbv zeta.
    destruct (pk_enabled cfg "analytics"), (pk_enabled cfg "groups"), (pk_enabled cfg "logs_export"); auto. intros [= <-]. by left. }
  destruct (resolveUseCases _ _ _) as [ucs|]; [|done]. destruct (optional cfg "analytics" _ ucs) as [a|] eqn:Ha; [|done].
  cbn [mbind option_bind] in Hsome. destruct (optional cfg "groups" _ ucs) as [g|] eqn:Hg; [|done].
  cbn [mbind option_bind] in Hsome. destruct (optional cfg "logs_export" _ ucs) as [ls|] eqn:Hl; [|done].
  injection Hsome as <-. by exists ucs, a, g, ls.
Qed.

Lemma pk_enabled_inv sc name lp : pk_enabled sc name = Some lp -> sc_Loops sc !! name = Some lp /\ lc_Enabled lp = true.
Proof.
  unfold pk_enabled. destruct (sc_Loops sc !! name) as [lp'|]; [|done]. cbn [mbind option_bind]. destruct (lc_Enabled lp') eqn:He; [|done]. by intros [= <-].
Qed.

(** A loop that was built was enabled. *)
Lemma portkey_New_enabled cfg loops l : portkey_New cfg = Some loops -> l ∈ loops -> is_Some (pk_enabled cfg (pk_name l)).
Proof.
  intros Hnew Hl. destruct (portkey_New_inv _ _ Hnew) as [[-> _]|(ucs & a & g & ls & _ & -> & Ha & Hg & Hls)]; [by apply elem_of_nil in Hl|].
  unfold optional in *. rewrite !elem_of_app in Hl. destruct Hl as [Hl|[Hl|Hl]].
  - destruct (pk_enabled cfg "analytics") as [lp|] eqn:He; [|injection Ha as <-; by apply elem_of_nil in Hl].
    rewrite (named_elem _ _ _ _ (build_analytics_named _ _ _ _ Ha) Hl), He. eauto.
  - destruct (pk_enabled cfg "groups") as [lp|] eqn:He; [|injection Hg as <-; by apply elem_of_nil in Hl].
    rewrite (named_elem _ _ _ _ (build_groups_named _ _ _ _ Hg) Hl), He. eauto.
  - destruct (pk_enabled cfg "logs_export") as [lp|] eqn:He; [|injection Hls as <-; by apply elem_of_nil in Hl].
    unfold build_logs in Hls. destruct (mapM _ _) as [lps|]; [|done]. injection Hls as <-.
    apply list_elem_of_fmap in Hl as (x & -> & _). cbn [pk_name]. rewrite He. eauto.
Qed.

Lemma portkey_New_built cfg loops :
  portkey_New cfg = Some loops ->
  (forall l l', PkLogs l ∈ loops -> PkLogs l' ∈ loops -> Fingerprint sha256_hex trim_uni (IndexedKeys l) (logs_naming (x_useCase l)) =
     Fingerprint sha256_hex trim_uni (IndexedKeys l') (logs_naming (x_useCase l')) -> logs_input l = logs_input l') ->
  map pk_name loops = expected_names cfg /\ NoDup (map pk_key loops).
Proof.
  intros Hnew Hhash. destruct (portkey_New_inv _ _ Hnew) as [[-> ->]|(ucs & a & g & ls & Hr & -> & Ha & Hg & Hl)]; [by split; [|constructor]|].
  apply (optional_named _ _ _ _ 1) in Ha; [|intros lp; apply build_analytics_named].
  apply (optional_named _ _ _ _ 1) in Hg; [|intros lp; apply build_groups_named].
  apply (optional_named _ _ _ _ (Nat.max 1 (length (sc_APIKeyUseCases cfg)))) in Hl.
  2: { intros lp Hb. destruct (build_logs_keys _ _ _ _ Hr Hb) as [Hk Hn].
       - intros l l' H1 H2. apply Hhash; rewrite !elem_of_app; auto.
       - split; [|done]. by rewrite Hn, (logs_passes_length _ _ Hr). }
  split; [rewrite !map_app; by rewrite (nl_names _ _ _ Ha), (nl_names _ _ _ Hg), (nl_names _ _ _ Hl)|].
  apply (keys_app _ _ _ _ Ha).
  - apply (keys_app _ _ _ _ Hg); [apply Hl|]. intros l Hin. by rewrite (named_elem _ _ _ _ Hl Hin).
  - intros l [Hin|Hin]%elem_of_app; [by rewrite (named_elem _ _ _ _ Hg Hin)|by rewrite (named_elem _ _ _ _ Hl Hin)].
Qed.

(** Every loop is filed under the source's instance. *)
Lemma portkey_New_instance cfg loops l : portkey_New cfg = Some loops -> l ∈ loops -> k_SourceInstance (pk_key l) = sc_SourceInstance cfg.
Proof.
  intros Hnew Hl. destruct (portkey_New_inv _ _ Hnew) as [[-> _]|(ucs & a & g & ls & _ & -> & Ha & Hg & Hls)]; [by apply elem_of_nil in Hl|].
  unfold optional in Ha, Hg, Hls. apply elem_of_app in Hl as [Hl|[Hl|Hl]%elem_of_app].
  - destruct (pk_enabled cfg "analytics"); [|injection Ha as <-; by apply elem_of_nil in Hl]. revert Ha. unfold build_analytics.
    destruct (newAnalyticsLoop _ _ _ _) as [[al st]|] eqn:E; [|done]. intros [= <-]. apply list_elem_of_singleton in Hl as ->.
    revert E. unfold newAnalyticsLoop. repeat case_match; try done; by intros [= <- _].
  - destruct (pk_enabled cfg "groups"); [|injection Hg as <-; by apply elem_of_nil in Hl]. revert Hg. unfold build_groups, newGroupsLoop.
    destruct (applyGroupsSettings _ _ _ _); [|done]. intros [= <-]. by apply list_elem_of_singleton in Hl as ->.
  - destruct (pk_enabled cfg "logs_export"); [|injection Hls as <-; by apply elem_of_nil in Hl]. revert Hls. unfold build_logs.
    destruct (mapM _ _) as [lps|] eqn:Hm; [|done]. intros [= <-]. apply list_elem_of_fmap in Hl as (x & -> & Hx). apply mapM_Some in Hm.
    destruct (Forall2_elem_r _ _ _ _ Hm Hx) as (uc & _ & Hb). revert Hb. unfold newLogsExportLoop. case_decide; [|done].
    destruct (applyLogsSettings _ _ _ _); [|done]. by intros [= <-].
Qed.

(** The Portkey loops never share a checkpoint.  Whenever [New] accepts a
    configuration, the source has one analytics loop and one groups loop when
    they are enabled, and one logs loop per configured use case (a single one
    when there is none); and as long as the truncated hash does not collide on
    the schemas of these loops, their checkpoint keys are pairwise distinct, so
    no loop ever resumes from or overwrites another's watermark.  Every loop is
    filed under the source's own instance. *)
Theorem portkey_New_ok cfg loops :
  portkey_New cfg = Some loops ->
  (forall l l', PkLogs l ∈ loops -> PkLogs l' ∈ loops -> Fingerprint sha256_hex trim_uni (IndexedKeys l) (logs_naming (x_useCase l)) =
     Fingerprint sha256_hex trim_uni (IndexedKeys l') (logs_naming (x_useCase l')) -> logs_input l = logs_input l') ->
  map pk_name loops = expected_names cfg /\ NoDup (map pk_key loops) /\
  forall l, l ∈ loops -> k_SourceInstance (pk_key l) = sc_SourceInstance cfg.
Proof.
  intros Hnew Hhash. destruct (portkey_New_built _ _ Hnew Hhash) as [Hn Hk]. split_and!; [done..|].
  intros l. by apply portkey_New_instance.
Qed.
End source.

(** ** A concrete source *)

Module PkDemo.
Definition cfg : SourceConfig :=
  plain_source "portkey" "https://h" "prod"
    {[ "analytics" := PortkeyAnalytics.Sim.loop_config Hour; "logs_export" := LogsSettings.Sim.settings [] ]}
    [mkUseCase "Search Bar" ["k1"]; mkUseCase "chat" ["k2"; "k3"]] "x-portkey-api-key" "k".
Definition loops : list pkLoop := default [] (portkey_New LogsSettings.Sim.dur id id cfg).
Definition use_cases : list string := map (fun l => match l with PkLogs l => x_useCase l | _ => "-" end) loops.
End PkDemo.

Lemma portkey_demo_built : portkey_New LogsSettings.Sim.dur id id PkDemo.cfg = Some PkDemo.loops.
Proof. vm_compute. reflexivity. Qed.

Lemma portkey_demo_loops : exists a st l1 l2, PkDemo.loops = [PkAnalytics a st; PkLogs l1; PkLogs l2] /\
  x_useCase l1 = "search_bar" /\ x_useCase l2 = "chat" /\ IndexedKeys l1 = IndexedKeys l2.
Proof. do 4 eexists. split; [vm_compute; reflexivity|split_and!; vm_compute; reflexivity]. Qed.

Lemma portkey_New_ok_witness :
  PkDemo.use_cases = ["-"; "search_bar"; "chat"] /\
  map pk_name PkDemo.loops = ["analytics"; "logs_export"; "logs_export"] /\ NoDup (map (pk_key id rev_string) PkDemo.loops).
Proof.
  split; [vm_compute; reflexivity|].
  destruct portkey_demo_loops as (a & st & l1 & l2 & Hloops & Hu1 & Hu2 & Hidx).
  destruct (portkey_New_ok LogsSettings.Sim.dur id id rev_string PkDemo.cfg PkDemo.loops portkey_demo_built) as (Hn & Hk & _).
  - rewrite Hloops. intros l l' Hin Hin' Hfp. unfold logs_input.
    assert (l = l1 \/ l = l2) as Hc by (clear -Hin; set_solver). assert (l' = l1 \/ l' = l2) as Hc' by (clear -Hin'; set_solver).
    destruct Hc as [-> | ->], Hc' as [-> | ->]; try reflexivity; exfalso;
      revert Hfp; rewrite ?Hidx, Hu1, Hu2; unfold Fingerprint, fingerprint_input; rewrite !rev_string_app; vm_compute; discriminate.
  - split; [rewrite Hn; vm_compute; reflexivity|exact Hk].
Defined.
