(* ===== verification/LangsmithStrip.v ===== *)
(** * The LangSmith run strip (internal/source/langsmith/runs_strip.go)

    Every run record passes [run_strip], a default-deny allow-list, before it
    becomes a log record.  [time.Parse] and [strconv.FormatFloat] are
    parameters; decoded JSON is [PortkeyStrip]'s. *)

From S2P Require Import Prelude Model Guard PortkeyStrip.

Record runsFieldPolicy := mkRunsPolicy { rp_indexed : gset string; rp_record : gset string }.

Definition defaultRunsFieldPolicy : runsFieldPolicy :=
  mkRunsPolicy (list_to_set ["run_type"; "status"])
    (list_to_set ["id"; "trace_id"; "session_id"; "parent_run_id"; "start_time"; "end_time"; "first_token_time";
                  "total_tokens"; "prompt_tokens"; "completion_tokens"; "total_cost"; "prompt_cost"; "completion_cost";
                  "dotted_order"; "thread_id"]).

Definition runs_withExtraRecordFields (p : runsFieldPolicy) (extra : list string) : runsFieldPolicy :=
  match extra with [] => p | _ => mkRunsPolicy (rp_indexed p) (rp_record p ∪ list_to_set extra) end.

Definition runs_withExtraIndexedFields (p : runsFieldPolicy) (extra : list string) : runsFieldPolicy :=
  match extra with [] => p | _ => mkRunsPolicy (rp_indexed p ∪ list_to_set extra) (rp_record p) end.

(** A key of both tiers is listed twice, as the two loops append it. *)
Definition selectKeys (p : runsFieldPolicy) : list string := sort_strings (elements (rp_indexed p) ++ elements (rp_record p)).

Definition validLangsmithSelectEnum : gset string := list_to_set
  ["id"; "name"; "run_type"; "start_time"; "end_time"; "status"; "error"; "extra"; "events"; "inputs";
   "inputs_preview"; "inputs_s3_urls"; "inputs_or_signed_url"; "outputs"; "outputs_preview"; "outputs_s3_urls";
   "outputs_or_signed_url"; "s3_urls"; "error_or_signed_url"; "events_or_signed_url"; "extra_or_signed_url";
   "serialized_or_signed_url"; "parent_run_id"; "manifest_id"; "manifest_s3_id"; "manifest"; "session_id";
   "serialized"; "reference_example_id"; "reference_dataset_id"; "total_tokens"; "prompt_tokens";
   "prompt_token_details"; "completion_tokens"; "completion_token_details"; "total_cost"; "prompt_cost";
   "prompt_cost_details"; "completion_cost"; "completion_cost_details"; "price_model_id"; "first_token_time";
   "trace_id"; "dotted_order"; "last_queued_at"; "feedback_stats"; "child_run_ids"; "parent_run_ids"; "tags";
   "in_dataset"; "app_path"; "share_token"; "trace_tier"; "trace_first_received_at"; "ttl_seconds";
   "trace_upgrade"; "thread_id"; "trace_min_max_start_time"; "messages"; "inserted_at"].

Definition severityFor (status : string) : string :=
  if decide (status ∈ ["error"; "timeout"; "interrupted"]) then "ERROR" else "INFO".

Definition runTimeLayouts : list string :=
  ["2006-01-02T15:04:05.999999999"; "2006-01-02T15:04:05"; "2006-01-02T15:04:05.999999999Z07:00"; "2006-01-02T15:04:05Z07:00"].

Definition run_stampSource (lr : LogRecord) : LogRecord := with_record (<["source" := "langsmith"]> (l_RecordAttributes lr)) lr.

Definition with_severity (s : string) (lr : LogRecord) : LogRecord :=
  mkLogRecord (l_Timestamp lr) (l_Body lr) s (l_IndexedAttributes lr) (l_RecordAttributes lr) (l_TraceID lr).

Section strip.
(** [strconv.FormatFloat(f, 'f', -1, 64)] and [time.Parse(layout, s)]. *)
Context (FormatFloat : spec_float -> string) (time_Parse : string -> string -> option Time).

(** The first layout that parses. *)
Definition parseRunTime (v : option json) : option Time :=
  match v with
  | Some (JStr s) => if decide (s = "") then None else head (omap (fun layout => time_Parse layout s) runTimeLayouts)
  | _ => None
  end.

Definition scalarValue (v : json) : option string :=
  match v with
  | JStr s => Some s
  | JNum (Some f) => Some (FormatFloat f)
  | JBool b => Some (if b then "true" else "false")
  | _ => None
  end.

(** A scalar, or a non-empty array of scalars joined by commas. *)
Definition run_scalarToString (v : json) : option string :=
  match v with
  | JArr [] => None
  | JArr elems => join_with ","%char <$> mapM scalarValue elems
  | _ => scalarValue v
  end.

(** One iteration of the loop of [strip]. *)
Definition run_strip_field (p : runsFieldPolicy) (k : string) (v : json) (lr : LogRecord) : LogRecord :=
  match (if decide (k ∈ rp_indexed p) then Some true else if decide (k ∈ rp_record p) then Some false else None) with
  | None => lr
  | Some dst =>
      match run_scalarToString v with
      | None => lr
      | Some s => if dst : bool then with_indexed (<[k := s]> (l_IndexedAttributes lr)) lr
                  else with_record (<[k := s]> (l_RecordAttributes lr)) lr
      end
  end.

Definition run_strip (p : runsFieldPolicy) (raw : gmap string json) (fallbackTS : Time) : LogRecord :=
  let lr := map_fold (run_strip_field p) (mkLogRecord fallbackTS "" "" ∅ ∅ "") raw in
  let lr := match parseRunTime (raw !! "start_time") with Some ts => with_timestamp ts lr | None => lr end in
  let lr := with_severity (severityFor (default "" (l_IndexedAttributes lr !! "status"))) lr in
  run_stampSource lr.

(** ** What the strip lets through *)

Definition run_field (raw : gmap string json) (k : string) : option string := raw !! k ≫= run_scalarToString.

Definition kept_indexed (p : runsFieldPolicy) (raw : gmap string json) (k : string) : option string :=
  if decide (k ∈ rp_indexed p) then run_field raw k else None.
Definition kept_run_record (p : runsFieldPolicy) (raw : gmap string json) (k : string) : option string :=
  if decide (k ∈ rp_record p ∖ rp_indexed p) then run_field raw k else None.

Lemma run_strip_loop p ts raw :
  let lr := map_fold (run_strip_field p) (mkLogRecord ts "" "" ∅ ∅ "") raw in
  (l_Timestamp lr = ts /\ l_Body lr = "" /\ l_TraceID lr = "") /\
  (forall k, l_IndexedAttributes lr !! k = kept_indexed p raw k) /\
  (forall k, l_RecordAttributes lr !! k = kept_run_record p raw k).
Proof.
  apply (map_fold_weak_ind (fun lr raw =>
    (l_Timestamp lr = ts /\ l_Body lr = "" /\ l_TraceID lr = "") /\
    (forall k, l_IndexedAttributes lr !! k = kept_indexed p raw k) /\
    (forall k, l_RecordAttributes lr !! k = kept_run_record p raw k))).
  { split_and!; try done; intros k; unfold kept_indexed, kept_run_record, run_field; rewrite !lookup_empty; by case_decide. }
  intros k v m lr Hk ((Ht & Hb & Htr) & Hi & Hr). unfold run_strip_field.
  assert (Hother : forall k', k' <> k -> run_field (<[k := v]> m) k' = run_field m k').
  { intros k' Hne. unfold run_field. by rewrite lookup_insert_ne. }
  assert (Hthis : run_field (<[k := v]> m) k = run_scalarToString v /\ run_field m k = None).
  { unfold run_field. by rewrite lookup_insert_eq, Hk. }
  destruct Hthis as [Hthis Hnone].
  assert (Hskip : (k ∈ rp_indexed p ∪ rp_record p -> run_scalarToString v = None) ->
    (forall k', kept_indexed p (<[k := v]> m) k' = kept_indexed p m k') /\
    (forall k', kept_run_record p (<[k := v]> m) k' = kept_run_record p m k')).
  { intros Hs. unfold kept_indexed, kept_run_record. split; intros k'; case_decide as Hin; try done;
      (destruct (decide (k' = k)) as [->|Hne]; [rewrite Hthis, Hnone; apply Hs; set_solver|by apply Hother]). }
  destruct (decide (k ∈ rp_indexed p)) as [Hin|Hin]; [|destruct (decide (k ∈ rp_record p)) as [Hrec|Hrec]].
  - destruct (run_scalarToString v) as [s|] eqn:Hs.
    + split; [done|]. unfold kept_indexed, kept_run_record in *. split; intros k'; simpl.
      * destruct (decide (k' = k)) as [->|Hne]; [rewrite lookup_insert_eq, decide_True by done; by rewrite Hthis|].
        rewrite lookup_insert_ne, Hi by done. by rewrite Hother.
      * rewrite Hr. case_decide; [|done]. symmetry. apply Hother. set_solver.
    + destruct Hskip as [H1 H2]; [done|]. split; [done|]. split; intros k'; [by rewrite Hi, H1|by rewrite Hr, H2].
  - destruct (run_scalarToString v) as [s|] eqn:Hs.
    + split; [done|]. unfold kept_indexed, kept_run_record in *. split; intros k'; simpl.
      * rewrite Hi. case_decide; [|done]. symmetry. apply Hother. set_solver.
      * destruct (decide (k' = k)) as [->|Hne]; [rewrite lookup_insert_eq, decide_True by set_solver; by rewrite Hthis|].
        rewrite lookup_insert_ne, Hr by done. by rewrite Hother.
    + destruct Hskip as [H1 H2]; [done|]. split; [done|]. split; intros k'; [by rewrite Hi, H1|by rewrite Hr, H2].
  - destruct Hskip as [H1 H2]; [set_solver|]. split; [done|]. split; intros k'; [by rewrite Hi, H1|by rewrite Hr, H2].
Qed.

(** What [run_strip] returns, field by field. *)
Lemma run_strip_spec p raw ts :
  let lr := run_strip p raw ts in
  l_Body lr = "" /\ l_TraceID lr = "" /\
  l_Timestamp lr = default ts (parseRunTime (raw !! "start_time")) /\
  l_Severity lr = severityFor (default "" (kept_indexed p raw "status")) /\
  (forall k, l_IndexedAttributes lr !! k = kept_indexed p raw k) /\
  (forall k, l_RecordAttributes lr !! k = if decide (k = "source") then Some "langsmith" else kept_run_record p raw k).
Proof.
  pose proof (run_strip_loop p ts raw) as ((Ht & Hb & Htr) & Hi & Hr). unfold run_strip. set (lr := map_fold _ _ _) in *.
  assert (forall k, <["source" := "langsmith"]> (l_RecordAttributes lr) !! k =
    if decide (k = "source") then Some "langsmith" else kept_run_record p raw k) as Hs.
  { intros k. rewrite <-Hr. case_decide as Hk; [rewrite Hk; by rewrite lookup_insert_eq|by rewrite lookup_insert_ne]. }
  destruct (parseRunTime (raw !! "start_time")) as [t|]; simpl; rewrite ?Hi; by split_and!.
Qed.
End strip.
