(* ===== verification/LangsmithPages.v ===== *)
(** * LangSmith: the API and its paging (internal/source/langsmith)

    The interface of the LangSmith API, and the offset/limit page loop that
    the sessions loop, the usage loop and the discovery of projects each
    contain (langsmith.go, usage.go, runs_discover.go). *)

From S2P Require Import Prelude Model Source.

(** The body of POST /runs/query. *)
Record RunsQuery := mkRunsQuery {
  rq_session : list string; rq_select : list string; rq_start : string; rq_end : string; rq_limit : Z;
  rq_cursor : option string; rq_is_root : bool; rq_run_type : option string
}.

(** A request through the hardened client: [None] is a transport error,
    otherwise the status and the body. *)
Class LangsmithAPI (W : Type) := {
  ls_Get : string -> W -> option (Z * string) * W;
  ls_Query : RunsQuery -> W -> option (Z * string) * W;
  ls_Stats : string -> string -> W -> option (Z * string) * W;
  ls_now : W -> Time
}.

Inductive LsErr := LsBadURL | LsTransport | LsDecode | LsQuota | LsStatus (code : Z) (detail : string) | LsEmptyScope.

Inductive LsEvent :=
| LsAuthError                       (* onAuthError *)
| LsIncomplete (reason : string)    (* onDataIncomplete *).

#[export] Instance LsErr_eq_dec : EqDecision LsErr.
Proof. solve_decision. Defined.
#[export] Instance LsEvent_eq_dec : EqDecision LsEvent.
Proof. solve_decision. Defined.

(** The query every GET /sessions shares. *)
Definition setSessionsPageQuery (limit offset : Z) (filter : string) : list (string * string) :=
  [("sort_by", "start_time"); ("sort_by_desc", "true"); ("limit", FormatInt limit); ("offset", FormatInt offset)]
  ++ (if decide (filter = "") then [] else [("filter", filter)]).

(** [sort.Slice] by id: with distinct ids every sort returns this list. *)
Definition id_le {Row} (idof : Row -> string) (a b : Row) : Prop := String.le (idof a) (idof b).
#[export] Instance id_le_dec {Row} (idof : Row -> string) a b : Decision (id_le idof a b) := decide (String.le (idof a) (idof b)).
#[export] Instance id_le_trans {Row} (idof : Row -> string) : Transitive (id_le idof).
Proof. intros x y z. apply (transitivity (R := String.le)). Qed.
#[export] Instance id_le_total {Row} (idof : Row -> string) : Total (id_le idof).
Proof. intros x y. apply (total String.le). Qed.
Definition sort_by_id {Row} (idof : Row -> string) (rows : list Row) : list Row := merge_sort (id_le idof) rows.

Lemma sort_by_id_perm {Row} (idof : Row -> string) rows : sort_by_id idof rows ≡ₚ rows.
Proof. apply merge_sort_Permutation. Qed.

(** The order the server lists rows in does not matter. *)
Lemma sort_by_id_unique {Row} (idof : Row -> string) rows rows' :
  rows ≡ₚ rows' -> NoDup (map idof rows) -> sort_by_id idof rows = sort_by_id idof rows'.
Proof.
  intros Hp Hnd. apply (StronglySorted_unique_strong (id_le idof)).
  - intros x y Hx Hy Hxy Hyx. rewrite sort_by_id_perm in Hx, Hy. rewrite <-Hp in Hy.
    apply (NoDup_fmap_inj idof rows); [done..|]. by apply (anti_symm String.le).
  - apply StronglySorted_merge_sort; apply _.
  - apply StronglySorted_merge_sort; apply _.
  - by rewrite !sort_by_id_perm.
Qed.

(** ** The page loop *)

Section paging.
Context {W Row : Type} (idof : Row -> string) (skip : string -> bool).
(** One page at an offset: an error, or its rows. *)
Context (fetch : Z -> W -> result LsErr (list Row) * list LsEvent * W).
Context (limit cap : Z).

(** The row loop: the rows kept, the ids seen, how many were new, and whether
    the cap was reached. *)
Fixpoint add_page (page : list Row) (seen : gset string) (out : list Row) (added : nat) : list Row * gset string * nat * bool :=
  match page with
  | [] => (out, seen, added, false)
  | s :: page =>
      if skip (idof s) || bool_decide (idof s ∈ seen) then add_page page seen out added
      else
        let out := out ++ [s] in
        let seen := {[idof s]} ∪ seen in
        if (cap <=? Z.of_nat (length out))%Z then (out, seen, S added, true) else add_page page seen out (S added)
  end.

(** [None]: out of fuel.  The flag says that the cap was reached. *)
Fixpoint page_loop (fuel : nat) (offset : Z) (seen : gset string) (out : list Row) (w : W)
    : option (result LsErr (list Row * bool) * list LsEvent * W) :=
  match fuel with
  | O => None
  | S fuel =>
      let '(r, ev, w) := fetch offset w in
      match r with
      | Err e => Some (Err e, ev, w)
      | Ok page =>
          let '(out, seen, added, capped) := add_page page seen out 0 in
          if capped || (Z.of_nat (length page) <? limit)%Z || (added =? 0) then Some (Ok (out, capped), ev, w)
          else '(r, ev', w) ← page_loop fuel (wrap64 (offset + limit)) seen out w; Some (r, ev ++ ev', w)
      end
  end.

(** Every page but the last adds a row, so the cap bounds the pages. *)
Definition page_fuel : nat := S (Z.to_nat cap).

(** ** Termination and bounds *)

(** What the loop keeps: rows with distinct ids, all of them seen, fewer than
    the cap. *)
Record kept_ok (seen : gset string) (out : list Row) : Prop := {
  ko_nodup : NoDup (map idof out);
  ko_seen k : k ∈ seen <-> k ∈ map idof out;
  ko_skip s : s ∈ out -> skip (idof s) = false
}.

Lemma kept_ok_nil : kept_ok ∅ [].
Proof. split; [constructor|set_solver|by intros ? ?%elem_of_nil]. Qed.

Lemma kept_ok_snoc seen out s :
  kept_ok seen out -> skip (idof s) = false -> idof s ∉ seen -> kept_ok ({[idof s]} ∪ seen) (out ++ [s]).
Proof.
  intros [Hnd Hseen Hskip] Hs Hni. split.
  - rewrite map_app. apply NoDup_app. split_and!; [done| |apply NoDup_singleton].
    intros k Hk Hs'%list_elem_of_singleton. subst k. by apply Hni, Hseen.
  - intros k. rewrite map_app, elem_of_app, elem_of_union, elem_of_singleton, Hseen. cbn [map]. rewrite list_elem_of_singleton. tauto.
  - intros x [Hx|Hx%list_elem_of_singleton]%elem_of_app; [auto|by subst].
Qed.

Lemma add_page_ok page seen out added out' seen' added' capped :
  kept_ok seen out -> (Z.of_nat (length out) < cap)%Z ->
  add_page page seen out added = (out', seen', added', capped) ->
  kept_ok seen' out' /\ length out' + added = length out + added' /\ (Z.of_nat (length out') <= cap)%Z /\
  (capped = false -> (Z.of_nat (length out') < cap)%Z) /\ (capped = true -> Z.of_nat (length out') = cap).
Proof.
  revert seen out added. induction page as [|s page IH]; intros seen out added Hk Hlt; cbn [add_page].
  { intros [= <- <- <- <-]. split_and!; try done; lia. }
  destruct (skip (idof s) || bool_decide (idof s ∈ seen)) eqn:Hs; [by apply IH|].
  apply orb_false_iff in Hs as [Hs Hin]. apply bool_decide_eq_false in Hin. pose proof (kept_ok_snoc _ _ _ Hk Hs Hin) as Hk'.
  assert (length (out ++ [s]) = S (length out)) as Hl by (rewrite length_app; cbn; lia).
  destruct (Z.leb_spec cap (Z.of_nat (length (out ++ [s])))).
  - intros [= <- <- <- <-]. split_and!; try done; lia.
  - intros Hadd. apply IH in Hadd as (H1 & H2 & H3 & H4 & H5); [|done|lia]. split_and!; try done. lia.
Qed.

Lemma page_loop_ok fuel offset seen out w :
  kept_ok seen out -> (Z.of_nat (length out) < cap)%Z -> Z.to_nat cap < fuel + length out ->
  exists r ev w', page_loop fuel offset seen out w = Some (r, ev, w') /\
  forall out' capped, r = Ok (out', capped) -> NoDup (map idof out') /\ (Z.of_nat (length out') <= cap)%Z.
Proof.
  revert offset seen out w. induction fuel as [|fuel IH]; intros offset seen out w Hk Hlt Hf; [lia|]. cbn [page_loop].
  destruct (fetch offset w) as [[[page|e] ev] w1]; [|do 3 eexists; split; [reflexivity|done]].
  destruct (add_page page seen out 0) as [[[out1 seen1] added] capped] eqn:Ha.
  apply add_page_ok in Ha as (Hk1 & Hlen & Hle & Hnc & _); [|done|done].
  destruct (capped || _ || _) eqn:Hstop.
  - do 3 eexists. split; [reflexivity|]. intros ? ? [= <- <-]. split; [apply Hk1|done].
  - apply orb_false_iff in Hstop as [[Hc _]%orb_false_iff Hadd]. apply Nat.eqb_neq in Hadd. subst capped.
    destruct (IH (wrap64 (offset + limit)) seen1 out1 w1) as (r & ev' & w' & -> & Hr); [done|auto|lia|].
    do 3 eexists. split; [reflexivity|done].
Qed.

Lemma add_page_no_room page seen out added out' seen' added' :
  (cap <= 0)%Z -> add_page page seen out added = (out', seen', added', false) -> added' = added.
Proof.
  intros Hcap. revert seen. induction page as [|s page IH]; intros seen; cbn [add_page]; [by intros [= _ _ <-]|].
  destruct (_ || _); [apply IH|]. rewrite (proj2 (Z.leb_le _ _)) by lia. done.
Qed.

(** The loop ends whatever the server answers and whatever the cap is. *)
Lemma page_loop_total offset w : exists r ev w', page_loop page_fuel offset ∅ [] w = Some (r, ev, w').
Proof.
  destruct (Z.lt_ge_cases 0 cap) as [Hpos|Hneg].
  - destruct (page_loop_ok page_fuel offset ∅ [] w) as (r & ev & w' & -> & _);
      [apply kept_ok_nil|done|unfold page_fuel; cbn; lia|eauto].
  - unfold page_fuel. cbn [page_loop]. destruct (fetch offset w) as [[[page|e] ev] w1]; [|eauto].
    destruct (add_page page ∅ [] 0) as [[[out seen] added] []] eqn:Ha; [by eauto|]. apply add_page_no_room in Ha as ->; [|done].
    rewrite orb_true_r. eauto.
Qed.

(** ** A server that pages a table *)

(** Every page served is the slice of [table] at its offset. *)
Definition serves_table (table : list Row) : Prop :=
  forall offset w page ev w', (0 <= offset)%Z -> fetch offset w = (Ok page, ev, w') ->
    page = take (Z.to_nat limit) (drop (Z.to_nat offset) table).

Lemma add_page_fresh page seen out added :
  (forall s, s ∈ page -> skip (idof s) = false /\ idof s ∉ seen) -> NoDup (map idof page) -> (Z.of_nat (length out) < cap)%Z ->
  exists seen' added',
    add_page page seen out added =
      (take (Z.to_nat cap) (out ++ page), seen', added', (cap <=? Z.of_nat (length (out ++ page)))%Z && negb (bool_decide (page = []))) /\
    ((Z.of_nat (length (out ++ page)) < cap)%Z ->
       added' = added + length page /\ forall k, k ∈ seen' <-> k ∈ seen \/ k ∈ map idof page).
Proof.
  revert seen out added. induction page as [|s page IH]; intros seen out added Hfresh Hnd Hlt; cbn [add_page].
  { exists seen, added. rewrite app_nil_r, take_ge by lia. split; [by rewrite andb_false_r|]. intros _. split; [cbn; lia|]. set_solver. }
  apply NoDup_cons in Hnd as [Hni Hnd]. destruct (Hfresh s ltac:(left)) as [Hs Hin]. rewrite Hs, bool_decide_false by done. cbn [orb].
  assert (length (out ++ [s]) = S (length out)) as Hl by (rewrite length_app; cbn; lia).
  rewrite (bool_decide_false (s :: page = [])) by done. cbn [negb]. rewrite andb_true_r.
  replace (out ++ s :: page) with ((out ++ [s]) ++ page) by by rewrite <-app_assoc.
  destruct (Z.leb_spec cap (Z.of_nat (length (out ++ [s])))) as [Hc|Hc].
  - do 2 eexists. split; [|rewrite length_app; lia].
    rewrite (proj2 (Z.leb_le cap _)) by (rewrite length_app; lia). rewrite take_app_le by lia. by rewrite take_ge by lia.
  - destruct (IH ({[idof s]} ∪ seen) (out ++ [s]) (S added)) as (seen' & added' & -> & Hmore); [|done|done|].
    { intros x Hx. destruct (Hfresh x ltac:(by right)) as [Hx1 Hx2]. split; [done|]. rewrite elem_of_union, elem_of_singleton.
      intros [Heq|?]; [|done]. apply Hni. rewrite <-Heq. by apply list_elem_of_fmap_2. }
    do 2 eexists. split.
    + f_equal. destruct page as [|x page]; [rewrite app_nil_r|by rewrite bool_decide_false, andb_true_r by done].
      rewrite bool_decide_true, andb_false_r by done. symmetry. by apply Z.leb_gt.
    + intros Hlt'. destruct (Hmore Hlt') as [-> Hk]. split; [cbn; lia|]. intros k. rewrite Hk. cbn [map]. set_solver.
Qed.

Lemma page_loop_exact table fuel offset seen out w r ev w' :
  serves_table table -> NoDup (map idof table) -> (forall s, s ∈ table -> skip (idof s) = false) ->
  (0 < limit)%Z -> (Z.of_nat (length table) + limit < 2 ^ 63)%Z ->
  (0 <= offset)%Z -> out = take (Z.to_nat offset) table -> (forall k, k ∈ seen <-> k ∈ map idof out) ->
  (offset <= Z.of_nat (length table))%Z -> (offset < cap)%Z ->
  page_loop fuel offset seen out w = Some (Ok r, ev, w') -> r = (take (Z.to_nat cap) table, (cap <=? Z.of_nat (length table))%Z).
Proof.
  intros Hs Hnd Hskip Hlim Hfit. revert offset seen out w ev. induction fuel as [|fuel IH]; intros offset seen out w ev Ho Hout Hseen Hoff Hcap; [done|].
  cbn [page_loop]. destruct (fetch offset w) as [[[page|e] ev1] w1] eqn:Hf; [|by intros [= ?]].
  pose proof (Hs offset w page ev1 w1 Ho Hf) as Hpage.
  assert (out ++ page = take (Z.to_nat (offset + limit)) table) as Happ.
  { rewrite Hout, Hpage, Z2Nat.inj_add by lia. by rewrite take_take_drop. }
  assert (length out = Z.to_nat offset) as Hlo by (rewrite Hout, length_take; lia).
  assert (NoDup (map idof (out ++ page))) as Hndp.
  { rewrite Happ. rewrite <-(take_drop (Z.to_nat (offset + limit)) table), map_app in Hnd. by apply NoDup_app in Hnd as (? & _). }
  rewrite map_app in Hndp. apply NoDup_app in Hndp as (_ & Hdisj & Hndp).
  assert (Hin : forall s, s ∈ page -> s ∈ table).
  { intros s Hin. assert (s ∈ out ++ page) as Hx by (apply elem_of_app; by right). rewrite Happ in Hx.
    by apply list_elem_of_lookup in Hx as (i & [?%list_elem_of_lookup_2 _]%lookup_take_Some). }
  assert (length page = Z.to_nat limit `min` (length table - Z.to_nat offset)) as Hlp by (rewrite Hpage, length_take, length_drop; lia).
  destruct (add_page_fresh page seen out 0) as (seen' & added & -> & Hmore); [|done|lia|].
  { intros s Hp. split; [by apply Hskip, Hin|]. rewrite Hseen. intros Ho'. apply (Hdisj (idof s)); [done|]. by apply list_elem_of_fmap_2. }
  assert (length (out ++ page) = Z.to_nat (offset + limit) `min` length table) as Hl by (rewrite Happ; apply length_take).
  rewrite Happ in Hl, Hmore |- *. rewrite Hl in Hmore |- *.
  destruct (Z.leb_spec cap (Z.of_nat (Z.to_nat (offset + limit) `min` length table))) as [Hc|Hc].
  - rewrite bool_decide_false by (intros ->; cbn in Hlp; lia). intros [= <- _ _]. f_equal; [|symmetry; apply Z.leb_le; lia].
    rewrite take_take. f_equal. lia.
  - destruct (Hmore Hc) as [-> Hkeys]. rewrite take_take. cbn [andb orb Nat.add].
    destruct (Z.ltb_spec (Z.of_nat (length page)) limit) as [Hshort|Hfull].
    + intros [= <- _ _]. f_equal; [rewrite !take_ge by lia; done|symmetry; apply Z.leb_gt; lia].
    + rewrite (proj2 (Nat.eqb_neq (length page) 0)) by lia. cbn [orb]. rewrite wrap64_id by (unfold in_int64, minInt64, maxInt64; lia).
      destruct (page_loop _ _ _ _ _) as [[[r1 ev2] w2]|] eqn:Hrec; [|done]. intros [= -> _ ->]. revert Hrec. apply IH; [lia| | |lia|lia].
      * f_equal. lia.
      * intros k. rewrite Hkeys, Hseen. replace (Z.to_nat cap `min` Z.to_nat (offset + limit)) with (Z.to_nat (offset + limit)) by lia.
        by rewrite <-Happ, map_app, elem_of_app.
Qed.

(** The loop fails only when a page does. *)
Lemma page_loop_succeeds fuel offset seen out w r ev w' :
  (forall offset w, exists page ev w', fetch offset w = (Ok page, ev, w')) ->
  page_loop fuel offset seen out w = Some (r, ev, w') -> exists x, r = Ok x.
Proof.
  intros Hf. revert offset seen out w ev. induction fuel as [|fuel IH]; intros offset seen out w ev; [done|]. cbn [page_loop].
  destruct (Hf offset w) as (page & ev1 & w1 & ->). destruct (add_page page seen out 0) as [[[out1 seen1] added] capped].
  destruct (_ || _); [intros [= <- _ _]; by eexists|].
  destruct (page_loop fuel _ _ _ _) as [[[r1 ev2] w2]|] eqn:Hrec; [|done]. intros [= -> _ ->]. by eapply IH.
Qed.

(** From the start, a table served in pages is collected up to the cap. *)
Lemma page_loop_table table w :
  serves_table table -> NoDup (map idof table) -> (forall s, s ∈ table -> skip (idof s) = false) ->
  (0 < limit)%Z -> (0 < cap)%Z -> (Z.of_nat (length table) + limit < 2 ^ 63)%Z ->
  exists r ev w', page_loop page_fuel 0 ∅ [] w = Some (r, ev, w') /\
  (forall x, r = Ok x -> x = (take (Z.to_nat cap) table, (cap <=? Z.of_nat (length table))%Z)) /\
  ((forall offset w, exists page ev w', fetch offset w = (Ok page, ev, w')) -> exists x, r = Ok x).
Proof.
  intros Hs Hnd Hsk Hl Hc Hfit. destruct (page_loop_total 0 w) as (r & ev & w' & Hr). do 3 eexists. split; [exact Hr|]. split.
  - intros x ->. eapply page_loop_exact in Hr; try done; [set_solver|lia].
  - intros Hf. by eapply page_loop_succeeds.
Qed.
End paging.
