(* ===== verification/LangsmithRuns.v ===== *)
(** * The LangSmith runs loop (internal/source/langsmith: runs.go,
      runs_client.go, runs_discover.go)

    The cursor of a window, the resolution of the project scope with its
    in-memory cache, one page of /runs/query and one [Collect], then what any
    sequence of ticks guarantees.  One page is drained per tick; the frontier
    moves only when a window is exhausted or cut short with a counted gap. *)

From S2P Require Import Prelude Model Source Httpx PortkeyStrip LangsmithStrip LangsmithPages.

(** ** Data *)

Record runsCursor := mkRunsCursor { rc_WinMin : string; rc_WinMax : string; rc_Next : string; rc_Page : Z }.
Definition idleRunsCursor : runsCursor := mkRunsCursor "" "" "" 0.

Record runsLoop := mkRunsLoop {
  rl_baseURL : string; rl_sourceInstance : string;
  rl_sessionIDs : list string; rl_sessionFilter : string; rl_maxSessions : Z; rl_selectFields : list string;
  rl_cadence : Duration; rl_window : Duration; rl_settle : Duration; rl_maxBackfill : Duration;
  rl_pageSize : Z; rl_maxPagesPerWindow : Z; rl_maxResponseBytes : Z; rl_sessionRefresh : Duration;
  rl_rootOnly : bool; rl_runType : string; rl_policy : runsFieldPolicy
}.

(** The loop's only mutable fields; a new process starts with [noDiscovery]. *)
Record discovery := mkDiscovery { cachedSessions : list string; cachedAt : Time }.
Definition noDiscovery : discovery := mkDiscovery [] zeroTime.

Definition IncompleteWindowTruncated : string := "window_truncated".
Definition IncompleteSessionsTruncated : string := "sessions_truncated".
Definition IncompleteBackfillSkipped : string := "backfill_skipped".
Definition windowTruncated : LsEvent := LsIncomplete IncompleteWindowTruncated.
Definition sessionsTruncated : LsEvent := LsIncomplete IncompleteSessionsTruncated.
Definition backfillSkipped : LsEvent := LsIncomplete IncompleteBackfillSkipped.

Definition defaultRunsResponseBytes : Z := 32 * 2 ^ 20.
Definition respCap (l : runsLoop) : Z :=
  if (0 <? rl_maxResponseBytes l)%Z then rl_maxResponseBytes l else defaultRunsResponseBytes.

Definition errBodySuffix (snippet : string) : string := if decide (snippet = "") then "" else ": " +:+ snippet.

(** Logs only. *)
Definition runs_SeriesNames (l : runsLoop) : list string := [].
Definition runs_IndexedKeys (l : runsLoop) : list string := sort_strings (elements (rp_indexed (rl_policy l))).

Section runs.
Context {W : Type} `{LangsmithAPI W}.
(** [json.Marshal] and [json.Unmarshal] of a cursor; [json.Decoder.Decode] of
    a page of runs with its next token, and of a page of session ids. *)
Context (cursor_json : runsCursor -> string) (cursor_unjson : string -> option runsCursor).
Context (dec_runs : string -> option (list (gmap string json) * string)) (dec_ids : string -> option (list string)).
(** [time.Format] and [time.Parse] with RFC3339Nano, [time.Format] with RFC3339. *)
Context (fmt_nano : Time -> string) (parse_nano : string -> option Time) (fmt_rfc3339 : Time -> string).
(** [url.Parse] and [Values.Encode]. *)
Context (url_with : string -> list (string * string) -> option string).
(** [strconv.FormatFloat], [time.Parse(layout, s)], and [strings.Fields] and
    [strings.TrimSpace] beyond ASCII. *)
Context (FormatFloat : spec_float -> string) (time_Parse : string -> string -> option Time).
Context (fields_uni : string -> list string) (trim_uni : string -> string).
(** The fingerprint hash of [model.Fingerprint]. *)
Context (sha256_hex : string -> string).

Definition runs_Key (l : runsLoop) : CheckpointKey :=
  mkKey (rl_sourceInstance l) "runs" (Fingerprint sha256_hex trim_uni (runs_IndexedKeys l) "runs").

(** ** The cursor *)

Definition decodeRunsCursor (s : string) : runsCursor :=
  if decide (s = "") then idleRunsCursor else default idleRunsCursor (cursor_unjson s).

Definition run_parseCursorTime (s : string) : option Time := if decide (s = "") then None else parse_nano s.

Definition run_windowBounds (c : runsCursor) : option (Time * Time) :=
  winMin ← run_parseCursorTime (rc_WinMin c); winMax ← run_parseCursorTime (rc_WinMax c); Some (winMin, winMax).

(** ** The scope (runs_discover.go) *)

Definition discoverPageLimit : Z := 100.

(** One page of GET /sessions, ids only. *)
Definition discover_page (l : runsLoop) (offset : Z) (w : W) : result LsErr (list string) * list LsEvent * W :=
  match url_with (rl_baseURL l +:+ "/sessions") (setSessionsPageQuery discoverPageLimit offset (rl_sessionFilter l)) with
  | None => (Err LsBadURL, [], w)
  | Some url =>
      let '(resp, w) := ls_Get url w in
      match resp with
      | None => (Err LsTransport, [], w)
      | Some (code, body) =>
          if decide (code = 429%Z) then (Err LsQuota, [], w)
          else if decide (code = 200%Z) then
            match dec_ids (LimitReader (respCap l) body) with Some page => (Ok page, [], w) | None => (Err LsDecode, [], w) end
          else (Err (LsStatus code (errBodySuffix (ErrSnippet fields_uni (Some body)))), [], w)
      end
  end.

(** [None]: out of fuel. *)
Definition listSessionIDs (l : runsLoop) (w : W) : option (result LsErr (list string) * list LsEvent * W) :=
  '(r, ev, w) ← page_loop id (fun k => bool_decide (k = "")) (discover_page l) discoverPageLimit (rl_maxSessions l)
    (page_fuel (rl_maxSessions l)) 0 ∅ [] w;
  Some (match r with
        | Err e => (Err e, ev, w)
        | Ok (ids, capped) => (Ok ids, ev ++ (if capped : bool then [sessionsTruncated] else []), w)
        end).

Definition resolveSessions (l : runsLoop) (now : Time) (draining : bool) (d : discovery) (w : W)
    : option (result LsErr (list string) * list LsEvent * discovery * W) :=
  if bool_decide (rl_sessionIDs l <> []) then Some (Ok (rl_sessionIDs l), [], d, w)
  else if bool_decide (cachedSessions d <> []) && (draining || (Sub now (cachedAt d) <? rl_sessionRefresh l)%Z)
  then Some (Ok (cachedSessions d), [], d, w)
  else
    '(r, ev, w) ← listSessionIDs l w;
    Some (match r with
          | Err e => (Err e, ev, d, w)
          | Ok ids => if decide (ids = []) then (Err LsEmptyScope, ev, d, w) else (Ok ids, ev, mkDiscovery ids now, w)
          end).

(** ** The client (runs_client.go) *)

Definition runs_query (l : runsLoop) (sessions : list string) (winMin winMax : Time) (cursor : string) : RunsQuery :=
  mkRunsQuery sessions (rl_selectFields l) (fmt_rfc3339 winMin) (fmt_rfc3339 winMax) (rl_pageSize l)
    (if decide (cursor = "") then None else Some cursor) (rl_rootOnly l) (if decide (rl_runType l = "") then None else Some (rl_runType l)).

(** The status, the records and token of a 200, and the error text of any other. *)
Definition queryRuns (l : runsLoop) (sessions : list string) (winMin winMax : Time) (cursor : string) (w : W)
    : result LsErr (Z * (list (gmap string json) * string) * string) * W :=
  let '(resp, w) := ls_Query (runs_query l sessions winMin winMax cursor) w in
  (match resp with
   | None => Err LsTransport
   | Some (code, body) =>
       if decide (code = 200%Z) then
         match dec_runs (LimitReader (respCap l) body) with Some out => Ok (code, out, "") | None => Err LsDecode end
       else Ok (code, ([], ""), ErrSnippet fields_uni (Some body))
   end, w).

(** ** Collect (runs.go) *)

(** The window an idle loop opens. *)
Definition openWindow (l : runsLoop) (t now : Time) : Time * Time * list LsEvent :=
  let winMin := if IsZero t then Add now (- rl_window l) else t in
  let floor := Add now (- rl_maxBackfill l) in
  let skipped := Before winMin floor in
  let winMin := if skipped then floor else winMin in
  let winMax := Add winMin (rl_window l) in
  let cutoff := Add now (- rl_settle l) in
  (winMin, if After winMax cutoff then cutoff else winMax, if skipped then [backfillSkipped] else []).

Definition page_logs (l : runsLoop) (winMax : Time) (runs : list (gmap string json)) : list LogRecord :=
  map (fun raw => run_strip FormatFloat time_Parse (rl_policy l) raw winMax) runs.

Abbreviation Outcome := (result LsErr Batch * list LsEvent * discovery * W)%type.

(** The page of a window at token [resume], after [page] pages. *)
Definition drainPage (l : runsLoop) (since : Watermark) (now winMin winMax : Time) (resume : string) (page : Z) (draining : bool)
    (d : discovery) (w : W) : option Outcome :=
  '(r, ev, d, w) ← resolveSessions l now draining d w;
  Some (match r with
  | Err e => (Err e, ev, d, w)
  | Ok sessions =>
      let '(q, w) := queryRuns l sessions winMin winMax resume w in
      match q with
      | Err e => (Err e, ev, d, w)
      | Ok (status, (runs, next), errBody) =>
          if decide (status = 200%Z) then
            let logs := page_logs l winMax runs in
            let page := wrap64 (page + 1) in
            if negb (bool_decide (next = "")) && (page <? rl_maxPagesPerWindow l)%Z then
              let nc := mkRunsCursor (fmt_nano winMin) (fmt_nano winMax) next page in
              (Ok (mkBatch (runs_Key l) [] logs (mkWm (wm_Time since) (cursor_json nc) 0)), ev, d, w)
            else
              (Ok (mkBatch (runs_Key l) [] logs (mkWm winMax "" 0)),
               ev ++ (if decide (next = "") then [] else [windowTruncated]), d, w)
          else if decide (status = 429%Z) then (Err LsQuota, ev, d, w)
          else (Err (LsStatus status (errBodySuffix errBody)), ev ++ (if IsAuthStatus status then [LsAuthError] else []), d, w)
      end
  end).

(** The window the cursor is draining. *)
Definition draining_of (cur : runsCursor) : option (Time * Time) :=
  if decide (rc_WinMax cur = "") then None else run_windowBounds cur.

Definition runs_Collect (l : runsLoop) (since : Watermark) (d : discovery) (w : W) : option Outcome :=
  let now := ls_now w in
  let cur := decodeRunsCursor (wm_Cursor since) in
  match draining_of cur with
  | Some (winMin, winMax) => drainPage l since now winMin winMax (rc_Next cur) (rc_Page cur) true d w
  | None =>
      let '(winMin, winMax, ev) := openWindow l (wm_Time since) now in
      if negb (After winMax winMin) then Some (Ok (mkBatch (runs_Key l) [] [] since), ev, d, w)
      else
        '(r, ev', d, w) ← drainPage l since now winMin winMax "" 0 false d w;
        Some (r, ev ++ ev', d, w)
  end.

(** With a back-fill bound no longer than the settle lag nothing ever settles:
    an idle tick asks for nothing and the watermark stays. *)
Lemma runs_never_settles l since d w :
  (rl_maxBackfill l <= rl_settle l < rl_window l)%Z -> draining_of (decodeRunsCursor (wm_Cursor since)) = None ->
  exists ev, runs_Collect l since d w = Some (Ok (mkBatch (runs_Key l) [] [] since), ev, d, w) /\
  (wm_Time since = zeroTime -> ev = [backfillSkipped]).
Proof.
  intros Hb Hi. unfold runs_Collect. rewrite Hi. unfold openWindow, Before, After, Add, IsZero, zeroTime.
  destruct (Z.eqb_spec (wm_Time since) 0) as [Hz|Hz].
  - rewrite (proj2 (Z.ltb_lt (ls_now w + - rl_window l) (ls_now w + - rl_maxBackfill l))) by lia.
    rewrite (proj2 (negb_true_iff _)); [by eexists|]. zbool; lia.
  - rewrite (proj2 (negb_true_iff _)); [by eexists|]. zbool; lia.
Qed.

(** ** What the server promises *)

Section guarantees.
Context (l : runsLoop).

(** The answer to a query is settled: the same request, with the same token,
    always gets the same page and the same next token. *)
Class RunsServer := {
  rs_answer : RunsQuery -> list (gmap string json) * string;
  rs_ok q w body w' out :
    ls_Query q w = (Some (200%Z, body), w') -> dec_runs (LimitReader (respCap l) body) = Some out -> out = rs_answer q
}.
Context `{RunsServer}.
Context (cursor_roundtrip : forall c, cursor_unjson (cursor_json c) = Some c).
Context (cursor_nonempty : forall c, cursor_json c <> "").
Context (parse_fmt : forall t t', parse_nano (fmt_nano t) = Some t' -> t' = t).
Context (clock_ok : forall w, (rl_window l <= ls_now w)%Z).
Context (pages_ok : (0 < rl_maxPagesPerWindow l <= maxInt64)%Z).

(** The token that follows [n] pages of a window, and the records of the pages. *)
Fixpoint token (scope : list string) (mn mx : Time) (n : nat) : string :=
  match n with 0 => "" | S n => (rs_answer (runs_query l scope mn mx (token scope mn mx n))).2 end.

Definition page_of (scope : list string) (mn mx : Time) (n : nat) : list LogRecord :=
  page_logs l mx (rs_answer (runs_query l scope mn mx (token scope mn mx n))).1.

Definition window_logs (scope : list string) (mn mx : Time) (n : nat) : list LogRecord := concat (map (page_of scope mn mx) (seq 0 n)).

(** The first [n] pages of a window follow one another. *)
Definition chained (scope : list string) (mn mx : Time) (n : nat) : Prop := forall i, 0 < i < n -> token scope mn mx i <> "".

(** The projects a draining window is bound to. *)
Definition scope_of (d : discovery) : list string := if decide (rl_sessionIDs l = []) then cachedSessions d else rl_sessionIDs l.

(** Where a window may start: at the frontier, at the first look-back, or at
    the back-fill floor past the frontier, which is counted. *)
Definition run_starts_at (t mn : Time) (evs : list LsEvent) : Prop :=
  mn = t \/ (t = zeroTime /\ exists now, mn = Add now (- rl_window l)) \/
  (backfillSkipped ∈ evs /\ (t < mn)%Z /\ exists now, mn = Add now (- rl_maxBackfill l)).

Record run_in_flight (c : runsCursor) (t : Time) (d : discovery) (em : list LogRecord) (evs : list LsEvent) (mn mx : Time) : Prop := {
  rf_order : (t <= mn < mx)%Z;
  rf_start : run_starts_at t mn evs;
  rf_page : (0 < rc_Page c < rl_maxPagesPerWindow l)%Z;
  rf_scope : scope_of d <> [];
  rf_chain : chained (scope_of d) mn mx (S (Z.to_nat (rc_Page c)));
  rf_next : rc_Next c = token (scope_of d) mn mx (Z.to_nat (rc_Page c));
  rf_sent : window_logs (scope_of d) mn mx (Z.to_nat (rc_Page c)) `sublist_of` em
}.

(** Every page before the cursor has been delivered. *)
Definition run_wm_inv (since : Watermark) (d : discovery) (em : list LogRecord) (evs : list LsEvent) : Prop :=
  forall mn mx, draining_of (decodeRunsCursor (wm_Cursor since)) = Some (mn, mx) ->
  run_in_flight (decodeRunsCursor (wm_Cursor since)) (wm_Time since) d em evs mn mx.

(** Why a frontier may advance to [b]'s time: the pages of a window that starts
    where it may are all delivered, up to the end of the chain or up to the
    page cap with the gap counted. *)
Definition run_advance_ok (since : Watermark) (b : Batch) (em : list LogRecord) (evs ev : list LsEvent) : Prop :=
  exists scope mn n,
    let mx := wm_Time (b_Watermark b) in
    (wm_Time since <= mn < mx)%Z /\ run_starts_at (wm_Time since) mn (evs ++ ev) /\ wm_Cursor (b_Watermark b) = "" /\
    scope <> [] /\ 0 < n /\ (Z.of_nat n <= rl_maxPagesPerWindow l)%Z /\ chained scope mn mx n /\
    window_logs scope mn mx n `sublist_of` em ++ b_Logs b /\
    (token scope mn mx n = "" \/ (windowTruncated ∈ ev /\ Z.of_nat n = rl_maxPagesPerWindow l)).

Definition run_step_ok (since : Watermark) (b : Batch) (d : discovery) (em : list LogRecord) (evs ev : list LsEvent) : Prop :=
  (wm_Time (b_Watermark b) = wm_Time since /\ run_wm_inv (b_Watermark b) d (em ++ b_Logs b) (evs ++ ev)) \/
  run_advance_ok since b em evs ev.

(** *** Lemmas *)

Lemma run_starts_more t mn evs ev : run_starts_at t mn evs -> run_starts_at t mn (evs ++ ev).
Proof. intros [?|[?|(? & ?)]]; [by left|by right; left|right; right]. split; [|done]. apply elem_of_app. by left. Qed.

Lemma openWindow_spec t now mn mx ev :
  (rl_window l <= now)%Z -> openWindow l t now = (mn, mx, ev) -> After mx mn = true -> (t <= mn < mx)%Z /\ run_starts_at t mn ev.
Proof.
  intros Hnow. unfold openWindow, run_starts_at, IsZero, Before, After, Add, zeroTime. intros [= Hmn Hmx Hev] Hlt. apply Z.ltb_lt in Hlt.
  clear Hmx. subst mn. revert Hlt Hev.
  destruct (Z.eqb_spec t 0) as [->|Hne]; zbool; intros ? <-; (split; [lia|]); eauto;
    right; right; (split; [by left|]); (split; [lia|]); by eexists.
Qed.

Lemma decode_cursor c : decodeRunsCursor (cursor_json c) = c.
Proof using cursor_roundtrip cursor_nonempty.
  unfold decodeRunsCursor. rewrite decide_False by apply cursor_nonempty. by rewrite cursor_roundtrip.
Qed.

Lemma draining_fmt mn mx next page mn' mx' :
  draining_of (mkRunsCursor (fmt_nano mn) (fmt_nano mx) next page) = Some (mn', mx') -> mn' = mn /\ mx' = mx.
Proof using parse_fmt.
  unfold draining_of, run_windowBounds, run_parseCursorTime. cbn [rc_WinMin rc_WinMax].
  destruct (decide (fmt_nano mx = "")); [done|]. destruct (decide (fmt_nano mn = "")); [done|].
  destruct (parse_nano (fmt_nano mn)) eqn:E1; [|done]. destruct (parse_nano (fmt_nano mx)) eqn:E2; [|done].
  intros [= <- <-]. split; by apply parse_fmt.
Qed.

Lemma listSessionIDs_total w : exists r ev w', listSessionIDs l w = Some (r, ev, w').
Proof.
  unfold listSessionIDs.
  destruct (page_loop_total id (fun k => bool_decide (k = "")) (discover_page l) discoverPageLimit (rl_maxSessions l) 0 w)
    as (r & ev & w' & ->). destruct r as [[ids capped]|e]; eauto.
Qed.

(** The scope is the one cached; a draining window never changes it. *)
Lemma resolveSessions_ok now draining d w :
  (draining = true -> scope_of d <> []) ->
  exists r ev d' w', resolveSessions l now draining d w = Some (r, ev, d', w') /\
  (draining = true -> d' = d) /\ forall ss, r = Ok ss -> ss = scope_of d' /\ ss <> [].
Proof.
  intros Hdr. unfold resolveSessions, scope_of in *. destruct (decide (rl_sessionIDs l = [])) as [Hs|Hs].
  2: { rewrite bool_decide_true by done. do 4 eexists. split; [reflexivity|]. split; [done|]. intros ss [= <-]. done. }
  rewrite bool_decide_false by (by intros []). destruct (bool_decide (cachedSessions d <> []) && _) eqn:Hc.
  { apply andb_true_iff in Hc as [Hc%bool_decide_eq_true _]. do 4 eexists. split; [reflexivity|]. split; [done|]. intros ss [= <-]. done. }
  assert (draining = false) as ->.
  { destruct draining; [|done]. rewrite bool_decide_true in Hc by auto. done. }
  destruct (listSessionIDs_total w) as (r & ev & w' & ->). cbn [mbind option_bind].
  destruct r as [ids|e]; [destruct (decide (ids = []))|]; do 4 eexists; (split; [reflexivity|]); split; try done.
  by intros ss [= <-].
Qed.

Lemma queryRuns_ok ss mn mx cursor w runs next e w' :
  queryRuns l ss mn mx cursor w = (Ok (200%Z, (runs, next), e), w') -> (runs, next) = rs_answer (runs_query l ss mn mx cursor).
Proof.
  unfold queryRuns. destruct (ls_Query _ w) as [[[code body]|] w1] eqn:Hq; [|by intros [= ?]].
  destruct (decide (code = 200%Z)) as [->|Hne].
  - destruct (dec_runs (LimitReader (respCap l) body)) as [out|] eqn:Hd; [|by intros [= ?]]. intros [= -> _ _]. by eapply rs_ok.
  - by intros [= ? ?].
Qed.

Lemma window_logs_S scope mn mx n : window_logs scope mn mx (S n) = window_logs scope mn mx n ++ page_of scope mn mx n.
Proof. unfold window_logs. rewrite seq_S, map_app, concat_app. cbn [map concat Nat.add]. by rewrite app_nil_r. Qed.

Lemma chained_S scope mn mx n : chained scope mn mx n -> (n = 0 \/ token scope mn mx n <> "") -> chained scope mn mx (S n).
Proof. intros Hc Ht i Hi. destruct (decide (i = n)) as [->|]; [destruct Ht; [lia|done]|apply Hc; lia]. Qed.

(** The page to drain, [page] pages after the start of the window. *)
Record run_position (d : discovery) (em : list LogRecord) (draining : bool) (resume : string) (page : nat) (mn mx : Time) : Prop := {
  po_scope : draining = true -> scope_of d <> [];
  po_start : draining = false -> page = 0;
  po_page : (Z.of_nat page < rl_maxPagesPerWindow l)%Z;
  po_chain : chained (scope_of d) mn mx (S page);
  po_next : resume = token (scope_of d) mn mx page;
  po_sent : window_logs (scope_of d) mn mx page `sublist_of` em
}.

(** A fresh window is at its start in any scope. *)
Lemma position_start d em mn mx : run_position d em false "" 0 mn mx.
Proof using pages_ok. split; try done; try lia; [intros i Hi; lia|apply sublist_nil_l]. Qed.

Lemma position_moves d d' em draining resume page mn mx :
  run_position d em draining resume page mn mx -> (draining = true -> d' = d) -> run_position d' em draining resume page mn mx.
Proof using pages_ok.
  intros Hp Hd. destruct draining; [by rewrite Hd|]. destruct Hp as [_ Hp _ _ -> _]. specialize (Hp eq_refl) as ->. apply position_start.
Qed.

(** One more page read. *)
Lemma position_read d em draining resume page mn mx runs next :
  run_position d em draining resume page mn mx -> (runs, next) = rs_answer (runs_query l (scope_of d) mn mx resume) ->
  next = token (scope_of d) mn mx (S page) /\ window_logs (scope_of d) mn mx (S page) `sublist_of` em ++ page_logs l mx runs /\
  wrap64 (Z.of_nat page + 1) = Z.of_nat (S page).
Proof using pages_ok.
  intros [Hsc Hst Hpg Hch -> Hsent] Hans. cbn [token]. rewrite <-Hans. split; [done|]. split.
  - rewrite window_logs_S. apply sublist_app; [done|]. unfold page_of. by rewrite <-Hans.
  - rewrite wrap64_id; [lia|]. unfold in_int64, minInt64, maxInt64 in *. lia.
Qed.

(** The last page of a window. *)
Lemma page_last since d em evs ev draining resume page mn mx runs next key :
  run_position d em draining resume page mn mx -> (wm_Time since <= mn < mx)%Z -> run_starts_at (wm_Time since) mn (evs ++ ev) ->
  scope_of d <> [] -> (runs, next) = rs_answer (runs_query l (scope_of d) mn mx resume) ->
  next = "" \/ (windowTruncated ∈ ev /\ (rl_maxPagesPerWindow l <= Z.of_nat (S page))%Z) ->
  run_advance_ok since (mkBatch key [] (page_logs l mx runs) (mkWm mx "" 0)) em evs ev.
Proof using pages_ok.
  intros Hp Hord Hstart Hne Hans Hlast. destruct (position_read _ _ _ _ _ _ _ _ _ Hp Hans) as (Hnext & Hlogs & _).
  destruct Hp as [_ _ Hpg Hch _ _]. exists (scope_of d), mn, (S page). cbn [b_Watermark wm_Time wm_Cursor b_Logs].
  repeat (split; [done||lia|]). rewrite <-Hnext. destruct Hlast as [|[? ?]]; [by left|right]. split; [done|lia].
Qed.

(** A page with more to come. *)
Lemma page_more since d em evs ev draining resume page mn mx runs next :
  run_position d em draining resume page mn mx -> (wm_Time since <= mn < mx)%Z -> run_starts_at (wm_Time since) mn (evs ++ ev) ->
  scope_of d <> [] -> (runs, next) = rs_answer (runs_query l (scope_of d) mn mx resume) ->
  next <> "" -> (Z.of_nat (S page) < rl_maxPagesPerWindow l)%Z ->
  run_wm_inv (mkWm (wm_Time since) (cursor_json (mkRunsCursor (fmt_nano mn) (fmt_nano mx) next (Z.of_nat (S page)))) 0) d
    (em ++ page_logs l mx runs) (evs ++ ev).
Proof using All.
  intros Hp Hord Hstart Hne Hans Hmore Hcap mn' mx'. cbn [wm_Cursor wm_Time]. rewrite decode_cursor.
  intros [-> ->]%draining_fmt. destruct (position_read _ _ _ _ _ _ _ _ _ Hp Hans) as (Hnext & Hlogs & _).
  destruct Hp as [_ _ Hpg Hch _ _]. split; cbn [rc_Page rc_Next]; rewrite ?Nat2Z.id; try done.
  apply chained_S; [done|]. right. by rewrite <-Hnext.
Qed.

Lemma drainPage_ok since em evs ev0 draining d resume page mn mx now w :
  run_position d em draining resume page mn mx -> (wm_Time since <= mn < mx)%Z -> run_starts_at (wm_Time since) mn (evs ++ ev0) ->
  exists r ev d' w', drainPage l since now mn mx resume (Z.of_nat page) draining d w = Some (r, ev, d', w') /\
  (draining = true -> d' = d) /\ forall b, r = Ok b -> run_step_ok since b d' em evs (ev0 ++ ev).
Proof using All.
  intros Hp Hord Hstart. unfold drainPage.
  destruct (resolveSessions_ok now draining d w (po_scope _ _ _ _ _ _ _ Hp)) as (r & ev & d' & w1 & -> & Hd & Hss). cbn [mbind option_bind].
  destruct r as [ss|e]; [|do 4 eexists; split; [reflexivity|done]]. destruct (Hss _ eq_refl) as [-> Hne].
  apply position_moves with (d' := d') in Hp; [|done].
  destruct (queryRuns l (scope_of d') mn mx resume w1) as [q w2] eqn:Hq. destruct q as [[[status [runs next]] errBody]|e];
    [|do 4 eexists; split; [reflexivity|done]].
  destruct (decide (status = 200%Z)) as [->|]; [|destruct (decide (status = 429%Z)); (do 4 eexists; split; [reflexivity|done])].
  apply queryRuns_ok in Hq. pose proof (position_read _ _ _ _ _ _ _ _ _ Hp Hq) as (Hnext & Hlogs & ->).
  destruct (decide (next = "")) as [->|Hend]; [rewrite bool_decide_true by done|rewrite bool_decide_false by done]; cbn [negb andb].
  2: destruct (Z.ltb_spec (Z.of_nat (S page)) (rl_maxPagesPerWindow l)) as [Hmore|Hcap].
  all: do 4 eexists; (split; [reflexivity|]); (split; [done|]); intros b [= <-].
  2: left; split; [done|]; eapply page_more; try done.
  1, 3: right; eapply page_last; try done.
  2: by left.
  3: right; split; [|done]; rewrite !elem_of_app, list_elem_of_singleton; by right; right.
  all: rewrite assoc_L by apply _; by apply run_starts_more.
Qed.

Lemma idle_wm_inv since d em evs : draining_of (decodeRunsCursor (wm_Cursor since)) = None -> run_wm_inv since d em evs.
Proof. intros Hi mn mx. by rewrite Hi. Qed.

Lemma run_wm_inv_more since d em logs evs ev : run_wm_inv since d em evs -> run_wm_inv since d (em ++ logs) (evs ++ ev).
Proof.
  intros Hinv mn mx Hd. destruct (Hinv mn mx Hd) as []. split; try done; [by apply run_starts_more|].
  etrans; [eassumption|]. by apply sublist_inserts_r.
Qed.

Lemma in_flight_position since d em evs mn mx :
  run_in_flight (decodeRunsCursor (wm_Cursor since)) (wm_Time since) d em evs mn mx ->
  let c := decodeRunsCursor (wm_Cursor since) in
  run_position d em true (rc_Next c) (Z.to_nat (rc_Page c)) mn mx /\ Z.of_nat (Z.to_nat (rc_Page c)) = rc_Page c.
Proof. intros [Ho Hs Hp Hsc Hc Hn Hl]. split; [|lia]. split; try done. lia. Qed.

Lemma runs_Collect_ok since d em evs w :
  run_wm_inv since d em evs ->
  exists r ev d' w', runs_Collect l since d w = Some (r, ev, d', w') /\
  run_wm_inv since d' em evs /\ forall b, r = Ok b -> run_step_ok since b d' em evs ev.
Proof using All.
  intros Hinv. unfold runs_Collect. destruct (draining_of _) as [[mn mx]|] eqn:Hdr.
  - destruct (Hinv mn mx Hdr) as [Ho Hs _ _ _ _ _]. destruct (in_flight_position _ _ _ _ _ _ (Hinv mn mx Hdr)) as [Hpos Hpage].
    destruct (drainPage_ok since em evs [] true d _ _ mn mx (ls_now w) w Hpos Ho ltac:(by rewrite app_nil_r)) as (r & ev & d' & w' & Hd & Hsame & Hok).
    rewrite Hpage in Hd. specialize (Hsame eq_refl) as ->. do 4 eexists. split; [exact Hd|done].
  - destruct (openWindow l (wm_Time since) (ls_now w)) as [[mn mx] ev0] eqn:Hopen.
    destruct (After mx mn) eqn:Haf; cbn [negb].
    + destruct (openWindow_spec _ _ _ _ _ (clock_ok w) Hopen Haf) as [Hord Hst].
      destruct (drainPage_ok since em evs ev0 false d "" 0 mn mx (ls_now w) w) as (r & ev & d' & w' & Hdp & _ & Hok);
        [apply position_start|done| |change (Z.of_nat 0) with 0%Z in Hdp; rewrite Hdp].
      { destruct Hst as [?|[?|(? & ?)]]; [by left|by right; left|right; right]. split; [|done]. apply elem_of_app. by right. }
      do 4 eexists. split; [reflexivity|]. split; [by apply idle_wm_inv|done].
    + do 4 eexists. split; [reflexivity|]. split; [by apply idle_wm_inv|]. intros b [= <-]. left. split; [done|]. by apply idle_wm_inv.
Qed.

(** *** Many ticks *)

(** What became of a tick's batch: emitted and committed, or not committed,
    with its records delivered or not; a restart loses the discovery cache. *)
Inductive run_event :=
| Tick (w : W) (committed delivered : bool)
| Restart.

Record run_trail := mkRunTrail { rt_wm : Watermark; rt_disc : discovery; rt_logs : list LogRecord; rt_events : list LsEvent }.
Definition run_start (since : Watermark) : run_trail := mkRunTrail since noDiscovery [] [].

Definition run_tick (s : run_trail) (x : run_event) : run_trail :=
  match x with
  | Restart => mkRunTrail (rt_wm s) noDiscovery (rt_logs s) (rt_events s)
  | Tick w committed delivered =>
      match runs_Collect l (rt_wm s) (rt_disc s) w with
      | Some (Ok b, ev, d, _) =>
          mkRunTrail (if committed then b_Watermark b else rt_wm s) d
            (rt_logs s ++ (if committed || delivered then b_Logs b else [])) (rt_events s ++ ev)
      | Some (Err _, ev, d, _) => mkRunTrail (rt_wm s) d (rt_logs s) (rt_events s ++ ev)
      | None => s
      end
  end.

Definition run_ticks (xs : list run_event) (s : run_trail) : run_trail := foldl run_tick s xs.

Definition run_trail_ok (since0 : Watermark) (s : run_trail) : Prop :=
  run_wm_inv (rt_wm s) (rt_disc s) (rt_logs s) (rt_events s) /\ (wm_Time since0 <= wm_Time (rt_wm s))%Z.

Lemma run_step_inv since b d em evs ev : run_step_ok since b d em evs ev -> run_wm_inv (b_Watermark b) d (em ++ b_Logs b) (evs ++ ev).
Proof. intros [[_ ?]|(scope & mn & n & _ & _ & Hc & _)]; [done|]. apply idle_wm_inv. by rewrite Hc. Qed.

Lemma run_step_time since b d em evs ev : run_step_ok since b d em evs ev -> (wm_Time since <= wm_Time (b_Watermark b))%Z.
Proof. intros [[-> _]|(scope & mn & n & ? & _)]; lia. Qed.

Lemma restart_inv since d d' em evs : rl_sessionIDs l <> [] -> run_wm_inv since d em evs -> run_wm_inv since d' em evs.
Proof.
  intros Hs Hinv mn mx Hd. pose proof (Hinv mn mx Hd) as [].
  assert (scope_of d' = scope_of d) as Heq by (unfold scope_of; by rewrite !decide_False by done). by split; rewrite ?Heq.
Qed.

Lemma run_tick_ok since0 s x :
  rl_sessionIDs l <> [] \/ x <> Restart -> run_trail_ok since0 s -> run_trail_ok since0 (run_tick s x).
Proof using All.
  intros Hx [Hinv Hle]. destruct x as [w committed delivered|]; cbn [run_tick].
  2: { split; [|done]. cbn. destruct Hx as [Hs|]; [|done]. by eapply restart_inv. }
  destruct (runs_Collect_ok (rt_wm s) (rt_disc s) (rt_logs s) (rt_events s) w Hinv) as (r & ev & d & w' & -> & Hsame & Hok).
  destruct r as [b|e].
  - specialize (Hok b eq_refl). destruct committed; split; cbn [orb rt_wm rt_disc rt_logs rt_events];
      [by apply run_step_inv with (since := rt_wm s)|apply run_step_time in Hok; lia|by apply run_wm_inv_more|done].
  - split; [|done]. cbn. rewrite <-(app_nil_r (rt_logs s)). by apply run_wm_inv_more.
Qed.

Lemma run_ticks_ok since0 xs s :
  rl_sessionIDs l <> [] \/ Restart ∉ xs -> run_trail_ok since0 s -> run_trail_ok since0 (run_ticks xs s).
Proof using All.
  revert s. induction xs as [|x xs IH]; intros s Hx Hs; [done|]. cbn [run_ticks foldl]. apply IH.
  - destruct Hx; [by left|right; set_solver].
  - apply run_tick_ok; [|done]. destruct Hx; [by left|right; set_solver].
Qed.

(** C5: the runs loop never leaves a run behind without saying so.  Start with
    no window open and run any number of ticks, with failed queries, failed
    discoveries, batches that are lost or delivered without being committed,
    and (when the scope is static) restarts of the process.  The saved
    frontier never moves back, every further tick returns, and when one moves
    the frontier, the window it closes starts where the frontier was (or at
    the first look-back, or at a back-fill floor that was counted), and the
    records of all its pages, in one scope and in order, have been delivered,
    up to the end of the token chain, or up to the page cap with the
    truncation counted. *)
Theorem runs_at_least_once since0 xs :
  draining_of (decodeRunsCursor (wm_Cursor since0)) = None -> rl_sessionIDs l <> [] \/ Restart ∉ xs ->
  let s := run_ticks xs (run_start since0) in
  (wm_Time since0 <= wm_Time (rt_wm s))%Z /\
  forall w, exists r ev d w', runs_Collect l (rt_wm s) (rt_disc s) w = Some (r, ev, d, w') /\
  forall b, r = Ok b ->
    wm_Time (b_Watermark b) = wm_Time (rt_wm s) \/ run_advance_ok (rt_wm s) b (rt_logs s) (rt_events s) ev.
Proof using All.
  intros Hidle Hx s. assert (run_trail_ok since0 s) as [Hinv Hle].
  { apply run_ticks_ok; [done|]. split; [by apply idle_wm_inv|done]. }
  split; [done|]. intros w.
  destruct (runs_Collect_ok (rt_wm s) (rt_disc s) (rt_logs s) (rt_events s) w Hinv) as (r & ev & d & w' & HC & _ & Hok).
  do 4 eexists. split; [exact HC|]. intros b Hb. destruct (Hok b Hb) as [[? _]|?]; auto.
Qed.

(** *** A window closes *)

Section progress.
(** RFC3339Nano reads back what it wrote of the years 1 to 9999, and the clock
    stays in them. *)
Context (parse_total : forall t, (0 <= t < year10000)%Z -> fmt_nano t <> "" /\ parse_nano (fmt_nano t) = Some t).
Context (clock_year : forall w, (ls_now w - rl_settle l < year10000)%Z).

(** Every query is answered with a page that decodes; and when the scope is
    discovered, so is the listing of the projects, with at least one. *)
Definition queries_answered (w : W) : Prop :=
  forall q, exists body w', ls_Query q w = (Some (200%Z, body), w') /\ is_Some (dec_runs (LimitReader (respCap l) body)).

Definition answers (w : W) : Prop :=
  queries_answered w /\
  (rl_sessionIDs l = [] -> exists ids ev w', listSessionIDs l w = Some (Ok ids, ev, w') /\ ids <> [] /\ queries_answered w').

(** The window a cursor is draining ends past the frontier, inside the years
    that can be written, and has pages left under the cap. *)
Record closing (since : Watermark) : Prop := {
  cl_time : (0 <= wm_Time since)%Z;
  cl_open mn mx : draining_of (decodeRunsCursor (wm_Cursor since)) = Some (mn, mx) ->
    (0 <= mn < year10000)%Z /\ (wm_Time since < mx < year10000)%Z /\
    (0 < rc_Page (decodeRunsCursor (wm_Cursor since)) < rl_maxPagesPerWindow l)%Z
}.

Lemma closing_idle t : (0 <= t)%Z -> closing (mkWm t "" 0).
Proof. intros Ht. split; [done|]. cbn [wm_Cursor]. unfold decodeRunsCursor. by rewrite decide_True. Qed.

(** The watermark a page of a window returns. *)
Definition page_result (since : Watermark) (mn mx : Time) (page : Z) (wm : Watermark) : Prop :=
  wm = mkWm mx "" 0 \/
  exists next, wm = mkWm (wm_Time since) (cursor_json (mkRunsCursor (fmt_nano mn) (fmt_nano mx) next (page + 1))) 0 /\
    (page + 1 < rl_maxPagesPerWindow l)%Z.

Lemma drain_result since d mn mx resume page draining now w b ev d' w' :
  (0 <= page < rl_maxPagesPerWindow l)%Z -> drainPage l since now mn mx resume page draining d w = Some (Ok b, ev, d', w') ->
  page_result since mn mx page (b_Watermark b).
Proof using pages_ok.
  intros Hpage. unfold drainPage. destruct (resolveSessions l now draining d w) as [[[[r ev1] d1] w1]|]; [|done].
  cbn [mbind option_bind]. destruct r as [ss|e]; [|done]. destruct (queryRuns l ss mn mx resume w1) as [q w2].
  destruct q as [[[status [runs next]] errBody]|e]; [|done]. destruct (decide (status = 200%Z)); [|by destruct (decide (status = 429%Z))].
  rewrite wrap64_id by (unfold in_int64, minInt64, maxInt64 in *; lia).
  destruct (negb _ && _) eqn:Hmore; intros [= <- _ _ _]; [right|by left]. exists next. split; [done|].
  by apply andb_true_iff in Hmore as [_ ?%Z.ltb_lt].
Qed.

Lemma page_closing since mn mx page wm :
  page_result since mn mx page wm -> (0 <= wm_Time since < mx)%Z -> (0 <= mn < year10000)%Z -> (mx < year10000)%Z -> (0 <= page)%Z ->
  closing wm /\ (wm_Time since <= wm_Time wm)%Z.
Proof using cursor_roundtrip cursor_nonempty parse_fmt.
  intros [->|(next & -> & Hpg)] Ht Hmn Hmx Hp; cbn [wm_Time]; (split; [|lia]); [apply closing_idle; lia|].
  split; cbn [wm_Time wm_Cursor]; [lia|]. intros mn' mx'. rewrite decode_cursor. intros [-> ->]%draining_fmt. cbn [rc_Page]. lia.
Qed.

(** The page that was asked for is answered, whatever the scope. *)
Lemma drain_answered since d mn mx resume page draining now w :
  answers w -> exists b ev d' w', drainPage l since now mn mx resume page draining d w = Some (Ok b, ev, d', w').
Proof.
  intros [Hq Hdisc].
  assert (exists ss ev d' w', resolveSessions l now draining d w = Some (Ok ss, ev, d', w') /\ queries_answered w') as (ss & ev & d' & w1 & Hr & Hq').
  { unfold resolveSessions. case_bool_decide as Hs; [by do 4 eexists|]. destruct (_ && _); [by do 4 eexists|].
    destruct Hdisc as (ids & ev & w' & -> & Hids & Hq'); [by destruct (rl_sessionIDs l)|]. cbn [mbind option_bind].
    rewrite decide_False by done. by do 4 eexists. }
  unfold drainPage. rewrite Hr. cbn [mbind option_bind]. unfold queryRuns.
  destruct (Hq' (runs_query l ss mn mx resume)) as (body & w' & -> & [[runs next] ->]). cbn [fst snd]. rewrite decide_True by done.
  by destruct (negb _ && _); do 4 eexists.
Qed.

Lemma openWindow_bounds t w mn mx ev :
  (0 <= t)%Z -> openWindow l t (ls_now w) = (mn, mx, ev) -> After mx mn = true -> (0 <= mn < year10000)%Z /\ (t < mx < year10000)%Z.
Proof using clock_ok clock_year.
  intros Ht Hopen Haf. pose proof (clock_year w) as Hy. destruct (openWindow_spec _ _ _ _ _ (clock_ok w) Hopen Haf) as [Ho _].
  revert Hopen. unfold openWindow, After, Add in *. intros [= Hmn Hmx _]. rewrite Hmn in Hmx. apply Z.ltb_lt in Haf.
  assert (mx <= ls_now w - rl_settle l)%Z by (clear Hmn; subst mx; zbool; lia). lia.
Qed.

(** Every tick keeps the invariant and the frontier never goes back. *)
Lemma tick_closing s x : closing (rt_wm s) -> closing (rt_wm (run_tick s x)) /\ (wm_Time (rt_wm s) <= wm_Time (rt_wm (run_tick s x)))%Z.
Proof using All.
  intros Hc. destruct x as [w committed delivered|]; cbn [run_tick rt_wm]; [|split; [done|lia]].
  destruct (runs_Collect l (rt_wm s) (rt_disc s) w) as [[[[r ev] d] w']|] eqn:HC; [|split; [done|lia]].
  destruct r as [b|e]; cbn [rt_wm]; [|split; [done|lia]]. destruct committed; [|split; [done|lia]]. revert HC. unfold runs_Collect.
  destruct (draining_of _) as [[mn mx]|] eqn:Hdr.
  - destruct (cl_open _ Hc mn mx Hdr) as (Hmn & Hmx & Hpg). pose proof (cl_time _ Hc).
    intros Hres%drain_result; [|lia]. eapply page_closing; [exact Hres|lia..].
  - destruct (openWindow l (wm_Time (rt_wm s)) (ls_now w)) as [[mn mx] ev0] eqn:Hopen. destruct (After mx mn) eqn:Haf; cbn [negb].
    2: { intros [= <- _ _ _]. split; [done|cbn; lia]. }
    destruct (openWindow_bounds _ _ _ _ _ (cl_time _ Hc) Hopen Haf) as [Hmn Hmx]. pose proof (cl_time _ Hc).
    destruct (drainPage l _ _ mn mx _ _ _ _ w) as [[[[r1 ev1] d1] w1]|] eqn:Hd; [|done]. cbn [mbind option_bind]. intros [= -> _ _ _].
    apply drain_result in Hd; [|lia]. eapply page_closing; [exact Hd|lia..].
Qed.

Lemma ticks_closing xs s : closing (rt_wm s) -> closing (rt_wm (run_ticks xs s)) /\ (wm_Time (rt_wm s) <= wm_Time (rt_wm (run_ticks xs s)))%Z.
Proof using All.
  revert s. induction xs as [|x xs IH]; intros s Hc; [split; [done|cbn; lia]|]. destruct (tick_closing s x Hc) as [Hc1 H1].
  destruct (IH _ Hc1) as [Hc2 H2]. cbn [run_ticks foldl]. split; [exact Hc2|]. unfold run_ticks in H2. lia.
Qed.

(** Ticks that all succeed and are committed. *)
Definition commits (ws : list W) : list run_event := map (fun w => Tick w true true) ws.

(** A page of a window closes it or leaves it draining, one page further. *)
Lemma page_open since mn mx page wm :
  page_result since mn mx page wm -> (0 <= mn < year10000)%Z -> (0 <= mx < year10000)%Z ->
  wm_Time wm = mx \/
  wm_Time wm = wm_Time since /\ rc_Page (decodeRunsCursor (wm_Cursor wm)) = (page + 1)%Z /\
  draining_of (decodeRunsCursor (wm_Cursor wm)) = Some (mn, mx).
Proof using cursor_roundtrip cursor_nonempty parse_total.
  intros [->|(next & -> & Hpg)] Hmn Hmx; [by left|right]. cbn [wm_Time wm_Cursor]. rewrite decode_cursor. split_and!; [done..|].
  unfold draining_of, run_windowBounds, run_parseCursorTime. cbn [rc_WinMin rc_WinMax].
  destruct (parse_total mn Hmn) as [? ->], (parse_total mx Hmx) as [? ->]. by rewrite !decide_False by done.
Qed.

Lemma drain_closes ws s mn mx :
  closing (rt_wm s) -> Forall answers ws ->
  let c := decodeRunsCursor (wm_Cursor (rt_wm s)) in
  draining_of c = Some (mn, mx) -> (rl_maxPagesPerWindow l - rc_Page c <= Z.of_nat (length ws))%Z ->
  (wm_Time (rt_wm s) < wm_Time (rt_wm (run_ticks (commits ws) s)))%Z.
Proof using All.
  revert s. induction ws as [|w ws IH]; intros s Hs Ha c Hdr Hlen; destruct (cl_open _ Hs mn mx Hdr) as (Hmn & Hmx & Hp); subst c.
  { cbn [length] in Hlen. lia. }
  apply Forall_cons in Ha as [Haw Ha]. cbn [commits map run_ticks foldl]. fold (commits ws).
  destruct (tick_closing s (Tick w true true) Hs) as [Hs' _]. pose proof (cl_time _ Hs) as Ht0. revert Hs'. cbn [run_tick]. unfold runs_Collect. rewrite Hdr.
  destruct (drain_answered (rt_wm s) (rt_disc s) mn mx (rc_Next (decodeRunsCursor (wm_Cursor (rt_wm s))))
    (rc_Page (decodeRunsCursor (wm_Cursor (rt_wm s)))) true (ls_now w) w Haw) as (b & ev & d' & w' & HC). rewrite HC.
  apply drain_result in HC; [|lia]. set (s' := mkRunTrail _ _ _ _). intros Hs'.
  destruct (page_open _ _ _ _ _ HC ltac:(lia) ltac:(lia)) as [Ht|(Ht & Hpage & Hdr')].
  - destruct (ticks_closing (commits ws) s' Hs') as [_ Hle]. unfold run_ticks in Hle. subst s'. cbn [rt_wm] in Hle. lia.
  - change (wm_Time (rt_wm s') = wm_Time (rt_wm s)) in Ht. rewrite <-Ht. apply (IH _ Hs' Ha); subst s'; cbn [rt_wm]; [done|].
    rewrite Hpage. cbn [length] in Hlen. lia.
Qed.

(** C33: a window always closes.  Take any state the loop can reach from an
    idle watermark, restarts and failures included, with the projects listed in
    the configuration or discovered.  If a tick finds a window open or a settled
    span to open, and from then on every query is answered with a page that
    decodes, the discovery (when there is one) lists at least one project and
    every batch is committed, then the frontier has moved after at most
    [max_pages_per_window] ticks, however many pages the server still has.  The
    clock is assumed to stay within the years 1 to 9999, which the cursor's time
    format reads back. *)
Theorem runs_window_closes since0 xs w ws :
  draining_of (decodeRunsCursor (wm_Cursor since0)) = None -> (0 <= wm_Time since0)%Z ->
  let s := run_ticks xs (run_start since0) in
  let '(winMin, winMax, _) := openWindow l (wm_Time (rt_wm s)) (ls_now w) in
  is_Some (draining_of (decodeRunsCursor (wm_Cursor (rt_wm s)))) \/ After winMax winMin = true ->
  Forall answers (w :: ws) -> (rl_maxPagesPerWindow l <= Z.of_nat (length (w :: ws)))%Z ->
  (wm_Time (rt_wm s) < wm_Time (rt_wm (run_ticks (commits (w :: ws)) s)))%Z.
Proof using All.
  intros Hidle Hpos s. destruct (openWindow _ _ _) as [[winMin winMax] ev0] eqn:Hopen. intros Hwork Ha Hlen.
  assert (closing (rt_wm s)) as Hs. { apply ticks_closing. split; [done|]. cbn [rt_wm run_start]. by rewrite Hidle. }
  destruct (draining_of (decodeRunsCursor (wm_Cursor (rt_wm s)))) as [[mn mx]|] eqn:Hdr.
  { destruct (cl_open _ Hs mn mx Hdr) as (_ & _ & ?). eapply drain_closes; try done. lia. }
  destruct Hwork as [[? ?]|Haf]; [done|]. destruct (openWindow_bounds _ _ _ _ _ (cl_time _ Hs) Hopen Haf) as [Hmn Hmx].
  apply Forall_cons in Ha as [Haw Ha]. cbn [commits map run_ticks foldl]. fold (commits ws).
  destruct (tick_closing s (Tick w true true) Hs) as [Hs' _]. pose proof (cl_time _ Hs) as Ht0. revert Hs'. cbn [run_tick]. unfold runs_Collect.
  rewrite Hdr, Hopen, Haf. cbn [negb].
  destruct (drain_answered (rt_wm s) (rt_disc s) winMin winMax "" 0 false (ls_now w) w Haw) as (b & ev & d' & w' & HC). rewrite HC.
  cbn [mbind option_bind]. apply drain_result in HC; [|lia]. set (s' := mkRunTrail _ _ _ _). intros Hs'.
  destruct (page_open _ _ _ _ _ HC ltac:(lia) ltac:(lia)) as [Ht|(Ht & Hpage & Hdr')].
  - destruct (ticks_closing (commits ws) s' Hs') as [_ Hle]. unfold run_ticks in Hle. subst s'. cbn [rt_wm] in Hle. lia.
  - change (wm_Time (rt_wm s') = wm_Time (rt_wm s)) in Ht. rewrite <-Ht. apply (drain_closes ws _ winMin winMax Hs' Ha); subst s'; cbn [rt_wm]; [done|].
    rewrite Hpage. cbn [length] in Hlen. lia.
Qed.
End progress.
End guarantees.
End runs.

(** ** A concrete project *)

Module RunSim.
Record World := mkWorld { w_now : Time; w_up : bool }.

Definition run (id : string) : gmap string json := {[ "id" := JStr id; "status" := JStr "success"; "inputs" := JStr "secret" ]}.
(** Three pages, whose tokens name the next one. *)
Definition dec_runs (body : string) : option (list (gmap string json) * string) :=
  if decide (body = "first") then Some ([run "a"; run "b"], "t1")
  else if decide (body = "t1") then Some ([run "c"], "t2") else Some ([run "d"], "").
Definition dec_ids (body : string) : option (list string) := Some ["p1"; ""; "p2"; "p1"].
Definition body_of (q : RunsQuery) : string := default "first" (rq_cursor q).

#[global] Instance api : LangsmithAPI World := {|
  ls_Get _ w := (if w_up w then Some (200%Z, "") else None, w);
  ls_Query q w := (if w_up w then Some (200%Z, body_of q) else None, w);
  ls_Stats _ _ w := (None, w);
  ls_now w := Z.max 100 (Z.min (w_now w) (year10000 - 1)) |}.

Definition loop (ids : list string) (maxPages : Z) : runsLoop :=
  mkRunsLoop "https://h" "prod" ids "f" 10 ["id"] 60 100 10 500 100 maxPages 100 50 false "" defaultRunsFieldPolicy.

Definition url (base : string) (q : list (string * string)) : option string := Some base.
Definition fmt (f : spec_float) : string := "n".
Definition no_time (layout s : string) : option Time := None.
Definition words (s : string) : list string := [s].

Definition nano_of (t : Time) : string := "t" +:+ str_encode t.
Definition of_nano (s : string) : option Time := str_decode (string_drop 1 s).

Lemma nano_roundtrip t : of_nano (nano_of t) = Some t.
Proof. unfold of_nano, nano_of. change (string_drop 1 ("t" +:+ ?x)) with x. apply str_decode_encode. Qed.

Definition json_of (c : runsCursor) : string := "c" +:+ str_encode [rc_WinMin c; rc_WinMax c; rc_Next c; str_encode (rc_Page c)].
Definition cursor_of (s : string) : option runsCursor :=
  match str_decode (A := list string) (string_drop 1 s) with
  | Some [a; b; c; p] => p ← str_decode p; Some (mkRunsCursor a b c p)
  | _ => None
  end.

Lemma run_cursor_roundtrip c : cursor_of (json_of c) = Some c.
Proof.
  unfold cursor_of, json_of. change (string_drop 1 ("c" +:+ ?x)) with x. rewrite str_decode_encode. simpl.
  rewrite str_decode_encode. by destruct c.
Qed.

#[global] Program Instance server ids maxPages : RunsServer (W := World) dec_runs (loop ids maxPages) :=
  {| rs_answer q := default ([], "") (dec_runs (LimitReader 100 (body_of q))) |}.
Next Obligation.
  intros ids maxPages q w body w' out Hq Hd. unfold ls_Query in Hq. cbn [api] in Hq. destruct (w_up w); [|done]. injection Hq as <- <-.
  change (respCap (loop ids maxPages)) with 100%Z in Hd. by rewrite Hd.
Qed.

Definition ticks ids maxPages := run_ticks (W := World) json_of cursor_of dec_runs dec_ids nano_of of_nano nano_of url fmt no_time
  words id id (loop ids maxPages).
Definition collect ids maxPages := runs_Collect (W := World) json_of cursor_of dec_runs dec_ids nano_of of_nano nano_of url fmt no_time
  words id id (loop ids maxPages).
Definition advance ids maxPages := run_advance_ok (W := World) dec_runs nano_of fmt no_time (loop ids maxPages).

(** A first page whose commit is lost, an outage, then the window is drained. *)
Definition events : list (run_event (W := World)) :=
  let w up := mkWorld 1000 up in
  [Tick (w true) false true; Tick (w false) true true; Tick (w true) true true; Tick (w true) true true; Tick (w true) true true].
Definition ids_of (logs : list LogRecord) : list (option string) := map (fun r => l_RecordAttributes r !! "id") logs.
End RunSim.

Example runs_run :
  (let s := RunSim.ticks [] 3 RunSim.events (run_start zeroWm) in
   wm_Time (rt_wm s) = 990%Z /\ cachedSessions (rt_disc s) = ["p1"; "p2"] /\ rt_events s = [] /\
   RunSim.ids_of (rt_logs s) = [Some "a"; Some "b"; Some "a"; Some "b"; Some "c"; Some "d"]) /\
  (let s := RunSim.ticks ["p"] 2 RunSim.events (run_start zeroWm) in
   wm_Time (rt_wm s) = 990%Z /\ rt_events s = [windowTruncated]).
Proof. cbv zeta. split_and!; vm_compute; reflexivity. Qed.

Lemma runs_at_least_once_witness :
  RunSim.ids_of (rt_logs (RunSim.ticks [] 3 RunSim.events (run_start zeroWm))) = [Some "a"; Some "b"; Some "a"; Some "b"; Some "c"; Some "d"] /\
  let s := RunSim.ticks [] 3 RunSim.events (run_start zeroWm) in
  (0 <= wm_Time (rt_wm s))%Z /\
  forall w, exists r ev d w', RunSim.collect [] 3 (rt_wm s) (rt_disc s) w = Some (r, ev, d, w') /\
  forall b, r = Ok b -> wm_Time (b_Watermark b) = wm_Time (rt_wm s) \/ RunSim.advance [] 3 (rt_wm s) b (rt_logs s) (rt_events s) ev.
Proof.
  split; [vm_compute; reflexivity|]. unfold RunSim.ticks, RunSim.collect, RunSim.advance.
  refine (runs_at_least_once RunSim.json_of RunSim.cursor_of RunSim.dec_runs RunSim.dec_ids RunSim.nano_of RunSim.of_nano RunSim.nano_of RunSim.url
    RunSim.fmt RunSim.no_time RunSim.words id id (RunSim.loop [] 3) _ _ _ _ _ zeroWm RunSim.events _ _).
  - exact RunSim.run_cursor_roundtrip.
  - intros c. discriminate.
  - intros t t' [= <-]%(eq_trans (eq_sym (RunSim.nano_roundtrip t))). reflexivity.
  - intros w. apply Z.le_max_l.
  - split; [reflexivity|]. vm_compute. discriminate.
  - reflexivity.
  - right. intros Hin. repeat (apply elem_of_cons in Hin as [Hin|Hin]; [discriminate|]). by apply elem_of_nil in Hin.
Defined.

(** A window of three pages in two discovered projects, closed in two ticks by
    the page cap of two. *)
Lemma runs_window_closes_witness :
  let ws := [RunSim.mkWorld 1000 true; RunSim.mkWorld 1000 true] in
  let s := RunSim.ticks [] 2 [] (run_start zeroWm) in
  (wm_Time (rt_wm s) < wm_Time (rt_wm (RunSim.ticks [] 2 (commits ws) s)))%Z.
Proof.
  unfold RunSim.ticks.
  refine (runs_window_closes RunSim.json_of RunSim.cursor_of RunSim.dec_runs RunSim.dec_ids RunSim.nano_of RunSim.of_nano RunSim.nano_of
    RunSim.url RunSim.fmt RunSim.no_time RunSim.words id id (RunSim.loop [] 2) _ _ _ _ _ _ _ zeroWm []
    (RunSim.mkWorld 1000 true) [RunSim.mkWorld 1000 true] _ _ _ _ _).
  - exact RunSim.run_cursor_roundtrip.
  - intros c. discriminate.
  - intros t t' [= <-]%(eq_trans (eq_sym (RunSim.nano_roundtrip t))). reflexivity.
  - intros w. apply Z.le_max_l.
  - split; [reflexivity|]. vm_compute. discriminate.
  - intros t _. split; [discriminate|apply RunSim.nano_roundtrip].
  - intros w. change (rl_settle (RunSim.loop [] 2)) with 10%Z. cbn [ls_now RunSim.api]. unfold year10000, Day, Hour, Minute, Second. lia.
  - reflexivity.
  - reflexivity.
  - right. reflexivity.
  - repeat constructor; try (intros _; do 3 eexists; split; [vm_compute; reflexivity|split; [discriminate|]]);
      intros q; do 2 eexists; (split; [reflexivity|]); unfold RunSim.dec_runs; repeat case_decide; by eexists.
  - vm_compute. discriminate.
Defined.
