(* ===== verification/LangsmithRunsSettings.v ===== *)
(** * The settings of the runs loop (internal/source/langsmith/runs_settings.go)

    The settings overlay, its validation and [newRunsLoop], then what every
    accepted configuration guarantees of the query it sends and of the records
    it lets through. *)

From S2P Require Import Prelude Model Config Guard PortkeyStrip PortkeyUseCase PortkeyGroups LangsmithStrip LangsmithPages LangsmithRuns.

Definition runsPageSizeMax : Z := 100.

Record runsSettings := mkRunsSettings {
  rk_sessionIDs : list string;
  rk_sessionFilter : string;
  rk_maxSessions : Z;
  rk_window : Duration;
  rk_settle : Duration;
  rk_maxBackfill : Duration;
  rk_pageSize : Z;
  rk_maxPagesPerWindow : Z;
  rk_maxResponseBytes : Z;
  rk_sessionRefresh : Duration;
  rk_rootOnly : bool;
  rk_runType : string;
  rk_extraRecordFields : list string;
  rk_extraIndexedFields : list string
}.

Definition hardDeniedRunsFields : gset string := list_to_set AbsoluteNeverDenyKeys ∪ {[ "inputs_s3_urls"; "outputs_s3_urls" ]}.

Definition defaultRunsSettings : runsSettings :=
  mkRunsSettings [] "" 1000 Hour (10 * Minute) (24 * Hour) runsPageSizeMax 100 defaultRunsResponseBytes (5 * Minute) false ""
    ["tags"; "child_run_ids"; "app_path"] [].

Section settings.
(** [time.ParseDuration] and [strings.TrimSpace] beyond ASCII. *)
Context (ParseDuration : string -> option Duration) (trim_uni : string -> string).

Definition parseRunsPositiveDuration (v : string) : option Duration :=
  d ← ParseDuration v; if (d <=? 0)%Z then None else Some d.
Definition parseRunsNonNegDuration (v : string) : option Duration :=
  d ← ParseDuration v; if (d <? 0)%Z then None else Some d.
Definition parseRunsPositiveInt (v : string) : option Z :=
  n ← ParseInt v; if (n <=? 0)%Z then None else Some n.

(** One setting; an unknown key is ignored. *)
Definition apply_runs_setting (s : runsSettings) (kv : string * string) : option runsSettings :=
  let '(k, v) := kv in
  let '(mkRunsSettings ids f ms w st mb ps mp mr sr ro rt er ei) := s in
  let csv := splitCSV trim_uni v in
  if decide (k = "session_ids") then Some (mkRunsSettings csv f ms w st mb ps mp mr sr ro rt er ei)
  else if decide (k = "session_filter") then Some (mkRunsSettings ids v ms w st mb ps mp mr sr ro rt er ei)
  else if decide (k = "max_sessions") then ms ← parseRunsPositiveInt v; Some (mkRunsSettings ids f ms w st mb ps mp mr sr ro rt er ei)
  else if decide (k = "window") then w ← parseRunsPositiveDuration v; Some (mkRunsSettings ids f ms w st mb ps mp mr sr ro rt er ei)
  else if decide (k = "settle") then st ← parseRunsNonNegDuration v; Some (mkRunsSettings ids f ms w st mb ps mp mr sr ro rt er ei)
  else if decide (k = "max_backfill") then mb ← parseRunsPositiveDuration v; Some (mkRunsSettings ids f ms w st mb ps mp mr sr ro rt er ei)
  else if decide (k = "session_refresh") then sr ← parseRunsNonNegDuration v; Some (mkRunsSettings ids f ms w st mb ps mp mr sr ro rt er ei)
  else if decide (k = "page_size") then ps ← parseRunsPositiveInt v; Some (mkRunsSettings ids f ms w st mb ps mp mr sr ro rt er ei)
  else if decide (k = "max_pages_per_window") then mp ← parseRunsPositiveInt v; Some (mkRunsSettings ids f ms w st mb ps mp mr sr ro rt er ei)
  else if decide (k = "max_response_bytes") then mr ← parseRunsPositiveInt v; Some (mkRunsSettings ids f ms w st mb ps mp mr sr ro rt er ei)
  else if decide (k = "root_only") then ro ← ParseBool v; Some (mkRunsSettings ids f ms w st mb ps mp mr sr ro rt er ei)
  else if decide (k = "run_type") then Some (mkRunsSettings ids f ms w st mb ps mp mr sr ro v er ei)
  else if decide (k = "extra_record_fields") then Some (mkRunsSettings ids f ms w st mb ps mp mr sr ro rt csv ei)
  else if decide (k = "extra_indexed_fields") then Some (mkRunsSettings ids f ms w st mb ps mp mr sr ro rt er csv)
  else Some s.

(** Each [existsb] is one loop of the validation. *)
Definition validateRunsSettings (s : runsSettings) : bool :=
  let any_in (X : gset string) := existsb (fun f => bool_decide (f ∈ X)) in
  let any_not_in (X : gset string) := existsb (fun f => negb (bool_decide (f ∈ X))) in
  negb (bool_decide (rk_sessionIDs s = []) && bool_decide (rk_sessionFilter s = "")
    || (rk_window s <=? 0)%Z
    || (runsPageSizeMax <? rk_pageSize s)%Z
    || (rk_window s <=? rk_settle s)%Z
    || any_in hardDeniedRunsFields (rk_extraRecordFields s)
    || any_in hardDeniedRunsFields (rk_extraIndexedFields s)
    || any_not_in validLangsmithSelectEnum (rk_extraRecordFields s)
    || any_not_in validLangsmithSelectEnum (rk_extraIndexedFields s)).

(** [None] is an error; which one depends on the order of a Go map. *)
Definition applyRunsSettings (s : runsSettings) (settings : gmap string string) : option runsSettings :=
  s ← foldl (fun s kv => s ← s; apply_runs_setting s kv) (Some s) (map_to_list settings);
  if validateRunsSettings s then Some s else None.

Definition newRunsLoop (cfg : SourceConfig) (lp : LoopConfig) : option runsLoop :=
  if decide (lc_Window lp = 0%Z) then
    s ← applyRunsSettings defaultRunsSettings (lc_Settings lp);
    let cadence := if (lc_Cadence lp <=? 0)%Z then Minute else lc_Cadence lp in
    let policy := runs_withExtraIndexedFields (runs_withExtraRecordFields defaultRunsFieldPolicy (rk_extraRecordFields s))
                    (rk_extraIndexedFields s) in
    Some (mkRunsLoop (sc_BaseURL cfg) (sc_SourceInstance cfg) (rk_sessionIDs s) (rk_sessionFilter s) (rk_maxSessions s)
            (selectKeys policy) cadence (rk_window s) (rk_settle s) (rk_maxBackfill s) (rk_pageSize s) (rk_maxPagesPerWindow s)
            (rk_maxResponseBytes s) (rk_sessionRefresh s) (rk_rootOnly s) (rk_runType s) policy)
  else None.

(** ** What the overlay keeps *)

Record runs_knobs (s : runsSettings) : Prop := {
  rn_sessions : (0 < rk_maxSessions s)%Z;
  rn_window : (0 < rk_window s)%Z;
  rn_settle : (0 <= rk_settle s)%Z;
  rn_backfill : (0 < rk_maxBackfill s)%Z;
  rn_page : (0 < rk_pageSize s)%Z;
  rn_pages : (0 < rk_maxPagesPerWindow s <= maxInt64)%Z;
  rn_bytes : (0 < rk_maxResponseBytes s)%Z
}.

Lemma parseRunsPositiveDuration_pos v d : parseRunsPositiveDuration v = Some d -> (0 < d)%Z.
Proof. unfold parseRunsPositiveDuration. destruct (ParseDuration v) as [d'|]; [|done]. simpl. case_match eqn:E; [done|]. intros [= <-]. lia. Qed.
Lemma parseRunsNonNegDuration_pos v d : parseRunsNonNegDuration v = Some d -> (0 <= d)%Z.
Proof. unfold parseRunsNonNegDuration. destruct (ParseDuration v) as [d'|]; [|done]. simpl. case_match eqn:E; [done|]. intros [= <-]. lia. Qed.
Lemma parseRunsPositiveInt_pos v n : parseRunsPositiveInt v = Some n -> (0 < n <= maxInt64)%Z.
Proof.
  unfold parseRunsPositiveInt. destruct (ParseInt v) as [z|] eqn:Hz; [|done]. simpl. case_match eqn:E; [done|]. intros [= <-].
  apply ParseInt_range in Hz. unfold in_int64 in Hz. lia.
Qed.

Lemma defaultRunsSettings_ok : runs_knobs defaultRunsSettings.
Proof. split; vm_compute; by try split. Qed.

Lemma apply_runs_setting_ok s kv s' : runs_knobs s -> apply_runs_setting s kv = Some s' -> runs_knobs s'.
Proof.
  destruct kv as [k v], s. intros []. simpl in *. revert s'. unfold apply_runs_setting.
  repeat first [apply if_some | apply bind_some; intros ? Hp]; intros s' [= <-];
    try first [apply parseRunsPositiveDuration_pos in Hp | apply parseRunsNonNegDuration_pos in Hp | apply parseRunsPositiveInt_pos in Hp];
    split; by try apply Hp.
Qed.

(** The gates of [validateRunsSettings]. *)
Record runs_gates (s : runsSettings) : Prop := {
  rg_scope : rk_sessionIDs s <> [] \/ rk_sessionFilter s <> "";
  rg_page : (rk_pageSize s <= 100)%Z;
  rg_settle : (rk_settle s < rk_window s)%Z;
  rg_opt_in f : (f ∈ rk_extraRecordFields s) \/ (f ∈ rk_extraIndexedFields s) ->
    (f ∉ hardDeniedRunsFields) /\ (f ∈ validLangsmithSelectEnum)
}.

Lemma validate_runs_gates s : validateRunsSettings s = true -> runs_gates s.
Proof.
  unfold validateRunsSettings. cbv zeta. rewrite negb_true_iff, !orb_false_iff.
  intros (((((((Hsc & _) & Hp) & Hset) & Hdr) & Hdi) & Her) & Hei). split.
  - apply andb_false_iff in Hsc as [H|H]; apply bool_decide_eq_false in H; auto.
  - by apply Z.ltb_ge in Hp.
  - by apply Z.leb_gt in Hset.
  - intros f [Hf|Hf]; [pose proof (existsb_false_elem _ _ _ Hdr Hf) as H1; pose proof (existsb_false_elem _ _ _ Her Hf) as H2
                      |pose proof (existsb_false_elem _ _ _ Hdi Hf) as H1; pose proof (existsb_false_elem _ _ _ Hei Hf) as H2];
      (split; [exact (proj1 (bool_decide_eq_false _) H1)|exact (proj1 (bool_decide_eq_true _) (proj1 (negb_false_iff _) H2))]).
Qed.

Lemma applyRunsSettings_ok m s : applyRunsSettings defaultRunsSettings m = Some s -> runs_knobs s /\ runs_gates s.
Proof.
  unfold applyRunsSettings. destruct (foldl _ _ _) as [s'|] eqn:Ho; [|done]. simpl.
  destruct (validateRunsSettings s') eqn:Hv; [|done]. intros [= <-]. split; [|by apply validate_runs_gates].
  revert Ho. apply foldl_option_inv; [apply apply_runs_setting_ok|apply defaultRunsSettings_ok].
Qed.

(** ** The policy the settings build *)

Lemma runs_policy_tiers p er ei :
  let q := runs_withExtraIndexedFields (runs_withExtraRecordFields p er) ei in
  rp_indexed q = rp_indexed p ∪ list_to_set ei /\ rp_record q = rp_record p ∪ list_to_set er.
Proof using Type. clear ParseDuration trim_uni. destruct er, ei; cbn [runs_withExtraIndexedFields runs_withExtraRecordFields rp_indexed rp_record]; split; apply leibniz_equiv; set_solver. Qed.

(** Default fields are selectable and not denied; a selectable field that is
    not denied is not on the content floor. *)
Lemma default_policy_free :
  Forall (fun k => (k ∉ hardDeniedRunsFields) /\ k ∈ validLangsmithSelectEnum)
    (elements (rp_indexed defaultRunsFieldPolicy ∪ rp_record defaultRunsFieldPolicy)).
Proof. apply (bool_decide_unpack _). vm_compute. exact I. Qed.

Lemma enum_floor :
  Forall (fun k => k ∈ hardDeniedRunsFields \/ IsContentFloorKey k = false) (elements validLangsmithSelectEnum).
Proof. apply (bool_decide_unpack _). vm_compute. exact I. Qed.

Lemma selectable_free k : k ∉ hardDeniedRunsFields -> k ∈ validLangsmithSelectEnum -> IsContentFloorKey k = false.
Proof.
  intros Hd Hk. pose proof enum_floor as Hf. rewrite Forall_forall in Hf.
  destruct (Hf k (proj2 (elem_of_elements _ _) Hk)) as [Hc|Hc]; [destruct (Hd Hc)|exact Hc].
Qed.

Lemma newRunsLoop_inv cfg lp l :
  newRunsLoop cfg lp = Some l ->
  exists s, runs_knobs s /\ runs_gates s /\ rl_sessionIDs l = rk_sessionIDs s /\ rl_sessionFilter l = rk_sessionFilter s /\
  rl_window l = rk_window s /\ rl_settle l = rk_settle s /\ rl_pageSize l = rk_pageSize s /\
  rl_maxPagesPerWindow l = rk_maxPagesPerWindow s /\ rl_selectFields l = selectKeys (rl_policy l) /\
  rl_policy l = runs_withExtraIndexedFields (runs_withExtraRecordFields defaultRunsFieldPolicy (rk_extraRecordFields s)) (rk_extraIndexedFields s).
Proof.
  unfold newRunsLoop. case_decide; [|done]. destruct (applyRunsSettings _ _) as [s|] eqn:Hs; [|done].
  intros [= <-]. exists s. destruct (applyRunsSettings_ok _ _ Hs). by split_and!.
Qed.

(** Every field of the policy may be selected and is content-free. *)
Lemma runs_policy_free s k :
  runs_gates s ->
  let p := runs_withExtraIndexedFields (runs_withExtraRecordFields defaultRunsFieldPolicy (rk_extraRecordFields s)) (rk_extraIndexedFields s) in
  k ∈ rp_indexed p \/ k ∈ rp_record p -> (k ∉ hardDeniedRunsFields) /\ k ∈ validLangsmithSelectEnum.
Proof using Type. clear ParseDuration trim_uni.
  intros Hg p Hk. destruct (runs_policy_tiers defaultRunsFieldPolicy (rk_extraRecordFields s) (rk_extraIndexedFields s)) as [Hi Hr].
  fold p in Hi, Hr. rewrite Hi, Hr, !elem_of_union, !elem_of_list_to_set in Hk.
  assert (k ∈ rp_indexed defaultRunsFieldPolicy ∪ rp_record defaultRunsFieldPolicy \/
          (k ∈ rk_extraRecordFields s \/ k ∈ rk_extraIndexedFields s)) as [Hd|Ho] by (rewrite elem_of_union; tauto).
  - pose proof default_policy_free as Hf. rewrite Forall_forall in Hf. apply Hf. by apply elem_of_elements.
  - by apply (rg_opt_in s Hg).
Qed.

Section content.
Context (FormatFloat : spec_float -> string) (time_Parse : string -> string -> option Time).

(** Two runs that agree on the policy's fields and on the time strip alike. *)
Lemma run_strip_agree p raw1 raw2 ts :
  (forall k, k ∈ rp_indexed p \/ k ∈ rp_record p \/ k = "start_time" -> raw1 !! k = raw2 !! k) ->
  run_strip FormatFloat time_Parse p raw1 ts = run_strip FormatFloat time_Parse p raw2 ts.
Proof.
  intros Hag. pose proof (run_strip_spec FormatFloat time_Parse p raw1 ts) as (Hb1 & Ht1 & Hs1 & Hv1 & Hi1 & Hr1).
  pose proof (run_strip_spec FormatFloat time_Parse p raw2 ts) as (Hb2 & Ht2 & Hs2 & Hv2 & Hi2 & Hr2).
  assert (Hki : forall k, kept_indexed FormatFloat p raw1 k = kept_indexed FormatFloat p raw2 k).
  { intros k. unfold kept_indexed, run_field. case_decide; [|done]. rewrite Hag by auto. done. }
  assert (Hkr : forall k, kept_run_record FormatFloat p raw1 k = kept_run_record FormatFloat p raw2 k).
  { intros k. unfold kept_run_record, run_field. case_decide as Hin; [|done]. rewrite Hag; [done|]. set_solver. }
  destruct (run_strip _ _ p raw1 ts) as [ts1 b1 v1 i1 r1 t1], (run_strip _ _ p raw2 ts) as [ts2 b2 v2 i2 r2 t2].
  cbn [l_Body l_TraceID l_Timestamp l_Severity l_IndexedAttributes l_RecordAttributes] in *. subst. f_equal.
  - rewrite Hag; auto.
  - by rewrite Hki.
  - apply map_eq. intros k. by rewrite Hi1, Hi2.
  - apply map_eq. intros k. rewrite Hr1, Hr2. case_decide; auto.
Qed.

(** C7: an accepted runs configuration is scoped, bounded and content-free.
    The loop [newRunsLoop] builds always has a project scope, a positive window
    longer than its settle lag, a page size the server accepts and a page cap
    that fits an int; the query selects only fields the server's enum knows and
    none that is hard-denied; and whatever a run holds, its record has no
    body, every attribute but the source stamp is a selected field, no
    attribute is on the content floor of the guard, and two runs that differ
    only in fields that are not selected export the same record. *)
Theorem runs_content_free cfg lp l raw1 raw2 ts :
  newRunsLoop cfg lp = Some l ->
  let export raw := run_strip FormatFloat time_Parse (rl_policy l) raw ts in
  (rl_sessionIDs l <> [] \/ rl_sessionFilter l <> "") /\
  (0 <= rl_settle l < rl_window l)%Z /\ (0 < rl_pageSize l <= 100)%Z /\ (0 < rl_maxPagesPerWindow l <= maxInt64)%Z /\
  (forall f, f ∈ rl_selectFields l -> f ∈ validLangsmithSelectEnum /\ f ∉ hardDeniedRunsFields) /\
  l_Body (export raw1) = "" /\
  (forall k, is_Some (l_IndexedAttributes (export raw1) !! k) \/ is_Some (l_RecordAttributes (export raw1) !! k) ->
     (k = "source" \/ k ∈ rl_selectFields l) /\ IsContentFloorKey k = false) /\
  ((forall k, k ∈ rl_selectFields l -> raw1 !! k = raw2 !! k) -> export raw1 = export raw2).
Proof.
  intros Hl export. destruct (newRunsLoop_inv _ _ _ Hl) as (s & Hk & Hg & Hid & Hf & Hw & Hset & Hps & Hmp & Hsel & Hp).
  assert (Hfields : forall k, k ∈ rl_selectFields l <-> k ∈ rp_indexed (rl_policy l) \/ k ∈ rp_record (rl_policy l)).
  { intros k. rewrite Hsel. unfold selectKeys. by rewrite sort_strings_perm, elem_of_app, !elem_of_elements. }
  assert (Hfree : forall k, k ∈ rl_selectFields l -> (k ∉ hardDeniedRunsFields) /\ k ∈ validLangsmithSelectEnum).
  { intros k Hin. apply Hfields in Hin. rewrite Hp in Hin. by apply (runs_policy_free s). }
  pose proof (run_strip_spec FormatFloat time_Parse (rl_policy l) raw1 ts) as (Hb & _ & _ & _ & Hi & Hr). fold (export raw1) in Hb, Hi, Hr.
  rewrite Hid, Hf, Hset, Hw, Hps, Hmp. pose proof (rn_settle s Hk). pose proof (rg_settle s Hg). pose proof (rn_page s Hk).
  pose proof (rg_page s Hg). pose proof (rn_pages s Hk). split; [apply Hg|]. do 3 (split; [lia|]).
  split; [intros f Hin; by apply and_comm, Hfree|]. split; [done|]. split.
  - intros k Hin. assert (k = "source" \/ k ∈ rl_selectFields l) as [->|Hs].
    { destruct Hin as [[v Hv]|[v Hv]]; [rewrite Hi in Hv; right|rewrite Hr in Hv; case_decide as Hk'; [left; exact Hk'|right]]; apply Hfields.
      - unfold kept_indexed in Hv. case_decide as Hx; [left; exact Hx|discriminate Hv].
      - unfold kept_run_record in Hv. case_decide as Hx; [|discriminate Hv]. apply elem_of_difference in Hx as [Hx _]. right. exact Hx. }
    + split; [by left|reflexivity].
    + split; [by right|]. destruct (Hfree k Hs). by apply selectable_free.
  - intros Hag. apply run_strip_agree. intros k [Hin|[Hin| ->]]; apply Hag, Hfields; [by left|by right|right].
    rewrite Hp. destruct (runs_policy_tiers defaultRunsFieldPolicy (rk_extraRecordFields s) (rk_extraIndexedFields s)) as [_ ->].
    apply elem_of_union_l. apply (bool_decide_unpack _). vm_compute. exact I.
Qed.
End content.
End settings.

(** ** Concrete settings *)

Module RunsDemo.
Definition dur (s : string) : option Duration := if decide (s = "5m") then Some (5 * Minute)%Z else None.
Definition src : SourceConfig := plain_source "langsmith" "https://h" "prod" ∅ [] "x-api-key" "k".
Definition config (kvs : list (string * string)) : LoopConfig := mkLoopConfig true Minute 0 0 0 0 "" [] (list_to_map kvs).
Definition build (kvs : list (string * string)) : option runsLoop := newRunsLoop dur id src (config (("session_ids", "p1, p2") :: kvs)).
Definition raw : gmap string json :=
  {[ "id" := JStr "r1"; "status" := JStr "error"; "inputs" := JStr "secret"; "tags" := JArr [JStr "a"; JStr "b"];
     "inputs_or_signed_url" := JStr "https://bucket/blob?sig=1" ]}.
Definition export (l : runsLoop) : LogRecord := run_strip (fun _ => "") (fun _ _ => None) (rl_policy l) raw 7.
Definition basic : runsLoop := default (RunSim.loop [] 1) (build [("page_size", "50")]).
End RunsDemo.

(** What the validation refuses: no scope, a message body, a name outside the
    enum, a page beyond the server's limit, a window no longer than its settle lag. *)
Example runs_settings_refused :
  newRunsLoop RunsDemo.dur id RunsDemo.src (RunsDemo.config []) = None /\
  RunsDemo.build [("extra_record_fields", "inputs")] = None /\ RunsDemo.build [("extra_indexed_fields", "app-path")] = None /\
  RunsDemo.build [("page_size", "101")] = None /\ RunsDemo.build [("window", "5m")] = None /\
  is_Some (RunsDemo.build [("settle", "5m"); ("extra_indexed_fields", "name")]).
Proof. split_and!; try (vm_compute; reflexivity). by eexists; vm_compute. Qed.

(** A signed URL to the raw inputs is accepted as an extra field and exported. *)
Example signed_url_opt_in :
  match RunsDemo.build [("extra_record_fields", "inputs_or_signed_url")] with
  | Some l => l_RecordAttributes (RunsDemo.export l) !! "inputs_or_signed_url" = Some "https://bucket/blob?sig=1"
  | None => False
  end.
Proof. vm_compute. reflexivity. Qed.

Lemma runs_content_free_witness :
  (l_Severity (RunsDemo.export RunsDemo.basic) = "ERROR" /\ l_RecordAttributes (RunsDemo.export RunsDemo.basic) !! "tags" = Some "a,b") /\
  RunsDemo.export RunsDemo.basic =
    run_strip (fun _ => "") (fun _ _ => None) (rl_policy RunsDemo.basic) (delete "inputs" RunsDemo.raw) 7.
Proof.
  split; [split; vm_compute; reflexivity|].
  assert (RunsDemo.build [("page_size", "50")] = Some RunsDemo.basic) as Hl by (vm_compute; reflexivity).
  pose proof (runs_content_free RunsDemo.dur id (fun _ => "") (fun _ _ => None) _ _ _ RunsDemo.raw (delete "inputs" RunsDemo.raw) 7 Hl)
    as (_ & _ & _ & _ & Hsel & _ & _ & Hag).
  apply Hag. intros k Hk. symmetry. apply lookup_delete_ne. intros <-. apply (proj2 (Hsel _ Hk)).
  apply (bool_decide_unpack _). vm_compute. exact I.
Defined.
