(* ===== verification/LangsmithSessions.v ===== *)
(** * The LangSmith sessions loop (internal/source/langsmith: langsmith.go,
      derive.go, money.go)

    The per-session aggregate snapshot: the decoding of a cost, the pages of
    GET /sessions, the gauges and one [Collect]. *)

From S2P Require Import Prelude Model Source PortkeyDerive LangsmithPages.

(** ** Costs (money.go) *)

Record money := mkMoney { m_v : spec_float; m_set : bool }.
Definition noMoney : money := mkMoney (S754_zero false) false.

Section money.
(** [strconv.Unquote], [strconv.ParseFloat(s, 64)], and [bytes.TrimSpace] and
    [strings.TrimSpace] beyond ASCII. *)
Context (Unquote : string -> option string) (ParseFloat : string -> option spec_float) (trim_uni : string -> string).

(** Into a zero [money]; [None] is an error. *)
Definition money_UnmarshalJSON (b : string) : option money :=
  let b := TrimSpace trim_uni b in
  if decide (b = "" \/ b = "null") then Some noMoney
  else if has_prefix (String (Ascii.ascii_of_nat 34) "") b then
    unq ← Unquote b;
    let unq := TrimSpace trim_uni unq in
    if decide (unq = "") then Some noMoney else f ← ParseFloat unq; Some (mkMoney f true)
  else f ← ParseFloat b; Some (mkMoney f true).

(** The texts that mean no value: nothing, [null], or a blank string. *)
Definition no_value (b : string) : Prop :=
  let b := TrimSpace trim_uni b in
  b = "" \/ b = "null" \/
  (has_prefix (String (Ascii.ascii_of_nat 34) "") b = true /\ exists unq, Unquote b = Some unq /\ TrimSpace trim_uni unq = "").

(** A cost is unset exactly when there is no value: a zero is a value. *)
Lemma money_unset b m : money_UnmarshalJSON b = Some m -> (m_set m = false <-> no_value b).
Proof.
  unfold money_UnmarshalJSON, no_value. cbv zeta. set (t := TrimSpace trim_uni b).
  destruct (decide (t = "" \/ t = "null")) as [Hn|Hn]; [intros [= <-]; cbn; tauto|].
  destruct (has_prefix _ t) eqn:Hq.
  - destruct (Unquote t) as [unq|] eqn:Hu; [|done]. cbn [mbind option_bind].
    destruct (decide (TrimSpace trim_uni unq = "")) as [He|He]; [intros [= <-]; split; [eauto 7|done]|].
    destruct (ParseFloat _); [|done]. intros [= <-]. split; [done|]. intros [?|[?|(_ & unq' & [= <-] & ?)]]; tauto.
  - destruct (ParseFloat t); [|done]. intros [= <-]. split; [done|]. intros [?|[?|(? & _)]]; [tauto|tauto|done].
Qed.
End money.

(** ** The derivation (derive.go) *)

(** The numeric aggregate of a feedback key. *)
Record feedbackStat := mkFeedback { fs_N : option Z; fs_Avg : option spec_float }.

Record tracerSession := mkSession {
  ts_ID : string;
  ts_Name : string;
  ts_RunCount : option Z;
  ts_LatencyP50 : option spec_float;
  ts_LatencyP99 : option spec_float;
  ts_FirstTokenP50 : option spec_float;
  ts_FirstTokenP99 : option spec_float;
  ts_TotalTokens : option Z;
  ts_PromptTokens : option Z;
  ts_CompletionTokens : option Z;
  ts_TotalCost : money;
  ts_PromptCost : money;
  ts_CompletionCost : money;
  ts_ErrorRate : option spec_float;
  ts_StreamingRate : option spec_float;
  ts_FeedbackStats : gmap string feedbackStat
}.

Record deriveConfig := mkDeriveConfig {
  d_prefix : string;
  d_sessionLabelKey : string;
  d_useName : bool;
  d_emitFeedback : bool;
  d_feedbackAllow : gset string
}.

Definition session_label (useName : bool) (s : tracerSession) : string := if useName then ts_Name s else ts_ID s.

(** A gauge before its session is stamped on it: suffix, extra label, value. *)
Abbreviation facet := (string * option (string * string) * spec_float)%type.

Definition quantiles (suffix : string) (p50 p99 : option spec_float) : list facet :=
  match p50 with Some v => [(suffix, Some ("quantile", "p50"), v)] | None => [] end ++
  match p99 with Some v => [(suffix, Some ("quantile", "p99"), v)] | None => [] end.
Definition intGauge (suffix : string) (p : option Z) : list facet :=
  match p with Some v => [(suffix, None, f64_of_Z v)] | None => [] end.
Definition floatGauge (suffix : string) (p : option spec_float) : list facet :=
  match p with Some v => [(suffix, None, v)] | None => [] end.
Definition costGauge (suffix : string) (m : money) : list facet := if m_set m then [(suffix, None, m_v m)] else [].

Definition fixed_facets (s : tracerSession) : list facet :=
  intGauge "runs" (ts_RunCount s) ++
  quantiles "latency_seconds" (ts_LatencyP50 s) (ts_LatencyP99 s) ++
  quantiles "first_token_seconds" (ts_FirstTokenP50 s) (ts_FirstTokenP99 s) ++
  intGauge "tokens" (ts_TotalTokens s) ++
  intGauge "prompt_tokens" (ts_PromptTokens s) ++
  intGauge "completion_tokens" (ts_CompletionTokens s) ++
  costGauge "cost_usd" (ts_TotalCost s) ++
  costGauge "prompt_cost_usd" (ts_PromptCost s) ++
  costGauge "completion_cost_usd" (ts_CompletionCost s) ++
  floatGauge "error_rate" (ts_ErrorRate s) ++
  floatGauge "streaming_rate" (ts_StreamingRate s).

(** One feedback key: nothing without an average or outside the allow-list. *)
Definition feedback_facets (cfg : deriveConfig) (kf : string * feedbackStat) : list facet :=
  let '(k, fs) := kf in
  match fs_Avg fs with
  | None => []
  | Some avg =>
      if bool_decide (d_feedbackAllow cfg <> ∅) && negb (bool_decide (k ∈ d_feedbackAllow cfg)) then []
      else ("feedback_score", Some ("feedback_key", k), avg) ::
           match fs_N fs with Some n => [("feedback_count", Some ("feedback_key", k), f64_of_Z n)] | None => [] end
  end.

Definition session_facets (cfg : deriveConfig) (s : tracerSession) : list facet :=
  fixed_facets s ++
  if d_emitFeedback cfg
  then concat (map (fun k => match ts_FeedbackStats s !! k with Some fs => feedback_facets cfg (k, fs) | None => [] end)
                 (sorted_keys (ts_FeedbackStats s)))
  else [].

(** The closure [gauge]. *)
Definition facet_sample (cfg : deriveConfig) (sessVal : string) (stamp : Time) (f : facet) : Sample :=
  let '(suffix, extra, v) := f in
  let labels : gmap string string := {[ d_sessionLabelKey cfg := sessVal ]} in
  gauge (d_prefix cfg +:+ "_" +:+ suffix) (match extra with Some (k, x) => <[k := x]> labels | None => labels end) v stamp.

Definition session_samples (cfg : deriveConfig) (stamp : Time) (s : tracerSession) : list Sample :=
  map (facet_sample cfg (session_label (d_useName cfg) s) stamp) (session_facets cfg s).

Definition sessions_derive (sessions : list tracerSession) (cfg : deriveConfig) (now : Time) : list Sample :=
  concat (map (session_samples cfg (Truncate now Minute)) (sort_by_id ts_ID sessions)).

(** ** The loop (langsmith.go) *)

(** 32 MiB. *)
Definition ls_maxResponseBytes : Z := 32 * 2 ^ 20.

(** The fields of [Config] that reach the loop; those of the client are the
    HTTP client's. *)
Record sessionsConfig := mkSessionsConfig {
  cf_BaseURL : string;
  cf_AuthHeader : string;
  cf_AuthValue : string;
  cf_SourceInstance : string;
  cf_Prefix : string;
  cf_Cadence : Duration;
  cf_StatsWindow : Duration;
  cf_UseApproxStats : bool;
  cf_SessionFilter : string;
  cf_SessionLabelKey : string;
  cf_SessionLabelValue : string;
  cf_PageLimit : Z;
  cf_MaxSessions : Z;
  cf_EmitFeedback : bool;
  cf_FeedbackKeys : list string
}.

Record sessionsLoop := mkSessionsLoop {
  sl_baseURL : string;
  sl_prefix : string;
  sl_sourceInstance : string;
  sl_cadence : Duration;
  sl_statsWindow : Duration;
  sl_useApproxStats : bool;
  sl_sessionFilter : string;
  sl_pageLimit : Z;
  sl_maxSessions : Z;
  sl_deriveCfg : deriveConfig
}.

Definition or_default (d v : string) : string := if decide (v = "") then d else v.
Definition pos_or (d v : Z) : Z := if (v <=? 0)%Z then d else v.

Definition newSessionsLoop (cfg : sessionsConfig) : option sessionsLoop :=
  if decide (cf_AuthHeader cfg = "" \/ cf_AuthValue cfg = "") then None
  else if decide (cf_BaseURL cfg = "") then None
  else
    let prefix := or_default "langsmith" (cf_Prefix cfg) in
    Some (mkSessionsLoop (cf_BaseURL cfg) prefix (cf_SourceInstance cfg) (pos_or Minute (cf_Cadence cfg))
            (pos_or Hour (cf_StatsWindow cfg)) (cf_UseApproxStats cfg) (cf_SessionFilter cfg) (pos_or 100 (cf_PageLimit cfg))
            (pos_or 1000 (cf_MaxSessions cfg))
            (mkDeriveConfig prefix (or_default "session" (cf_SessionLabelKey cfg)) (bool_decide (cf_SessionLabelValue cfg = "name"))
               (cf_EmitFeedback cfg) (list_to_set (cf_FeedbackKeys cfg)))).

Definition sessionSuffixes : list string :=
  ["runs"; "latency_seconds"; "first_token_seconds"; "tokens"; "prompt_tokens"; "completion_tokens"; "cost_usd"; "prompt_cost_usd";
   "completion_cost_usd"; "error_rate"; "streaming_rate"; "feedback_score"; "feedback_count"].

Definition sessions_SeriesNames (l : sessionsLoop) : list string := map (fun s => sl_prefix l +:+ "_" +:+ s) sessionSuffixes.

Section collect.
Context {W : Type} `{LangsmithAPI W}.
(** [time.Format] with RFC3339; [url.Parse] and [Values.Encode]; the parsing of
    costs; the decoding of a page, given that of a cost. *)
Context (fmt_rfc3339 : Time -> string) (url_with : string -> list (string * string) -> option string).
Context (Unquote : string -> option string) (ParseFloat : string -> option spec_float) (trim_uni : string -> string).
Context (dec_sessions : (string -> option money) -> string -> option (list tracerSession)).
Context (sha256_hex : string -> string).

(** [Decode] calls [UnmarshalJSON] on every cost. *)
Definition decode_page (body : string) : option (list tracerSession) := dec_sessions (money_UnmarshalJSON Unquote ParseFloat trim_uni) body.

Definition sessions_Key (l : sessionsLoop) : CheckpointKey :=
  mkKey (sl_sourceInstance l) "sessions" (Fingerprint sha256_hex trim_uni (sessions_SeriesNames l) ("prefix=" +:+ sl_prefix l)).

Definition sessions_fetchPage (l : sessionsLoop) (statsStart : Time) (offset : Z) (w : W)
    : result LsErr (list tracerSession * Z) * W :=
  match url_with (sl_baseURL l +:+ "/sessions")
          ([("include_stats", "true")] ++ (if sl_useApproxStats l then [("use_approx_stats", "true")] else []) ++
           [("stats_start_time", fmt_rfc3339 statsStart)] ++ setSessionsPageQuery (sl_pageLimit l) offset (sl_sessionFilter l)) with
  | None => (Err LsBadURL, w)
  | Some url =>
      let '(resp, w) := ls_Get url w in
      (match resp with
       | None => Err LsTransport
       | Some (code, body) =>
           if decide (code = 200%Z) then
             match decode_page (LimitReader ls_maxResponseBytes body) with Some page => Ok (page, code) | None => Err LsDecode end
           else Ok ([], code)
       end, w)
  end.

(** The fetch and the status switch of [Collect]. *)
Definition sessions_page (l : sessionsLoop) (statsStart : Time) (offset : Z) (w : W)
    : result LsErr (list tracerSession) * list LsEvent * W :=
  match sessions_fetchPage l statsStart offset w with
  | (Err e, w) => (Err e, [], w)
  | (Ok (page, code), w) =>
      if decide (code = 200%Z) then (Ok page, [], w)
      else if decide (code = 429%Z) then (Err LsQuota, [], w)
      else (Err (LsStatus code ""), if IsAuthStatus code then [LsAuthError] else [], w)
  end.

Definition never_skip (_ : string) : bool := false.

(** [None]: out of fuel. *)
Definition sessions_Collect (l : sessionsLoop) (since : Watermark) (w : W) : option (result LsErr Batch * list LsEvent * W) :=
  let now := ls_now w in
  '(r, ev, w) ← page_loop ts_ID never_skip (sessions_page l (Add now (- sl_statsWindow l))) (sl_pageLimit l) (sl_maxSessions l)
    (page_fuel (sl_maxSessions l)) 0 ∅ [] w;
  Some (match r with
        | Err e => Err e
        | Ok (sessions, _) =>
            Ok (mkBatch (sessions_Key l) (sessions_derive sessions (sl_deriveCfg l) now) [] (mkWm now (wm_Cursor since) (wm_Epoch since)))
        end, ev, w).
End collect.

(** ** The gauges of a session *)

Definition facet_key (f : facet) : string * option (string * string) := f.1.

Definition fixed_keys : list (string * option (string * string)) :=
  let q s := [(s, Some ("quantile", "p50")); (s, Some ("quantile", "p99"))] in
  [("runs", None)] ++ q "latency_seconds" ++ q "first_token_seconds" ++ [("tokens", None)] ++ [("prompt_tokens", None)] ++
  [("completion_tokens", None)] ++ [("cost_usd", None)] ++ [("prompt_cost_usd", None)] ++ [("completion_cost_usd", None)] ++
  [("error_rate", None)] ++ [("streaming_rate", None)].

Lemma fixed_facets_keys s : map facet_key (fixed_facets s) `sublist_of` fixed_keys.
Proof.
  unfold fixed_facets, fixed_keys. cbv zeta. rewrite !map_app.
  assert (forall suffix p, map facet_key (intGauge suffix p) `sublist_of` [(suffix, None)]) as Hint by (intros ? [?|]; repeat constructor).
  assert (forall suffix p, map facet_key (floatGauge suffix p) `sublist_of` [(suffix, None)]) as Hfl by (intros ? [?|]; repeat constructor).
  assert (forall suffix m, map facet_key (costGauge suffix m) `sublist_of` [(suffix, None)]) as Hcost
    by (intros ? [v []]; unfold costGauge; simpl; repeat constructor).
  assert (forall suffix p q, map facet_key (quantiles suffix p q) `sublist_of`
            [(suffix, Some ("quantile", "p50")); (suffix, Some ("quantile", "p99"))]) as Hq
    by (intros ? [?|] [?|]; repeat constructor).
  repeat apply sublist_app; auto.
Qed.

Lemma feedback_facets_elem cfg k fs f :
  f ∈ feedback_facets cfg (k, fs) ->
  (facet_key f = ("feedback_score", Some ("feedback_key", k)) \/ facet_key f = ("feedback_count", Some ("feedback_key", k))) /\
  is_Some (fs_Avg fs) /\ (d_feedbackAllow cfg = ∅ \/ k ∈ d_feedbackAllow cfg).
Proof.
  unfold feedback_facets. destruct (fs_Avg fs) as [avg|]; [|by intros ?%elem_of_nil].
  destruct (bool_decide (d_feedbackAllow cfg <> ∅) && _) eqn:Ha; [by intros ?%elem_of_nil|].
  assert (d_feedbackAllow cfg = ∅ \/ k ∈ d_feedbackAllow cfg) as Hok.
  { apply andb_false_iff in Ha as [Ha|Ha]; [left; apply bool_decide_eq_false in Ha; by apply dec_stable|right].
    apply negb_false_iff in Ha. by apply bool_decide_eq_true in Ha. }
  intros [->|Hf]%elem_of_cons; [by eauto|]. destruct (fs_N fs); [|by apply elem_of_nil in Hf].
  apply list_elem_of_singleton in Hf as ->. by eauto.
Qed.

Lemma feedback_facets_nodup cfg k fs : NoDup (map facet_key (feedback_facets cfg (k, fs))).
Proof.
  unfold feedback_facets. destruct (fs_Avg fs); [|constructor]. destruct (_ && _); [constructor|].
  destruct (fs_N fs); simpl; repeat constructor; set_solver.
Qed.

(** The suffix and extra label of a gauge of the session. *)
Definition declared_key (cfg : deriveConfig) (s : tracerSession) (key : string * option (string * string)) : Prop :=
  key ∈ fixed_keys \/
  exists k fs, (key = ("feedback_score", Some ("feedback_key", k)) \/ key = ("feedback_count", Some ("feedback_key", k))) /\
    ts_FeedbackStats s !! k = Some fs /\ is_Some (fs_Avg fs) /\ d_emitFeedback cfg = true /\
    (d_feedbackAllow cfg = ∅ \/ k ∈ d_feedbackAllow cfg).

Lemma session_facets_declared cfg s f : f ∈ session_facets cfg s -> declared_key cfg s (facet_key f).
Proof.
  intros [Hf|Hf]%elem_of_app.
  - left. eapply elem_of_sublist; [|apply fixed_facets_keys]. by apply list_elem_of_fmap_2.
  - right. destruct (d_emitFeedback cfg) eqn:He; [|by apply elem_of_nil in Hf].
    apply elem_concat in Hf as (l & Hf & Hl). apply list_elem_of_fmap in Hl as (k & -> & _).
    destruct (ts_FeedbackStats s !! k) as [fs|] eqn:Hk; [|by apply elem_of_nil in Hf].
    apply feedback_facets_elem in Hf as (Hkey & Havg & Hal). by exists k, fs.
Qed.

Lemma fixed_extra suffix k x : (suffix, Some (k, x)) ∈ fixed_keys -> k = "quantile".
Proof.
  assert (Forall (fun key => default "quantile" (fst <$> key.2) = "quantile") fixed_keys) as Hall
    by (apply (bool_decide_unpack _); vm_compute; exact I).
  rewrite Forall_forall in Hall. intros Hin. exact (Hall _ Hin).
Qed.

Lemma declared_extra_key cfg s suffix k x :
  declared_key cfg s (suffix, Some (k, x)) -> k ∈ ["quantile"; "feedback_key"].
Proof. intros [->%fixed_extra|(? & ? & [[= _ -> _]|[= _ -> _]] & _)]; [left|right; left..]. Qed.

Definition feedback_of (key : string * option (string * string)) : string := default "" (snd <$> key.2).

Lemma session_facets_nodup cfg s : NoDup (map facet_key (session_facets cfg s)).
Proof.
  assert (NoDup fixed_keys) as Hfix by (apply (bool_decide_unpack _); vm_compute; exact I).
  unfold session_facets. rewrite map_app. apply NoDup_app. split_and!.
  - eapply sublist_NoDup; [exact Hfix|apply fixed_facets_keys].
  - intros key Hkey Hfb.
    assert (key ∈ fixed_keys) as Hin by (eapply elem_of_sublist; [exact Hkey|apply fixed_facets_keys]).
    apply list_elem_of_fmap in Hfb as (f & -> & Hf).
    destruct (d_emitFeedback cfg); [|by apply elem_of_nil in Hf]. apply elem_concat in Hf as (l & Hf & Hl).
    apply list_elem_of_fmap in Hl as (k & -> & _). destruct (ts_FeedbackStats s !! k); [|by apply elem_of_nil in Hf].
    apply feedback_facets_elem in Hf as ([He|He] & _); rewrite He in Hin; by apply fixed_extra in Hin.
  - destruct (d_emitFeedback cfg); [|constructor].
    apply (NoDup_concat_tagged _ facet_key id feedback_of).
    + rewrite map_id, sorted_keys_perm. apply NoDup_fst_map_to_list.
    + intros k f Hf. destruct (ts_FeedbackStats s !! k); [|by apply elem_of_nil in Hf].
      by apply feedback_facets_elem in Hf as ([-> | ->] & _).
    + intros k. destruct (ts_FeedbackStats s !! k); [apply feedback_facets_nodup|constructor].
Qed.

Section points.
Context (cfg : deriveConfig) (Hkey : d_sessionLabelKey cfg ∉ ["quantile"; "feedback_key"]).

Lemma declared_extra s suffix k x : declared_key cfg s (suffix, Some (k, x)) -> k <> d_sessionLabelKey cfg.
Proof using Hkey.
  intros Hd ->. apply Hkey. by eapply declared_extra_key.
Qed.

Lemma declared_suffix s suffix extra : declared_key cfg s (suffix, extra) -> suffix ∈ sessionSuffixes.
Proof using Type.
  clear Hkey. intros [Hd|(? & ? & [[= -> _]|[= -> _]] & _)]; [|unfold sessionSuffixes; set_solver..].
  assert (Forall (fun k => k.1 ∈ sessionSuffixes) fixed_keys) as Hall by (apply (bool_decide_unpack _); vm_compute; exact I).
  rewrite Forall_forall in Hall. exact (Hall _ Hd).
Qed.

Lemma facet_sample_session s v stamp f :
  declared_key cfg s (facet_key f) -> s_Labels (facet_sample cfg v stamp f) !! d_sessionLabelKey cfg = Some v.
Proof using Hkey.
  destruct f as [[suffix [[k x]|]] val]; intros Hd; simpl; [|by rewrite lookup_singleton_eq].
  rewrite lookup_insert_ne by (by eapply declared_extra). by rewrite lookup_singleton_eq.
Qed.

(** The series of a gauge tells its suffix and its extra label. *)
Lemma facet_sample_inj s v stamp f f' :
  declared_key cfg s (facet_key f) -> declared_key cfg s (facet_key f') ->
  series_point (facet_sample cfg v stamp f) = series_point (facet_sample cfg v stamp f') -> facet_key f = facet_key f'.
Proof using Hkey.
  destruct f as [[suffix extra] val], f' as [[suffix' extra'] val']. unfold facet_key. cbn [fst]. intros Hd Hd'. simpl. intros [= Hname Hlab].
  apply string_app_inj_length in Hname as [_ Hname]; [|done]. apply (string_app_inj_length "_" "_") in Hname as [_ ->]; [|done]. f_equal.
  assert (Hx : forall k x, k <> d_sessionLabelKey cfg -> (<[k := x]> {[d_sessionLabelKey cfg := v]} : gmap string string) !! k = Some x)
    by (intros; by rewrite lookup_insert_eq).
  assert (Hn : forall k, k <> d_sessionLabelKey cfg -> ({[d_sessionLabelKey cfg := v]} : gmap string string) !! k = None)
    by (intros; by rewrite lookup_singleton_ne).
  destruct extra as [[k x]|], extra' as [[k' x']|]; [| | |done].
  - pose proof (declared_extra _ _ _ _ Hd) as Hk. pose proof (Hx k x Hk) as Hl. rewrite Hlab in Hl.
    destruct (decide (k = k')) as [->|Hne]; [rewrite lookup_insert_eq in Hl; congruence|].
    rewrite lookup_insert_ne, Hn in Hl by done. done.
  - pose proof (declared_extra _ _ _ _ Hd) as Hk. pose proof (Hx k x Hk) as Hl. by rewrite Hlab, Hn in Hl.
  - pose proof (declared_extra _ _ _ _ Hd') as Hk. pose proof (Hx k' x' Hk) as Hl. by rewrite <-Hlab, Hn in Hl.
Qed.

Lemma session_samples_elem stamp s p :
  p ∈ session_samples cfg stamp s ->
  exists f, f ∈ session_facets cfg s /\ declared_key cfg s (facet_key f) /\ p = facet_sample cfg (session_label (d_useName cfg) s) stamp f.
Proof. intros (f & -> & Hf)%list_elem_of_fmap. exists f. split_and!; [done|by apply session_facets_declared|done]. Qed.

Lemma session_samples_nodup stamp s : NoDup (map series_point (session_samples cfg stamp s)).
Proof using Hkey.
  unfold session_samples. rewrite map_map. pose proof (session_facets_nodup cfg s) as Hnd.
  apply NoDup_fmap_2_strong; [|by eapply NoDup_fmap_1].
  intros f f' Hf Hf' Heq. eapply (NoDup_fmap_inj facet_key); [exact Hnd|done|done|].
  eapply facet_sample_inj; [by apply session_facets_declared..|exact Heq].
Qed.
End points.

Lemma sessions_derive_elem sessions cfg now p :
  p ∈ sessions_derive sessions cfg now -> exists s, s ∈ sessions /\ p ∈ session_samples cfg (Truncate now Minute) s.
Proof.
  intros (l & Hp & Hl)%elem_concat. apply list_elem_of_fmap in Hl as (s & -> & Hs). rewrite sort_by_id_perm in Hs. by exists s.
Qed.

Lemma sessions_derive_nodup sessions cfg now :
  d_sessionLabelKey cfg ∉ ["quantile"; "feedback_key"] -> d_useName cfg = false -> NoDup (map ts_ID sessions) ->
  NoDup (map series_point (sessions_derive sessions cfg now)).
Proof.
  intros Hk Hn Hnd. unfold sessions_derive.
  apply (NoDup_concat_tagged _ series_point ts_ID (fun p => default "" (p.1.2 !! d_sessionLabelKey cfg))).
  - by rewrite sort_by_id_perm.
  - intros s p Hp. apply session_samples_elem in Hp as (f & _ & Hd & ->). unfold series_point. cbn [fst snd].
    rewrite (facet_sample_session cfg Hk s) by done. by rewrite Hn.
  - intros s. by apply session_samples_nodup.
Qed.

(** What the sessions gauges disclose and own.  Whatever the API returns,
    every sample is a gauge of a session that was returned, stamped at the
    minute, under a name the loop declares; its labels are the session label
    and at most one of [quantile] and [feedback_key]; a feedback sample comes
    from a key with a numeric average that the allow-list (if any) names; and
    the order in which the API lists the sessions does not matter. *)
Theorem sessions_owned sessions cfg now p :
  d_sessionLabelKey cfg ∉ ["quantile"; "feedback_key"] -> p ∈ sessions_derive sessions cfg now ->
  (exists s, s ∈ sessions /\
   s_Labels p !! d_sessionLabelKey cfg = Some (session_label (d_useName cfg) s) /\
   (forall k, s_Labels p !! "feedback_key" = Some k ->
      d_emitFeedback cfg = true /\ (d_feedbackAllow cfg = ∅ \/ k ∈ d_feedbackAllow cfg) /\
      exists fs, ts_FeedbackStats s !! k = Some fs /\ is_Some (fs_Avg fs))) /\
  s_Kind p = Gauge /\ s_Timestamp p = Truncate now Minute /\
  s_Name p ∈ map (fun s => d_prefix cfg +:+ "_" +:+ s) sessionSuffixes /\
  (forall k, is_Some (s_Labels p !! k) -> k ∈ [d_sessionLabelKey cfg; "quantile"; "feedback_key"]) /\
  (forall sessions', sessions ≡ₚ sessions' -> NoDup (map ts_ID sessions) -> p ∈ sessions_derive sessions' cfg now /\
     sessions_derive sessions' cfg now = sessions_derive sessions cfg now).
Proof.
  intros Hk Hp. assert (d_sessionLabelKey cfg <> "feedback_key") as Hne' by (intros Heq; apply Hk; rewrite Heq; right; left).
  pose proof (sessions_derive_elem _ _ _ _ Hp) as (s & Hs & Hps).
  pose proof (session_samples_elem _ _ _ _ Hps) as (f & Hf & Hd & Heq). split_and!.
  - exists s. split; [done|]. subst p. split; [by apply (facet_sample_session cfg Hk s)|].
    intros k. destruct f as [[suffix extra] v]. simpl. destruct extra as [[k' x]|]; cbn [facet_key fst] in Hd.
    + destruct (decide (k' = "feedback_key")) as [->|Hne].
      * rewrite lookup_insert_eq. intros [= ->]. destruct Hd as [Hd|(k' & fs & [[= _ <-]|[= _ <-]] & Hfs & Ha & He & Hal)];
          [by apply fixed_extra in Hd|by eauto..].
      * by rewrite lookup_insert_ne, lookup_singleton_ne by done.
    + by rewrite lookup_singleton_ne by done.
  - subst p. by destruct f as [[? ?] ?].
  - subst p. by destruct f as [[? ?] ?].
  - subst p. destruct f as [[suffix extra] v]. apply list_elem_of_fmap. exists suffix. split; [done|]. by eapply declared_suffix.
  - intros k. subst p. destruct f as [[suffix extra] v]. simpl. intros [x Hx]. cbn [facet_key fst] in Hd.
    destruct extra as [[k' y]|].
    + destruct (decide (k = k')) as [->|Hne].
      * right. by eapply declared_extra_key.
      * rewrite lookup_insert_ne in Hx by done. apply lookup_singleton_Some in Hx as [-> _]. left.
    + apply lookup_singleton_Some in Hx as [-> _]. left.
  - intros sessions' Hperm Hnd. unfold sessions_derive in *. by rewrite <-(sort_by_id_unique ts_ID sessions sessions').
Qed.

(** ** One snapshot *)

Lemma newSessionsLoop_inv cfg l :
  newSessionsLoop cfg = Some l ->
  (0 < sl_pageLimit l)%Z /\ (0 < sl_maxSessions l)%Z /\ (0 < sl_statsWindow l)%Z /\ (0 < sl_cadence l)%Z /\ d_prefix (sl_deriveCfg l) = sl_prefix l.
Proof.
  unfold newSessionsLoop. case_decide; [done|]. case_decide; [done|]. intros [= <-]. cbn [sl_pageLimit sl_maxSessions sl_statsWindow sl_cadence].
  unfold pos_or, Hour, Minute. split_and!; try (zbool; lia). done.
Qed.

Section snapshot.
Context {W : Type} `{LangsmithAPI W}.
Context (fmt_rfc3339 : Time -> string) (url_with : string -> list (string * string) -> option string).
Context (Unquote : string -> option string) (ParseFloat : string -> option spec_float) (trim_uni : string -> string).
Context (dec_sessions : (string -> option money) -> string -> option (list tracerSession)).
Context (sha256_hex : string -> string).

Local Abbreviation page := (sessions_page fmt_rfc3339 url_with Unquote ParseFloat trim_uni dec_sessions).

(** C35: a snapshot is exact, or there is none.  With any accepted
    configuration, [Collect] returns; against an API that serves a list of
    sessions with distinct ids in pages, a batch holds exactly the gauges of
    the first [max_sessions] sessions of that list, with no point twice when
    sessions are labelled by id, and moves the watermark to now; and a batch is
    returned unless a page fails, in which case nothing is emitted and the
    watermark stays. *)
Theorem sessions_snapshot cfg l since w table :
  newSessionsLoop cfg = Some l ->
  let now := ls_now w in
  let fetch := page l (Add now (- sl_statsWindow l)) in
  serves_table fetch (sl_pageLimit l) table -> NoDup (map ts_ID table) -> (Z.of_nat (length table) + sl_pageLimit l < 2 ^ 63)%Z ->
  exists r ev w',
    sessions_Collect fmt_rfc3339 url_with Unquote ParseFloat trim_uni dec_sessions sha256_hex l since w = Some (r, ev, w') /\
    (forall b, r = Ok b ->
       b_Samples b = sessions_derive (take (Z.to_nat (sl_maxSessions l)) table) (sl_deriveCfg l) now /\ b_Logs b = [] /\
       b_Watermark b = mkWm now (wm_Cursor since) (wm_Epoch since) /\
       (d_sessionLabelKey (sl_deriveCfg l) ∉ ["quantile"; "feedback_key"] -> d_useName (sl_deriveCfg l) = false ->
        NoDup (map series_point (b_Samples b)))) /\
    ((forall offset w, exists rows ev w', fetch offset w = (Ok rows, ev, w')) -> exists b, r = Ok b).
Proof.
  intros (Hl & Hm & _)%newSessionsLoop_inv now fetch Hs Hnd Hfit. unfold sessions_Collect. fold now fetch.
  destruct (page_loop_table ts_ID never_skip fetch (sl_pageLimit l) (sl_maxSessions l) table w) as (r & ev & w' & -> & Hr & Hok); try done.
  cbn [mbind option_bind]. do 3 eexists. split; [reflexivity|]. split.
  - intros b Hb. destruct r as [[rows capped]|e]; [|done]. specialize (Hr _ eq_refl). injection Hr as -> ->. injection Hb as <-.
    split_and!; try done. intros Hk Hn. apply sessions_derive_nodup; [done|done|].
    rewrite <-(take_drop (Z.to_nat (sl_maxSessions l)) table), map_app in Hnd. by apply NoDup_app in Hnd as (? & _).
  - intros Hf. destruct (Hok Hf) as [[rows capped] ->]. by eexists.
Qed.
End snapshot.

(** ** A concrete project list *)

Module SessionSim.
Record World := mkWorld { w_now : Time; w_up : bool }.
Definition feedback : gmap string feedbackStat :=
  {[ "user_id" := mkFeedback (Some 4%Z) None; "helpful" := mkFeedback (Some 2%Z) (Some (f64_of_Z 1)) ]}.
Definition session (id : string) (runs : option Z) : tracerSession :=
  mkSession id "n" runs (Some (f64_of_Z 3)) None None None (Some 7%Z) None None (mkMoney (f64_of_Z 1) true) noMoney noMoney
    (Some (f64_of_Z 0)) None feedback.
Definition table : list tracerSession := [session "s3" (Some 5%Z); session "s1" None; session "s2" (Some 1%Z)].

Definition config : sessionsConfig :=
  mkSessionsConfig "https://h" "x-api-key" "k" "prod" "" 0 0 false "" "session" "id" 2 0 true [].
Definition loop : sessionsLoop :=
  match newSessionsLoop config with Some l => l | None => mkSessionsLoop "" "" "" 0 0 false "" 0 0 (mkDeriveConfig "" "" false false ∅) end.

(** The URL is the offset, the body echoes it. *)
Definition offset_url (base : string) (q : list (string * string)) : option string :=
  snd <$> find (fun kv => bool_decide (kv.1 = "offset")) q.
#[global] Instance session_api : LangsmithAPI World := {|
  ls_Get url w := (if w_up w then if slen url <=? 30 then Some (200%Z, url) else Some (500%Z, "") else Some (401%Z, ""), w);
  ls_Query _ w := (None, w); ls_Stats _ _ w := (None, w); ls_now w := w_now w |}.
Definition slice (_ : string -> option money) (body : string) : option (list tracerSession) :=
  o ← ParseInt body; Some (take 2 (drop (Z.to_nat o) table)).
Definition fmt (t : Time) : string := FormatInt t.
Definition no_quote (s : string) : option string := None.
Definition no_float (s : string) : option spec_float := None.
Definition collect := sessions_Collect (W := World) fmt offset_url no_quote no_float id slice id loop.
Definition page_at (start : Time) := sessions_page (W := World) fmt offset_url no_quote no_float id slice loop start.
Definition names (r : option (result LsErr Batch * list LsEvent * World)) : list (string * option string * option string) :=
  match r with
  | Some (Ok b, _, _) => map (fun p => (s_Name p, s_Labels p !! "session", s_Labels p !! "feedback_key")) (b_Samples b)
  | _ => []
  end.
End SessionSim.

Lemma session_table_served start : serves_table (SessionSim.page_at start) 2 SessionSim.table.
Proof.
  intros offset w page ev w' Ho. unfold SessionSim.page_at, sessions_page, sessions_fetchPage.
  change (SessionSim.offset_url _ _) with (Some (FormatInt offset)). cbn [ls_Get SessionSim.session_api].
  destruct (SessionSim.w_up w); [|by intros [= ?]]. destruct (Nat.leb_spec (slen (FormatInt offset)) 30) as [Hle|]; [|by intros [= ?]].
  rewrite decide_True by done. unfold LimitReader. rewrite (proj2 (Z.leb_le _ _)) by (unfold ls_maxResponseBytes; lia).
  unfold decode_page, SessionSim.slice. destruct (ParseInt (FormatInt offset)) as [o|] eqn:Hp; [|by intros [= ?]].
  apply ParseInt_FormatInt_inv in Hp as ->. cbn [mbind option_bind]. rewrite decide_True by done. by intros [= <- _ _].
Qed.

Lemma sessions_snapshot_witness :
  let w := SessionSim.mkWorld 61000000000 true in
  length (SessionSim.names (SessionSim.collect zeroWm w)) = 20 /\
  exists b, (exists ev w', SessionSim.collect zeroWm w = Some (Ok b, ev, w')) /\
  b_Samples b = sessions_derive SessionSim.table (sl_deriveCfg SessionSim.loop) 61000000000 /\ NoDup (map series_point (b_Samples b)).
Proof.
  intros w. split; [vm_compute; reflexivity|].
  pose proof (sessions_snapshot SessionSim.fmt SessionSim.offset_url SessionSim.no_quote SessionSim.no_float id SessionSim.slice id
    SessionSim.config SessionSim.loop zeroWm w SessionSim.table eq_refl (session_table_served _)) as Hsnap.
  destruct Hsnap as (r & ev & w' & Hc & Hr & _).
  - apply (bool_decide_unpack _). vm_compute. exact I.
  - vm_compute. reflexivity.
  - fold SessionSim.collect in Hc. destruct r as [b|e]; [|vm_compute in Hc; discriminate Hc].
    destruct (Hr b eq_refl) as (Hs & _ & _ & Hn). exists b. split; [by do 2 eexists|]. split; [exact Hs|].
    apply Hn; [|reflexivity]. apply (bool_decide_unpack _). vm_compute. exact I.
Defined.

Lemma sessions_owned_witness :
  let cfg := sl_deriveCfg SessionSim.loop in
  match sessions_derive SessionSim.table cfg 61000000000 with
  | p :: _ => s_Name p ∈ map (fun s => "langsmith_" +:+ s) sessionSuffixes /\ s_Timestamp p = 60000000000%Z
  | [] => False
  end.
Proof.
  intros cfg. destruct (sessions_derive SessionSim.table cfg 61000000000) as [|p rest] eqn:Hd; [vm_compute in Hd; discriminate Hd|].
  destruct (sessions_owned SessionSim.table cfg 61000000000 p) as (_ & _ & Ht & Hn & _).
  - apply (bool_decide_unpack _). vm_compute. exact I.
  - rewrite Hd. left.
  - split; [exact Hn|]. rewrite Ht. vm_compute. reflexivity.
Defined.

(** An unauthorised answer is signalled and emits nothing. *)
Example sessions_unauthorised :
  SessionSim.collect zeroWm (SessionSim.mkWorld 5 false) = Some (Err (LsStatus 401 ""), [LsAuthError], SessionSim.mkWorld 5 false).
Proof. vm_compute. reflexivity. Qed.
