(* ===== verification/LangsmithUsage.v ===== *)
(** * The LangSmith usage loop (internal/source/langsmith: usage.go,
      usage_derive.go, usage_stats.go)

    The per-project cost drivers: traces from GET /sessions and, when enabled,
    one POST /runs/stats per project for its spans. *)

From S2P Require Import Prelude Model Source PortkeyDerive LangsmithPages LangsmithSessions.

(** ** The derivation (usage_derive.go) *)

Record usageSession := mkUsage { us_ID : string; us_Name : string; us_RunCount : option Z; us_TraceTier : string }.

Record usageDeriveConfig := mkUsageDerive { ud_prefix : string; ud_sessionLabelKey : string; ud_useName : bool }.

Definition usage_label (useName : bool) (s : usageSession) : string :=
  if useName && negb (bool_decide (us_Name s = "")) then us_Name s else us_ID s.

Definition usage_tier (s : usageSession) : string := if decide (us_TraceTier s = "") then "unknown" else us_TraceTier s.

(** A map literal: when the two keys are one, the second entry stays. *)
Definition usage_labels (cfg : usageDeriveConfig) (s : usageSession) : gmap string string :=
  <["retention_tier" := usage_tier s]> {[ ud_sessionLabelKey cfg := usage_label (ud_useName cfg) s ]}.

Definition usage_samples (spans : gmap string Z) (cfg : usageDeriveConfig) (stamp : Time) (s : usageSession) : list Sample :=
  match us_RunCount s with
  | Some n => [gauge (ud_prefix cfg +:+ "_usage_traces") (usage_labels cfg s) (f64_of_Z n) stamp]
  | None => []
  end ++
  match spans !! us_ID s with
  | Some n => [gauge (ud_prefix cfg +:+ "_usage_spans") (usage_labels cfg s) (f64_of_Z n) stamp]
  | None => []
  end.

Definition usageDerive (sessions : list usageSession) (spans : gmap string Z) (cfg : usageDeriveConfig) (now : Time) : list Sample :=
  concat (map (usage_samples spans cfg (Truncate now Minute)) (sort_by_id us_ID sessions)).

(** ** The loop (usage.go) *)

Record usageConfig := mkUsageConfig {
  uc_BaseURL : string;
  uc_AuthHeader : string;
  uc_AuthValue : string;
  uc_SourceInstance : string;
  uc_Prefix : string;
  uc_Cadence : Duration;
  uc_StatsWindow : Duration;
  uc_SessionFilter : string;
  uc_SessionLabelKey : string;
  uc_SessionLabelValue : string;
  uc_PageLimit : Z;
  uc_MaxSessions : Z;
  uc_EmitSpanCounts : bool
}.

Record usageLoop := mkUsageLoop {
  ul_baseURL : string;
  ul_prefix : string;
  ul_sourceInstance : string;
  ul_cadence : Duration;
  ul_statsWindow : Duration;
  ul_sessionFilter : string;
  ul_pageLimit : Z;
  ul_maxSessions : Z;
  ul_emitSpanCounts : bool;
  ul_deriveCfg : usageDeriveConfig
}.

Definition newUsageLoop (cfg : usageConfig) : option usageLoop :=
  if decide (uc_AuthHeader cfg = "" \/ uc_AuthValue cfg = "") then None
  else if decide (uc_BaseURL cfg = "") then None
  else
    let prefix := or_default "langsmith" (uc_Prefix cfg) in
    Some (mkUsageLoop (uc_BaseURL cfg) prefix (uc_SourceInstance cfg) (pos_or (10 * Minute) (uc_Cadence cfg))
            (pos_or (10 * Minute) (uc_StatsWindow cfg)) (uc_SessionFilter cfg) (pos_or 100 (uc_PageLimit cfg))
            (pos_or 1000 (uc_MaxSessions cfg)) (uc_EmitSpanCounts cfg)
            (mkUsageDerive prefix (or_default "session" (uc_SessionLabelKey cfg)) (bool_decide (uc_SessionLabelValue cfg = "name")))).

Definition usage_SeriesNames (l : usageLoop) : list string := [ul_prefix l +:+ "_usage_traces"; ul_prefix l +:+ "_usage_spans"].

Definition IncompleteSpanStatsUnavailable : string := "span_stats_unavailable".

Section collect.
Context {W : Type} `{LangsmithAPI W}.
(** [time.Format] with RFC3339; [url.Parse] and [Values.Encode]; the decoding
    of a page and of the run count of /runs/stats. *)
Context (fmt_rfc3339 : Time -> string) (url_with : string -> list (string * string) -> option string).
Context (dec_usage : string -> option (list usageSession)) (dec_stats : string -> option (option Z)).
Context (sha256_hex trim_uni : string -> string).

Definition usage_Key (l : usageLoop) : CheckpointKey :=
  mkKey (ul_sourceInstance l) "usage" (Fingerprint sha256_hex trim_uni (usage_SeriesNames l) ("prefix=" +:+ ul_prefix l)).

Definition usage_fetchPage (l : usageLoop) (statsStart : Time) (offset : Z) (w : W) : result LsErr (list usageSession * Z) * W :=
  match url_with (ul_baseURL l +:+ "/sessions")
          ([("include_stats", "true"); ("stats_start_time", fmt_rfc3339 statsStart)] ++
           setSessionsPageQuery (ul_pageLimit l) offset (ul_sessionFilter l)) with
  | None => (Err LsBadURL, w)
  | Some url =>
      let '(resp, w) := ls_Get url w in
      (match resp with
       | None => Err LsTransport
       | Some (code, body) =>
           if decide (code = 200%Z) then
             match dec_usage (LimitReader ls_maxResponseBytes body) with Some page => Ok (page, code) | None => Err LsDecode end
           else Ok ([], code)
       end, w)
  end.

(** The fetch and the status switch of [Collect]. *)
Definition usage_page (l : usageLoop) (statsStart : Time) (offset : Z) (w : W)
    : result LsErr (list usageSession) * list LsEvent * W :=
  match usage_fetchPage l statsStart offset w with
  | (Err e, w) => (Err e, [], w)
  | (Ok (page, code), w) =>
      if decide (code = 200%Z) then (Ok page, [], w)
      else if decide (code = 429%Z) then (Err LsQuota, [], w)
      else (Err (LsStatus code ""), if IsAuthStatus code then [LsAuthError] else [], w)
  end.

(** The count, the status and the error: an error with status 200 is a body
    that does not decode, with status 0 one of the transport. *)
Definition fetchSpanCount (sessionID : string) (statsStart : Time) (w : W) : option Z * Z * option LsErr * W :=
  let '(resp, w) := ls_Stats sessionID (fmt_rfc3339 statsStart) w in
  match resp with
  | None => (None, 0%Z, Some LsTransport, w)
  | Some (code, body) =>
      if decide (code = 200%Z) then
        match dec_stats (LimitReader ls_maxResponseBytes body) with
        | Some n => (n, code, None, w)
        | None => (None, code, Some LsDecode, w)
        end
      else (None, code, None, w)
  end.

(** The span loop: [None] is the quota error. *)
Fixpoint span_counts (sessions : list usageSession) (statsStart : Time) (spans : gmap string Z) (w : W)
    : option (gmap string Z) * list LsEvent * W :=
  match sessions with
  | [] => (Some spans, [], w)
  | s :: sessions =>
      let '(n, code, err, w) := fetchSpanCount (us_ID s) statsStart w in
      if decide (code = 429%Z) then (None, [], w)
      else
        let '(spans, ev) :=
          match n with
          | Some n =>
              if bool_decide (err = None) && (code =? 200)%Z then (<[us_ID s := n]> spans, [])
              else (spans, (if IsAuthStatus code then [LsAuthError] else []) ++ [LsIncomplete IncompleteSpanStatsUnavailable])
          | None => (spans, (if IsAuthStatus code then [LsAuthError] else []) ++ [LsIncomplete IncompleteSpanStatsUnavailable])
          end in
        let '(r, ev', w) := span_counts sessions statsStart spans w in
        (r, ev ++ ev', w)
  end.

(** [None]: out of fuel. *)
Definition usage_Collect (l : usageLoop) (since : Watermark) (w : W) : option (result LsErr Batch * list LsEvent * W) :=
  let now := ls_now w in
  let statsStart := Add now (- ul_statsWindow l) in
  '(r, ev, w) ← page_loop us_ID never_skip (usage_page l statsStart) (ul_pageLimit l) (ul_maxSessions l)
    (page_fuel (ul_maxSessions l)) 0 ∅ [] w;
  match r with
  | Err e => Some (Err e, ev, w)
  | Ok (sessions, _) =>
      let '(spans, ev', w) := if ul_emitSpanCounts l then span_counts sessions statsStart ∅ w else (Some ∅, [], w) in
      Some (match spans with
            | None => Err LsQuota
            | Some spans =>
                Ok (mkBatch (usage_Key l) (usageDerive sessions spans (ul_deriveCfg l) now) [] (mkWm now (wm_Cursor since) (wm_Epoch since)))
            end, ev ++ ev', w)
  end.
End collect.

(** ** The gauges *)

(** The gauge [name] of session [s], with value [n]. *)
Definition usage_gauge (cfg : usageDeriveConfig) (stamp : Time) (s : usageSession) (name : string) (n : Z) : Sample :=
  gauge (ud_prefix cfg +:+ name) (usage_labels cfg s) (f64_of_Z n) stamp.

Lemma usage_samples_elem spans cfg stamp s p :
  p ∈ usage_samples spans cfg stamp s <->
  (exists n, us_RunCount s = Some n /\ p = usage_gauge cfg stamp s "_usage_traces" n) \/
  (exists n, spans !! us_ID s = Some n /\ p = usage_gauge cfg stamp s "_usage_spans" n).
Proof.
  unfold usage_samples. rewrite elem_of_app.
  destruct (us_RunCount s), (spans !! us_ID s); rewrite ?list_elem_of_singleton, ?elem_of_nil; naive_solver.
Qed.

Lemma usageDerive_elem sessions spans cfg now p :
  p ∈ usageDerive sessions spans cfg now <-> exists s, s ∈ sessions /\ p ∈ usage_samples spans cfg (Truncate now Minute) s.
Proof.
  unfold usageDerive. split.
  - intros (l & Hp & Hl)%elem_concat. apply list_elem_of_fmap in Hl as (s & -> & Hs). rewrite sort_by_id_perm in Hs. by exists s.
  - intros (s & Hs & Hp). apply elem_concat. exists (usage_samples spans cfg (Truncate now Minute) s). split; [done|].
    apply list_elem_of_fmap_2. by rewrite sort_by_id_perm.
Qed.

Lemma usageDerive_nodup sessions spans cfg now :
  ud_sessionLabelKey cfg <> "retention_tier" -> ud_useName cfg = false -> NoDup (map us_ID sessions) ->
  NoDup (map series_point (usageDerive sessions spans cfg now)).
Proof.
  intros Hk Hn Hnd. unfold usageDerive.
  apply (NoDup_concat_tagged _ series_point us_ID (fun p => default "" (p.1.2 !! ud_sessionLabelKey cfg))).
  - by rewrite sort_by_id_perm.
  - intros s p [(n & _ & ->)|(n & _ & ->)]%usage_samples_elem; unfold series_point, usage_gauge, usage_labels; cbn [fst snd s_Labels gauge];
      (rewrite lookup_insert_ne, lookup_singleton_eq by done); by rewrite Hn.
  - intros s. unfold usage_samples.
    assert (ud_prefix cfg +:+ "_usage_traces" <> ud_prefix cfg +:+ "_usage_spans") as Hne
      by (intros [_ Heq]%string_app_inj_length; [discriminate Heq|done]).
    destruct (us_RunCount s), (spans !! us_ID s); simpl; repeat constructor; try (by intros ?%elem_of_nil).
    rewrite list_elem_of_singleton. intros [= Heq]. done.
Qed.

(** ** The span counts *)

Section spans.
Context {W : Type} `{LangsmithAPI W}.
Context (fmt_rfc3339 : Time -> string) (dec_stats : string -> option (option Z)).

(** The API said, at some point, that the project had [n] spans. *)
Definition span_answer (statsStart : Time) (id : string) (n : Z) : Prop :=
  exists w w', fetchSpanCount fmt_rfc3339 dec_stats id statsStart w = (Some n, 200%Z, None, w').

Definition span_gaps (ev : list LsEvent) : nat := length (filter (fun e => e = LsIncomplete IncompleteSpanStatsUnavailable) ev).

Lemma span_gaps_app ev ev' : span_gaps (ev ++ ev') = span_gaps ev + span_gaps ev'.
Proof. unfold span_gaps. by rewrite filter_app, length_app. Qed.

(** Every count is one the API gave; every project without one is counted. *)
Lemma span_counts_ok sessions statsStart spans w spans' ev w' :
  NoDup (map us_ID sessions) -> (forall s, s ∈ sessions -> spans !! us_ID s = None) ->
  span_counts fmt_rfc3339 dec_stats sessions statsStart spans w = (Some spans', ev, w') ->
  spans ⊆ spans' /\ (forall id n, spans' !! id = Some n -> spans !! id = Some n \/ span_answer statsStart id n) /\
  (forall id, id ∉ map us_ID sessions -> spans' !! id = spans !! id) /\
  span_gaps ev = length (filter (fun s => spans' !! us_ID s = None) sessions).
Proof.
  revert spans w ev. induction sessions as [|s sessions IH]; intros spans w ev Hnd Hfresh; cbn [span_counts].
  { intros [= <- <- _]. split_and!; auto. }
  apply NoDup_cons in Hnd as [Hni Hnd].
  destruct (fetchSpanCount fmt_rfc3339 dec_stats (us_ID s) statsStart w) as [[[n code] err] w1] eqn:Hf.
  destruct (decide (code = 429%Z)); [done|].
  set (missed := (if IsAuthStatus code then [LsAuthError] else []) ++ [LsIncomplete IncompleteSpanStatsUnavailable]).
  assert (span_gaps missed = 1) as Hmiss by (unfold missed; destruct (IsAuthStatus code); reflexivity).
  assert (Hskip : forall ev, (let '(r, ev', w2) := span_counts fmt_rfc3339 dec_stats sessions statsStart spans w1 in (r, missed ++ ev', w2)) =
    (Some spans', ev, w') -> spans ⊆ spans' /\ (forall id n, spans' !! id = Some n -> spans !! id = Some n \/ span_answer statsStart id n) /\
    (forall id, id ∉ map us_ID (s :: sessions) -> spans' !! id = spans !! id) /\
    span_gaps ev = length (filter (fun s => spans' !! us_ID s = None) (s :: sessions))).
  { intros ev0. destruct (span_counts _ _ sessions statsStart spans w1) as [[r ev'] w2] eqn:Hrec. intros [= -> <- ->].
    apply IH in Hrec as (Hsub & Hans & Hout & Hgaps); [|done|intros; apply Hfresh; by right].
    split_and!; [done|done|intros; apply Hout; set_solver|]. rewrite filter_cons_True by (rewrite Hout by done; apply Hfresh; left).
    rewrite span_gaps_app, Hmiss, Hgaps. done. }
  destruct n as [n|]; [|by apply Hskip]. destruct (bool_decide (err = None) && (code =? 200)%Z) eqn:Hok; [|by apply Hskip].
  apply andb_true_iff in Hok as [->%bool_decide_eq_true ->%Z.eqb_eq]. clear Hskip.
  destruct (span_counts _ _ sessions statsStart _ w1) as [[r ev'] w2] eqn:Hrec. intros [= -> <- ->].
  apply IH in Hrec as (Hsub & Hans & Hout & Hgaps); [|done|].
  2: { intros s' Hs'. rewrite lookup_insert_ne; [apply Hfresh; by right|]. intros Heq. apply Hni. rewrite Heq. by apply list_elem_of_fmap_2. }
  assert (spans' !! us_ID s = Some n) as Hthis by (rewrite Hout by done; apply lookup_insert_eq).
  split_and!.
  - etrans; [|exact Hsub]. apply insert_subseteq, Hfresh. left.
  - intros id m Hm. destruct (Hans id m Hm) as [Hi|?]; [|by right]. destruct (decide (id = us_ID s)) as [->|Hne].
    + rewrite lookup_insert_eq in Hi. injection Hi as <-. right. by exists w, w1.
    + rewrite lookup_insert_ne in Hi by done. by left.
  - intros id Hid. rewrite Hout, lookup_insert_ne by set_solver. done.
  - rewrite filter_cons_False by (by rewrite Hthis). exact Hgaps.
Qed.
End spans.

(** ** One snapshot *)

Lemma newUsageLoop_inv cfg l :
  newUsageLoop cfg = Some l -> (0 < ul_pageLimit l)%Z /\ (0 < ul_maxSessions l)%Z /\ (0 < ul_statsWindow l)%Z.
Proof.
  unfold newUsageLoop. case_decide; [done|]. case_decide; [done|]. intros [= <-]. cbn [ul_pageLimit ul_maxSessions ul_statsWindow].
  unfold pos_or, Minute. split_and!; zbool; lia.
Qed.

Section snapshot.
Context {W : Type} `{LangsmithAPI W}.
Context (fmt_rfc3339 : Time -> string) (url_with : string -> list (string * string) -> option string).
Context (dec_usage : string -> option (list usageSession)) (dec_stats : string -> option (option Z)).
Context (sha256_hex trim_uni : string -> string).

(** The usage snapshot is honest about its counts.  With any accepted
    configuration [Collect] returns.  Against an API that serves a list of
    projects with distinct ids, a batch comes from the first [max_sessions] of
    them: every trace count is there, under the project's own labels; a span
    gauge is there exactly for the projects whose count the API gave, with that
    count; every project left without one is counted as a gap when span
    counts are on; no point is there twice when projects are labelled by id;
    and the watermark moves to now. *)
Theorem usage_snapshot cfg l since w table :
  newUsageLoop cfg = Some l ->
  let now := ls_now w in
  let start := Add now (- ul_statsWindow l) in
  let rows := take (Z.to_nat (ul_maxSessions l)) table in
  let point := usage_gauge (ul_deriveCfg l) (Truncate now Minute) in
  serves_table (usage_page fmt_rfc3339 url_with dec_usage l start) (ul_pageLimit l) table -> NoDup (map us_ID table) ->
  (Z.of_nat (length table) + ul_pageLimit l < 2 ^ 63)%Z ->
  exists r ev w', usage_Collect fmt_rfc3339 url_with dec_usage dec_stats sha256_hex trim_uni l since w = Some (r, ev, w') /\
  forall b, r = Ok b -> exists spans : gmap string Z,
    (forall id n, spans !! id = Some n -> ul_emitSpanCounts l = true /\ span_answer fmt_rfc3339 dec_stats start id n) /\
    (forall p, p ∈ b_Samples b <-> exists s, s ∈ rows /\
       ((exists n, us_RunCount s = Some n /\ p = point s "_usage_traces" n) \/
        (exists n, spans !! us_ID s = Some n /\ p = point s "_usage_spans" n))) /\
    (ul_emitSpanCounts l = true -> length (filter (fun s => spans !! us_ID s = None) rows) <= span_gaps ev) /\
    (ud_sessionLabelKey (ul_deriveCfg l) <> "retention_tier" -> ud_useName (ul_deriveCfg l) = false ->
       NoDup (map series_point (b_Samples b))) /\
    b_Watermark b = mkWm now (wm_Cursor since) (wm_Epoch since).
Proof.
  intros (Hl & Hm & _)%newUsageLoop_inv now start rows point Hs Hnd Hfit. unfold usage_Collect. fold now start.
  destruct (page_loop_table us_ID never_skip (usage_page fmt_rfc3339 url_with dec_usage l start) (ul_pageLimit l) (ul_maxSessions l) table w)
    as (r & ev & w1 & -> & Hr & _); try done. cbn [mbind option_bind].
  destruct r as [[got capped]|e]; [|do 3 eexists; split; [reflexivity|done]]. specialize (Hr _ eq_refl). injection Hr as -> _. fold rows.
  assert (NoDup (map us_ID rows)) as Hndr.
  { rewrite <-(take_drop (Z.to_nat (ul_maxSessions l)) table), map_app in Hnd. by apply NoDup_app in Hnd as (? & _). }
  destruct (if ul_emitSpanCounts l then _ else _) as [[spans ev'] w2] eqn:Hsp. do 3 eexists. split; [reflexivity|].
  intros b. destruct spans as [spans|]; [|done]. intros [= <-]. exists spans. cbn [b_Samples b_Watermark].
  assert ((forall id n, spans !! id = Some n -> ul_emitSpanCounts l = true /\ span_answer fmt_rfc3339 dec_stats start id n) /\
    (ul_emitSpanCounts l = true -> span_gaps ev' = length (filter (fun s => spans !! us_ID s = None) rows))) as [Hans Hgaps].
  { destruct (ul_emitSpanCounts l); [|injection Hsp as <- _ _; split; [intros id n; by rewrite lookup_empty|done]].
    apply span_counts_ok in Hsp as (_ & Hans & _ & Hg); [|done|by intros; rewrite lookup_empty]. split; [|done].
    intros id n Hn. split; [done|]. destruct (Hans id n Hn) as [He|?]; [by rewrite lookup_empty in He|done]. }
  split; [exact Hans|]. split.
  { intros p. rewrite usageDerive_elem. unfold point. by setoid_rewrite usage_samples_elem. }
  split; [intros He; rewrite span_gaps_app, Hgaps by done; lia|]. split; [|done].
  intros Hk Hn. by apply usageDerive_nodup.
Qed.
End snapshot.

(** ** A concrete project list *)

Module UsageSim.
Record World := mkWorld { w_now : Time; w_quota : bool }.
Definition table : list usageSession :=
  [mkUsage "p3" "web" (Some 5%Z) "longlived"; mkUsage "p1" "" (Some 2%Z) ""; mkUsage "p2" "api" None "shortlived"].
Definition config : usageConfig := mkUsageConfig "https://h" "x-api-key" "k" "prod" "" 0 0 "" "session" "id" 2 0 true.
Definition loop : usageLoop :=
  match newUsageLoop config with Some l => l | None => mkUsageLoop "" "" "" 0 0 "" 0 0 false (mkUsageDerive "" "" false) end.
Definition get (url : string) (w : World) : option (Z * string) * World :=
  (if slen url <=? 30 then Some (200%Z, url) else Some (500%Z, ""), w).
(** One count, one error, one project without a count. *)
Definition stats (id from : string) (w : World) : option (Z * string) * World :=
  (if w_quota w then Some (429%Z, "") else if decide (id = "p1") then Some (200%Z, "9")
   else if decide (id = "p2") then Some (403%Z, "") else Some (200%Z, "null"), w).
#[global] Instance usage_api : LangsmithAPI World := {|
  ls_Get := get; ls_Query _ w := (None, w); ls_Stats := stats; ls_now w := w_now w |}.
Definition slice (body : string) : option (list usageSession) := o ← ParseInt body; Some (take 2 (drop (Z.to_nat o) table)).
Definition count (body : string) : option (option Z) := Some (ParseInt body).
Definition fmt (t : Time) : string := FormatInt t.
Definition collect := usage_Collect (W := World) fmt SessionSim.offset_url slice count id id loop.
Definition page_at (start : Time) := usage_page (W := World) fmt SessionSim.offset_url slice loop start.
Definition shown (r : option (result LsErr Batch * list LsEvent * World)) : list (string * option string * option string) * list LsEvent :=
  match r with
  | Some (Ok b, ev, _) => (map (fun p => (s_Name p, s_Labels p !! "session", s_Labels p !! "retention_tier")) (b_Samples b), ev)
  | Some (Err _, ev, _) => ([], ev)
  | None => ([], [])
  end.
End UsageSim.

Example usage_run :
  UsageSim.shown (UsageSim.collect zeroWm (UsageSim.mkWorld 61000000000 false)) =
    ([("langsmith_usage_traces", Some "p1", Some "unknown"); ("langsmith_usage_spans", Some "p1", Some "unknown");
      ("langsmith_usage_traces", Some "p3", Some "longlived")],
     [LsIncomplete "span_stats_unavailable"; LsAuthError; LsIncomplete "span_stats_unavailable"]) /\
  fst <$> (fst <$> UsageSim.collect zeroWm (UsageSim.mkWorld 5 true)) = Some (Err LsQuota).
Proof. split; vm_compute; reflexivity. Qed.

Lemma usage_table_served start : serves_table (UsageSim.page_at start) 2 UsageSim.table.
Proof.
  intros offset w page ev w' Ho. unfold UsageSim.page_at, usage_page, usage_fetchPage.
  change (SessionSim.offset_url _ _) with (Some (FormatInt offset)). cbn [ls_Get UsageSim.usage_api]. unfold UsageSim.get.
  destruct (Nat.leb_spec (slen (FormatInt offset)) 30) as [Hle|]; [|by intros [= ?]].
  rewrite decide_True by done. unfold LimitReader. rewrite (proj2 (Z.leb_le _ _)) by (unfold ls_maxResponseBytes; lia).
  unfold UsageSim.slice. destruct (ParseInt (FormatInt offset)) as [o|] eqn:Hp; [|by intros [= ?]].
  apply ParseInt_FormatInt_inv in Hp as ->. cbn [mbind option_bind]. rewrite decide_True by done. by intros [= <- _ _].
Qed.

Lemma usage_snapshot_witness :
  let w := UsageSim.mkWorld 61000000000 false in
  exists b ev w' spans, UsageSim.collect zeroWm w = Some (Ok b, ev, w') /\ length (b_Samples b) = 3 /\
    length (filter (fun s => (spans : gmap string Z) !! us_ID s = None) UsageSim.table) <= span_gaps ev /\ NoDup (map series_point (b_Samples b)).
Proof.
  intros w.
  pose proof (usage_snapshot UsageSim.fmt SessionSim.offset_url UsageSim.slice UsageSim.count id id UsageSim.config UsageSim.loop zeroWm w
    UsageSim.table eq_refl (usage_table_served _)) as Hsnap.
  destruct Hsnap as (r & ev & w' & Hc & Hr).
  - apply (bool_decide_unpack _). vm_compute. exact I.
  - vm_compute. reflexivity.
  - fold UsageSim.collect in Hc. destruct r as [b|e]; [|vm_compute in Hc; discriminate Hc].
    destruct (Hr b eq_refl) as (spans & _ & _ & Hg & Hn & _). exists b, ev, w', spans. split; [exact Hc|]. split.
    + assert (length (fst (UsageSim.shown (UsageSim.collect zeroWm w))) = 3) as Hlen by (vm_compute; reflexivity).
      rewrite Hc in Hlen. cbn [UsageSim.shown fst] in Hlen. by rewrite length_map in Hlen.
    + split; [apply Hg; reflexivity|apply Hn; [discriminate|reflexivity]].
Defined.
