(* ===== verification/Langsmith.v ===== *)
(** * The LangSmith source (internal/source/langsmith: settings.go,
      langsmith.go [New], labels.go)

    The settings overlays of the sessions and usage loops, the constructor of
    the source and the example configuration it documents. *)

From S2P Require Import Prelude Model Config Source PortkeyUseCase PortkeyDerive PortkeyGroups LangsmithStrip.
From S2P Require Import LangsmithPages LangsmithRuns LangsmithRunsSettings LangsmithSessions LangsmithUsage.

(** ** Settings (settings.go) *)

Record sessionsDefaults := mkSessionsDefaults {
  sd_StatsWindow : Duration; sd_UseApproxStats : bool; sd_SessionLabelValue : string; sd_PageLimit : Z; sd_MaxSessions : Z;
  sd_EmitFeedback : bool
}.
Definition defaultSessionsSettings : sessionsDefaults := mkSessionsDefaults Hour false "id" 100 1000 true.

Record usageDefaults := mkUsageDefaults {
  du_StatsWindow : Duration; du_SessionLabelValue : string; du_PageLimit : Z; du_MaxSessions : Z; du_EmitSpanCounts : bool
}.
Definition defaultUsageSettings : usageDefaults := mkUsageDefaults (10 * Minute) "id" 100 1000 true.

Definition validateSessionLabelValue (v : string) : bool := bool_decide (v = "id") || bool_decide (v = "name").

(** labels.go *)
Definition ls_AllowedLabelKeys : list string := ["quantile"; "session"; "feedback_key"; "run_type"; "status"; "retention_tier"].

Section settings.
(** [time.ParseDuration] and [strings.TrimSpace] beyond ASCII. *)
Context (ParseDuration : string -> option Duration) (trim_uni : string -> string).

(** [strconv.Atoi] of a number that must be positive. *)
Definition atoi_positive (v : string) : option Z := n ← ParseInt v; if (n <=? 0)%Z then None else Some n.

(** One setting of the usage loop; an unknown key is ignored. *)
Definition apply_usage_setting (c : usageConfig) (kv : string * string) : option usageConfig :=
  let '(k, v) := kv in
  let '(mkUsageConfig bu ah av si px cd sw sf lk lv pl ms es) := c in
  if decide (k = "stats_window") then sw ← ParseDuration v; Some (mkUsageConfig bu ah av si px cd sw sf lk lv pl ms es)
  else if decide (k = "session_filter") then Some (mkUsageConfig bu ah av si px cd sw v lk lv pl ms es)
  else if decide (k = "session_label_value") then
    if validateSessionLabelValue v then Some (mkUsageConfig bu ah av si px cd sw sf lk v pl ms es) else None
  else if decide (k = "page_limit") then pl ← atoi_positive v; Some (mkUsageConfig bu ah av si px cd sw sf lk lv pl ms es)
  else if decide (k = "max_sessions") then ms ← atoi_positive v; Some (mkUsageConfig bu ah av si px cd sw sf lk lv pl ms es)
  else if decide (k = "emit_span_counts") then es ← ParseBool v; Some (mkUsageConfig bu ah av si px cd sw sf lk lv pl ms es)
  else Some c.

(** [None] is an error; which one depends on the order of a Go map. *)
Definition applyUsageSettings (c : usageConfig) (s : gmap string string) : option usageConfig :=
  foldl (fun c kv => c ← c; apply_usage_setting c kv) (Some c) (map_to_list s).

(** One setting of the sessions loop; an unknown key is ignored. *)
Definition apply_sessions_setting (c : sessionsConfig) (kv : string * string) : option sessionsConfig :=
  let '(k, v) := kv in
  let '(mkSessionsConfig bu ah av si px cd sw ap sf lk lv pl ms ef fk) := c in
  if decide (k = "stats_window") then sw ← ParseDuration v; Some (mkSessionsConfig bu ah av si px cd sw ap sf lk lv pl ms ef fk)
  else if decide (k = "use_approx_stats") then ap ← ParseBool v; Some (mkSessionsConfig bu ah av si px cd sw ap sf lk lv pl ms ef fk)
  else if decide (k = "session_filter") then Some (mkSessionsConfig bu ah av si px cd sw ap v lk lv pl ms ef fk)
  else if decide (k = "session_label_value") then
    if validateSessionLabelValue v then Some (mkSessionsConfig bu ah av si px cd sw ap sf lk v pl ms ef fk) else None
  else if decide (k = "page_limit") then pl ← atoi_positive v; Some (mkSessionsConfig bu ah av si px cd sw ap sf lk lv pl ms ef fk)
  else if decide (k = "max_sessions") then ms ← atoi_positive v; Some (mkSessionsConfig bu ah av si px cd sw ap sf lk lv pl ms ef fk)
  else if decide (k = "emit_feedback") then ef ← ParseBool v; Some (mkSessionsConfig bu ah av si px cd sw ap sf lk lv pl ms ef fk)
  else if decide (k = "feedback_keys") then Some (mkSessionsConfig bu ah av si px cd sw ap sf lk lv pl ms ef (splitCSV trim_uni v))
  else Some c.

Definition applySettings (c : sessionsConfig) (s : gmap string string) : option sessionsConfig :=
  foldl (fun c kv => c ← c; apply_sessions_setting c kv) (Some c) (map_to_list s).

(** ** The source (langsmith.go) *)

Inductive lsLoop :=
| LsSessions (l : sessionsLoop)
| LsRuns (l : runsLoop)
| LsUsage (l : usageLoop).

Definition sessions_config (sc : SourceConfig) (lp : LoopConfig) : sessionsConfig :=
  let sd := defaultSessionsSettings in
  mkSessionsConfig (sc_BaseURL sc) (sc_AuthHeader sc) (sc_AuthValue sc) (sc_SourceInstance sc) (lc_MetricPrefix lp) (lc_Cadence lp)
    (sd_StatsWindow sd) (sd_UseApproxStats sd) "" "session" (sd_SessionLabelValue sd) (sd_PageLimit sd) (sd_MaxSessions sd)
    (sd_EmitFeedback sd) [].

Definition usage_config (sc : SourceConfig) (lp : LoopConfig) : usageConfig :=
  let ud := defaultUsageSettings in
  mkUsageConfig (sc_BaseURL sc) (sc_AuthHeader sc) (sc_AuthValue sc) (sc_SourceInstance sc) (lc_MetricPrefix lp) (lc_Cadence lp)
    (du_StatsWindow ud) "" "session" (du_SessionLabelValue ud) (du_PageLimit ud) (du_MaxSessions ud) (du_EmitSpanCounts ud).

(** The loop configured under a name, when it is enabled. *)
Definition enabled_loop (sc : SourceConfig) (name : string) : option LoopConfig :=
  lp ← sc_Loops sc !! name; if lc_Enabled lp then Some lp else None.

Definition build_sessions (sc : SourceConfig) (lp : LoopConfig) : option lsLoop :=
  cfg ← applySettings (sessions_config sc lp) (lc_Settings lp); l ← newSessionsLoop cfg; Some (LsSessions l).
Definition build_runs (sc : SourceConfig) (lp : LoopConfig) : option lsLoop :=
  l ← newRunsLoop ParseDuration trim_uni sc lp; Some (LsRuns l).
Definition build_usage (sc : SourceConfig) (lp : LoopConfig) : option lsLoop :=
  cfg ← applyUsageSettings (usage_config sc lp) (lc_Settings lp); l ← newUsageLoop cfg; Some (LsUsage l).

(** [None] is an error.  The shared client is the HTTP client's. *)
Definition langsmith_New (sc : SourceConfig) : option (list lsLoop) :=
  let sess := enabled_loop sc "sessions" in
  let runs := enabled_loop sc "runs" in
  let usage := enabled_loop sc "usage" in
  let windowed o := match o with Some lp => negb (lc_Window lp =? 0)%Z | None => false end in
  if windowed sess || windowed usage then None
  else
    let build o f := match o with Some lp => l ← f sc lp; Some [l] | None => Some ([] : list lsLoop) end in
    a ← build sess build_sessions; b ← build runs build_runs; c ← build usage build_usage; Some (a ++ b ++ c).
End settings.

(** ** The example (settings.go) *)

(** A [time.Duration] is truncated by each division; the parts at most 0 are
    left out. *)
Definition humanDur (d : Duration) : string :=
  if decide (d = 0%Z) then "0s"
  else
    let part (unit : Duration) (name : string) (st : string * Duration) : string * Duration :=
      let '(b, d) := st in
      let n := Z.quot d unit in
      if (0 <? n)%Z then (b +:+ FormatInt n +:+ name, (d - n * unit)%Z) else (b, d) in
    fst (part Second "s" (part Minute "m" (part Hour "h" ("", d)))).

(** [%v] of a bool. *)
Definition show_bool (b : bool) : string := if b then "true" else "false".
Definition dquote : string := String (Ascii.ascii_of_nat 34) "".
Definition example_filter : string := "eq(name, " +:+ dquote +:+ "my-project" +:+ dquote +:+ ")".

Definition ExampleSource : SourceConfig :=
  let d := defaultRunsSettings in
  let sd := defaultSessionsSettings in
  let ud := defaultUsageSettings in
  let sessions := list_to_map
    [("stats_window", humanDur (sd_StatsWindow sd)); ("use_approx_stats", show_bool (sd_UseApproxStats sd));
     ("session_filter", example_filter); ("session_label_value", sd_SessionLabelValue sd); ("page_limit", FormatInt (sd_PageLimit sd));
     ("max_sessions", FormatInt (sd_MaxSessions sd)); ("emit_feedback", show_bool (sd_EmitFeedback sd));
     ("feedback_keys", "correctness,helpfulness")] in
  let runs := list_to_map
    [("session_ids", "<project-uuid-1>,<project-uuid-2>"); ("session_filter", example_filter); ("max_sessions", FormatInt (rk_maxSessions d));
     ("window", humanDur (rk_window d)); ("settle", humanDur (rk_settle d)); ("max_backfill", humanDur (rk_maxBackfill d));
     ("session_refresh", humanDur (rk_sessionRefresh d)); ("page_size", FormatInt (rk_pageSize d));
     ("max_pages_per_window", FormatInt (rk_maxPagesPerWindow d)); ("max_response_bytes", FormatInt (rk_maxResponseBytes d));
     ("root_only", "false"); ("run_type", "chain"); ("extra_record_fields", "tags,child_run_ids,app_path"); ("extra_indexed_fields", "")] in
  let usage := list_to_map
    [("stats_window", humanDur (du_StatsWindow ud)); ("session_filter", example_filter); ("session_label_value", du_SessionLabelValue ud);
     ("page_limit", FormatInt (du_PageLimit ud)); ("max_sessions", FormatInt (du_MaxSessions ud));
     ("emit_span_counts", show_bool (du_EmitSpanCounts ud))] in
  mkSourceConfig "langsmith" true "https://api.smith.langchain.com" "langsmith-${ENV}" (mkAuth "x-api-key" "${LANGSMITH_API_KEY}")
    (mkRateLimit (f64_of_Z 10) 20) (mkHTTP "" [] false)
    (list_to_map
       [("sessions", mkLoopConfig true Minute 0 0 0 0 "langsmith" [] sessions);
        ("runs", mkLoopConfig true Minute 0 0 0 0 "" [] runs);
        ("usage", mkLoopConfig true (du_StatsWindow ud) 0 0 0 0 "langsmith" [] usage)])
    [].

(** ** What the constructor guarantees *)

Definition loop_name (l : lsLoop) : string := match l with LsSessions _ => "sessions" | LsRuns _ => "runs" | LsUsage _ => "usage" end.

(** The metric series a loop declares. *)
Definition loop_series (l : lsLoop) : list string :=
  match l with LsSessions l => sessions_SeriesNames l | LsRuns l => runs_SeriesNames l | LsUsage l => usage_SeriesNames l end.

(** A sample the loop may emit, whatever the API answers. *)
Definition loop_emits (l : lsLoop) (p : Sample) : Prop :=
  match l with
  | LsSessions l => exists sessions now, p ∈ sessions_derive sessions (sl_deriveCfg l) now
  | LsRuns _ => False
  | LsUsage l => exists sessions spans now, p ∈ usageDerive sessions spans (ul_deriveCfg l) now
  end.

Section keys.
Context (sha256_hex trim_uni : string -> string).
Definition loop_key (l : lsLoop) : CheckpointKey :=
  match l with
  | LsSessions l => sessions_Key trim_uni sha256_hex l
  | LsRuns l => runs_Key trim_uni sha256_hex l
  | LsUsage l => usage_Key sha256_hex trim_uni l
  end.

Lemma loop_key_name l : k_Loop (loop_key l) = loop_name l.
Proof. by destruct l. Qed.
End keys.

Section built.
Context (ParseDuration : string -> option Duration) (trim_uni : string -> string) (sha256_hex : string -> string).

Lemma applySettings_label c s c' :
  applySettings ParseDuration trim_uni c s = Some c' -> cf_SessionLabelKey c' = cf_SessionLabelKey c.
Proof.
  apply (foldl_option_inv (fun c' => cf_SessionLabelKey c' = cf_SessionLabelKey c)); [|done].
  intros c1 [k v] c2 Hc. rewrite <-Hc. clear Hc c. destruct c1. revert c2. unfold apply_sessions_setting.
  repeat first [apply if_some | apply bind_some; intros ? _]; intros c2; try (intros [= <-]; reflexivity).
  destruct (validateSessionLabelValue v); [intros [= <-]; reflexivity|done].
Qed.

Lemma applyUsageSettings_label c s c' :
  applyUsageSettings ParseDuration c s = Some c' -> uc_SessionLabelKey c' = uc_SessionLabelKey c.
Proof.
  apply (foldl_option_inv (fun c' => uc_SessionLabelKey c' = uc_SessionLabelKey c)); [|done].
  intros c1 [k v] c2 Hc. rewrite <-Hc. clear Hc c. destruct c1. revert c2. unfold apply_usage_setting.
  repeat first [apply if_some | apply bind_some; intros ? _]; intros c2; try (intros [= <-]; reflexivity).
  destruct (validateSessionLabelValue v); [intros [= <-]; reflexivity|done].
Qed.

Lemma build_sessions_ok sc lp l :
  build_sessions ParseDuration trim_uni sc lp = Some l ->
  loop_name l = "sessions" /\ forall p, loop_emits l p ->
    s_Name p ∈ loop_series l /\ forall k, is_Some (s_Labels p !! k) -> k ∈ ls_AllowedLabelKeys.
Proof.
  unfold build_sessions. destruct (applySettings _ _ _ _) as [cfg|] eqn:Hcfg; [|done]. cbn [mbind option_bind].
  destruct (newSessionsLoop cfg) as [sl|] eqn:Hl; [|done]. intros [= <-]. split; [done|].
  apply applySettings_label in Hcfg. pose proof (newSessionsLoop_inv _ _ Hl) as (_ & _ & _ & _ & Hp).
  assert (d_sessionLabelKey (sl_deriveCfg sl) = "session") as Hk.
  { revert Hl. unfold newSessionsLoop. case_decide; [done|]. case_decide; [done|]. intros [= <-]. cbn. by rewrite Hcfg. }
  intros p (sessions & now & Hin). pose proof (sessions_derive_elem _ _ _ _ Hin) as (s & _ & Hps).
  pose proof (session_samples_elem _ _ _ _ Hps) as ([[suffix extra] v] & _ & Hd & ->). unfold facet_key in Hd. cbn [fst] in Hd. split.
  - cbn [loop_series]. unfold sessions_SeriesNames. rewrite <-Hp. apply list_elem_of_fmap. exists suffix. split; [done|].
    by eapply declared_suffix.
  - intros k. simpl. rewrite Hk. destruct extra as [[k' x]|].
    + apply declared_extra_key in Hd. destruct (decide (k = k')) as [->|Hne].
      * intros _. unfold ls_AllowedLabelKeys. set_solver.
      * rewrite lookup_insert_ne by done. intros [y [<- _]%lookup_singleton_Some]. unfold ls_AllowedLabelKeys. set_solver.
    + intros [y [<- _]%lookup_singleton_Some]. unfold ls_AllowedLabelKeys. set_solver.
Qed.

Lemma build_usage_ok sc lp l :
  build_usage ParseDuration sc lp = Some l ->
  loop_name l = "usage" /\ forall p, loop_emits l p ->
    s_Name p ∈ loop_series l /\ forall k, is_Some (s_Labels p !! k) -> k ∈ ls_AllowedLabelKeys.
Proof.
  unfold build_usage. destruct (applyUsageSettings _ _ _) as [cfg|] eqn:Hcfg; [|done]. cbn [mbind option_bind].
  destruct (newUsageLoop cfg) as [ul|] eqn:Hl; [|done]. intros [= <-]. split; [done|]. apply applyUsageSettings_label in Hcfg.
  assert (ud_sessionLabelKey (ul_deriveCfg ul) = "session" /\ ud_prefix (ul_deriveCfg ul) = ul_prefix ul) as [Hk Hp].
  { revert Hl. unfold newUsageLoop. case_decide; [done|]. case_decide; [done|]. intros [= <-]. cbn. by rewrite Hcfg. }
  intros p (sessions & spans & now & Hin). apply usageDerive_elem in Hin as (s & _ & Hin). apply usage_samples_elem in Hin.
  assert (s_Labels p = usage_labels (ul_deriveCfg ul) s /\ s_Name p ∈ usage_SeriesNames ul) as [Hlab Hn].
  { unfold usage_SeriesNames. rewrite <-Hp. destruct Hin as [(n & _ & ->)|(n & _ & ->)]; (split; [done|]); [left|right; left]. }
  split; [exact Hn|]. intros k. rewrite Hlab. unfold usage_labels. rewrite Hk.
  destruct (decide (k = "retention_tier")) as [->|Hne]; [intros _; unfold ls_AllowedLabelKeys; set_solver|].
  rewrite lookup_insert_ne by done. intros [y [<- _]%lookup_singleton_Some]. unfold ls_AllowedLabelKeys. set_solver.
Qed.

Lemma build_runs_ok sc lp l :
  build_runs ParseDuration trim_uni sc lp = Some l -> loop_name l = "runs" /\ forall p, ~ loop_emits l p.
Proof. unfold build_runs. destruct (newRunsLoop _ _ _ _) as [rl|]; [|done]. intros [= <-]. split; [done|]. by intros p []. Qed.

Lemma applySettings_instance c s c' :
  applySettings ParseDuration trim_uni c s = Some c' -> cf_SourceInstance c' = cf_SourceInstance c.
Proof.
  apply (foldl_option_inv (fun c' => cf_SourceInstance c' = cf_SourceInstance c)); [|done].
  intros c1 [k v] c2 Hc. rewrite <-Hc. clear Hc c. destruct c1. revert c2. unfold apply_sessions_setting.
  repeat first [apply if_some | apply bind_some; intros ? _]; intros c2; try (intros [= <-]; reflexivity).
  destruct (validateSessionLabelValue v); [intros [= <-]; reflexivity|done].
Qed.

Lemma applyUsageSettings_instance c s c' :
  applyUsageSettings ParseDuration c s = Some c' -> uc_SourceInstance c' = uc_SourceInstance c.
Proof.
  apply (foldl_option_inv (fun c' => uc_SourceInstance c' = uc_SourceInstance c)); [|done].
  intros c1 [k v] c2 Hc. rewrite <-Hc. clear Hc c. destruct c1. revert c2. unfold apply_usage_setting.
  repeat first [apply if_some | apply bind_some; intros ? _]; intros c2; try (intros [= <-]; reflexivity).
  destruct (validateSessionLabelValue v); [intros [= <-]; reflexivity|done].
Qed.

Lemma build_sessions_instance sc lp l :
  build_sessions ParseDuration trim_uni sc lp = Some l -> k_SourceInstance (loop_key sha256_hex trim_uni l) = sc_SourceInstance sc.
Proof.
  unfold build_sessions. destruct (applySettings _ _ _ _) as [cfg|] eqn:Hcfg; [|done]. apply applySettings_instance in Hcfg.
  cbn [mbind option_bind]. unfold newSessionsLoop. case_decide; [done|]. case_decide; [done|]. intros [= <-]. exact Hcfg.
Qed.
Lemma build_usage_instance sc lp l :
  build_usage ParseDuration sc lp = Some l -> k_SourceInstance (loop_key sha256_hex trim_uni l) = sc_SourceInstance sc.
Proof.
  unfold build_usage. destruct (applyUsageSettings _ _ _) as [cfg|] eqn:Hcfg; [|done]. apply applyUsageSettings_instance in Hcfg.
  cbn [mbind option_bind]. unfold newUsageLoop. case_decide; [done|]. case_decide; [done|]. intros [= <-]. exact Hcfg.
Qed.
Lemma build_runs_instance sc lp l :
  build_runs ParseDuration trim_uni sc lp = Some l -> k_SourceInstance (loop_key sha256_hex trim_uni l) = sc_SourceInstance sc.
Proof.
  unfold build_runs, newRunsLoop. case_decide; [|done]. destruct (applyRunsSettings _ _ _ _); [|done]. by intros [= <-].
Qed.

Lemma langsmith_New_built sc loops :
  langsmith_New ParseDuration trim_uni sc = Some loops ->
  map loop_name loops = filter (fun n => is_Some (enabled_loop sc n)) ["sessions"; "runs"; "usage"] /\
  forall l, l ∈ loops -> k_SourceInstance (loop_key sha256_hex trim_uni l) = sc_SourceInstance sc /\
    forall p, loop_emits l p -> s_Name p ∈ loop_series l /\ forall k, is_Some (s_Labels p !! k) -> k ∈ ls_AllowedLabelKeys.
Proof.
  unfold langsmith_New. cbv zeta. destruct (_ || _); [done|]. rewrite !filter_cons, filter_nil.
  destruct (enabled_loop sc "sessions") as [lp1|], (enabled_loop sc "runs") as [lp2|], (enabled_loop sc "usage") as [lp3|];
    cbn [mbind option_bind];
    try (destruct (build_sessions _ _ _ _) as [l1|] eqn:E1; [pose proof (build_sessions_instance _ _ _ E1) as I1; apply build_sessions_ok in E1 as [N1 P1]|done]; cbn [mbind option_bind]);
    try (destruct (build_runs _ _ _ _) as [l2|] eqn:E2; [pose proof (build_runs_instance _ _ _ E2) as I2; apply build_runs_ok in E2 as [N2 P2]|done]; cbn [mbind option_bind]);
    try (destruct (build_usage _ _ _) as [l3|] eqn:E3; [pose proof (build_usage_instance _ _ _ E3) as I3; apply build_usage_ok in E3 as [N3 P3]|done]; cbn [mbind option_bind]);
    intros [= <-]; cbn [app map];
    (split; [rewrite ?N1, ?N2, ?N3;
             repeat (rewrite decide_True by (by eexists) || rewrite decide_False by (intros [? [=]])); done|]);
    intros l; rewrite ?elem_of_cons, ?elem_of_nil; naive_solver.
Qed.

(** A loop that was built was enabled. *)
Lemma langsmith_New_enabled sc loops l :
  langsmith_New ParseDuration trim_uni sc = Some loops -> l ∈ loops -> is_Some (enabled_loop sc (loop_name l)).
Proof.
  intros [Hnames _]%langsmith_New_built Hl. apply (list_elem_of_fmap_2 loop_name) in Hl.
  change (loop_name l ∈ map loop_name loops) in Hl. rewrite Hnames in Hl. by apply list_elem_of_filter in Hl as [? _].
Qed.

Lemma enabled_loop_inv sc name lp : enabled_loop sc name = Some lp -> sc_Loops sc !! name = Some lp /\ lc_Enabled lp = true.
Proof.
  unfold enabled_loop. destruct (sc_Loops sc !! name) as [lp'|]; [|done]. cbn [mbind option_bind]. destruct (lc_Enabled lp') eqn:He; [|done]. by intros [= <-].
Qed.

Lemma langsmith_New_keys sc loops :
  langsmith_New ParseDuration trim_uni sc = Some loops -> NoDup (map (loop_key sha256_hex trim_uni) loops).
Proof.
  intros [Hnames _]%langsmith_New_built. apply (NoDup_fmap_1 k_Loop). change (NoDup (map k_Loop (map (loop_key sha256_hex trim_uni) loops))).
  rewrite map_map, (map_ext _ _ (loop_key_name sha256_hex trim_uni)), Hnames. apply NoDup_filter. apply (bool_decide_unpack _). vm_compute. exact I.
Qed.

(** The LangSmith source is built as configured.  Whenever [New] accepts a
    configuration, the source has exactly the enabled loops, in the order
    sessions, runs, usage, each under a checkpoint key of its own and the
    source's instance; and whatever the API answers, every sample a loop emits
    has a name the loop declares and only labels the package puts on the
    guard's allow-list, so the default-deny guard drops none of them for a
    label. *)
Theorem langsmith_New_ok sc loops :
  langsmith_New ParseDuration trim_uni sc = Some loops ->
  map loop_name loops = filter (fun n => is_Some (enabled_loop sc n)) ["sessions"; "runs"; "usage"] /\
  NoDup (map (loop_key sha256_hex trim_uni) loops) /\
  forall l, l ∈ loops -> k_SourceInstance (loop_key sha256_hex trim_uni l) = sc_SourceInstance sc /\
    forall p, loop_emits l p -> s_Name p ∈ loop_series l /\ forall k, is_Some (s_Labels p !! k) -> k ∈ ls_AllowedLabelKeys.
Proof.
  intros Hnew. destruct (langsmith_New_built _ _ Hnew) as [Hnames Hall]. split_and!; [done|by eapply langsmith_New_keys|done].
Qed.
End built.

(** ** Concrete sources *)

Module LsDemo.
(** A parser of the durations the example spells. *)
Definition dur (s : string) : option Duration :=
  snd <$> find (fun p => bool_decide (p.1 = s))
    (("0s", 0%Z) :: map (fun d => (humanDur d, d)) [Hour; (10 * Minute)%Z; (24 * Hour)%Z; (5 * Minute)%Z; (90 * Minute)%Z]).
Definition loops : list lsLoop := default [] (langsmith_New dur id ExampleSource).
Definition sessions_only (kvs : list (string * string)) : option (list lsLoop) :=
  langsmith_New dur id (plain_source "langsmith" "https://h" "prod"
    {[ "sessions" := mkLoopConfig true Minute 0 0 0 0 "" [] (list_to_map kvs) ]} [] "x-api-key" "k").
Definition window_of (l : option (list lsLoop)) : option Duration := match l with Some [LsSessions l] => Some (sl_statsWindow l) | _ => None end.
End LsDemo.

(** The documented example builds all three loops, with the default knobs. *)
Example example_builds :
  map humanDur [0%Z; Hour; (90 * Minute)%Z; (24 * Hour + 5 * Second)%Z; (-1)%Z] = ["0s"; "1h"; "1h30m"; "24h5s"; ""] /\
  match LsDemo.loops with
  | [LsSessions s; LsRuns r; LsUsage u] =>
      sl_statsWindow s = Hour /\ sl_prefix s = "langsmith" /\ rl_window r = Hour /\ rl_sessionIDs r = ["<project-uuid-1>"; "<project-uuid-2>"] /\
      rl_maxPagesPerWindow r = 100%Z /\ ul_statsWindow u = (10 * Minute)%Z /\ ul_emitSpanCounts u = true
  | _ => False
  end.
Proof. split; vm_compute; [reflexivity|repeat split]. Qed.

(** A window of zero is accepted and replaced by an hour. *)
Example zero_stats_window : LsDemo.window_of (LsDemo.sessions_only [("stats_window", "0s")]) = Some Hour.
Proof. vm_compute. reflexivity. Qed.

Lemma langsmith_demo_built : langsmith_New LsDemo.dur id ExampleSource = Some LsDemo.loops.
Proof. vm_compute. reflexivity. Qed.

Lemma langsmith_demo_first : nth 0 LsDemo.loops (LsRuns (RunSim.loop [] 1)) ∈ LsDemo.loops.
Proof. destruct LsDemo.loops as [|l rest] eqn:E; [vm_compute in E; discriminate E|left]. Qed.

Lemma langsmith_New_ok_witness :
  map loop_name LsDemo.loops = ["sessions"; "runs"; "usage"] /\ NoDup (map (loop_key id id) LsDemo.loops) /\
  forall p, loop_emits (nth 0 LsDemo.loops (LsRuns (RunSim.loop [] 1))) p -> forall k, is_Some (s_Labels p !! k) -> k ∈ ls_AllowedLabelKeys.
Proof.
  destruct (langsmith_New_ok LsDemo.dur id id ExampleSource LsDemo.loops langsmith_demo_built) as (Hn & Hk & Hp).
  split; [rewrite Hn; vm_compute; reflexivity|]. split; [exact Hk|]. intros p Hem. exact (proj2 (proj2 (Hp _ langsmith_demo_first) p Hem)).
Defined.
