(* ===== verification/App.v ===== *)
(** * The composition root (internal/app/app.go)

    [Build]: validation, the vendor registry, the two passes over the sources,
    the guard with its per-loop deny-lists, one runner per loop, and the
    adoption of stored epochs by a single replica.  [Run], the health server
    and the hooks that forward to metrics are the runtime's. *)

From S2P Require Import Prelude Model Config Checkpoint Guard Source Coordinate Runner Scheduler.
From S2P Require Import PortkeyStrip PortkeyUseCase PortkeyDownload LogsExport LogsSettings Portkey.
From S2P Require Import LangsmithStrip LangsmithRuns LangsmithRunsSettings Langsmith.

(** ** Loops, whichever vendor built them *)

Inductive Loop := PkLoop (l : pkLoop) | LsLoop (l : lsLoop).

(** [source.SeriesDeclarer]: every loop implements it. *)
Definition loop_SeriesNames (l : Loop) : list string :=
  match l with
  | PkLoop (PkAnalytics l _) => PortkeyAnalytics.SeriesNames l
  | PkLoop (PkGroups l) => PortkeyGroups.SeriesNames l
  | PkLoop (PkLogs _) => []
  | LsLoop l => loop_series l
  end.

(** [source.IndexedKeyDeclarer]: the two logs loops implement it. *)
Definition loop_IndexedKeys (l : Loop) : option (list string) :=
  match l with
  | PkLoop (PkLogs l) => Some (LogsExport.IndexedKeys l)
  | LsLoop (LsRuns l) => Some (runs_IndexedKeys l)
  | _ => None
  end.
Definition is_logs (l : Loop) : bool := match loop_IndexedKeys l with Some _ => true | None => false end.

(** The zero value a missing map key gives. *)
Definition zeroLoopConfig : LoopConfig := mkLoopConfig false 0 0 0 0 0 "" [] ∅.

(** ** Content governance *)

Definition grayBackstopDenyKeys : list string := ["events"; "extra"; "serialized"; "manifest"; "s3_urls"; "error"; "name"].

Definition contentDenylist (optedIn : gset string) : list string :=
  AbsoluteNeverDenyKeys ++ filter (fun g => g ∉ optedIn) grayBackstopDenyKeys.

Fixpoint dedupe_go (seen : gset string) (xs : list string) : list string :=
  match xs with
  | [] => []
  | x :: xs => if decide (x ∈ seen) then dedupe_go seen xs else x :: dedupe_go ({[x]} ∪ seen) xs
  end.
Definition dedupe (xs : list string) : list string := dedupe_go ∅ xs.

(** A loop and its configuration. *)
Record loopConfigured := mkConfigured { cf_loop : Loop; cf_cfg : LoopConfig }.

Inductive AppErr :=
| ConfigInvalid (errs : list ConfigErr)
| FloorKey (k : string)
| SourceFailed (msg : string)
| UnknownLoop (inst name : string)
| TooManyStreamLabels (loop : string) (n : Z)
| SeriesConflict (msg : string)
| NoEnabledLoops.

(** What [Build] can tell about the coordinator: whether it is the no-op one. *)
Inductive CoordinatorKind := NoopCoordinator (epoch : Z) | OtherCoordinator.

Record App := mkApp { app_guard : Guard; app_specs : list (LoopRunner * Loop * LoopSpec); app_coord : CoordinatorKind }.

Section app.
Context (ParseDuration : string -> option Duration) (trim_uni uni : string -> string) (sha256_hex : string -> string).
Context (url_Parse : string -> option Httpx.URL) (ParseIP : string -> option Httpx.IP).

Definition loop_Key (l : Loop) : CheckpointKey :=
  match l with PkLoop l => pk_key trim_uni sha256_hex l | LsLoop l => loop_key sha256_hex trim_uni l end.

(** [strings.SplitSeq], [TrimSpace] and the test for "" are [splitCSV]. *)
Definition optedInContentFieldsForLoop (lc : LoopConfig) : gset string :=
  list_to_set (["extra_record_fields"; "extra_indexed_fields"; "metadata_record_fields"] ≫= fun knob =>
    splitCSV trim_uni (setting (lc_Settings lc) knob)).

(** The enabled loops of the enabled sources, a source's map in some order. *)
Definition enabled_loops (cfg : Config) : list LoopConfig :=
  filter (fun lp => lc_Enabled lp = true) (enabled_sources cfg ≫= fun sc => (map_to_list (sc_Loops sc)).*2).

Definition optedInContentFields (cfg : Config) : gset string := ⋃ (optedInContentFieldsForLoop <$> enabled_loops cfg).

Definition optedInIndexedFields (cfg : Config) : list string :=
  dedupe (enabled_loops cfg ≫= fun lp => splitCSV trim_uni (setting (lc_Settings lp) "extra_indexed_fields")).

(** The loops write to one map: a later loop with the same key wins. *)
Definition contentDenyByLoop (loops : list loopConfigured) : gmap string (list string) :=
  foldl (fun out l => if is_logs (cf_loop l)
                      then <[key_String (loop_Key (cf_loop l)) := contentDenylist (optedInContentFieldsForLoop (cf_cfg l))]> out
                      else out) ∅ loops.

Definition operatorPromoted (cfg : Config) : list string := gc_AllowLabelKeys (c_Governance cfg) ++ optedInIndexedFields cfg.
Definition allowKeys (cfg : Config) : list string := dedupe (AllowedLabelKeys ++ ls_AllowedLabelKeys ++ operatorPromoted cfg).

(** ** The registry *)

Definition new_portkey (sc : SourceConfig) (_ : unit) : result string (list Loop) :=
  match portkey_New ParseDuration trim_uni uni sc with Some ls => Ok (map PkLoop ls) | None => Err "portkey" end.
Definition new_langsmith (sc : SourceConfig) (_ : unit) : result string (list Loop) :=
  match langsmith_New ParseDuration trim_uni sc with Some ls => Ok (map LsLoop ls) | None => Err "langsmith" end.

(** [portkey.Register], then [langsmith.Register]; [Err] is the panic. *)
Definition registry : result string (gmap string (SourceConfig -> unit -> result string (list Loop))) :=
  register_all [("portkey", new_portkey); ("langsmith", new_langsmith)] NewRegistry.

(** ** The first pass *)

Definition streamLabelCeiling (cfg : Config) : Z :=
  if (gc_MaxStreamLabelKeys (c_Governance cfg) =? 0)%Z then DefaultMaxStreamLabelKeys else gc_MaxStreamLabelKeys (c_Governance cfg).

Definition stream_labels (cfg : Config) (keys : list string) : Z := Z.of_nat (size (ProductIdentity (c_Identity cfg)) + length keys).

Fixpoint configure (cfg : Config) (sc : SourceConfig) (ls : list Loop) : result AppErr (list loopConfigured) :=
  match ls with
  | [] => Ok []
  | l :: ls =>
      let name := k_Loop (loop_Key l) in
      let n := match loop_IndexedKeys l with Some keys => stream_labels cfg keys | None => 0%Z end in
      if (streamLabelCeiling cfg <? n)%Z && is_logs l then Err (TooManyStreamLabels name n)
      else let? rest := configure cfg sc ls in Ok (mkConfigured l (default zeroLoopConfig (sc_Loops sc !! name)) :: rest)
  end.

(** The first enabled loop the source did not build, if any. *)
Definition unrecognised (sc : SourceConfig) (built : list Loop) : option string :=
  head (omap (fun kv => if lc_Enabled kv.2 && negb (bool_decide (kv.1 ∈ map (fun l => k_Loop (loop_Key l)) built)) then Some kv.1 else None)
          (map_to_list (sc_Loops sc))).

Fixpoint first_pass (reg : gmap string (SourceConfig -> unit -> result string (list Loop))) (cfg : Config) (l : list SourceConfig)
    : result AppErr (list (list Loop) * list loopConfigured) :=
  match l with
  | [] => Ok ([], [])
  | sc :: l =>
      if negb (sc_Enabled sc) then first_pass reg cfg l
      else match Source.Build sc_Type reg sc tt with
           | Err e => Err (SourceFailed e)
           | Ok src =>
               match unrecognised sc src with
               | Some name => Err (UnknownLoop (sc_SourceInstance sc) name)
               | None =>
                   let? here := configure cfg sc src in
                   let? (srcs, loops) := first_pass reg cfg l in
                   Ok (src :: srcs, here ++ loops)
               end
           end
  end.

(** ** The second pass and the epochs *)

Definition loop_decl (l : Loop) : LoopDecl := mkLoopDecl (loop_Key l) (Some (loop_SeriesNames l)).

Definition guard_config (cfg : Config) (loops : list loopConfigured) : GuardConfig :=
  mkGuardConfig (allowKeys cfg) (contentDenylist ∅) (contentDenyByLoop loops) (gc_PerMetricCardinalityBudget (c_Governance cfg)) true.

Definition spec_of (cfg : Config) (l : loopConfigured) : LoopRunner * Loop * LoopSpec :=
  (NewLoopRunner (loop_Key (cf_loop l)) (qc_MaxBatches (c_Queue cfg)) (gc_MaxDPM (c_Governance cfg)), cf_loop l,
   mkSpec (lc_Cadence (cf_cfg l)) (lc_MaxBackfill (cf_cfg l)) (lc_Window (cf_cfg l)) (gc_MaxCatchupPerTick (c_Governance cfg))).

Context {W : Type} `{Checkpointer W}.

(** The largest epoch stored under the keys; a key that cannot be read is
    skipped. *)
Fixpoint max_stored (keys : list CheckpointKey) (acc : Z) (w : W) : Z * W :=
  match keys with
  | [] => (acc, w)
  | k :: keys =>
      match cp_Load k w with
      | (Err _, w) => max_stored keys acc w
      | (Ok wm, w) => max_stored keys (if (acc <? wm_Epoch wm)%Z then wm_Epoch wm else acc) w
      end
  end.

Definition adopt_epoch (coord : CoordinatorKind) (loops : list loopConfigured) (w : W) : CoordinatorKind * W :=
  match coord with
  | OtherCoordinator => (coord, w)
  | NoopCoordinator epoch =>
      let cur := Z.max 1 epoch in
      let '(m, w) := max_stored (map (fun l => loop_Key (cf_loop l)) loops) cur w in
      (if (cur <? m)%Z then NoopCoordinator m else coord, w)
  end.

Definition Build (cfg : Config) (coord : CoordinatorKind) (w : W) : result AppErr App * W :=
  match registry with
  | Err e => (Err (SourceFailed e), w)
  | Ok reg =>
      match Validate url_Parse ParseIP cfg (Known reg) with
      | _ :: _ as errs => (Err (ConfigInvalid errs), w)
      | [] =>
          match find IsContentFloorKey (operatorPromoted cfg) with
          | Some k => (Err (FloorKey k), w)
          | None =>
              match first_pass reg cfg (c_Sources cfg) with
              | Err e => (Err e, w)
              | Ok (srcs, loops) =>
                  match ValidateOwnership uni (map (map loop_decl) srcs) with
                  | Some e => (Err (SeriesConflict e), w)
                  | None =>
                      if decide (loops = []) then (Err NoEnabledLoops, w)
                      else let '(coord, w) := adopt_epoch coord loops w in
                           (Ok (mkApp (NewGuard (guard_config cfg loops)) (map (spec_of cfg) loops) coord), w)
                  end
              end
          end
      end
  end.

(** ** Checkpoint names *)

Lemma slash_split (s1 s2 t1 t2 : string) :
  contains s1 "/" = false -> contains s2 "/" = false -> s1 +:+ "/" +:+ t1 = s2 +:+ "/" +:+ t2 -> s1 = s2 /\ t1 = t2.
Proof.
  revert s2. induction s1 as [|a s1 IH]; intros [|b s2] H1 H2; rewrite ?string_app_cons.
  - intros Heq. injection Heq as Heq. split; [done|exact Heq].
  - intros Heq. change ("" +:+ "/" +:+ t1) with (String "/"%char t1) in Heq. injection Heq as <- _. done.
  - intros Heq. change ("" +:+ "/" +:+ t2) with (String "/"%char t2) in Heq. injection Heq as -> _. done.
  - intros Heq. injection Heq as -> Heq. cbn [contains] in H1, H2. apply orb_false_iff in H1 as [_ H1], H2 as [_ H2].
    destruct (IH s2 H1 H2 Heq) as [-> ->]. done.
Qed.

Definition slash_free (k : CheckpointKey) : Prop := contains (k_SourceInstance k) "/" = false /\ contains (k_Loop k) "/" = false.

(** Keys whose first two fields have no separator are told apart by their
    texts. *)
Lemma key_String_inj k1 k2 : slash_free k1 -> slash_free k2 -> key_String k1 = key_String k2 -> k1 = k2.
Proof.
  destruct k1 as [i1 l1 f1], k2 as [i2 l2 f2]. unfold slash_free, key_String. cbn [k_SourceInstance k_Loop k_OutputFingerprint].
  intros [Hi1 Hl1] [Hi2 Hl2] [-> Heq]%slash_split; [|done..]. apply slash_split in Heq as [-> ->]; done.
Qed.

Lemma loop_name_slash_free l : contains (k_Loop (loop_Key l)) "/" = false.
Proof. by destruct l as [[]|[]]. Qed.

(** ** What the passes build *)

Lemma registry_eq : registry = Ok (<["langsmith" := new_langsmith]> (<["portkey" := new_portkey]> ∅)).
Proof.
  unfold registry, NewRegistry. cbn [register_all]. unfold Register. rewrite lookup_empty, lookup_insert_ne, lookup_empty by done. done.
Qed.

(** The truncated hash does not collide on the schemas of logs loops. *)
Definition no_collision (ls : list Loop) : Prop :=
  forall l l', PkLoop (PkLogs l) ∈ ls -> PkLoop (PkLogs l') ∈ ls ->
    Fingerprint sha256_hex trim_uni (LogsExport.IndexedKeys l) (logs_naming (x_useCase l)) =
    Fingerprint sha256_hex trim_uni (LogsExport.IndexedKeys l') (logs_naming (x_useCase l')) ->
    logs_input trim_uni l = logs_input trim_uni l'.

(** A source built from [sc]. *)
Definition built_from (sc : SourceConfig) (src : list Loop) : Prop :=
  (exists ls, portkey_New ParseDuration trim_uni uni sc = Some ls /\ src = map PkLoop ls) \/
  (exists ls, langsmith_New ParseDuration trim_uni sc = Some ls /\ src = map LsLoop ls).

Lemma registry_built reg sc src : registry = Ok reg -> Source.Build sc_Type reg sc tt = Ok src -> built_from sc src.
Proof.
  rewrite registry_eq. intros [= <-]. unfold Source.Build. intros Hb.
  destruct (decide (sc_Type sc = "langsmith")) as [Ht|Ht]; [rewrite Ht, lookup_insert_eq in Hb|rewrite lookup_insert_ne in Hb by done].
  - right. unfold new_langsmith in Hb. destruct (langsmith_New _ _ _) as [ls|]; [|done]. injection Hb as <-. eauto.
  - destruct (decide (sc_Type sc = "portkey")) as [Ht'|Ht']; [rewrite Ht', lookup_insert_eq in Hb|by rewrite lookup_insert_ne, lookup_empty in Hb].
    left. unfold new_portkey in Hb. destruct (portkey_New _ _ _ _) as [ls|]; [|done]. injection Hb as <-. eauto.
Qed.

Lemma built_from_instance sc src l : built_from sc src -> l ∈ src -> k_SourceInstance (loop_Key l) = sc_SourceInstance sc.
Proof.
  intros [(ls & Hnew & ->)|(ls & Hnew & ->)] (x & -> & Hx)%list_elem_of_fmap; cbn [loop_Key].
  - by eapply portkey_New_instance.
  - destruct (langsmith_New_built ParseDuration trim_uni sha256_hex sc ls Hnew) as [_ Hall]. by apply Hall.
Qed.

(** Every loop that is built is an enabled one of its source, of its name. *)
Lemma built_from_enabled sc src l :
  built_from sc src -> l ∈ src -> exists lp, sc_Loops sc !! k_Loop (loop_Key l) = Some lp /\ lc_Enabled lp = true.
Proof.
  intros [(ls & Hnew & ->)|(ls & Hnew & ->)] (x & -> & Hx)%list_elem_of_fmap; cbn [loop_Key].
  - destruct (portkey_New_enabled ParseDuration trim_uni uni sha256_hex sc ls x Hnew Hx) as [lp Hlp]. rewrite pk_key_name. exists lp. by apply pk_enabled_inv.
  - destruct (langsmith_New_enabled ParseDuration trim_uni sha256_hex _ _ _ Hnew Hx) as [lp Hlp]. rewrite loop_key_name. exists lp.
    by apply enabled_loop_inv.
Qed.

Lemma built_from_keys sc src : built_from sc src -> no_collision src -> NoDup (map loop_Key src).
Proof.
  intros [(ls & Hnew & ->)|(ls & Hnew & ->)] Hnc; rewrite map_map; cbn [loop_Key]; [|by eapply langsmith_New_keys].
  apply (portkey_New_built ParseDuration trim_uni uni sha256_hex sc ls Hnew). intros l l' Hl Hl'. apply Hnc; by apply list_elem_of_fmap_2.
Qed.

(** A loop has the configuration of its name, and fits the stream-label budget. *)
Definition configured_ok (cfg : Config) (sc : SourceConfig) (c : loopConfigured) : Prop :=
  cf_cfg c = default zeroLoopConfig (sc_Loops sc !! k_Loop (loop_Key (cf_loop c))) /\
  forall keys, loop_IndexedKeys (cf_loop c) = Some keys -> (stream_labels cfg keys <= streamLabelCeiling cfg)%Z.

Lemma configure_spec cfg sc ls here :
  configure cfg sc ls = Ok here -> map cf_loop here = ls /\ Forall (configured_ok cfg sc) here.
Proof.
  revert here. induction ls as [|l ls IH]; intros here; cbn [configure]; [intros [= <-]; by split|].
  destruct (_ && _) eqn:Hn; [done|]. destruct (configure cfg sc ls) as [rest|]; [|done]. intros [= <-].
  destruct (IH rest eq_refl) as [<- Hall]. split; [done|]. constructor; [|done]. split; [done|]. cbn [cf_loop]. intros keys Hk.
  unfold is_logs in Hn. rewrite Hk, andb_true_r in Hn. by apply Z.ltb_ge in Hn.
Qed.

Definition pass_ok (cfg : Config) (sc : SourceConfig) (here : list loopConfigured) : Prop :=
  built_from sc (map cf_loop here) /\ unrecognised sc (map cf_loop here) = None /\ Forall (configured_ok cfg sc) here.

Lemma first_pass_spec reg cfg l srcs loops :
  registry = Ok reg -> first_pass reg cfg l = Ok (srcs, loops) ->
  exists parts, loops = concat parts /\ srcs = map (map cf_loop) parts /\
    Forall2 (pass_ok cfg) (filter (fun s => sc_Enabled s = true) l) parts.
Proof.
  intros Hreg. revert srcs loops. induction l as [|sc l IH]; intros srcs loops; cbn [first_pass].
  { intros [= <- <-]. exists []. split_and!; [done..|constructor]. }
  rewrite filter_cons. destruct (sc_Enabled sc) eqn:He; cbn [negb]; [rewrite decide_True by done|rewrite decide_False by done; apply IH].
  destruct (Source.Build sc_Type reg sc tt) as [src|] eqn:Hb; [|done]. destruct (unrecognised sc src) eqn:Hu; [done|].
  destruct (configure cfg sc src) as [here|] eqn:Hc; [|done]. destruct (first_pass reg cfg l) as [[srcs' loops']|]; [|done].
  intros [= <- <-]. destruct (IH _ _ eq_refl) as (parts & -> & -> & Hall). apply configure_spec in Hc as [<- Hok].
  exists (here :: parts). split_and!; [done..|]. constructor; [|done]. split_and!; [by eapply registry_built|done|done].
Qed.

Lemma no_collision_part ls part : no_collision ls -> (forall l, l ∈ part -> l ∈ ls) -> no_collision part.
Proof. intros Hnc Hsub l l' Hl Hl'. apply Hnc; auto. Qed.

(** Sources with different instances have different keys. *)
Lemma parts_keys cfg scs parts :
  Forall2 (pass_ok cfg) scs parts -> NoDup (map sc_SourceInstance scs) -> no_collision (map cf_loop (concat parts)) ->
  NoDup (map (fun c => loop_Key (cf_loop c)) (concat parts)) /\
  forall c, c ∈ concat parts -> exists sc, sc ∈ scs /\ k_SourceInstance (loop_Key (cf_loop c)) = sc_SourceInstance sc.
Proof.
  intros Hall. induction Hall as [|sc here scs parts (Hb & _) Hall IH]; cbn [map concat]; intros Hnd Hnc.
  { split; [constructor|]. by intros c ?%elem_of_nil. }
  apply NoDup_cons in Hnd as [Hni Hnd]. rewrite map_app in Hnc.
  assert (NoDup (map loop_Key (map cf_loop here))) as Hk.
  { apply (built_from_keys sc); [done|]. eapply no_collision_part; [exact Hnc|]. set_solver. }
  pose proof (fun l => built_from_instance sc _ l Hb) as Hi.
  destruct IH as [IHk IHi]; [done|eapply no_collision_part; [exact Hnc|]; set_solver|]. rewrite map_map in Hk. split.
  - rewrite map_app. apply NoDup_app. split_and!; [done| |done].
    intros k (c & -> & Hc)%list_elem_of_fmap (c' & Heq & Hc')%list_elem_of_fmap. apply Hni.
    destruct (IHi c' Hc') as (sc' & Hsc & Hinst). rewrite <-Heq, (Hi (cf_loop c)) in Hinst by (by apply list_elem_of_fmap_2).
    rewrite Hinst. by apply list_elem_of_fmap_2.
  - intros c [Hc|Hc]%elem_of_app; [exists sc; split; [left|]; apply Hi; by apply list_elem_of_fmap_2|].
    destruct (IHi c Hc) as (sc' & ? & ?). exists sc'. split; [by right|done].
Qed.

Lemma unrecognised_none sc built name lp :
  unrecognised sc built = None -> sc_Loops sc !! name = Some lp -> lc_Enabled lp = true -> exists l, l ∈ built /\ k_Loop (loop_Key l) = name.
Proof.
  unfold unrecognised. intros Hu Hl He. apply elem_of_map_to_list in Hl.
  destruct (decide (name ∈ map (fun l => k_Loop (loop_Key l)) built)) as [Hin|Hni].
  - apply list_elem_of_fmap in Hin as (l & -> & Hin). eauto.
  - exfalso. assert (name ∈ omap (fun kv => if lc_Enabled kv.2 && negb (bool_decide (kv.1 ∈ map (fun l => k_Loop (loop_Key l)) built)) then Some kv.1 else None)
      (map_to_list (sc_Loops sc))) as Hin.
    { apply list_elem_of_omap. exists (name, lp). split; [done|]. cbn [fst snd]. rewrite He, bool_decide_false by done. done. }
    destruct (omap _ _); [by apply elem_of_nil in Hin|done].
Qed.

(** What an accepted [Build] went through. *)
Record build_trace (cfg : Config) (coord : CoordinatorKind) (w : W) (app : App) (w' : W) (parts : list (list loopConfigured)) : Prop := {
  bt_floor : forall k, k ∈ operatorPromoted cfg -> IsContentFloorKey k = false;
  bt_instances : NoDup (map sc_SourceInstance (enabled_sources cfg)) /\
    forall sc, sc ∈ enabled_sources cfg -> contains (sc_SourceInstance sc) "/" = false;
  bt_parts : Forall2 (pass_ok cfg) (enabled_sources cfg) parts;
  bt_owned : ownership_ok uni (map (fun c => loop_decl (cf_loop c)) (concat parts));
  bt_some : concat parts <> [];
  bt_guard : app_guard app = NewGuard (guard_config cfg (concat parts));
  bt_specs : app_specs app = map (spec_of cfg) (concat parts);
  bt_coord : adopt_epoch coord (concat parts) w = (app_coord app, w')
}.

Lemma Build_trace cfg coord w app w' : Build cfg coord w = (Ok app, w') -> exists parts, build_trace cfg coord w app w' parts.
Proof.
  unfold Build. destruct registry as [reg|] eqn:Hreg; [|done]. destruct (Validate _ _ _ _) as [|? ?] eqn:Hv; [|done].
  destruct (find _ _) as [?|] eqn:Hf; [done|]. destruct (first_pass reg cfg (c_Sources cfg)) as [[srcs loops]|] eqn:Hp; [|done].
  destruct (ValidateOwnership _ _) eqn:Ho; [done|]. case_decide as Hne; [done|]. destruct (adopt_epoch coord loops w) as [coord' w1] eqn:Ha.
  intros [= <- <-]. destruct (first_pass_spec _ _ _ _ _ Hreg Hp) as (parts & -> & -> & Hall). exists parts.
  apply Validate_sources, validate_sources_nil in Hv as [Hnd Hsrc]. split; try done.
  - intros k Hk. apply list_elem_of_In in Hk. by apply (find_none _ _ Hf).
  - split; [done|]. intros sc Hsc. destruct (Hsrc sc Hsc) as (_ & seen & Hvs). unfold validate_source in Hvs.
    rewrite !app_nil, !err_when_nil in Hvs. tauto.
  - apply ValidateOwnership_exact in Ho. rewrite map_map in Ho.
    by rewrite (map_ext _ (map (fun c => loop_decl (cf_loop c))) (fun x => map_map cf_loop loop_decl x)), <-concat_map in Ho.
Qed.

Section trace.
Context (cfg : Config) (coord : CoordinatorKind) (w : W) (app : App) (w' : W) (parts : list (list loopConfigured)).
Context (Ht : build_trace cfg coord w app w' parts).
Context (Hnc : no_collision (map (fun s => s.1.2) (app_specs app))).

Lemma trace_loops : map (fun s => s.1.2) (app_specs app) = map cf_loop (concat parts).
Proof using Ht Hnc. rewrite (bt_specs _ _ _ _ _ _ Ht), map_map. done. Qed.

Lemma trace_keys :
  NoDup (map (fun c => loop_Key (cf_loop c)) (concat parts)) /\
  forall c, c ∈ concat parts -> exists sc, sc ∈ enabled_sources cfg /\ k_SourceInstance (loop_Key (cf_loop c)) = sc_SourceInstance sc.
Proof using Ht Hnc. rewrite trace_loops in Hnc. apply (parts_keys cfg); [apply Ht|apply Ht|done]. Qed.

Lemma trace_slash_free c : c ∈ concat parts -> slash_free (loop_Key (cf_loop c)).
Proof using Ht Hnc.
  intros Hc. split; [|apply loop_name_slash_free]. destruct trace_keys as [_ Hi]. destruct (Hi c Hc) as (sc & Hsc & ->).
  by apply (bt_instances _ _ _ _ _ _ Ht).
Qed.

Lemma trace_key_inj c c' :
  c ∈ concat parts -> c' ∈ concat parts -> key_String (loop_Key (cf_loop c)) = key_String (loop_Key (cf_loop c')) -> c = c'.
Proof using Ht Hnc.
  intros Hc Hc' Heq. apply key_String_inj in Heq; [|by apply trace_slash_free..].
  apply (NoDup_fmap_inj (fun c => loop_Key (cf_loop c)) (concat parts)); [apply trace_keys|done..].
Qed.

Lemma trace_elem c : c ∈ concat parts -> exists sc here, sc ∈ enabled_sources cfg /\ c ∈ here /\ here ∈ parts /\ pass_ok cfg sc here.
Proof using Ht Hnc.
  intros (here & Hc & Hh)%elem_concat. destruct (Forall2_elem_r _ _ _ _ (bt_parts _ _ _ _ _ _ Ht) Hh) as (sc & Hsc & Hok). eauto 10.
Qed.
End trace.

(** The loop spec of one configured loop. *)
Lemma trace_spec cfg coord w app w' parts r l sp :
  build_trace cfg coord w app w' parts -> (r, l, sp) ∈ app_specs app ->
  exists c, c ∈ concat parts /\ l = cf_loop c /\ r_key r = loop_Key l /\
    sp = mkSpec (lc_Cadence (cf_cfg c)) (lc_MaxBackfill (cf_cfg c)) (lc_Window (cf_cfg c)) (gc_MaxCatchupPerTick (c_Governance cfg)).
Proof.
  intros Ht. rewrite (bt_specs _ _ _ _ _ _ Ht). intros (c & Heq & Hc)%list_elem_of_fmap. injection Heq as -> -> ->. by exists c.
Qed.

(** C11: an application that starts is wired as configured.  There is at least
    one loop; no two loops have the same checkpoint name, whatever stores they
    share; every enabled loop of every enabled source runs, under its own name
    and its source's instance and at its configured cadence, and conversely
    every loop that runs is an enabled loop of an enabled source, under that
    name and instance and with that loop's cadence, window and back-fill; no two
    loops own the same post-gateway series; and a logs loop never exceeds the
    stream labels the tenant accepts, the product identity counted. *)
Theorem Build_ok cfg coord w app w' :
  Build cfg coord w = (Ok app, w') -> no_collision (map (fun s => s.1.2) (app_specs app)) ->
  app_specs app <> [] /\
  NoDup (map (fun s => key_String (r_key s.1.1)) (app_specs app)) /\
  (forall sc name lp, sc ∈ enabled_sources cfg -> sc_Loops sc !! name = Some lp -> lc_Enabled lp = true ->
     exists r l, (r, l, mkSpec (lc_Cadence lp) (lc_MaxBackfill lp) (lc_Window lp) (gc_MaxCatchupPerTick (c_Governance cfg))) ∈ app_specs app /\
       k_SourceInstance (r_key r) = sc_SourceInstance sc /\ k_Loop (r_key r) = name) /\
  (forall r l sp, (r, l, sp) ∈ app_specs app ->
     r_key r = loop_Key l /\
     (exists sc lp, sc ∈ enabled_sources cfg /\ k_SourceInstance (r_key r) = sc_SourceInstance sc /\
        sc_Loops sc !! k_Loop (r_key r) = Some lp /\ lc_Enabled lp = true /\
        sp = mkSpec (lc_Cadence lp) (lc_MaxBackfill lp) (lc_Window lp) (gc_MaxCatchupPerTick (c_Governance cfg))) /\
     (forall keys, loop_IndexedKeys l = Some keys -> (3 + Z.of_nat (length keys) <= streamLabelCeiling cfg)%Z) /\
     forall r' l' sp' norm, (r', l', sp') ∈ app_specs app -> declares uni (loop_decl l) norm -> declares uni (loop_decl l') norm -> r_key r = r_key r').
Proof.
  intros [parts Ht]%Build_trace Hnc. pose proof (trace_keys _ _ _ _ _ _ Ht Hnc) as [Hkeys Hinst]. split_and!.
  - rewrite (bt_specs _ _ _ _ _ _ Ht). intros Hn%map_eq_nil. by apply (bt_some _ _ _ _ _ _ Ht).
  - rewrite (bt_specs _ _ _ _ _ _ Ht), map_map. cbn [spec_of fst r_key NewLoopRunner]. apply NoDup_fmap_2_strong; [|by eapply NoDup_fmap_1].
    intros c c'. by apply (trace_key_inj _ _ _ _ _ _ Ht Hnc).
  - intros sc name lp Hsc Hlp He. destruct (Forall2_elem_l _ _ _ _ (bt_parts _ _ _ _ _ _ Ht) Hsc) as (here & Hh & (Hb & Hu & Hcfg)).
    destruct (unrecognised_none _ _ _ _ Hu Hlp He) as (l & Hl & Hname). pose proof Hl as Hl'. apply list_elem_of_fmap in Hl' as (c & -> & Hc).
    rewrite Forall_forall in Hcfg. destruct (Hcfg c Hc) as [Hcc _]. rewrite Hname, Hlp in Hcc. cbn [default] in Hcc.
    assert (c ∈ concat parts) as Hcp by (apply elem_concat; eauto).
    exists (spec_of cfg c).1.1, (cf_loop c). cbn [spec_of fst r_key NewLoopRunner]. split_and!; [|by eapply built_from_instance; [exact Hb|]|done].
    + rewrite (bt_specs _ _ _ _ _ _ Ht). apply list_elem_of_fmap. exists c. split; [|done]. unfold spec_of. by rewrite Hcc.
  - intros r l sp Hin. destruct (trace_spec _ _ _ _ _ _ _ _ _ Ht Hin) as (c & Hc & -> & Hr & Hsp). rewrite Hr. split_and!; [done| | |].
    + destruct (trace_elem _ _ _ _ _ _ Ht Hnc c Hc) as (sc & here & Hsc & Hch & _ & (Hb & _ & Hcfg)).
      assert (cf_loop c ∈ map cf_loop here) as Hl by by apply list_elem_of_fmap_2.
      destruct (built_from_enabled _ _ _ Hb Hl) as (lp & Hlp & He). exists sc, lp. split_and!; [done|by eapply built_from_instance|done|done|].
      rewrite Forall_forall in Hcfg. destruct (Hcfg c Hch) as [Hcc _]. rewrite Hlp in Hcc. by rewrite Hsp, Hcc.
    + intros keys Hk. destruct (trace_elem _ _ _ _ _ _ Ht Hnc c Hc) as (sc & here & _ & Hch & _ & (_ & _ & Hcfg)).
      rewrite Forall_forall in Hcfg. destruct (Hcfg c Hch) as [_ Hb]. specialize (Hb keys Hk). unfold stream_labels in Hb.
      assert (size (ProductIdentity (c_Identity cfg)) = 3) as Hs by done. rewrite Hs in Hb. lia.
    + intros r' l' sp' norm Hin' Hd Hd'. destruct (trace_spec _ _ _ _ _ _ _ _ _ Ht Hin') as (c' & Hc' & -> & -> & _).
      apply key_String_inj; [by eapply trace_slash_free; [exact Ht|exact Hnc|]..|].
      destruct (bt_owned _ _ _ _ _ _ Ht) as [_ Hown]. apply (Hown (loop_decl (cf_loop c)) (loop_decl (cf_loop c')) norm); try done;
        by apply (list_elem_of_fmap_2 (fun c => loop_decl (cf_loop c))).
Qed.
End app.
