(* ===== verification/AppGuard.v ===== *)
(** * The guard the composition root builds (internal/app/app.go)

    The guard of a started application and the strips of its logs loops agree:
    what a strip lets through is never refused for a key, and what one loop's
    operator opts in is opened for that loop alone.  Then the epoch a single
    replica adopts. *)

From S2P Require Import Prelude Model Config Checkpoint Guard Source Coordinate Runner Scheduler.
From S2P Require Import PortkeyStrip PortkeyUseCase PortkeyDownload LogsExport LogsSettings Portkey.
From S2P Require Import LangsmithStrip LangsmithRuns LangsmithRunsSettings Langsmith App.

(** ** What an overlay takes from the settings *)

Lemma overlay_elem {S} (step : S -> string * string -> option S) (proj : S -> list string) (csv : string -> list string) K l s s' f :
  (forall s k v s', step s (k, v) = Some s' -> proj s' = if decide (k = K) then csv v else proj s) ->
  foldl (fun s kv => s ← s; step s kv) (Some s) l = Some s' -> f ∈ proj s' -> (f ∈ proj s) \/ exists v, (K, v) ∈ l /\ f ∈ csv v.
Proof.
  intros Hstep. revert s. induction l as [|[k v] l IH]; intros s; cbn [foldl]; [intros [= <-]; by left|].
  cbn [mbind option_bind]. destruct (step s (k, v)) as [s1|] eqn:Hs.
  - intros Hf Hin. destruct (IH s1 Hf Hin) as [H1|(v' & H1 & H2)]; [|right; exists v'; split; [by right|done]].
    rewrite (Hstep _ _ _ _ Hs) in H1. case_decide; [subst; right; exists v; split; [left|done]|by left].
  - intros Hn. exfalso. revert Hn. clear. by induction l.
Qed.

Lemma setting_of (m : gmap string string) K v : (K, v) ∈ map_to_list m -> setting m K = v.
Proof. intros Hin%elem_of_map_to_list. unfold setting. by rewrite Hin. Qed.

Section settings.
Context (ParseDuration : string -> option Duration) (trim_uni : string -> string).

Ltac overlay_cases := repeat (case_decide; [subst; intros Hs; repeat (apply bind_Some in Hs as (? & _ & Hs)); injection Hs as <-; by split_and!|]).

Lemma logs_setting_fields s k v s' :
  LogsSettings.apply_setting ParseDuration trim_uni s (k, v) = Some s' ->
  ls_extraRecordFields s' = (if decide (k = "extra_record_fields") then splitCSV trim_uni v else ls_extraRecordFields s) /\
  ls_extraIndexedFields s' = (if decide (k = "extra_indexed_fields") then splitCSV trim_uni v else ls_extraIndexedFields s) /\
  ls_metadataRecordFields s' = (if decide (k = "metadata_record_fields") then splitCSV trim_uni v else ls_metadataRecordFields s).
Proof.
  destruct s. unfold LogsSettings.apply_setting. cbv zeta. simpl. overlay_cases. by intros [= <-].
Qed.

Lemma runs_setting_fields s k v s' :
  apply_runs_setting ParseDuration trim_uni s (k, v) = Some s' ->
  rk_extraRecordFields s' = (if decide (k = "extra_record_fields") then splitCSV trim_uni v else rk_extraRecordFields s) /\
  rk_extraIndexedFields s' = (if decide (k = "extra_indexed_fields") then splitCSV trim_uni v else rk_extraIndexedFields s).
Proof.
  destruct s. unfold apply_runs_setting. cbv zeta. simpl. overlay_cases. by intros [= <-].
Qed.

(** The fields an accepted logs loop adds: the default one, and what its own
    three knobs name. *)
Lemma logs_opted_in lp s f :
  applyLogsSettings ParseDuration trim_uni defaultLogsSettings (lc_Settings lp) = Some s ->
  (f ∈ ls_extraRecordFields s -> f = "cache_status" \/ f ∈ optedInContentFieldsForLoop trim_uni lp) /\
  (f ∈ ls_extraIndexedFields s -> f ∈ splitCSV trim_uni (setting (lc_Settings lp) "extra_indexed_fields")) /\
  (f ∈ ls_metadataRecordFields s -> f ∈ optedInContentFieldsForLoop trim_uni lp).
Proof.
  unfold applyLogsSettings. destruct (foldl _ _ _) as [s1|] eqn:Hf; [|done]. cbn [mbind option_bind].
  destruct (validateLogsSettings s1); [|done]. intros [= <-].
  pose proof (overlay_elem _ ls_extraRecordFields _ _ _ _ _ f (fun s k v s' H => proj1 (logs_setting_fields s k v s' H)) Hf) as Hr.
  pose proof (overlay_elem _ ls_extraIndexedFields _ _ _ _ _ f (fun s k v s' H => proj1 (proj2 (logs_setting_fields s k v s' H))) Hf) as Hi.
  pose proof (overlay_elem _ ls_metadataRecordFields _ _ _ _ _ f (fun s k v s' H => proj2 (proj2 (logs_setting_fields s k v s' H))) Hf) as Hm.
  assert (forall K v, K ∈ ["extra_record_fields"; "extra_indexed_fields"; "metadata_record_fields"] -> (K, v) ∈ map_to_list (lc_Settings lp) ->
    f ∈ splitCSV trim_uni v -> f ∈ optedInContentFieldsForLoop trim_uni lp) as Hopt.
  { intros K v HK Hin Hfv. unfold optedInContentFieldsForLoop. apply elem_of_list_to_set, list_elem_of_bind. exists K.
    by rewrite (setting_of _ _ _ Hin). }
  split_and!; intros Hin.
  - destruct (Hr Hin) as [H0|(v & Hv & Hfv)]; [left; by apply list_elem_of_singleton in H0|right; eapply Hopt, Hfv; [|exact Hv]; set_solver].
  - destruct (Hi Hin) as [H0|(v & Hv & Hfv)]; [by apply elem_of_nil in H0|]. by rewrite (setting_of _ _ _ Hv).
  - destruct (Hm Hin) as [H0|(v & Hv & Hfv)]; [by apply elem_of_nil in H0|]. eapply Hopt, Hfv; [|exact Hv]. set_solver.
Qed.

Lemma runs_opted_in lp s f :
  applyRunsSettings ParseDuration trim_uni defaultRunsSettings (lc_Settings lp) = Some s ->
  (f ∈ rk_extraRecordFields s -> f ∈ ["tags"; "child_run_ids"; "app_path"] \/ f ∈ optedInContentFieldsForLoop trim_uni lp) /\
  (f ∈ rk_extraIndexedFields s -> f ∈ splitCSV trim_uni (setting (lc_Settings lp) "extra_indexed_fields")).
Proof.
  unfold applyRunsSettings. destruct (foldl _ _ _) as [s1|] eqn:Hf; [|done]. cbn [mbind option_bind].
  destruct (validateRunsSettings s1); [|done]. intros [= <-].
  pose proof (overlay_elem _ rk_extraRecordFields _ _ _ _ _ f (fun s k v s' H => proj1 (runs_setting_fields s k v s' H)) Hf) as Hr.
  pose proof (overlay_elem _ rk_extraIndexedFields _ _ _ _ _ f (fun s k v s' H => proj2 (runs_setting_fields s k v s' H)) Hf) as Hi.
  split; intros Hin.
  - destruct (Hr Hin) as [H0|(v & Hv & Hfv)]; [by left|right]. unfold optedInContentFieldsForLoop.
    apply elem_of_list_to_set, list_elem_of_bind. exists "extra_record_fields". split; [by rewrite (setting_of _ _ _ Hv)|set_solver].
  - destruct (Hi Hin) as [H0|(v & Hv & Hfv)]; [by apply elem_of_nil in H0|]. by rewrite (setting_of _ _ _ Hv).
Qed.
End settings.

(** ** Where a logs loop comes from *)

Section origin.
Context (ParseDuration : string -> option Duration) (trim_uni uni : string -> string).

Lemma portkey_logs_from sc ls l :
  portkey_New ParseDuration trim_uni uni sc = Some ls -> PkLogs l ∈ ls ->
  exists lp uc, sc_Loops sc !! "logs_export" = Some lp /\ lc_Enabled lp = true /\ newLogsExportLoop ParseDuration trim_uni sc lp uc = Some l.
Proof.
  intros Hnew Hl. destruct (portkey_New_inv _ _ _ _ _ Hnew) as [[-> _]|(ucs & a & g & ll & _ & -> & Ha & Hg & Hll)]; [by apply elem_of_nil in Hl|].
  unfold optional in Ha, Hg, Hll. apply elem_of_app in Hl as [Hl|[Hl|Hl]%elem_of_app].
  - exfalso. destruct (pk_enabled sc "analytics"); [|injection Ha as <-; by apply elem_of_nil in Hl]. revert Ha. unfold build_analytics.
    destruct (PortkeyAnalytics.newAnalyticsLoop _ _ _ _) as [[al st]|]; [|done]. intros [= <-]. by apply list_elem_of_singleton in Hl.
  - exfalso. destruct (pk_enabled sc "groups"); [|injection Hg as <-; by apply elem_of_nil in Hl]. revert Hg. unfold build_groups.
    destruct (PortkeyGroups.newGroupsLoop _ _ _ _ _); [|done]. intros [= <-]. by apply list_elem_of_singleton in Hl.
  - destruct (pk_enabled sc "logs_export") as [lp|] eqn:Hen; [|injection Hll as <-; by apply elem_of_nil in Hl].
    apply pk_enabled_inv in Hen as [Hlp He]. revert Hll. unfold build_logs. destruct (mapM _ _) as [lps|] eqn:Hm; [|done]. intros [= <-].
    apply list_elem_of_fmap in Hl as (x & [= <-] & Hx). apply mapM_Some in Hm. destruct (Forall2_elem_r _ _ _ _ Hm Hx) as (uc & _ & Hb). eauto.
Qed.

Lemma langsmith_runs_from sc ls l :
  langsmith_New ParseDuration trim_uni sc = Some ls -> LsRuns l ∈ ls ->
  exists lp, sc_Loops sc !! "runs" = Some lp /\ lc_Enabled lp = true /\ newRunsLoop ParseDuration trim_uni sc lp = Some l.
Proof.
  unfold langsmith_New. cbv zeta. destruct (_ || _); [done|].
  assert (forall lp x, build_sessions ParseDuration trim_uni sc lp = Some x -> x <> LsRuns l) as Hs.
  { intros lp x. unfold build_sessions. destruct (applySettings _ _ _ _); [|done]. cbn. destruct (LangsmithSessions.newSessionsLoop _); [|done]. by intros [= <-]. }
  assert (forall lp x, build_usage ParseDuration sc lp = Some x -> x <> LsRuns l) as Hu.
  { intros lp x. unfold build_usage. destruct (applyUsageSettings _ _ _); [|done]. cbn. destruct (LangsmithUsage.newUsageLoop _); [|done]. by intros [= <-]. }
  destruct (match enabled_loop sc "sessions" with Some lp => l ← build_sessions ParseDuration trim_uni sc lp; Some [l] | None => Some [] end) as [a|] eqn:Ha; [|done].
  cbn [mbind option_bind]. destruct (match enabled_loop sc "runs" with Some lp => l ← build_runs ParseDuration trim_uni sc lp; Some [l] | None => Some [] end) as [b|] eqn:Hb; [|done].
  cbn [mbind option_bind]. destruct (match enabled_loop sc "usage" with Some lp => l ← build_usage ParseDuration sc lp; Some [l] | None => Some [] end) as [c|] eqn:Hc; [|done].
  cbn [mbind option_bind]. intros [= <-] [Hl|[Hl|Hl]%elem_of_app]%elem_of_app.
  - exfalso. destruct (enabled_loop sc "sessions") as [lp|]; [|injection Ha as <-; by apply elem_of_nil in Hl].
    destruct (build_sessions _ _ sc lp) as [x|] eqn:E; [|done]. injection Ha as <-. apply list_elem_of_singleton in Hl. by apply (Hs lp x).
  - destruct (enabled_loop sc "runs") as [lp|] eqn:He; [|injection Hb as <-; by apply elem_of_nil in Hl]. apply pk_enabled_inv in He as [Hlp He].
    exists lp. split_and!; [done..|]. revert Hb. unfold build_runs. destruct (newRunsLoop _ _ sc lp) as [x|]; [|done]. intros [= <-].
    apply list_elem_of_singleton in Hl as [= ->]. done.
  - exfalso. destruct (enabled_loop sc "usage") as [lp|]; [|injection Hc as <-; by apply elem_of_nil in Hl].
    destruct (build_usage _ sc lp) as [x|] eqn:E; [|done]. injection Hc as <-. apply list_elem_of_singleton in Hl. by apply (Hu lp x).
Qed.
End origin.

(** ** The tiers of an export loop's policy *)

Lemma logs_tiers s uc k :
  (k ∈ indexed (build_policy s uc) -> (k ∈ indexed defaultLogFieldPolicy) \/ k ∈ ls_extraIndexedFields s) /\
  (k ∈ record (build_policy s uc) -> (k ∈ record defaultLogFieldPolicy) \/ (k ∈ ls_extraRecordFields s) \/ k = ls_traceIDField s) /\
  (k ∈ metadataRecord (build_policy s uc) -> (k ∈ ls_metadataRecordFields s) \/ k = ls_metadataTraceIDField s).
Proof.
  unfold build_policy. cbv zeta. cbn [indexed record metadataRecord].
  set (p1 := withExtraIndexedFields (withExtraRecordFields defaultLogFieldPolicy (ls_extraRecordFields s)) (ls_extraIndexedFields s)).
  set (p2 := withMetadataFields p1 _ _). assert (metadataRecord p1 = ∅) as H1 by by apply opt_in_no_metadata.
  pose proof (withTraceIDField_tiers p2 (ls_traceIDField s)) as (Hti & Htm & Htr).
  pose proof (withMetadataFields_tiers p1 (ls_metadataRecordFields s) (ls_metadataTraceIDField s)) as [Hmi Hmr]. fold p2 in Hmi, Hmr.
  assert (indexed p1 = indexed defaultLogFieldPolicy ∪ list_to_set (ls_extraIndexedFields s)) as Hi1
    by (subst p1; by rewrite withExtraIndexedFields_indexed, withExtraRecordFields_indexed).
  assert (record p1 = record defaultLogFieldPolicy ∪ list_to_set (ls_extraRecordFields s)) as Hr1
    by (subst p1; by rewrite withExtraIndexedFields_record, withExtraRecordFields_record).
  split_and!.
  - rewrite Hti, Hmi, Hi1, elem_of_union, elem_of_list_to_set. tauto.
  - intros Hk. apply Htr in Hk as [Hk| ->]; [|auto]. rewrite Hmr, Hr1, elem_of_union, elem_of_list_to_set in Hk. tauto.
  - rewrite Htm. by apply metadata_lifted.
Qed.

Lemma logs_trace_fields s uc :
  traceIDField (build_policy s uc) = ls_traceIDField s /\ metadataTraceID (build_policy s uc) = ls_metadataTraceIDField s.
Proof.
  unfold build_policy. cbv zeta. cbn [traceIDField metadataTraceID].
  set (p1 := withExtraIndexedFields _ _).
  assert (traceIDField p1 = "" /\ metadataTraceID p1 = "") as [H1 H2] by (subst p1; by destruct (ls_extraRecordFields s), (ls_extraIndexedFields s)).
  unfold withTraceIDField, withMetadataFields. repeat case_bool_decide; case_decide; cbn [andb traceIDField metadataTraceID]; split; congruence.
Qed.

(** ** Keys the guard lets pass *)

Lemma contentDenylist_elem optedIn k : k ∈ contentDenylist optedIn <-> k ∈ AbsoluteNeverDenyKeys \/ (k ∈ grayBackstopDenyKeys /\ k ∉ optedIn).
Proof. unfold contentDenylist. rewrite elem_of_app, list_elem_of_filter. tauto. Qed.

Lemma floor_key k : k ∈ AbsoluteNeverDenyKeys -> IsContentFloorKey k = true.
Proof. intros Hk. unfold IsContentFloorKey. by rewrite bool_decide_true. Qed.

Lemma key_passes optedIn k :
  IsContentFloorKey k = false -> (k ∈ grayBackstopDenyKeys -> k ∈ optedIn) -> floor_or_denied (list_to_set (contentDenylist optedIn)) k = false.
Proof.
  intros Hf Hg. unfold floor_or_denied. rewrite Hf, orb_false_r, bool_decide_eq_false, elem_of_list_to_set, contentDenylist_elem.
  intros [Hk|[Hk Hno]]; [apply floor_key in Hk; congruence|by apply Hno, Hg].
Qed.

(** The fields every logs loop may emit, by default: content-free, none of
    them on the backstop, the indexed ones on a vendor's allow-list. *)
Definition default_fields : list string :=
  elements (indexed defaultLogFieldPolicy ∪ record defaultLogFieldPolicy ∪ rp_indexed defaultRunsFieldPolicy ∪ rp_record defaultRunsFieldPolicy)
  ++ ["cache_status"; "tags"; "child_run_ids"; "app_path"; "source"; useCaseLabelKey].

Lemma default_fields_pass : Forall (fun k => IsContentFloorKey k = false /\ k ∉ grayBackstopDenyKeys) default_fields.
Proof. apply (bool_decide_unpack _). vm_compute. exact I. Qed.

Lemma default_indexed_allowed :
  Forall (fun k => k ∈ AllowedLabelKeys ++ ls_AllowedLabelKeys) (elements (indexed defaultLogFieldPolicy ∪ rp_indexed defaultRunsFieldPolicy)).
Proof. apply (bool_decide_unpack _). vm_compute. exact I. Qed.

Lemma default_field_passes optedIn k : k ∈ default_fields -> floor_or_denied (list_to_set (contentDenylist optedIn)) k = false.
Proof.
  intros Hk. pose proof default_fields_pass as Hf. rewrite Forall_forall in Hf. destruct (Hf k Hk) as [H1 H2]. by apply key_passes.
Qed.

Lemma default_elem k :
  k ∈ indexed defaultLogFieldPolicy \/ k ∈ record defaultLogFieldPolicy \/ k ∈ rp_indexed defaultRunsFieldPolicy \/ k ∈ rp_record defaultRunsFieldPolicy ->
  k ∈ default_fields.
Proof. intros Hk. unfold default_fields. apply elem_of_app. left. apply elem_of_elements. rewrite !elem_of_union. tauto. Qed.

Lemma default_extra k : k ∈ ["cache_status"; "tags"; "child_run_ids"; "app_path"; "source"; useCaseLabelKey] -> k ∈ default_fields.
Proof. intros Hk. unfold default_fields. apply elem_of_app. by right. Qed.

Lemma stamped_fields : "source" ∈ default_fields /\ useCaseLabelKey ∈ default_fields /\ "cache_status" ∈ default_fields.
Proof. split_and!; apply default_extra; set_solver. Qed.
Lemma runs_default_extra k : k ∈ ["tags"; "child_run_ids"; "app_path"] -> k ∈ default_fields.
Proof. intros Hk. apply default_extra. set_solver. Qed.

Lemma indexed_allowed more k :
  k ∈ indexed defaultLogFieldPolicy \/ k ∈ rp_indexed defaultRunsFieldPolicy -> k ∈ AllowedLabelKeys ++ ls_AllowedLabelKeys ++ more.
Proof.
  intros Hk. pose proof default_indexed_allowed as Hf. rewrite Forall_forall in Hf. rewrite app_assoc. apply elem_of_app. left.
  apply Hf, elem_of_elements. by rewrite elem_of_union.
Qed.

Lemma dedupe_go_elem seen xs k : k ∈ dedupe_go seen xs <-> (k ∈ xs) /\ (k ∉ seen).
Proof.
  revert seen. induction xs as [|x xs IH]; intros seen; cbn [dedupe_go]; [set_solver|]. case_decide as Hx; [rewrite IH; set_solver|].
  rewrite !elem_of_cons, IH, elem_of_union, elem_of_singleton. destruct (decide (k = x)) as [->|]; naive_solver.
Qed.

Lemma dedupe_elem xs k : k ∈ dedupe xs <-> k ∈ xs.
Proof. unfold dedupe. rewrite dedupe_go_elem. set_solver. Qed.

Section guard.
Context (ParseDuration : string -> option Duration) (trim_uni uni sha256_hex : string -> string).
Context (url_Parse : string -> option Httpx.URL) (ParseIP : string -> option Httpx.IP).
Context {W : Type} `{Checkpointer W}.

Abbreviation Key := (loop_Key trim_uni sha256_hex).
Abbreviation opted := (optedInContentFieldsForLoop trim_uni).
Definition name_of (c : loopConfigured) : string := key_String (Key (cf_loop c)).

(** ** The deny-list of one loop *)

Abbreviation put := (fun (out : gmap string (list string)) l =>
  if is_logs (cf_loop l) then <[key_String (Key (cf_loop l)) := contentDenylist (opted (cf_cfg l))]> out else out).

Lemma deny_by_loop (loops : list loopConfigured) (out : gmap string (list string)) c :
  (forall c', c' ∈ loops -> name_of c' = name_of c -> c' = c) ->
  (is_logs (cf_loop c) = false -> foldl put out loops !! name_of c = out !! name_of c) /\
  (is_logs (cf_loop c) = true -> (c ∈ loops) \/ out !! name_of c = Some (contentDenylist (opted (cf_cfg c))) ->
     foldl put out loops !! name_of c = Some (contentDenylist (opted (cf_cfg c)))).
Proof using Type.
  revert out. induction loops as [|x loops IH]; intros out Huniq; cbn [foldl].
  { split; [done|]. by intros _ [?%elem_of_nil|?]. }
  destruct (IH (put out x)) as [IH1 IH2]; [intros c' Hc'; apply Huniq; by right|].
  assert (name_of x <> name_of c -> put out x !! name_of c = out !! name_of c) as Hother.
  { intros Hx. destruct (is_logs (cf_loop x)); [|done]. by rewrite lookup_insert_ne. }
  split.
  - intros Hl. rewrite IH1 by done. destruct (decide (name_of x = name_of c)) as [Hx|Hx]; [|by apply Hother].
    assert (x = c) as -> by (apply Huniq; [left|done]). by rewrite Hl.
  - intros Hl Hin. apply IH2; [done|]. destruct (decide (name_of x = name_of c)) as [Hx|Hx].
    + right. assert (x = c) as -> by (apply Huniq; [left|done]). rewrite Hl. apply lookup_insert_eq.
    + rewrite Hother by done. destruct Hin as [[->|?]%elem_of_cons|?]; auto. done.
Qed.

Section started.
Context (cfg : Config) (coord : CoordinatorKind) (w : W) (app : App) (w' : W) (parts : list (list loopConfigured)).
Context (Ht : build_trace ParseDuration trim_uni uni sha256_hex cfg coord w app w' parts).
Context (Hnc : no_collision trim_uni sha256_hex (map (fun s => s.1.2) (app_specs app))).

(** A logs loop is denied the floor and what its own operator did not open; any
    other loop the whole backstop. *)
Lemma started_deny c seen :
  c ∈ concat parts ->
  loop_deny (with_seen (app_guard app) seen) (name_of c) =
    list_to_set (contentDenylist (if is_logs (cf_loop c) then opted (cf_cfg c) else ∅)).
Proof using Ht Hnc.
  intros Hc. rewrite (bt_guard _ _ _ _ _ _ _ _ _ _ Ht). unfold loop_deny. cbn [with_seen g_denyByLoop g_deny NewGuard guard_config DenyFieldKeysByLoop DenyFieldKeys].
  rewrite lookup_fmap. unfold contentDenyByLoop. destruct (deny_by_loop (concat parts) ∅ c) as [H0 H1].
  - intros c' Hc' Heq. by eapply (trace_key_inj ParseDuration trim_uni uni sha256_hex); [exact Ht|exact Hnc|..].
  - destruct (is_logs (cf_loop c)) eqn:Hl; [rewrite H1 by auto; done|]. by rewrite H0, lookup_empty.
Qed.

Lemma started_allow k seen : k ∈ g_allow (with_seen (app_guard app) seen) <-> k ∈ AllowedLabelKeys ++ ls_AllowedLabelKeys ++ operatorPromoted trim_uni cfg.
Proof using Ht Hnc.
  rewrite (bt_guard _ _ _ _ _ _ _ _ _ _ Ht). cbn [with_seen g_allow NewGuard guard_config AllowLabelKeys]. unfold allowKeys.
  by rewrite elem_of_list_to_set, dedupe_elem.
Qed.

(** The configuration a loop was built from is an enabled one. *)
Lemma started_config c name lp sc :
  sc ∈ enabled_sources cfg -> sc_Loops sc !! name = Some lp -> lc_Enabled lp = true -> configured_ok trim_uni sha256_hex cfg sc c ->
  k_Loop (Key (cf_loop c)) = name -> cf_cfg c = lp /\ lp ∈ enabled_loops cfg.
Proof using Ht Hnc.
  intros Hsc Hlp He [Hc _] Hn. rewrite Hn, Hlp in Hc. split; [done|]. unfold enabled_loops. apply list_elem_of_filter. split; [done|].
  apply list_elem_of_bind. exists sc. split; [|done]. apply list_elem_of_fmap. exists (name, lp). split; [done|]. by apply elem_of_map_to_list.
Qed.

(** A field a loop's settings promote is content-free and allow-listed. *)
Lemma promoted_field lp f :
  lp ∈ enabled_loops cfg -> f ∈ splitCSV trim_uni (setting (lc_Settings lp) "extra_indexed_fields") ->
  IsContentFloorKey f = false /\ f ∈ operatorPromoted trim_uni cfg /\ f ∈ opted lp.
Proof using Ht Hnc.
  intros Hlp Hf. assert (f ∈ operatorPromoted trim_uni cfg) as Hp.
  { unfold operatorPromoted. apply elem_of_app. right. unfold optedInIndexedFields. apply dedupe_elem, list_elem_of_bind. by exists lp. }
  split; [by apply (bt_floor _ _ _ _ _ _ _ _ _ _ Ht)|]. split; [done|]. unfold optedInContentFieldsForLoop.
  apply elem_of_list_to_set, list_elem_of_bind. exists "extra_indexed_fields". split; [done|]. right. left.
Qed.

(** ** What a strip emits *)

Context (FormatFloat : spec_float -> string) (parse_rfc3339 parse_js : string -> option Time) (time_Parse : string -> string -> option Time).

(** A record a logs loop makes of one the API returned. *)
Definition makes_record (l : Loop) (lr : LogRecord) : Prop :=
  match l with
  | PkLoop (PkLogs l) => exists raw ts, lr = strip FormatFloat parse_rfc3339 parse_js (dl_policy (x_download l)) raw ts
  | LsLoop (LsRuns l) => exists raw ts, lr = run_strip FormatFloat time_Parse (rl_policy l) raw ts
  | _ => False
  end.

(** The fields an export loop records are off the content floor, and its trace
    field is not one of the backstop. *)
Definition honest_fields (l : Loop) : Prop :=
  match l with
  | PkLoop (PkLogs l) =>
      let p := dl_policy (x_download l) in
      (forall k, k ∈ record p ∪ metadataRecord p -> IsContentFloorKey k = false) /\
      (traceIDField p ∉ grayBackstopDenyKeys) /\ (metadataTraceID p ∉ grayBackstopDenyKeys)
  | _ => True
  end.

(** The two key checks of the guard. *)
Definition keys_pass (lp : LoopConfig) (lr : LogRecord) : Prop :=
  (forall k, is_Some (l_IndexedAttributes lr !! k) ->
     floor_or_denied (list_to_set (contentDenylist (opted lp))) k = false /\
     k ∈ AllowedLabelKeys ++ ls_AllowedLabelKeys ++ operatorPromoted trim_uni cfg) /\
  (forall k, is_Some (l_RecordAttributes lr !! k) -> floor_or_denied (list_to_set (contentDenylist (opted lp))) k = false).

Lemma promoted_passes lp k :
  lp ∈ enabled_loops cfg -> k ∈ splitCSV trim_uni (setting (lc_Settings lp) "extra_indexed_fields") ->
  floor_or_denied (list_to_set (contentDenylist (opted lp))) k = false /\ k ∈ AllowedLabelKeys ++ ls_AllowedLabelKeys ++ operatorPromoted trim_uni cfg.
Proof.
  intros Hlp Hk. destruct (promoted_field lp k Hlp Hk) as (Hf & Hp & Ho). split; [by apply key_passes|]. rewrite !elem_of_app. auto.
Qed.

Lemma runs_keys_pass sc lp l lr :
  lp ∈ enabled_loops cfg -> newRunsLoop ParseDuration trim_uni sc lp = Some l -> makes_record (LsLoop (LsRuns l)) lr -> keys_pass lp lr.
Proof.
  intros Hlp Hnew (raw & ts & ->). unfold newRunsLoop in Hnew. case_decide; [|done].
  destruct (applyRunsSettings _ _ _ _) as [s|] eqn:Hs; [|done]. injection Hnew as <-. cbn [rl_policy].
  destruct (runs_policy_tiers defaultRunsFieldPolicy (rk_extraRecordFields s) (rk_extraIndexedFields s)) as [Hi Hr]. set (p := runs_withExtraIndexedFields _ _) in *.
  destruct (applyRunsSettings_ok _ _ _ _ Hs) as [_ Hg].
  destruct (run_strip_spec FormatFloat time_Parse p raw ts) as (_ & _ & _ & _ & Hki & Hkr).
  pose proof (fun f => runs_opted_in ParseDuration trim_uni lp s f Hs) as Hopt. split; intros k.
  - rewrite Hki. unfold kept_indexed. case_decide as Hk; [|by intros []]. intros _. rewrite Hi, elem_of_union, elem_of_list_to_set in Hk.
    destruct Hk as [Hk|Hk]; [split; [apply default_field_passes, default_elem|apply indexed_allowed]; auto|].
    apply promoted_passes; [done|]. by apply Hopt.
  - rewrite Hkr. case_decide as Hsrc; [intros _; subst; apply default_field_passes, stamped_fields|].
    unfold kept_run_record. case_decide as Hk; [|by intros []]. intros _. apply elem_of_difference in Hk as [Hk _].
    assert ((k ∉ hardDeniedRunsFields) /\ k ∈ validLangsmithSelectEnum) as [Hd He] by (apply (runs_policy_free s); auto).
    rewrite Hr, elem_of_union, elem_of_list_to_set in Hk. destruct Hk as [Hk|Hk]; [apply default_field_passes, default_elem; auto|].
    apply Hopt in Hk as [Hk|Hk]; [by apply default_field_passes, runs_default_extra|].
    apply key_passes; [by apply selectable_free|done].
Qed.

Lemma logs_keys_pass sc lp uc l lr :
  lp ∈ enabled_loops cfg -> newLogsExportLoop ParseDuration trim_uni sc lp uc = Some l -> honest_fields (PkLoop (PkLogs l)) ->
  makes_record (PkLoop (PkLogs l)) lr -> keys_pass lp lr.
Proof.
  intros Hlp Hnew Hhon (raw & ts & ->). unfold newLogsExportLoop in Hnew. case_decide; [|done].
  destruct (applyLogsSettings _ _ _ _) as [s|] eqn:Hs; [|done]. injection Hnew as <-. cbn [honest_fields x_download dl_policy] in *.
  pose proof (fun k => logs_tiers s (slug uc) k) as Htier. destruct (logs_trace_fields s (slug uc)) as [Hti Hmt].
  set (p := build_policy s (slug uc)) in *. destruct Hhon as (Hfloor & Htrace & Hmeta). rewrite Hti in Htrace. rewrite Hmt in Hmeta.
  destruct (strip_spec FormatFloat parse_rfc3339 parse_js p raw ts) as (_ & _ & _ & Hki & Hkr & _).
  pose proof (fun f => logs_opted_in ParseDuration trim_uni lp s f Hs) as Hopt. split; intros k.
  - rewrite Hki. unfold kept_top. destruct (decide (tier p k = Some true)) as [Hk|Hk]; [|by intros []]. intros _. unfold tier in Hk.
    destruct (decide (k ∈ indexed p)) as [Hin|Hin]; [|by destruct (decide (k ∈ record p))].
    destruct (Htier k) as [Hi _]. destruct (Hi Hin) as [Hd|Hd]; [split; [apply default_field_passes, default_elem|apply indexed_allowed]; auto|].
    apply promoted_passes; [done|]. by apply Hopt.
  - rewrite Hkr. clear Hki Hkr.
    destruct (decide (k = useCaseLabelKey /\ useCase p <> "")) as [[-> _]|_]; [intros _; apply default_field_passes, stamped_fields|].
    destruct (decide (k = "source")) as [->|_]; [intros _; apply default_field_passes, stamped_fields|].
    intros Hsome. assert (k ∈ record p \/ k ∈ metadataRecord p) as Hk.
    { revert Hsome. unfold kept_record, kept_top. destruct (decide (tier p k = Some false)) as [Hk|Hk].
      - intros _. left. unfold tier in Hk. destruct (decide (k ∈ indexed p)); [done|]. by destruct (decide (k ∈ record p)).
      - unfold liftable. case_bool_decide; [auto|by intros []]. }
    assert (IsContentFloorKey k = false) as Hf by (apply Hfloor; by rewrite elem_of_union).
    destruct (Htier k) as (_ & Hr & Hm). destruct Hk as [Hk|Hk].
    + destruct (Hr Hk) as [Hd|[Hd| ->]]; [apply default_field_passes, default_elem; auto| |by apply key_passes].
      apply Hopt in Hd as [->|Hd]; [apply default_field_passes, stamped_fields|by apply key_passes].
    + destruct (Hm Hk) as [Hd| ->]; [|by apply key_passes]. apply key_passes; [done|]. intros _. by apply Hopt.
Qed.

Lemma logs_loop_keys_pass c lr :
  c ∈ concat parts -> honest_fields (cf_loop c) -> makes_record (cf_loop c) lr -> is_logs (cf_loop c) = true /\ keys_pass (cf_cfg c) lr.
Proof.
  intros Hc Hhon Hlr. destruct (trace_elem _ _ _ _ _ _ _ _ _ _ Ht Hnc c Hc) as (sc & here & Hsc & Hch & _ & (Hb & _ & Hcfg)).
  rewrite Forall_forall in Hcfg. specialize (Hcfg c Hch). assert (cf_loop c ∈ map cf_loop here) as Hl by by apply list_elem_of_fmap_2.
  destruct (cf_loop c) as [[]|[]] eqn:El; try by destruct Hlr.
  - split; [done|]. destruct Hb as [(ls & Hnew & Hls)|(ls & _ & Hls)]; rewrite Hls in Hl; apply list_elem_of_fmap in Hl as (x & Heq & Hx); [|done].
    injection Heq as <-. destruct (portkey_logs_from _ _ _ _ _ _ Hnew Hx) as (lp & uc & Hlp & He & Hnl).
    destruct (started_config c "logs_export" lp sc Hsc Hlp He Hcfg) as [-> Hin]; [by rewrite El|]. by eapply logs_keys_pass.
  - split; [done|]. destruct Hb as [(ls & _ & Hls)|(ls & Hnew & Hls)]; rewrite Hls in Hl; apply list_elem_of_fmap in Hl as (x & Heq & Hx); [done|].
    injection Heq as <-. destruct (langsmith_runs_from _ _ _ _ _ Hnew Hx) as (lp & Hlp & He & Hnl).
    destruct (started_config c "runs" lp sc Hsc Hlp He Hcfg) as [-> Hin]; [by rewrite El|]. by eapply runs_keys_pass.
Qed.
End started.

Section records.
Context (FormatFloat : spec_float -> string) (parse_rfc3339 parse_js : string -> option Time) (time_Parse : string -> string -> option Time).

(** C8: the guard never eats a record the strip let through.  Start an
    application and take any record a logs loop makes of what its API
    returned, with the fields the operator opted in, promoted or lifted from
    the metadata.  The guard of that application finds no denied key and no
    label that is not allow-listed on it, whatever it has seen before, so it
    drops the record only when the cardinality budget is used up.  (For an
    export loop the recorded fields must be off the content floor and the
    trace field off the backstop, which its settings do not check.) *)
Theorem stripped_records_pass cfg coord w app w' r l sp lr seen :
  Build ParseDuration trim_uni uni sha256_hex url_Parse ParseIP cfg coord w = (Ok app, w') ->
  no_collision trim_uni sha256_hex (map (fun s => s.1.2) (app_specs app)) ->
  (r, l, sp) ∈ app_specs app -> honest_fields l -> makes_record FormatFloat parse_rfc3339 parse_js time_Parse l lr ->
  let g := with_seen (app_guard app) seen in
  okLog g (key_String (r_key r)) lr = admit_labels g ("logs:" +:+ key_String (r_key r)) (l_IndexedAttributes lr).
Proof.
  intros [parts Ht]%Build_trace Hnc Hin Hhon Hlr g. destruct (trace_spec _ _ _ _ _ _ _ _ _ _ _ _ _ Ht Hin) as (c & Hc & -> & -> & _).
  destruct (logs_loop_keys_pass cfg coord w app w' parts Ht Hnc FormatFloat parse_rfc3339 parse_js time_Parse c lr Hc Hhon Hlr) as (Hlogs & Hi & Hr).
  unfold okLog, g. change (key_String (Key (cf_loop c))) with (name_of c). rewrite (started_deny _ _ _ _ _ _ Ht Hnc _ _ Hc), Hlogs.
  rewrite (proj2 (all_keys_spec _ (l_IndexedAttributes lr))), (proj2 (all_keys_spec _ (l_RecordAttributes lr))),
    (proj2 (all_keys_spec _ (l_IndexedAttributes lr))); [done|..].
  - intros k Hk. apply bool_decide_eq_true, (started_allow _ _ _ _ _ _ Ht Hnc). by apply Hi.
  - intros k Hk. by rewrite (Hr k Hk).
  - intros k Hk. by rewrite (proj1 (Hi k Hk)).
Qed.
End records.

(** C9: an opt-in opens one loop.  In a started application no record passes
    the guard with a key of the content floor, whatever the configuration
    says; and a key of the backstop passes only for a logs loop whose own
    configuration names it, never because another loop's does. *)
Theorem opt_in_is_per_loop cfg coord w app w' r l sp lr seen k :
  Build ParseDuration trim_uni uni sha256_hex url_Parse ParseIP cfg coord w = (Ok app, w') ->
  no_collision trim_uni sha256_hex (map (fun s => s.1.2) (app_specs app)) ->
  (r, l, sp) ∈ app_specs app ->
  (okLog (with_seen (app_guard app) seen) (key_String (r_key r)) lr).1.1 = true ->
  is_Some (l_IndexedAttributes lr !! k) \/ is_Some (l_RecordAttributes lr !! k) ->
  IsContentFloorKey k = false /\
  (k ∈ grayBackstopDenyKeys -> is_logs l = true /\
     exists sc lp, sc ∈ enabled_sources cfg /\ sc_SourceInstance sc = k_SourceInstance (r_key r) /\
       default zeroLoopConfig (sc_Loops sc !! k_Loop (r_key r)) = lp /\ k ∈ optedInContentFieldsForLoop trim_uni lp).
Proof.
  intros [parts Ht]%Build_trace Hnc Hin Hok Hk. destruct (trace_spec _ _ _ _ _ _ _ _ _ _ _ _ _ Ht Hin) as (c & Hc & -> & Hr & _).
  rewrite Hr in *. unfold okLog in Hok. change (key_String (Key (cf_loop c))) with (name_of c) in Hok. rewrite (started_deny _ _ _ _ _ _ Ht Hnc _ _ Hc) in Hok.
  destruct (all_keys _ _ && all_keys _ _ && _) eqn:Hkeys; [|done]. apply andb_prop in Hkeys as [[Hi Hrec]%andb_prop _].
  rewrite all_keys_spec in Hi, Hrec. set (opt := if is_logs (cf_loop c) then _ else ∅) in *.
  assert (floor_or_denied (list_to_set (contentDenylist opt)) k = false) as Hf by (destruct Hk as [Hk|Hk]; [apply negb_true_iff, Hi|apply negb_true_iff, Hrec]; done).
  unfold floor_or_denied in Hf. apply orb_false_iff in Hf as [Hd Hfl]. split; [done|]. intros Hg.
  apply bool_decide_eq_false in Hd. rewrite elem_of_list_to_set, contentDenylist_elem in Hd.
  assert (k ∈ opt) as Ho by (destruct (decide (k ∈ opt)); [done|]; tauto). subst opt.
  destruct (is_logs (cf_loop c)); [|by apply elem_of_empty in Ho]. split; [done|].
  destruct (trace_elem _ _ _ _ _ _ _ _ _ _ Ht Hnc c Hc) as (sc & here & Hsc & Hch & _ & (Hb & _ & Hcfg)).
  rewrite Forall_forall in Hcfg. destruct (Hcfg c Hch) as [Hcc _]. exists sc, (cf_cfg c). split_and!; [done| |by rewrite Hcc|done].
  symmetry. eapply built_from_instance; [exact Hb|]. by apply list_elem_of_fmap_2.
Qed.
End guard.

(** ** The epoch a single replica adopts *)

Section epochs.
Context {W : Type} `{CheckpointerSpec W}.

(** What the Loads that [Build] makes for a single replica answer, in order. *)
Fixpoint loads (keys : list CheckpointKey) (w : W) : list (CheckpointKey * result CpErr Watermark) :=
  match keys with [] => [] | k :: keys => let '(r, w) := cp_Load k w in (k, r) :: loads keys w end.

Lemma max_stored_spec keys acc w m w' :
  max_stored keys acc w = (m, w') ->
  (acc <= m)%Z /\ (m = acc \/ exists k w1 wm, k ∈ keys /\ fst (cp_Load k w1) = Ok wm /\ wm_Epoch wm = m) /\
  (forall k wm, (k, Ok wm) ∈ loads keys w -> (wm_Epoch (durable w k) <= m)%Z).
Proof.
  revert acc w. induction keys as [|k keys IH]; intros acc w; cbn [max_stored loads].
  { intros [= <- <-]. split_and!; [lia|by left|]. by intros k wm ?%elem_of_nil. }
  destruct (cp_Load k w) as [[wm|e] w1] eqn:Hl.
  - intros (Hle & Hsrc & Hall)%IH. set (acc' := if (acc <? wm_Epoch wm)%Z then wm_Epoch wm else acc) in *.
    assert (acc <= acc' /\ wm_Epoch wm <= acc')%Z as [Ha Hw] by (subst acc'; zbool; lia). split_and!; [lia| |].
    + destruct Hsrc as [->|(k' & w2 & wm' & Hk' & Hrest)]; [|right; exists k', w2, wm'; split; [by right|done]].
      subst acc'. destruct (acc <? wm_Epoch wm)%Z; [right|by left]. exists k, w, wm. split; [left|]. by rewrite Hl.
    + intros k' wm' [[= -> ->]|Hk']%elem_of_cons.
      * destruct (cp_Load_fresh _ _ _ _ Hl) as [[He _] _]. lia.
      * specialize (Hall k' wm' Hk'). destruct (cp_Load_mono _ _ _ _ Hl k') as [He _]. lia.
  - intros (Hle & Hsrc & Hall)%IH. split_and!; [done| |].
    + destruct Hsrc as [->|(k' & w2 & wm' & Hk' & Hrest)]; [by left|right]. exists k', w2, wm'. split; [by right|done].
    + intros k' wm' [?|Hk']%elem_of_cons; [done|]. specialize (Hall k' wm' Hk'). destruct (cp_Load_mono _ _ _ _ Hl k') as [He _]. lia.
Qed.

(** C28: going from a replicated to a single deployment does not shut the fence
    on a loop whose checkpoint could be read.  A single replica started over a
    store an earlier leader advanced stamps an epoch that is not below the epoch
    stored for any loop whose Load answered while the application was built, so
    every save of such a loop that makes progress in time passes the fence (a
    Load that fails is skipped, and that loop's saves may be fenced); and the
    epoch is the configured one or one that was stored, never a made-up sentinel
    that would shut the fence on the way back. *)
Theorem single_replica_not_fenced ParseDuration trim_uni uni sha256_hex url_Parse ParseIP cfg epoch w app w' :
  Build ParseDuration trim_uni uni sha256_hex url_Parse ParseIP cfg (NoopCoordinator epoch) w = (Ok app, w') ->
  exists e, app_coord app = NoopCoordinator e /\
    (e = epoch \/ exists r l sp w1 wm, (r, l, sp) ∈ app_specs app /\ fst (cp_Load (r_key r) w1) = Ok wm /\ wm_Epoch wm = e) /\
    forall r l sp wm ctx t cursor, (r, l, sp) ∈ app_specs app ->
      (r_key r, Ok wm) ∈ loads (map (fun s => r_key s.1.1) (app_specs app)) w -> (wm_Time (durable w (r_key r)) < t)%Z ->
      CheckMonotonic (durable w (r_key r)) (mkWm t cursor (EpochFromContext (noop_context e ctx))) = None.
Proof.
  intros [parts Ht]%Build_trace. pose proof (bt_coord _ _ _ _ _ _ _ _ _ _ Ht) as Hco. unfold adopt_epoch in Hco.
  destruct (max_stored _ _ w) as [m w1] eqn:Hm. apply max_stored_spec in Hm as (Hle & Hsrc & Hall). injection Hco as Hco _.
  assert (forall e, (m <= Z.max 1 e)%Z -> forall r l sp wm ctx t cursor, (r, l, sp) ∈ app_specs app ->
    (r_key r, Ok wm) ∈ loads (map (fun s => r_key s.1.1) (app_specs app)) w -> (wm_Time (durable w (r_key r)) < t)%Z ->
    CheckMonotonic (durable w (r_key r)) (mkWm t cursor (EpochFromContext (noop_context e ctx))) = None) as Hpass.
  { intros e He r l sp wm ctx t cursor _ Hin Hlt. rewrite (bt_specs _ _ _ _ _ _ _ _ _ _ Ht), map_map in Hin.
    change (map (fun x => r_key (spec_of trim_uni sha256_hex cfg x).1.1) (concat parts)) with
      (map (fun l => loop_Key trim_uni sha256_hex (cf_loop l)) (concat parts)) in Hin.
    pose proof (Hall _ _ Hin) as Hep. apply CheckMonotonic_None. unfold wm_le, wm_progress, noop_context, WithEpoch, EpochFromContext. cbn. lia. }
  destruct (Z.ltb_spec (Z.max 1 epoch) m) as [Hlt|Hge].
  - exists m. split; [done|]. split; [|apply Hpass; lia]. right. destruct Hsrc as [->|(k & w2 & wm & Hk & Hl & He)]; [lia|].
    apply list_elem_of_fmap in Hk as (c & -> & Hc). exists (spec_of trim_uni sha256_hex cfg c).1.1, (cf_loop c), (spec_of trim_uni sha256_hex cfg c).2, w2, wm.
    split; [|done]. rewrite (bt_specs _ _ _ _ _ _ _ _ _ _ Ht). apply list_elem_of_fmap. exists c. done.
  - exists epoch. split; [done|]. split; [by left|apply Hpass; lia].
Qed.
End epochs.

(** ** Concrete applications *)

Module AppDemo.
#[local] Existing Instance Coordinate.Sim.store.
Definition loop (settings : list (string * string)) : LoopConfig := mkLoopConfig true Minute 0 0 0 0 "" [] (list_to_map settings).
Definition runs : LoopConfig := loop [("session_ids", "p1"); ("extra_record_fields", "name,tags"); ("extra_indexed_fields", "trace_tier")].
Definition langsmith : SourceConfig := plain_source "langsmith" "https://h" "ls-prod" {[ "runs" := runs; "sessions" := loop [] ]} [] "x-api-key" "k".
Definition export (settings : list (string * string)) : LoopConfig :=
  loop (settings ++ [("workspace_id", "ws"); ("signed_url_allow_hosts", "s3")]).
Definition portkey (settings : list (string * string)) : SourceConfig :=
  plain_source "portkey" "https://h" "pk-prod" {[ "logs_export" := export settings ]} [] "x-portkey-api-key" "k".
Definition config (l : list SourceConfig) : Config := apply_defaults (ConfigDemo.with_sources "none" "file" ConfigDemo.gateway l).
Definition start (l : list SourceConfig) (w : gmap CheckpointKey Watermark) : result AppErr App * gmap CheckpointKey Watermark :=
  Build (fun _ => None) id id rev_string ConfigDemo.parse ConfigDemo.parse_ip (config l) (NoopCoordinator 1) w.
Definition nothing : App := mkApp (NewGuard (mkGuardConfig [] [] ∅ 0 false)) [] OtherCoordinator.
Definition started (l : list SourceConfig) (w : gmap CheckpointKey Watermark) : App := match start l w with (Ok a, _) => a | _ => nothing end.

Definition app : App := started [langsmith] ∅.

(** The runs loop of an application, and a check of it. *)
Definition is_runs (s : LoopRunner * Loop * LoopSpec) : bool := match s.1.2 with LsLoop (LsRuns _) => true | _ => false end.
Definition no_portkey (s : LoopRunner * Loop * LoopSpec) : bool := match s.1.2 with PkLoop _ => false | LsLoop _ => true end.
Definition runs_check (specs : list (LoopRunner * Loop * LoopSpec)) (check : LoopRunner -> bool) : bool :=
  match find is_runs specs with Some (r, _, _) => check r | None => false end.

Lemma app_started : start [langsmith] ∅ = (Ok app, (start [langsmith] ∅).2).
Proof.
  unfold app, started. destruct (start [langsmith] ∅) as [[a|e] w] eqn:E; [done|].
  apply (f_equal (fun x => is_ok x.1)) in E. vm_compute in E. discriminate E.
Qed.

Lemma app_no_collision : no_collision id rev_string (map (fun s => s.1.2) (app_specs app)).
Proof.
  assert (forallb no_portkey (app_specs app) = true) as Hf by (vm_compute; reflexivity). rewrite forallb_forall in Hf.
  intros l l' (s & Hs & Hin)%list_elem_of_fmap. specialize (Hf s (proj1 (list_elem_of_In _ _) Hin)). unfold no_portkey in Hf. by rewrite <-Hs in Hf.
Qed.

Lemma found_runs specs check :
  runs_check specs check = true -> exists r rl sp, (r, LsLoop (LsRuns rl), sp) ∈ specs /\ check r = true.
Proof.
  unfold runs_check. destruct (find is_runs specs) as [[[r l] sp]|] eqn:Hf; [|done]. intros Hc.
  pose proof (find_some _ _ Hf) as [Hin Hr]. unfold is_runs in Hr. cbn in Hr. destruct l as [|[|rl|]]; try done.
  apply list_elem_of_In in Hin. eauto 6.
Qed.

(** A run as the API returns it, and the record a guard sees of one. *)
Definition run : gmap string json := {[ "id" := JStr "r1"; "name" := JStr "agent"; "inputs" := JStr "secret" ]}.
Definition named : LogRecord := mkLogRecord 0 "" "" ∅ {[ "name" := "agent" ]} "".
Lemma name_gray : "name" ∈ grayBackstopDenyKeys.
Proof. apply (bool_decide_unpack _). vm_compute. exact I. Qed.

(** A store every loop of which an earlier leader left at epoch 7. *)
Definition handed_over : gmap CheckpointKey Watermark := list_to_map (map (fun s => (r_key s.1.1, mkWm 10 "" 7)) (app_specs app)).
Definition alone : App := started [langsmith] handed_over.
Lemma alone_started : start [langsmith] handed_over = (Ok alone, (start [langsmith] handed_over).2).
Proof.
  unfold alone, started. destruct (start [langsmith] handed_over) as [[a|e] w] eqn:E; [done|].
  apply (f_equal (fun x => is_ok x.1)) in E. vm_compute in E. discriminate E.
Qed.

(** This store answers every Load. *)
Lemma loads_store keys w : loads keys w = map (fun k => (k, Ok (default zeroWm (w !! k)))) keys.
Proof. induction keys as [|k keys IH]; [done|]. cbn [map]. rewrite <-IH. done. Qed.

(** Whether the guard passes what the export loop makes of a record. *)
Definition exported (settings : list (string * string)) : option bool :=
  let a := started [portkey settings] ∅ in
  match app_specs a with
  | [(r, PkLoop (PkLogs l), _)] =>
      Some (okLog (app_guard a) (key_String (r_key r)) (strip (fun _ => "") (fun _ => None) (fun _ => None) (dl_policy (x_download l)) run 0)).1.1
  | _ => None
  end.
End AppDemo.

(** Naming a key of the backstop as an extra field opens it; naming it as the
    trace field does not, and every record that has it is dropped. *)
Example trace_field_gap :
  AppDemo.exported [("trace_id_field", "trace_id")] = Some true /\
  AppDemo.exported [("trace_id_field", "trace_id"); ("extra_record_fields", "name")] = Some true /\
  AppDemo.exported [("trace_id_field", "name")] = Some false.
Proof. split_and!; vm_compute; reflexivity. Qed.

Lemma Build_ok_witness :
  NoDup (map (fun s => key_String (r_key s.1.1)) (app_specs AppDemo.app)) /\
  exists r l sp, (r, l, sp) ∈ app_specs AppDemo.app /\ k_SourceInstance (r_key r) = "ls-prod" /\ k_Loop (r_key r) = "sessions".
Proof.
  destruct (Build_ok _ _ _ _ _ _ _ _ _ _ _ AppDemo.app_started AppDemo.app_no_collision) as (_ & Hn & Hrun & _). split; [exact Hn|].
  destruct (Hrun (default_source AppDemo.langsmith) "sessions" (default_loop (AppDemo.loop []))) as (r & l & Hin & Hs & Hl); [left|reflexivity..|].
  exists r, l. eexists. split; [exact Hin|]. split; [exact Hs|exact Hl].
Defined.

Lemma stripped_records_pass_witness :
  exists r rl sp, (r, LsLoop (LsRuns rl), sp) ∈ app_specs AppDemo.app /\
    let lr := run_strip (fun _ => "") (fun _ _ => None) (rl_policy rl) AppDemo.run 0 in
    let g := with_seen (app_guard AppDemo.app) ∅ in
    okLog g (key_String (r_key r)) lr = admit_labels g ("logs:" +:+ key_String (r_key r)) (l_IndexedAttributes lr).
Proof.
  destruct (AppDemo.found_runs (app_specs AppDemo.app) (fun _ => true)) as (r & rl & sp & Hin & _); [vm_compute; reflexivity|].
  exists r, rl, sp. split; [exact Hin|].
  refine (stripped_records_pass _ _ _ _ _ _ (fun _ => "") (fun _ => None) (fun _ => None) (fun _ _ => None) _ _ _ _ _ r _ sp _ ∅
    AppDemo.app_started AppDemo.app_no_collision Hin I _).
  exists AppDemo.run, 0%Z. reflexivity.
Defined.

Lemma opt_in_is_per_loop_witness :
  exists r rl sp, (r, LsLoop (LsRuns rl), sp) ∈ app_specs AppDemo.app /\
    exists sc, sc_SourceInstance sc = k_SourceInstance (r_key r) /\
      "name" ∈ optedInContentFieldsForLoop id (default zeroLoopConfig (sc_Loops sc !! k_Loop (r_key r))).
Proof.
  destruct (AppDemo.found_runs (app_specs AppDemo.app) (fun r => (okLog (with_seen (app_guard AppDemo.app) ∅) (key_String (r_key r)) AppDemo.named).1.1))
    as (r & rl & sp & Hin & Hok); [vm_compute; reflexivity|].
  exists r, rl, sp. split; [exact Hin|].
  destruct (opt_in_is_per_loop _ _ _ _ _ _ _ _ _ _ _ r _ sp AppDemo.named ∅ "name" AppDemo.app_started AppDemo.app_no_collision Hin Hok) as [_ Hg].
  { right. exists "agent". reflexivity. }
  destruct (Hg AppDemo.name_gray) as (_ & sc & lp & _ & Hsi & Hlp & Ho). exists sc. split; [exact Hsi|]. rewrite Hlp. exact Ho.
Defined.

Lemma single_replica_not_fenced_witness :
  exists e, app_coord AppDemo.alone = NoopCoordinator e /\
    forall r l sp, (r, l, sp) ∈ app_specs AppDemo.alone -> (wm_Time (durable AppDemo.handed_over (r_key r)) < 20)%Z ->
      CheckMonotonic (durable AppDemo.handed_over (r_key r)) (mkWm 20 "" (EpochFromContext (noop_context e (mkCtx false None)))) = None.
Proof.
  destruct (single_replica_not_fenced _ _ _ _ _ _ _ _ _ _ _ AppDemo.alone_started) as (e & He & _ & Hall).
  exists e. split; [exact He|]. intros r l sp Hin Ht.
  refine (Hall r l sp (default zeroWm (AppDemo.handed_over !! r_key r)) (mkCtx false None) 20%Z "" Hin _ Ht).
  rewrite AppDemo.loads_store. apply (list_elem_of_fmap_2 (fun k => (k, Ok (default zeroWm (AppDemo.handed_over !! k))))).
  exact (list_elem_of_fmap_2 (fun s : LoopRunner * Loop * LoopSpec => r_key s.1.1) _ _ Hin).
Defined.

(** The epoch it stamps is the one it found. *)
Example epoch_adopted : app_coord AppDemo.alone = NoopCoordinator 7 /\ app_coord AppDemo.app = NoopCoordinator 1.
Proof. split; vm_compute; reflexivity. Qed.
