(* ===== verification/Selfobs.v ===== *)
(** * The exported self-metrics (internal/selfobs/metrics.go)

    [Metrics] turns each call of the [schedule.Metrics] seam, and of the
    observers wired at the composition root, into one point of a named
    instrument with its attributes.  The store is what the SDK aggregates:
    cumulative counters, last-value gauges, histogram observations. *)

From S2P Require Import Prelude Model Runner RunnerBatch.

(** ** The store *)

(** An instrument's name and its attributes. *)
Abbreviation Series := (string * gmap string string)%type.

Record Exported := mkExported {
  ex_counters : gmap Series Z;             (* int64 *)
  ex_gauges : gmap Series spec_float;
  ex_histograms : list (Series * spec_float)
}.

Definition full_name (n : string) : string := "genai_otel_bridge_" +:+ n.
Definition attrs (l : list (string * string)) : gmap string string := list_to_map l.
Definition loopAttr (loop : string) : gmap string string := attrs [("loop", loop)].

Definition counter_Add (n : string) (a : gmap string string) (v : Z) (st : Exported) : Exported :=
  mkExported (<[(full_name n, a) := wrap64 (default 0%Z (ex_counters st !! (full_name n, a)) + v)]> (ex_counters st)) (ex_gauges st) (ex_histograms st).
Definition Record_gauge (n : string) (a : gmap string string) (v : spec_float) (st : Exported) : Exported :=
  mkExported (ex_counters st) (<[(full_name n, a) := v]> (ex_gauges st)) (ex_histograms st).
Definition Record_hist (n : string) (a : gmap string string) (v : spec_float) (st : Exported) : Exported :=
  mkExported (ex_counters st) (ex_gauges st) (ex_histograms st ++ [((full_name n, a), v)]).

(** [Duration.Seconds]: whole seconds and the rest, each a float64. *)
Definition Seconds (d : Duration) : spec_float :=
  f64_add (f64_of_Z (Z.quot d Second)) (f64_div (f64_of_Z (Z.rem d Second)) (f64_of_Z 1000000000)).

(** ** The seam *)

(** [fmt.Sprintf] of the hundreds; "error" when no response was received. *)
Definition status_class (status : Z) (err : bool) : string :=
  if negb err && (0 <? status)%Z then FormatInt (Z.quot status 100) +:+ "xx" else "error".

(** The methods the runner and the scheduler call. *)
Definition record_metric (loop : string) (m : Metric) : Exported -> Exported :=
  match m with
  | EmittedSamples n => counter_Add "emitted_total" (loopAttr loop) (Z.of_nat n)
  | EmittedLogs n => counter_Add "emitted_logs_total" (loopAttr loop) (Z.of_nat n)
  | SamplesSkipped reason n => counter_Add "samples_skipped_total" (attrs [("loop", loop); ("reason", reason)]) n
  | EmitError kind => counter_Add "emit_errors_total" (attrs [("loop", loop); ("kind", kind)]) 1
  | GuardDropped n => counter_Add "guard_dropped_total" (loopAttr loop) (Z.of_nat n)
  | NewLabelValue series => counter_Add "new_label_values_total" (attrs [("series", series)]) 1
  | SamplesCapped n => counter_Add "samples_capped_total" (attrs [("loop", loop); ("reason", "dpm")]) (Z.of_nat n)
  | QueueDepth depth => Record_gauge "queue_depth" (loopAttr loop) (f64_of_Z (Z.of_nat depth))
  | LastSuccess t => Record_gauge "last_success_timestamp_seconds" (loopAttr loop) (f64_of_Z (Unix t))
  | WindowLag lag => Record_gauge "window_lag_seconds" (loopAttr loop) (Seconds lag)
  | LoopDegraded reason degraded => Record_gauge "loop_degraded" (attrs [("loop", loop); ("reason", reason)]) (f64_of_Z (if degraded then 1 else 0))
  end.

(** The methods the sources and the observers call. *)
Definition BucketRevisedAfterSettle (loop : string) (age : Duration) (st : Exported) : Exported :=
  Record_hist "bucket_revised_after_settle_age_seconds" (loopAttr loop) (Seconds age) (counter_Add "bucket_revised_after_settle_total" (loopAttr loop) 1 st).
Definition SourceCapability (loop graph state : string) : Exported -> Exported :=
  counter_Add "source_capability_total" (attrs [("loop", loop); ("graph", graph); ("state", state)]) 1.
Definition SourceDataIncomplete (loop reason : string) : Exported -> Exported :=
  counter_Add "source_data_incomplete_total" (attrs [("loop", loop); ("reason", reason)]) 1.
Definition AuthError (loop source : string) : Exported -> Exported :=
  counter_Add "auth_errors_total" (attrs [("loop", loop); ("source", source)]) 1.
Definition ObserveEmitRequest (plane : string) (status : Z) (err : bool) (d : Duration) : Exported -> Exported :=
  Record_hist "emit_request_duration_seconds" (attrs [("plane", plane); ("status_class", status_class status err)]) (Seconds d).
Definition ObserveEmitPartialReject (plane : string) (rejected : Z) : Exported -> Exported :=
  counter_Add "emit_partial_success_rejected_total" (attrs [("plane", plane)]) rejected.
Definition ObserveUpstreamRequest (target method : string) (status : Z) (err : bool) (d : Duration) : Exported -> Exported :=
  Record_hist "upstream_request_duration_seconds" (attrs [("target", target); ("method", method); ("status_class", status_class status err)]) (Seconds d).

Definition export_ev (st : Exported) (e : Ev) : Exported := match e with EvMetric loop m => record_metric loop m st | _ => st end.
Definition export (t : list Ev) (st : Exported) : Exported := foldl export_ev st t.

(** ** What an operator can read back *)

(** The sum of the counters a query selects. *)
Definition sum_series (P : Series -> bool) (m : gmap Series Z) : Z := map_fold (fun s v acc => if P s then (v + acc)%Z else acc) 0%Z m.
Definition select (P : Series -> bool) (st : Exported) : Z := sum_series P (ex_counters st).

Lemma sum_series_insert P s v m : m !! s = None -> sum_series P (<[s:=v]> m) = ((if P s then v else 0) + sum_series P m)%Z.
Proof. intros Hs. unfold sum_series. rewrite map_fold_insert_L by (done || intros; repeat case_match; lia). destruct (P s); lia. Qed.

Definition congr (x y : Z) : Prop := (x mod 2 ^ 64 = y mod 2 ^ 64)%Z.

Lemma wrap64_congr z : congr (wrap64 z) z.
Proof.
  unfold congr, wrap64. rewrite Zminus_mod, Zmod_mod, <-Zminus_mod. f_equal. lia.
Qed.

Lemma select_Add P n a v st : congr (select P (counter_Add n a v st)) (select P st + (if P (full_name n, a) then v else 0)).
Proof.
  unfold select, counter_Add. cbn [ex_counters]. set (s := (full_name n, a)). set (m := ex_counters st). set (x := default 0%Z (m !! s)).
  rewrite <-insert_delete_eq, sum_series_insert by apply lookup_delete_eq.
  assert (sum_series P m = (if P s then x else 0) + sum_series P (delete s m))%Z as ->.
  { unfold x. destruct (m !! s) as [y|] eqn:Hy; [rewrite <-sum_series_insert by apply lookup_delete_eq; by rewrite insert_delete_id|].
    cbn. rewrite delete_id by done. by destruct (P s). }
  pose proof (wrap64_congr (x + v)) as Hw. unfold congr in *. destruct (P s); [|f_equal; lia].
  rewrite Z.add_mod, Hw, <-Z.add_mod by lia. f_equal. lia.
Qed.

(** What an event adds to the counters a query selects. *)
Definition added (P : Series -> bool) (e : Ev) : Z :=
  let on n a v := if P (full_name n, a) then v else 0%Z in
  match e with
  | EvMetric loop (EmittedSamples n) => on "emitted_total" (loopAttr loop) (Z.of_nat n)
  | EvMetric loop (EmittedLogs n) => on "emitted_logs_total" (loopAttr loop) (Z.of_nat n)
  | EvMetric loop (SamplesSkipped reason n) => on "samples_skipped_total" (attrs [("loop", loop); ("reason", reason)]) n
  | EvMetric loop (EmitError kind) => on "emit_errors_total" (attrs [("loop", loop); ("kind", kind)]) 1%Z
  | EvMetric loop (GuardDropped n) => on "guard_dropped_total" (loopAttr loop) (Z.of_nat n)
  | EvMetric loop (NewLabelValue series) => on "new_label_values_total" (attrs [("series", series)]) 1%Z
  | EvMetric loop (SamplesCapped n) => on "samples_capped_total" (attrs [("loop", loop); ("reason", "dpm")]) (Z.of_nat n)
  | _ => 0%Z
  end.

Lemma select_export P t st : congr (select P (export t st)) (select P st + sum_list_Z (map (added P) t)).
Proof.
  revert st. induction t as [|e t IH]; intros st; [unfold congr; f_equal; cbn; lia|]. cbn [export foldl map sum_list_Z].
  etrans; [apply IH|]. unfold congr. rewrite Z.add_assoc, Z.add_mod, (Z.add_mod (select P st + _)) by lia. f_equal. f_equal.
  destruct e as [loop m| | | | | | | |]; try (by rewrite Z.add_0_r). destruct m; first [exact (select_Add P _ _ _ st)|by rewrite Z.add_0_r].
Qed.

(** The query that adds up everything that happened to samples. *)
Definition sample_series (s : Series) : bool :=
  bool_decide (s.1 ∈ [full_name "emitted_total"; full_name "guard_dropped_total"; full_name "samples_capped_total"; full_name "samples_skipped_total"]).

Lemma added_counted e : (forall loop reason n, e = EvMetric loop (SamplesSkipped reason n) -> (0 <= n)%Z) -> added sample_series e = Z.of_nat (counted_ev e).
Proof.
  intros Hn. destruct e as [loop m| | | | | | | |]; try done. destruct m; try done. cbn. specialize (Hn _ _ _ eq_refl). unfold sample_series. cbn [fst].
  rewrite bool_decide_true by (apply (bool_decide_unpack _); vm_compute; exact I). lia.
Qed.

(** Conservation read off the exported counters, whatever they stood at: the
    four sample counters rise by what the trace accounts for (modulo their
    width). *)
Theorem exported_counted t st :
  (forall loop reason n, EvMetric loop (SamplesSkipped reason n) ∈ t -> (0 <= n)%Z) ->
  congr (select sample_series (export t st)) (select sample_series st + Z.of_nat (counted t)).
Proof.
  intros Hn. etrans; [apply select_export|]. unfold congr. f_equal. f_equal. unfold counted.
  induction t as [|e t IH]; [done|]. cbn [map sum_list_Z sum_list_with]. rewrite IH by (intros; eapply Hn; by right). rewrite added_counted by (intros loop reason n ->; eapply Hn; left).
  change (sum_list_with counted_ev (e :: t)) with (counted_ev e + sum_list_with counted_ev t). lia.
Qed.

(** The degraded gauge of a series is the one the runner's invariant speaks of. *)
Lemma attrs_loop_reason_inj loop reason loop' reason' :
  attrs [("loop", loop); ("reason", reason)] = attrs [("loop", loop'); ("reason", reason')] -> loop = loop' /\ reason = reason'.
Proof.
  intros Heq. split.
  - apply (f_equal (fun m => m !! "loop")) in Heq. cbn in Heq. rewrite !lookup_insert_eq in Heq. by injection Heq.
  - apply (f_equal (fun m => m !! "reason")) in Heq. cbn in Heq. rewrite !lookup_insert_ne, !lookup_insert_eq in Heq by done. by injection Heq.
Qed.

Definition gauge_of (st : Exported) (k : string * string) : option spec_float :=
  ex_gauges st !! (full_name "loop_degraded", attrs [("loop", k.1); ("reason", k.2)]).

Lemma gauge_export t st g :
  (forall k, gauge_of st k = (fun d : bool => f64_of_Z (if d then 1 else 0)) <$> g !! k) ->
  forall k, gauge_of (export t st) k = (fun d : bool => f64_of_Z (if d then 1 else 0)) <$> degraded_gauge g t !! k.
Proof.
  revert st g. induction t as [|e t IH]; intros st g Hg; [done|]. cbn [export degraded_gauge foldl]. apply IH. intros k.
  destruct e as [loop m| | | | | | | |]; try apply Hg. destruct m; try apply Hg; unfold gauge_of; cbn [export_ev record_metric set_gauge Record_gauge ex_gauges];
    try (rewrite lookup_insert_ne by (intros [=]); apply Hg).
  destruct k as [l r]. destruct (decide ((loop, reason) = (l, r))) as [[= -> ->]|Hne].
  - by rewrite !lookup_insert_eq.
  - rewrite !lookup_insert_ne; [apply Hg|done|]. intros Heq. apply Hne. apply (f_equal snd) in Heq. cbn [fst snd] in Heq. apply attrs_loop_reason_inj in Heq as [-> ->]. done.
Qed.
