(* ===== verification/Health.v ===== *)
(** * Health (internal/selfobs/health.go) and the liveness threshold
      (cmd/genai-otel-bridge/main.go, livenessThreshold)

    The health endpoints judge a leader by the age of its last heartbeat.  The
    scheduler beats once per tick attempt and then waits what its pacing plan
    says, with jitter; the threshold is derived from the configuration.  Here
    the three meet: a leader whose ticks end in time is never reported dead,
    and one that stops ticking is. *)

From S2P Require Import Prelude Floats Model Config Runner Scheduler App.

(** ** health.go *)

Record Health := mkHealth { h_staleThreshold : Duration; h_lastBeat : Time; h_ready : bool; h_leader : bool }.

Definition NewHealth (staleThreshold : Duration) : Health := mkHealth staleThreshold zeroTime false false.

Definition Beat (now : Time) (h : Health) : Health := mkHealth (h_staleThreshold h) now (h_ready h) (h_leader h).
Definition MarkReady (h : Health) : Health := mkHealth (h_staleThreshold h) (h_lastBeat h) true (h_leader h).
Definition SetLeader (v : bool) (h : Health) : Health := mkHealth (h_staleThreshold h) (h_lastBeat h) (h_ready h) v.

Definition code (ok : bool) : Z := if ok then 200%Z else 503%Z.
Definition readyz (h : Health) : Z := code (h_ready h).
Definition healthz (now : Time) (h : Health) : Z :=
  code (negb (h_leader h) || (negb (IsZero (h_lastBeat h)) && (Sub now (h_lastBeat h) <=? h_staleThreshold h)%Z)).

(** ** main.go: livenessThreshold *)

Definition emitRetryBudget : Duration := (2 * Minute)%Z.
Definition livenessMargin : Duration := (4 * Minute)%Z.

Definition slowest (base : Duration) (l : list LoopConfig) : Duration :=
  foldl (fun base lp => if (base <? lc_Cadence lp)%Z then lc_Cadence lp else base) base l.

Definition livenessThreshold (cfg : Config) : Duration :=
  wrap64 (wrap64 (slowest DegradedBackoff (enabled_loops cfg) + emitRetryBudget) + livenessMargin).

(** ** The beats of a loop *)

(** What [rand.Float64] documents: a multiple of 2^-53 below one. *)
Definition rand_Float64 (k : Z) : spec_float := binary_normalize 53 1024 k (-53) false.

(** One turn of the tick loop: how long the tick took, the state it left, and
    the random number of the jitter. *)
Record Turn := mkTurn { tn_took : Duration; tn_degraded : bool; tn_more : bool; tn_rand : Z }.

Definition turn_wait (sp : LoopSpec) (burst : Z) (x : Turn) : Duration * Z :=
  let '(wait, burst, jit) := tickPlan (tn_degraded x) (tn_more x) burst (ls_MaxCatchupPerTick sp) (ls_Cadence sp) in
  (if jit then jitter wait jitterFrac (rand_Float64 (tn_rand x)) else wait, burst).

(** The instants at which [tickLoop] calls [runOnce], which beats first. *)
Fixpoint beat_times (sp : LoopSpec) (t : Time) (burst : Z) (xs : list Turn) : list Time :=
  match xs with
  | [] => [t]
  | x :: xs => let '(wait, burst) := turn_wait sp burst x in t :: beat_times sp (t + tn_took x + wait) burst xs
  end.

(** ** What reaches the health state, in time order *)

Inductive HealthEv := HBeat | HReady | HLeader (v : bool).

Definition health_step (h : Health) (e : Time * HealthEv) : Health :=
  match e.2 with HBeat => Beat e.1 h | HReady => MarkReady h | HLeader v => SetLeader v h end.

Definition health_at (threshold : Duration) (evs : list (Time * HealthEv)) (now : Time) : Health :=
  foldl health_step (NewHealth threshold) (filter (fun e => (e.1 <= now)%Z) evs).

(** ** Jitter *)

#[local] Open Scope Z_scope.

Lemma tenth_normal : normal (-56) (-56) jitterFrac /\ 10 * mag jitterFrac * 2 ^ 52 <= 2 ^ unit_exp * (2 ^ 52 + 1).
Proof. split; [unfold jitterFrac; cbn [normal]; lia|]. by apply Z.leb_le. Qed.

Lemma two_normal : normal (-51) (-51) (f64_of_Z 2) /\ nonneg (f64_of_Z 2) /\ mag (f64_of_Z 2) = 2 * 2 ^ unit_exp.
Proof.
  assert (f64_of_Z 2 = S754_finite false 4503599627370496 (-51)) as -> by reflexivity. split; [cbn [normal]; lia|]. by split.
Qed.

Lemma normal_mag lo hi x : normal lo hi x -> 0 <= mag x.
Proof. destruct x; cbn; lia. Qed.

(** A jittered wait is within a tenth of the cadence, and three nanoseconds. *)
Lemma jitter_bound d k :
  0 <= d <= 2 ^ 48 -> 0 <= k < 2 ^ 53 -> 10 * Z.abs (jitter d jitterFrac (rand_Float64 k) - d) <= d + 3.
Proof.
  intros Hd Hk. unfold jitter.
  destruct (normalize_normal d 0 ltac:(lia) ltac:(lia)) as [Hx Hwx]. fold (f64_of_Z d) in Hx, Hwx. unfold within_ulp in Hwx.
  destruct tenth_normal as [Hf Hwf]. destruct two_normal as (H2 & H2s & H2m).
  destruct (normalize_normal k (-53) ltac:(lia) ltac:(lia)) as [Hr Hwr]. fold (rand_Float64 k) in Hr, Hwr. unfold within_ulp in Hwr.
  assert (mag (rand_Float64 k) * 2 ^ 52 <= 2 ^ unit_exp * (2 ^ 52 + 1)) as Hwr'.
  { etrans; [exact Hwr|]. apply Z.mul_le_mono_nonneg_r; [lia|]. change (2 ^ unit_exp) with (2 ^ 53 * 2 ^ (-53 + unit_exp)).
    apply Z.mul_le_mono_nonneg_r; [by apply Z.pow_nonneg|lia]. }
  destruct (mul_normal _ _ _ _ _ _ Hx Hf ltac:(lia) ltac:(lia) ltac:(lia) ltac:(lia)) as [Ha Hwa].
  destruct (mul_normal _ _ _ _ _ _ Hr H2 ltac:(lia) ltac:(lia) ltac:(lia) ltac:(lia)) as [Ht Hwt]. rewrite H2m in Hwt.
  assert (nonneg (f64_mul (rand_Float64 k) (f64_of_Z 2))) as Hts by (apply mul_nonneg; [apply normalize_nonneg; lia|done]).
  set (a := f64_mul (f64_of_Z d) jitterFrac) in *. set (t := f64_mul (rand_Float64 k) (f64_of_Z 2)) in *.
  assert (0 < 2 ^ unit_exp) as HU by (by apply Z.pow_pos_nonneg).
  assert (mag t <= 3 * 2 ^ unit_exp) as Ht3.
  { apply (cancel_le _ _ (2 ^ 52)); [lia|]. pose proof (double_bound (2 ^ 52) _ _ _ ltac:(lia) HU Hwr' Hwt). lia. }
  destruct (sub_one _ _ _ Ht Hts ltac:(lia) Ht3) as [Hs Hws]. set (s := f64_sub t (f64_of_Z 1)) in *.
  destruct (mul_normal _ _ _ _ _ _ Ha Hs ltac:(lia) ltac:(lia) ltac:(lia) ltac:(lia)) as [Hp Hwp]. set (p := f64_mul a s) in *.
  assert (10 * mag p <= (d + 3) * 2 ^ unit_exp) as H10.
  { apply (tenth_bound (2 ^ 52) _ d (mag (f64_of_Z d)) (mag jitterFrac) (mag a) (mag (rand_Float64 k)) (mag t) (mag s)); try done;
      eauto using normal_mag; try lia. by rewrite Z.abs_eq in Hwx by lia. }
  assert ((d + 3) * 2 ^ unit_exp <= 2 ^ 49 * 2 ^ unit_exp) by (apply Z.mul_le_mono_nonneg_r; lia).
  pose proof (int64_mag _ _ _ Hp ltac:(unfold unit_exp; lia) ltac:(lia)) as Hi. set (i := int64_of_f64 p) in *.
  assert (10 * Z.abs i <= d + 3) as Hi10 by (apply (cancel_le _ _ (2 ^ unit_exp)); lia).
  rewrite wrap64_id by (unfold in_int64, minInt64, maxInt64; lia). replace (d + i - d) with i by lia. done.
Qed.

(** ** Beats come often enough *)

Definition slack : Duration := 6 * Minute.

(** A tick that ends in time: it leaves room for the jitter within the slack. *)
Definition in_time (cadence : Duration) (x : Turn) : Prop :=
  0 <= tn_took x /\ 10 * tn_took x + cadence + 3 <= 10 * slack /\ 0 <= tn_rand x < 2 ^ 53.

Lemma turn_bound sp burst x :
  0 <= ls_Cadence sp <= 2 ^ 48 -> in_time (ls_Cadence sp) x ->
  0 <= (turn_wait sp burst x).1 /\ tn_took x + (turn_wait sp burst x).1 <= Z.max DegradedBackoff (ls_Cadence sp) + slack.
Proof.
  intros Hc (Ht & Hs & Hr). unfold slack in *. unfold turn_wait, tickPlan. destruct (tn_degraded x); cbn [fst]; [unfold DegradedBackoff, Minute, Second in *; lia|].
  destruct (tn_more x && _); cbn [fst]; [unfold catchupInterval, DegradedBackoff, Minute, Second in *; lia|].
  pose proof (jitter_bound (ls_Cadence sp) (tn_rand x) Hc Hr). lia.
Qed.

Lemma beats_dense sp G xs : forall t burst,
  0 <= ls_Cadence sp <= 2 ^ 48 -> Forall (in_time (ls_Cadence sp)) xs -> Z.max DegradedBackoff (ls_Cadence sp) + slack <= G ->
  (forall b, b ∈ beat_times sp t burst xs -> t <= b) /\
  forall now, t <= now <= default t (last (beat_times sp t burst xs)) + G -> exists b, b ∈ beat_times sp t burst xs /\ b <= now <= b + G.
Proof.
  induction xs as [|x xs IH]; intros t burst Hc Hin HG; cbn [beat_times].
  { split; [intros b ->%list_elem_of_singleton; done|]. intros now Hn. exists t. split; [left|]. by cbn in Hn. }
  inversion Hin as [|? ? Hx Hxs]; subst. destruct (turn_bound sp burst x Hc Hx) as [Hw Hg].
  destruct (turn_wait sp burst x) as [w b'] eqn:E. cbn [fst] in *. destruct (IH (t + tn_took x + w) b' Hc Hxs HG) as [Hlo Hnow].
  destruct Hx as (Htook & _). split.
  - intros b [->|Hb]%elem_of_cons; [done|]. specialize (Hlo b Hb). lia.
  - intros now Hn. destruct (Z.lt_ge_cases now (t + tn_took x + w)) as [Hlt|Hge].
    + exists t. split; [left|lia].
    + destruct (Hnow now) as (b & Hb & Hbn); [|exists b; split; [by right|done]]. split; [done|]. destruct Hn as [_ Hn].
      rewrite last_cons in Hn. destruct (last (beat_times sp (t + tn_took x + w) b' xs)) as [z|] eqn:El; [done|].
      apply last_None in El. by destruct xs; cbn in El; [|destruct (turn_wait sp b' t0)].
Qed.

(** ** The state the events leave *)

Definition time_le (e e' : Time * HealthEv) : Prop := e.1 <= e'.1.

Lemma health_fold h l now :
  StronglySorted time_le l -> (forall e, e ∈ l -> h_lastBeat h <= e.1 <= now) -> h_lastBeat h <= now ->
  let h' := foldl health_step h l in
  h_staleThreshold h' = h_staleThreshold h /\ h_lastBeat h <= h_lastBeat h' <= now /\
  (h_lastBeat h' = h_lastBeat h \/ (h_lastBeat h', HBeat) ∈ l) /\ forall b, (b, HBeat) ∈ l -> b <= h_lastBeat h'.
Proof.
  intros Hs. revert h. induction Hs as [|[t e] l Hs IH Hall]; intros h Hb Hn; cbn [foldl].
  { split_and!; [done|lia|lia|by left|]. by intros b ?%elem_of_nil. }
  rewrite Forall_forall in Hall. pose proof (Hb (t, e) ltac:(left)) as Ht. cbn in Ht.
  assert (h_lastBeat (health_step h (t, e)) = (match e with HBeat => t | _ => h_lastBeat h end) /\
          h_staleThreshold (health_step h (t, e)) = h_staleThreshold h) as [Hlb Hth] by (by destruct e).
  destruct (IH (health_step h (t, e))) as (H1 & H2 & H3 & H4).
  { intros e' He'. specialize (Hall e' He'). unfold time_le in Hall. specialize (Hb e' ltac:(by right)). rewrite Hlb. destruct e; cbn in *; lia. }
  { rewrite Hlb. destruct e; lia. }
  rewrite Hth in H1. rewrite Hlb in H2, H3. split_and!; [done|destruct e; lia|destruct e; lia| |].
  - destruct H3 as [->|H3]; [|by right; right]. destruct e; [right; left|by left..].
  - intros b [[= -> <-]|Hb']%elem_of_cons; [lia|auto].
Qed.

Lemma sorted_filter {A} (R : A -> A -> Prop) (P : A -> Prop) `{!forall x, Decision (P x)} (l : list A) :
  StronglySorted R l -> StronglySorted R (filter P l).
Proof.
  induction 1 as [|x l Hs IH Hall]; [constructor|]. rewrite filter_cons. case_decide; [|done]. constructor; [done|].
  rewrite Forall_forall in *. intros y Hy. apply Hall. by apply list_elem_of_filter in Hy as [_ ?].
Qed.

Lemma health_at_spec T evs now :
  StronglySorted time_le evs -> (forall e, e ∈ evs -> 0 < e.1) -> 0 <= now ->
  let h := health_at T evs now in
  h_staleThreshold h = T /\ 0 <= h_lastBeat h <= now /\ (h_lastBeat h = 0 \/ (h_lastBeat h, HBeat) ∈ evs) /\
  forall b, (b, HBeat) ∈ evs -> b <= now -> b <= h_lastBeat h.
Proof.
  intros Hs Hpos Hnow h. destruct (health_fold (NewHealth T) (filter (fun e => e.1 <= now) evs) now) as (H1 & H2 & H3 & H4).
  - by apply sorted_filter.
  - intros e [He Hin]%list_elem_of_filter. specialize (Hpos e Hin). cbn in *. unfold zeroTime. lia.
  - cbn. unfold zeroTime. lia.
  - fold (health_at T evs now) in H1, H2, H3, H4. split_and!; [done|by apply H2..| |].
    + destruct H3 as [H3|H3]; [by left|right]. by apply list_elem_of_filter in H3 as [_ ?].
    + intros b Hin Hb. apply H4, list_elem_of_filter. done.
Qed.

Lemma slowest_spec base l :
  base <= slowest base l /\ (forall lp, lp ∈ l -> lc_Cadence lp <= slowest base l) /\
  (slowest base l = base \/ exists lp, lp ∈ l /\ slowest base l = lc_Cadence lp).
Proof.
  revert base. induction l as [|lp l IH]; intros base; [split_and!; [done|by intros lp ?%elem_of_nil|by left]|].
  unfold slowest. cbn [foldl]. fold (slowest (if base <? lc_Cadence lp then lc_Cadence lp else base) l).
  destruct (IH (if base <? lc_Cadence lp then lc_Cadence lp else base)) as (H1 & H2 & H3).
  assert (base <= (if base <? lc_Cadence lp then lc_Cadence lp else base) /\ lc_Cadence lp <= (if base <? lc_Cadence lp then lc_Cadence lp else base)) as [Hb Hl] by (zbool; lia).
  split_and!; [lia| |].
  - intros lp' [->|Hin]%elem_of_cons; [lia|by apply H2].
  - destruct H3 as [H3|(lp' & Hin & H3)]; [|right; exists lp'; split; [by right|done]].
    rewrite H3. destruct (base <? lc_Cadence lp); [right; exists lp; split; [left|done]|by left].
Qed.

Lemma livenessThreshold_eq cfg :
  (forall lp, lp ∈ enabled_loops cfg -> lc_Cadence lp <= 2 ^ 62) -> livenessThreshold cfg = slowest DegradedBackoff (enabled_loops cfg) + slack.
Proof.
  intros Hb. destruct (slowest_spec DegradedBackoff (enabled_loops cfg)) as (H1 & _ & H3).
  assert (slowest DegradedBackoff (enabled_loops cfg) <= 2 ^ 62) as Hle.
  { destruct H3 as [->|(lp & Hin & ->)]; [unfold DegradedBackoff, Minute, Second; lia|by apply Hb]. }
  unfold livenessThreshold, slack, emitRetryBudget, livenessMargin. unfold DegradedBackoff, Minute, Second, Millisecond in *.
  rewrite (wrap64_id (slowest _ _ + _)), wrap64_id; [lia|unfold in_int64, minInt64, maxInt64; lia..].
Qed.

(** C27: the liveness probe tells a slow leader from a wedged one.  Take any
    enabled loop of the configuration and the instants at which its tick loop
    beats, whatever states it goes through and whatever the jitter draws, as
    long as each tick ends within the slack the jitter leaves.  From the first
    beat until the threshold after the last one, every probe of the process
    answers 200.  A leader that has not beaten for longer than the slowest
    enabled cadence (or the degraded backoff) plus six minutes answers 503; a
    standby always answers 200. *)
Theorem liveness_probe cfg lp sp t0 turns evs now :
  lp ∈ enabled_loops cfg -> ls_Cadence sp = lc_Cadence lp -> 0 <= lc_Cadence lp <= 2 ^ 48 ->
  (forall lp', lp' ∈ enabled_loops cfg -> lc_Cadence lp' <= 2 ^ 62) -> Forall (in_time (lc_Cadence lp)) turns ->
  StronglySorted time_le evs -> (forall e, e ∈ evs -> 0 < e.1) ->
  (forall b, b ∈ beat_times sp t0 0 turns -> (b, HBeat) ∈ evs) ->
  let T := livenessThreshold cfg in
  let h := health_at T evs now in
  (t0 <= now <= default t0 (last (beat_times sp t0 0 turns)) + T -> healthz now h = 200) /\
  (forall b, h_leader h = true -> 0 <= now -> (forall b', (b', HBeat) ∈ evs -> b' <= now -> b' <= b) ->
     Z.max 0 b + slowest DegradedBackoff (enabled_loops cfg) + slack < now -> healthz now h = 503) /\
  (h_leader h = false -> healthz now h = 200).
Proof.
  intros Hlp Hsp Hc Hall Hturns Hsort Hpos Hbeats T h. pose proof (livenessThreshold_eq cfg Hall) as HT. fold T in HT.
  destruct (slowest_spec DegradedBackoff (enabled_loops cfg)) as (Hs1 & Hs2 & _). specialize (Hs2 lp Hlp).
  rewrite <-Hsp in Hturns, Hc, Hs2. unfold healthz. split_and!.
  - intros Hnow. destruct (beats_dense sp T turns t0 0 Hc Hturns ltac:(lia)) as [_ Hd]. destruct (Hd now Hnow) as (b & Hb & Hbn).
    pose proof (Hpos _ (Hbeats b Hb)) as Hb0. cbn in Hb0. destruct (health_at_spec T evs now Hsort Hpos ltac:(lia)) as (Hst & Hlb & _ & Hlast).
    fold h in Hst, Hlb, Hlast. specialize (Hlast b (Hbeats b Hb) ltac:(lia)). rewrite Hst. unfold IsZero, Sub, minInt64, maxInt64.
    destruct (h_leader h); cbn [negb orb]; [|done]. zbool; try lia; done.
  - intros b Hl Hn Hold Hlt. destruct (health_at_spec T evs now Hsort Hpos Hn) as (Hst & Hlb & Hsrc & _). fold h in Hst, Hlb, Hsrc.
    rewrite Hst, Hl. cbn [negb orb]. assert (h_lastBeat h <= Z.max 0 b) by (destruct Hsrc as [->|Hin]; [lia|]; specialize (Hold _ Hin ltac:(lia)); lia).
    unfold IsZero, Sub, minInt64, maxInt64 in *. assert (T <= 2 ^ 62 + slack) as HTb.
    { destruct (slowest_spec DegradedBackoff (enabled_loops cfg)) as (_ & _ & [Hs|(lp' & Hin & Hs)]); rewrite HT, Hs; [unfold DegradedBackoff, Minute; lia|].
      specialize (Hall lp' Hin). lia. }
    unfold slack, Minute in *. zbool; try lia; done.
  - intros ->. done.
Qed.

(** ** Concrete schedules *)

Module HealthDemo.
Definition loop (cadence : Duration) : LoopConfig := mkLoopConfig true cadence 0 0 0 0 "" [] ∅.
Definition config (cadence : Duration) : Config :=
  ConfigDemo.with_sources "lease" "configmap" ConfigDemo.gateway [plain_source "langsmith" "https://h" "ls" {[ "sessions" := loop cadence ]} [] "k" "v"].
Definition spec (cadence : Duration) : LoopSpec := mkSpec cadence 0 0 1.
Definition t0 : Time := 1000 * Hour.
(** A quick tick, a slow one that leaves the loop degraded, a quick one. *)
Definition turns : list Turn := [mkTurn Second false false 0; mkTurn (4 * Minute) true false 0; mkTurn Second false true (2 ^ 53 - 1)].
Definition beats (cadence : Duration) (turns : list Turn) : list (Time * HealthEv) :=
  (t0, HReady) :: (t0, HLeader true) :: map (fun b => (b, HBeat)) (beat_times (spec cadence) t0 0 turns).

Lemma config_loops c lp : lp ∈ enabled_loops (config c) <-> lp = loop c.
Proof.
  assert (enabled_loops (config c) = [loop c]) as -> by reflexivity. apply list_elem_of_singleton.
Qed.
Lemma turns_in_time : Forall (in_time Minute) turns.
Proof. unfold turns, in_time, slack, Minute, Second. rewrite !Forall_cons. cbn. split_and!; try lia. by apply Forall_nil. Qed.
Lemma beats_sorted : StronglySorted time_le (beats Minute turns).
Proof. vm_compute. repeat constructor; vm_compute; discriminate. Qed.
Lemma beats_pos e : e ∈ beats Minute turns -> 0 < e.1.
Proof.
  assert (Forall (fun e => 0 < e.1) (beats Minute turns)) as Hf by (vm_compute; repeat constructor). rewrite Forall_forall in Hf. apply Hf.
Qed.
End HealthDemo.

Lemma liveness_probe_witness :
  healthz (HealthDemo.t0 + 10 * Minute) (health_at (livenessThreshold (HealthDemo.config Minute)) (HealthDemo.beats Minute HealthDemo.turns) (HealthDemo.t0 + 10 * Minute)) = 200.
Proof.
  refine (proj1 (liveness_probe (HealthDemo.config Minute) (HealthDemo.loop Minute) (HealthDemo.spec Minute) HealthDemo.t0 HealthDemo.turns
    (HealthDemo.beats Minute HealthDemo.turns) (HealthDemo.t0 + 10 * Minute) _ _ _ _ _ _ _ _) _).
  - apply HealthDemo.config_loops. reflexivity.
  - reflexivity.
  - vm_compute. split; discriminate.
  - intros lp' ->%HealthDemo.config_loops. vm_compute. discriminate.
  - exact HealthDemo.turns_in_time.
  - exact HealthDemo.beats_sorted.
  - exact HealthDemo.beats_pos.
  - intros b Hb. right. right. apply list_elem_of_fmap. exists b. split; [reflexivity|exact Hb].
  - vm_compute. split; discriminate.
Defined.

(** The slack does not grow with the cadence, the jitter does: a leader whose
    only loop runs every two hours is reported dead between two ticks that are
    on schedule. *)
Example slow_cadence_killed :
  let evs := HealthDemo.beats (2 * Hour) [mkTurn Second false false (2 ^ 53 - 1)] in
  let T := livenessThreshold (HealthDemo.config (2 * Hour)) in
  let now := (HealthDemo.t0 + 2 * Hour + 7 * Minute)%Z in
  T = 2 * Hour + 6 * Minute /\ healthz now (health_at T evs now) = 503 /\
  healthz (now + 6 * Minute) (health_at T evs (now + 6 * Minute)) = 200.
Proof. vm_compute. repeat split. Qed.
