(* ===== verification/Probe.v ===== *)
(** * The ECS helpers (cmd/genai-otel-bridge/ecs.go)

    The container health check, which probes the process's own listener, and
    the replica identity read from the task-metadata endpoint.  The HTTP client
    and the JSON decoder are parameters; [net.SplitHostPort] and
    [net.JoinHostPort] are modelled byte for byte. *)

From S2P Require Import Prelude Model Health.

(** ** net *)

Definition is_byte (c : Ascii.ascii) (a : Ascii.ascii) : bool := Ascii.eqb a c.
Definition has_byte (c : Ascii.ascii) (s : string) : bool := negb (string_forallb (fun a => negb (is_byte c a)) s).

(** [bytealg.IndexByteString] and [bytealg.LastIndexByteString]. *)
Fixpoint IndexByte (s : string) (c : Ascii.ascii) : option nat :=
  match s with
  | EmptyString => None
  | String a s => if is_byte c a then Some 0 else S <$> IndexByte s c
  end.
Fixpoint LastIndexByte (s : string) (c : Ascii.ascii) : option nat :=
  match s with
  | EmptyString => None
  | String a s => match LastIndexByte s c with Some i => Some (S i) | None => if is_byte c a then Some 0 else None end
  end.

Definition lbracket : Ascii.ascii := "["%char.
Definition rbracket : Ascii.ascii := "]"%char.
Definition colon : Ascii.ascii := ":"%char.

(** [net.SplitHostPort]; [None] for every address error. *)
Definition SplitHostPort (hostport : string) : option (string * string) :=
  i ← LastIndexByte hostport colon;
  '(host, j, k) ←
    (match hostport with
     | String c _ =>
         if is_byte lbracket c then
           en ← IndexByte hostport rbracket;
           if decide (S en = slen hostport) then None
           else if decide (S en = i) then Some (string_take (en - 1) (string_drop 1 hostport), 1, S en) else None
         else
           let host := string_take i hostport in
           if has_byte colon host then None else Some (host, 0, 0)
     | EmptyString => None
     end);
  if has_byte lbracket (string_drop j hostport) then None
  else if has_byte rbracket (string_drop k hostport) then None
  else Some (host, string_drop (S i) hostport).

Definition JoinHostPort (host port : string) : string :=
  if has_byte colon host then "[" +:+ host +:+ "]:" +:+ port else host +:+ ":" +:+ port.

Definition TrimRight_slash (s : string) : string := rev_string (trim_left (is_byte "/"%char) (rev_string s)).

(** ** The health check *)

Definition localHealthURL (healthAddr : string) : string :=
  match SplitHostPort healthAddr with
  | None => "http://127.0.0.1:" +:+ healthAddr
  | Some (host, port) =>
      let host := if bool_decide (host = "") || bool_decide (host = "0.0.0.0") || bool_decide (host = "::") then "127.0.0.1" else host in
      "http://" +:+ JoinHostPort host port
  end.

(** [Get] is the client: the status of the answer, [None] for an error. *)
Definition healthCheckCode (Get : string -> option Z) (base : string) : Z :=
  match Get (TrimRight_slash base +:+ "/healthz") with
  | None => 1
  | Some status => if (status =? 200)%Z then 0 else 1
  end.

(** ** The replica identity *)

Inductive EcsWarn := WRequest | WBody | WParse | WEmptyArn.

(** [Get] answers with the body's bytes as far as they can be read, and whether
    reading fails; [TaskARN] decodes that field, empty when it is absent. *)
Definition resolveECSIdentity (Get : string -> option (string * bool)) (TaskARN : string -> option string) (metadataURI : string) : string * list EcsWarn :=
  if decide (metadataURI = "") then ("", [])
  else match Get (TrimRight_slash metadataURI +:+ "/task") with
       | None => ("", [WRequest])
       | Some (_, true) => ("", [WBody])
       | Some (body, false) =>
           match TaskARN (LimitReader (2 ^ 16) body) with
           | None => ("", [WParse])
           | Some arn => (arn, if decide (arn = "") then [WEmptyArn] else [])
           end
       end.

(** An empty identity on ECS never goes unreported. *)
Lemma resolveECSIdentity_warns Get TaskARN uri :
  uri <> "" -> (resolveECSIdentity Get TaskARN uri).1 = "" <-> (resolveECSIdentity Get TaskARN uri).2 <> [].
Proof.
  intros Hne. unfold resolveECSIdentity. rewrite decide_False by done.
  destruct (Get _) as [[body []]|]; [done| |done]. destruct (TaskARN _) as [arn|]; [|done]. cbn. case_decide; naive_solver.
Qed.

(** ** Splitting what was joined *)

Definition plain (s : string) : bool := negb (has_byte lbracket s) && negb (has_byte rbracket s).

Lemma has_byte_app c s t : has_byte c (s +:+ t) = has_byte c s || has_byte c t.
Proof. unfold has_byte. by rewrite string_forallb_app, negb_andb. Qed.

Lemma has_byte_cons c a s : has_byte c (String a s) = is_byte c a || has_byte c s.
Proof. unfold has_byte. cbn [string_forallb]. by rewrite negb_andb, negb_involutive. Qed.

Lemma LastIndexByte_none c s : has_byte c s = false -> LastIndexByte s c = None.
Proof.
  induction s as [|a s IH]; [done|]. rewrite has_byte_cons, orb_false_iff. intros [Ha Hs]. cbn. by rewrite (IH Hs), Ha.
Qed.

Lemma LastIndexByte_last c s t : has_byte c t = false -> LastIndexByte (s +:+ String c t) c = Some (slen s).
Proof.
  intros Ht. induction s as [|a s IH].
  - rewrite string_app_empty. cbn. rewrite (LastIndexByte_none c t Ht). unfold is_byte. by rewrite Ascii.eqb_refl.
  - rewrite string_app_cons. cbn. by rewrite IH.
Qed.

Lemma IndexByte_first c s t : has_byte c s = false -> IndexByte (s +:+ String c t) c = Some (slen s).
Proof.
  induction s as [|a s IH]; intros Hs.
  - rewrite string_app_empty. cbn. unfold is_byte. by rewrite Ascii.eqb_refl.
  - rewrite has_byte_cons, orb_false_iff in Hs. destruct Hs as [Ha Hs]. rewrite string_app_cons. cbn. by rewrite Ha, (IH Hs).
Qed.

Lemma drop_after (s t : string) c : string_drop (S (slen s)) (s +:+ String c t) = t.
Proof. induction s as [|a s IH]; [done|]. rewrite string_app_cons. exact IH. Qed.

Lemma Split_unbracketed host port :
  plain host = true -> plain port = true -> has_byte colon host = false -> has_byte colon port = false ->
  SplitHostPort (host +:+ String colon port) = Some (host, port).
Proof.
  unfold plain, SplitHostPort. rewrite !andb_true_iff, !negb_true_iff. intros [Hhl Hhr] [Hpl Hpr] Hhc Hpc.
  rewrite (LastIndexByte_last colon _ _ Hpc). cbn [mbind option_bind].
  assert (match host +:+ String colon port with
          | "" => None
          | String c _ => if is_byte lbracket c then None else Some (string_take (slen host) (host +:+ String colon port), 0, 0)
          end = Some (host, 0, 0)) as Hc.
  { rewrite string_take_app. destruct host as [|a host]; [done|]. rewrite has_byte_cons, orb_false_iff in Hhl. destruct Hhl as [Ha _].
    rewrite string_app_cons. by rewrite Ha. }
  destruct (host +:+ String colon port) as [|c s] eqn:E; [done|]. destruct (is_byte lbracket c); [done|].
  injection Hc as ->. rewrite Hhc. cbn [mbind option_bind string_drop]. rewrite <-E, !has_byte_app, !has_byte_cons, Hhl, Hhr, Hpl, Hpr.
  cbn [orb is_byte]. change (string_drop (S (slen host)) (host +:+ String colon port)) with (string_drop (S (slen host)) (host +:+ String colon port)).
  replace (string_drop (slen host) s) with port; [done|].
  pose proof (drop_after host port colon) as Hd. rewrite E in Hd. by rewrite <-Hd.
Qed.

Lemma Split_bracketed host port :
  plain host = true -> plain port = true -> has_byte colon port = false ->
  SplitHostPort (String lbracket (host +:+ String rbracket (String colon port))) = Some (host, port).
Proof.
  unfold plain, SplitHostPort. rewrite !andb_true_iff, !negb_true_iff. intros [Hhl Hhr] [Hpl Hpr] Hpc.
  set (hp := String lbracket _).
  assert (hp = (String lbracket (host +:+ String rbracket "")) +:+ String colon port) as Ehp
    by (unfold hp; by rewrite string_app_cons, string_app_assoc).
  assert (IndexByte hp rbracket = Some (S (slen host))) as Hen by (unfold hp; cbn; by rewrite (IndexByte_first rbracket host _ Hhr)).
  assert (slen (String lbracket (host +:+ String rbracket "")) = S (S (slen host))) as Hlen by (cbn; rewrite string_app_length; cbn; lia).
  rewrite Ehp at 1. rewrite (LastIndexByte_last colon _ _ Hpc), Hlen, Hen. cbn [mbind option_bind].
  replace (slen hp) with (S (S (S (slen host + slen port)))) by (unfold hp; cbn; rewrite string_app_length; cbn; lia).
  unfold hp at 1. replace (is_byte lbracket lbracket) with true by done. cbn [mbind option_bind].
  rewrite decide_False by lia. rewrite decide_True by done. cbn [mbind option_bind].
  pose proof (drop_after (String lbracket (host +:+ String rbracket "")) port colon) as Hd. rewrite <-Ehp, Hlen in Hd. rewrite Hd.
  pose proof (string_drop_app (String lbracket (host +:+ String rbracket "")) (String colon port)) as Hd2. rewrite <-Ehp, Hlen in Hd2. rewrite Hd2.
  unfold hp. cbn [string_drop]. rewrite has_byte_app, !has_byte_cons, Hhl, Hpl, Hpr. cbn [Nat.sub]. rewrite Nat.sub_0_r, string_take_app. done.
Qed.

Lemma Split_Join host port :
  plain host = true -> plain port = true -> has_byte colon port = false -> SplitHostPort (JoinHostPort host port) = Some (host, port).
Proof.
  intros Hh Hp Hc. unfold JoinHostPort. destruct (has_byte colon host) eqn:Hhc; [by apply Split_bracketed|by apply Split_unbracketed].
Qed.

Lemma TrimRight_keeps (s t : string) c : has_byte "/"%char (String c t) = false -> TrimRight_slash (s +:+ String c t) = s +:+ String c t.
Proof.
  intros Hs. unfold TrimRight_slash. cut (trim_left (is_byte "/"%char) (rev_string (s +:+ String c t)) = rev_string (s +:+ String c t));
    [intros ->; apply rev_string_involutive|].
  assert (exists d r, rev_string (s +:+ String c t) = String d r /\ is_byte "/"%char d = false) as (d & r & -> & Hd); [|cbn; by rewrite Hd].
  revert s c Hs. induction t as [|c' t IH]; intros s c Hs; rewrite has_byte_cons, orb_false_iff in Hs; destruct Hs as [Hc Hs].
  - exists c, (rev_string s). split; [|done]. by rewrite rev_string_app.
  - destruct (IH (s +:+ String c "") c' Hs) as (d & r & Hr & Hd). exists d, r. split; [|done]. by rewrite <-Hr, string_app_assoc.
Qed.

(** ** What the health check reports *)

(** Where a listen address is reached from inside the container. *)
Definition dial_host (host : string) : string := if bool_decide (host ∈ [""; "0.0.0.0"; "::"]) then "127.0.0.1" else host.

(** The listen addresses of one host and port: joined, or a bare port. *)
Definition listens_on (addr host port : string) : Prop := addr = JoinHostPort host port \/ addr = port /\ host = "".

Lemma localHealthURL_spec addr host port :
  plain host = true -> plain port = true -> has_byte colon port = false -> listens_on addr host port ->
  localHealthURL addr = "http://" +:+ JoinHostPort (dial_host host) port.
Proof.
  intros Hh Hp Hc Hl. unfold localHealthURL, dial_host. destruct Hl as [->|[-> ->]].
  - rewrite (Split_Join host port Hh Hp Hc). do 2 f_equal.
    destruct (decide (host = "")) as [->|]; [done|]. destruct (decide (host = "0.0.0.0")) as [->|]; [done|].
    destruct (decide (host = "::")) as [->|]; [done|]. rewrite !bool_decide_false by (done || set_solver). done.
  - unfold SplitHostPort. by rewrite (LastIndexByte_none colon port Hc).
Qed.

Lemma Join_tail host port : exists pre, JoinHostPort host port = pre +:+ String colon port.
Proof.
  unfold JoinHostPort. destruct (has_byte colon host); [|by exists host].
  exists ("[" +:+ host +:+ "]"). by rewrite !string_app_assoc.
Qed.

(** The container's health check asks the process itself: for every way to
    write a listen address (a host, an IPv6 literal in brackets, an unspecified
    address, a bare port) the probe goes to that port on the listening host,
    on loopback when the address binds every interface, and it exits 0 exactly
    when the process there is a standby or a leader whose scheduler beat within
    the threshold. *)
Theorem probe_reports Get addr host port now h :
  plain host = true -> plain port = true -> has_byte colon port = false -> has_byte "/"%char port = false -> listens_on addr host port ->
  Get ("http://" +:+ JoinHostPort (dial_host host) port +:+ "/healthz") = Some (healthz now h) ->
  let code := healthCheckCode Get (localHealthURL addr) in
  (code = 0%Z <-> (h_leader h = true -> h_lastBeat h <> zeroTime /\ (Sub now (h_lastBeat h) <= h_staleThreshold h)%Z)) /\
  (code = 0 \/ code = 1)%Z.
Proof.
  intros Hh Hp Hc Hs Hl Hget. rewrite (localHealthURL_spec _ _ _ Hh Hp Hc Hl). unfold healthCheckCode. cbv zeta.
  destruct (Join_tail (dial_host host) port) as [pre Hpre]. rewrite Hpre in Hget |- *. rewrite <-string_app_assoc, TrimRight_keeps, !string_app_assoc.
  2: { by rewrite has_byte_cons, Hs. }
  rewrite string_app_assoc in Hget. rewrite Hget. unfold healthz, code, IsZero, zeroTime.
  destruct (h_leader h); cbn [negb orb]; [|split; [naive_solver|by left]].
  destruct (Z.eqb_spec (h_lastBeat h) 0); cbn [negb andb]; [split; [naive_solver|by right]|].
  destruct (Z.leb_spec (Sub now (h_lastBeat h)) (h_staleThreshold h)); cbn; (split; [|auto]); split; try done; intros; lia.
Qed.

Module ProbeDemo.
Definition server (h : Health) (url : string) : option Z := if decide (url = "http://127.0.0.1:8080/healthz") then Some (healthz (5 * Minute) h) else None.
Definition wedged : Health := mkHealth (2 * Minute) Minute true true.
End ProbeDemo.

Lemma probe_reports_witness :
  healthCheckCode (ProbeDemo.server ProbeDemo.wedged) (localHealthURL "[::]:8080") <> 0%Z /\
  healthCheckCode (ProbeDemo.server (SetLeader false ProbeDemo.wedged)) (localHealthURL "8080") = 0%Z.
Proof.
  split.
  - destruct (probe_reports (ProbeDemo.server ProbeDemo.wedged) "[::]:8080" "::" "8080" (5 * Minute) ProbeDemo.wedged
      eq_refl eq_refl eq_refl eq_refl (or_introl eq_refl) eq_refl) as [Hi _]. intros H0. destruct (proj1 Hi H0 eq_refl) as [_ Hc]. vm_compute in Hc. by apply Hc.
  - apply (probe_reports (ProbeDemo.server (SetLeader false ProbeDemo.wedged)) "8080" "" "8080" (5 * Minute) (SetLeader false ProbeDemo.wedged)
      eq_refl eq_refl eq_refl eq_refl (or_intror (conj eq_refl eq_refl)) eq_refl). discriminate.
Defined.
