(* ===== verification/Preflight.v ===== *)
(** * The configuration check (internal/app/validate.go)

    [-validate-config] loads and validates a file the way the process does,
    without its secrets: unset [${VAR}] references get placeholders first.  The
    environment is a map, which [os.Setenv] updates; the YAML library and the
    file system are the parameters of [Load]. *)

From S2P Require Import Prelude Model Config ConfigSecrets Checkpoint Coordinate Source App AppGuard.

(** ** The environment *)

Abbreviation Env := (gmap string string).
Definition os_Getenv (env : Env) (n : string) : string := default "" (env !! n).
Definition os_Setenv (n v : string) (env : Env) : Env := <[n := v]> env.

(** ** The scan for keys

    [urlKey]: at the start of a line, blanks (line ends included), an optional
    dash, a word, a colon, an optional quote and a reference.  Each step reads
    a class of bytes the next one cannot start with, so the leftmost match
    needs no backtracking. *)

Definition is_space (a : Ascii.ascii) : bool := byte_in a 9 10 || byte_in a 12 13 || Ascii.eqb a " "%char.
Definition is_word (a : Ascii.ascii) : bool := byte_in a 65 90 || byte_in a 97 122 || byte_in a 48 57 || Ascii.eqb a "_"%char.

Definition skip_space (s : string) : string := (span is_space s).2.
Definition expect (c : Ascii.ascii) (s : string) : option string := match s with String a s' => if Ascii.eqb a c then Some s' else None | "" => None end.
Definition optional (c : Ascii.ascii) (s : string) : string := default s (expect c s).

(** A match at the start of [s]: the key, the variable and what follows. *)
Definition url_key_at (s : string) : option (string * string * string) :=
  let s := skip_space s in
  let s := match expect "-"%char s with Some s => skip_space s | None => s end in
  let '(key, s) := span is_word s in
  if decide (key = "") then None
  else
    s ← expect ":"%char (skip_space s);
    '(name, rest) ← env_ref (optional (Ascii.ascii_of_nat 34) (skip_space s));
    Some (key, name, rest).

(** [FindAllStringSubmatch]; [bol] says that [s] starts a line. *)
Fixpoint url_matches (fuel : nat) (bol : bool) (s : string) : list (string * string) :=
  match fuel, s with
  | 0, _ | _, EmptyString => []
  | S fuel, String a s' =>
      match (if bol then url_key_at s else None) with
      | Some (key, name, rest) => (key, name) :: url_matches fuel false rest
      | None => url_matches fuel (Ascii.eqb a (Ascii.ascii_of_nat 10)) s'
      end
  end.

Definition is_url_key (key : string) : bool := bool_decide (string_map lower_byte key ∈ ["endpoint"; "url"; "base_url"]).

Definition urlVars (raw : string) : list string := (filter (fun m => is_url_key m.1 = true) (url_matches (slen raw) true raw)).*2.

(** ** Placeholders *)

Definition looks_like_url (name : string) : bool := contains name "ENDPOINT" || contains name "URL" || contains name "GATEWAY".

Definition placeholder_for (vars : list string) (name : string) : string :=
  if bool_decide (name ∈ vars) || looks_like_url name then "https://placeholder.example" else "x".

Definition fill_step (vars : list string) (env : Env) (name : string) : Env :=
  if decide (os_Getenv env name = "") then os_Setenv name (placeholder_for vars name) env else env.

(** [validateEnvRefRe] is the expression the loader uses. *)
Definition filled (raw : string) (env : Env) : Env := foldl (fill_step (urlVars raw)) env (piece_names (env_pieces raw)).

(** ** The scan misses no line *)

Fixpoint ends_line (p : string) : bool :=
  match p with
  | EmptyString => false
  | String a p' => match p' with EmptyString => Ascii.eqb a newline | _ => ends_line p' end
  end.

Lemma ends_line_tail a p : ends_line (String a p) = true -> Ascii.eqb a newline = false -> ends_line p = true.
Proof. cbn. destruct p; [congruence|done]. Qed.

Lemma ends_line_nonempty p : ends_line p = true -> exists a p', p = String a p'.
Proof. destruct p; [done|eauto]. Qed.

Lemma span_line f p (L : string) :
  ends_line p = true ->
  (f newline = true /\ span f (p +:+ L) = (p +:+ (span f L).1, (span f L).2)) \/
  (exists x p', ends_line p' = true /\ span f (p +:+ L) = (x, p' +:+ L) /\ match p' with String a _ => f a = false | "" => False end).
Proof.
  induction p as [|a p IH]; intros He; [done|]. rewrite string_app_cons. cbn [span]. destruct (f a) eqn:Ha.
  - destruct p as [|b p].
    { cbn in He. apply Ascii.eqb_eq in He as ->. left. split; [done|]. rewrite !string_app_empty. by destruct (span f L). }
    destruct (IH He) as [[Hn ->]|(x & p' & Hp' & -> & Hh)].
    + left. split; [done|]. by rewrite !string_app_cons.
    + right. by exists (String a x), p'.
  - right. exists "", (String a p). by rewrite string_app_cons.
Qed.

(** What a match can start with: a dash or a word. *)
Definition key_start (s : string) : Prop := match s with String a _ => a = "-"%char \/ is_word a = true | "" => False end.

Lemma span_word_start s : (span is_word s).1 <> "" -> match s with String a _ => is_word a = true | "" => False end.
Proof. destruct s as [|a s]; cbn; [done|]. by destruct (is_word a). Qed.

Lemma url_key_at_start s m : url_key_at s = Some m -> key_start (skip_space s).
Proof.
  unfold url_key_at. destruct (expect "-"%char (skip_space s)) as [t|] eqn:He.
  - intros _. unfold expect in He. destruct (skip_space s) as [|a r]; [done|]. cbn. destruct (Ascii.eqb_spec a "-"%char); [by left|done].
  - pose proof (span_word_start (skip_space s)) as Hw. destruct (span is_word (skip_space s)) as [key r]. case_decide; [done|]. intros _.
    specialize (Hw ltac:(done)). destruct (skip_space s); [done|]. by right.
Qed.

Lemma has_prefix_head a p b s : a <> b -> has_prefix (String a p) (String b s) = false.
Proof. intros Hn. cbn [has_prefix]. by destruct (Ascii.eqb_spec a b). Qed.

Lemma has_prefix_cons a p b s : has_prefix (String a p) (String b s) = true -> a = b /\ has_prefix p s = true.
Proof. cbn [has_prefix]. by destruct (Ascii.eqb_spec a b). Qed.

(** The bytes that end the pattern's other steps start no key. *)
Lemma key_start_other s : key_start s -> expect ":"%char s = None /\ env_ref (optional (Ascii.ascii_of_nat 34) s) = None.
Proof.
  destruct s as [|a s]; [done|]. cbn [key_start]. intros [->|Hw]; [done|].
  unfold optional, expect. destruct (Ascii.eqb_spec a ":"%char) as [->|_]; [done|]. destruct (Ascii.eqb_spec a (Ascii.ascii_of_nat 34)) as [->|_]; [done|].
  split; [done|]. cbn [default]. unfold env_ref. destruct (Ascii.eqb_spec a "$"%char) as [->|Hn]; [done|].
  by rewrite has_prefix_head by congruence.
Qed.

Lemma skip_line p (L : string) :
  ends_line p = true ->
  skip_space (p +:+ L) = skip_space L \/ exists a p', ends_line (String a p') = true /\ skip_space (p +:+ L) = String a (p' +:+ L) /\ is_space a = false.
Proof.
  intros He. unfold skip_space. destruct (span_line is_space p L He) as [[_ ->]|(x & p' & Hp' & -> & Hh)]; [by left|right].
  destruct p' as [|a p']; [done|]. exists a, p'. by rewrite string_app_cons.
Qed.

Lemma not_space_newline a : is_space a = false -> Ascii.eqb a newline = false.
Proof. destruct (Ascii.eqb_spec a newline) as [->|]; done. Qed.

Lemma env_ref_line p (L : string) name rest :
  ends_line p = true -> env_ref (p +:+ L) = Some (name, rest) -> exists p', ends_line p' = true /\ rest = p' +:+ L.
Proof.
  unfold env_ref. intros He. destruct (has_prefix "${" (p +:+ L)) eqn:Hp; [|done].
  destruct p as [|a p]; [done|]. rewrite string_app_cons in Hp |- *. apply has_prefix_cons in Hp as [<- Hp].
  apply ends_line_tail in He; [|done]. destruct p as [|b p]; [done|]. rewrite string_app_cons in Hp |- *. apply has_prefix_cons in Hp as [<- _].
  apply ends_line_tail in He; [|done]. cbn [string_drop].
  destruct (span_line ident_char p L He) as [[Hn _]|(x & p' & Hp' & -> & _)]; [done|].
  destruct (ends_line_nonempty _ Hp') as (c & q & ->). destruct x as [|a x]; [done|]. rewrite string_app_cons.
  destruct (ident_start a && _) eqn:Hc; [|done]. apply andb_prop in Hc as [_ ->%Ascii.eqb_eq]. intros [= <- <-].
  exists q. split; [|done]. by apply ends_line_tail in Hp'.
Qed.

(** The pattern after the dash. *)
Definition key_ref (s : string) : option (string * string * string) :=
  let '(key, s) := span is_word s in
  if decide (key = "") then None
  else
    s ← expect ":"%char (skip_space s);
    '(name, rest) ← env_ref (optional (Ascii.ascii_of_nat 34) (skip_space s));
    Some (key, name, rest).

Lemma url_key_at_eq s : url_key_at s = key_ref (match expect "-"%char (skip_space s) with Some s => skip_space s | None => skip_space s end).
Proof. unfold url_key_at. by destruct (expect _ _). Qed.

Lemma expect_inv c s s' : expect c s = Some s' -> s = String c s'.
Proof. unfold expect. destruct s as [|a s]; [done|]. destruct (Ascii.eqb_spec a c); [|done]. by intros [= ->]; subst. Qed.

Lemma key_ref_line p (L : string) key name rest :
  ends_line p = true -> key_start (skip_space L) -> key_ref (p +:+ L) = Some (key, name, rest) -> exists p', ends_line p' = true /\ rest = p' +:+ L.
Proof.
  unfold key_ref. intros He HL. destruct (key_start_other _ HL) as [Hcol Href].
  destruct (span_line is_word p L He) as [[Hn _]|(x & p1 & Hp1 & -> & _)]; [done|]. case_decide; [done|].
  destruct (skip_line p1 L Hp1) as [->|(a & p2 & Hp2 & -> & Ha)]; [by rewrite Hcol|].
  destruct (expect _ (String a _)) as [s1|] eqn:E1; [|done]. apply expect_inv in E1 as [= -> <-]. cbn [mbind option_bind].
  apply ends_line_tail in Hp2; [|done]. destruct (skip_line p2 L Hp2) as [->|(b & p3 & Hp3 & -> & Hb)]; [by rewrite Href|].
  assert (exists p4, ends_line p4 = true /\ optional (Ascii.ascii_of_nat 34) (String b (p3 +:+ L)) = p4 +:+ L) as (p4 & Hp4 & ->).
  { unfold optional. destruct (expect _ (String b _)) as [t|] eqn:E2; cbn [default].
    - apply expect_inv in E2 as [= -> <-]. exists p3. split; [by apply ends_line_tail in Hp3|done].
    - exists (String b p3). by rewrite string_app_cons. }
  destruct (env_ref (p4 +:+ L)) as [[n r]|] eqn:E3; [|done]. cbn [mbind option_bind]. intros [= <- <- <-]. by eapply env_ref_line.
Qed.

Lemma url_key_at_line p (L : string) m key name rest :
  ends_line p = true -> url_key_at L = Some m -> url_key_at (p +:+ L) = Some (key, name, rest) ->
  m = (key, name, rest) \/ exists p', ends_line p' = true /\ rest = p' +:+ L.
Proof.
  intros He HL. pose proof (url_key_at_start _ _ HL) as Hst. rewrite (url_key_at_eq (p +:+ L)).
  destruct (skip_line p L He) as [->|(a & p1 & Hp1 & -> & Ha)].
  { rewrite url_key_at_eq in HL. rewrite HL. intros [= ->]. by left. }
  destruct (expect "-"%char _) as [s1|] eqn:E1.
  - apply expect_inv in E1 as [= -> <-]. apply ends_line_tail in Hp1; [|done].
    destruct (skip_line p1 L Hp1) as [->|(b & p2 & Hp2 & -> & Hb)].
    + rewrite url_key_at_eq in HL. destruct (expect "-"%char (skip_space L)) as [t|] eqn:E2; [|rewrite HL; intros [= ->]; by left].
      apply expect_inv in E2 as ->. done.
    + rewrite <-string_app_cons. intros Hk. right. by eapply key_ref_line.
  - rewrite <-string_app_cons. intros Hk. right. by eapply key_ref_line.
Qed.

Lemma span_rest f s : slen (span f s).2 <= slen s.
Proof. rewrite <-(span_app f s) at 2. rewrite string_app_length. lia. Qed.

Lemma skip_rest s : slen (skip_space s) <= slen s.
Proof. apply span_rest. Qed.

Lemma expect_rest c s s' : expect c s = Some s' -> slen s' < slen s.
Proof. intros ->%expect_inv. simpl. lia. Qed.

Lemma optional_rest c s : slen (optional c s) <= slen s.
Proof. unfold optional. destruct (expect c s) as [t|] eqn:E; cbn; [|done]. apply expect_rest in E. lia. Qed.

Lemma url_key_at_shorter s key name rest : url_key_at s = Some (key, name, rest) -> slen rest < slen s.
Proof.
  rewrite url_key_at_eq. intros Hk. set (t := match _ with Some s => _ | None => _ end) in Hk. pose proof (skip_rest s) as Hsp.
  assert (slen t <= slen s) as Ht.
  { unfold t. destruct (expect _ _) as [u|] eqn:E; [|exact Hsp]. apply expect_rest in E. pose proof (skip_rest u). lia. }
  revert Hk. unfold key_ref. pose proof (span_rest is_word t) as Hw. destruct (span is_word t) as [k r]. case_decide; [done|]. cbn [snd] in Hw.
  pose proof (skip_rest r) as Hs. destruct (expect ":"%char (skip_space r)) as [u|] eqn:E; [|done]. cbn [mbind option_bind].
  apply expect_rest in E. pose proof (skip_rest u) as Hu. pose proof (optional_rest (Ascii.ascii_of_nat 34) (skip_space u)) as Ho.
  destruct (env_ref _) as [[n rr]|] eqn:E3; [|done]. cbn [mbind option_bind]. intros [= <- <- <-]. apply env_ref_spec in E3. rewrite E3 in Ho.
  rewrite string_app_length in Ho. lia.
Qed.

Lemma url_matches_complete fuel bol pre (L : string) key name rest :
  slen (pre +:+ L) <= fuel -> (if decide (pre = "") then bol = true else ends_line pre = true) -> url_key_at L = Some (key, name, rest) ->
  (key, name) ∈ url_matches fuel bol (pre +:+ L).
Proof.
  revert bol pre. induction fuel as [|fuel IH]; intros bol pre Hlen Hpre HL.
  { destruct pre; [|simpl in Hlen; lia]. destruct L; [done|simpl in Hlen; lia]. }
  destruct pre as [|a pre].
  - rewrite decide_True in Hpre by done. subst bol. rewrite string_app_empty. destruct L as [|b L]; [done|]. cbn [url_matches]. rewrite HL. left.
  - rewrite decide_False in Hpre by done. rewrite string_app_cons. cbn [url_matches].
    assert (forall bol', (pre = "" -> bol' = true) -> (key, name) ∈ url_matches fuel bol' (pre +:+ L)) as Hnext.
    { intros bol' Hb. apply IH; [rewrite string_app_length in *; simpl in *; lia| |done]. case_decide as Hp; [auto|]. destruct pre; [done|exact Hpre]. }
    destruct (if bol then _ else None) as [[[k n] r]|] eqn:Em.
    + destruct bol; [|done]. rewrite <-string_app_cons in Em. destruct (url_key_at_line _ _ _ _ _ _ Hpre HL Em) as [[= <- <- <-]|(p' & Hp' & ->)]; [left|].
      right. apply IH; [|destruct p'; [done|exact Hp']|done]. pose proof (url_key_at_shorter _ _ _ _ Em) as Hs. simpl in *. rewrite ?string_app_length in *. lia.
    + apply Hnext. intros ->. exact Hpre.
Qed.

(** *** References *)

Lemma env_ref_dollar s m : env_ref s = Some m -> exists s', s = String "$"%char s'.
Proof.
  unfold env_ref. destruct (has_prefix "${" s) eqn:Hp; [|done]. destruct s as [|a s]; [done|]. apply has_prefix_cons in Hp as [<- _]. eauto.
Qed.

Lemma span_stop f p a (s : string) : f a = false ->
  span f (p +:+ String a s) = (p, String a s) \/ exists x b q, span f (p +:+ String a s) = (x, String b (q +:+ String a s)).
Proof.
  intros Ha. induction p as [|b p IH]; [left; rewrite string_app_empty; cbn; by rewrite Ha|]. rewrite string_app_cons. cbn [span]. destruct (f b).
  - destruct IH as [->|(x & c & q & ->)]; [by left|right; by exists (String b x), c, q].
  - right. by exists "", b, p.
Qed.

(** A reference does not start inside another. *)
Lemma env_ref_before a p (s : string) name rest :
  env_ref (String a p +:+ String "$"%char s) = Some (name, rest) -> exists q, rest = q +:+ String "$"%char s.
Proof.
  unfold env_ref. destruct (has_prefix _ _) eqn:Hp; [|done]. rewrite string_app_cons in Hp |- *. apply has_prefix_cons in Hp as [<- Hp].
  destruct p as [|b p]; [done|]. rewrite string_app_cons in Hp |- *. apply has_prefix_cons in Hp as [<- _]. cbn [string_drop].
  destruct (span_stop ident_char p "$"%char s eq_refl) as [->|(x & c & q & ->)].
  - destruct p as [|a p]; [done|]. by rewrite andb_false_r.
  - destruct x as [|a x]; [done|]. destruct (_ && _); [|done]. intros [= <- <-]. eauto.
Qed.

Lemma env_scan_complete fuel pre s name rest :
  slen (pre +:+ s) <= fuel -> env_ref s = Some (name, rest) -> name ∈ piece_names (env_scan fuel (pre +:+ s)).
Proof.
  intros Hlen Hs. destruct (env_ref_dollar _ _ Hs) as [s' ->]. revert pre Hlen. induction fuel as [|fuel IH]; intros pre Hlen.
  { rewrite string_app_length in Hlen. simpl in Hlen. lia. }
  destruct pre as [|a pre].
  - rewrite string_app_empty. cbn [env_scan]. rewrite Hs. left.
  - rewrite string_app_cons. cbn [env_scan]. destruct (env_ref (String a _)) as [[n r]|] eqn:E.
    + pose proof (env_ref_spec _ _ _ E) as Hr. rewrite <-string_app_cons in E. destruct (env_ref_before _ _ _ _ _ E) as [q ->]. right. apply IH.
      apply (f_equal slen) in Hr. unfold ref_text in Hr. rewrite string_app_cons in Hlen. simpl in *. rewrite ?string_app_length in *. simpl in *. lia.
    + apply IH. rewrite string_app_cons in Hlen. simpl in Hlen. lia.
Qed.

Lemma skip_suffix s : exists p, s = p +:+ skip_space s.
Proof. exists (span is_space s).1. symmetry. apply (span_app is_space s). Qed.

Lemma expect_suffix c s : exists p, s = p +:+ optional c s.
Proof.
  unfold optional. destruct (expect c s) as [t|] eqn:E; cbn [default]; [|by exists ""]. apply expect_inv in E as ->. by exists (String c "").
Qed.

(** The reference a key is assigned is one the loader resolves. *)
Lemma url_key_at_ref s key name rest : url_key_at s = Some (key, name, rest) -> exists p s', s = p +:+ s' /\ env_ref s' = Some (name, rest).
Proof.
  rewrite url_key_at_eq. set (t := match _ with Some s => _ | None => _ end). assert (exists p, s = p +:+ t) as [p1 Hp1].
  { unfold t. destruct (skip_suffix s) as [p Hp]. destruct (expect _ _) as [u|] eqn:E; [|by exists p]. apply expect_inv in E. destruct (skip_suffix u) as [q Hq].
    exists (p +:+ String "-"%char q). by rewrite string_app_assoc, string_app_cons, <-Hq, <-E. }
  unfold key_ref. pose proof (span_app is_word t) as Hw. destruct (span is_word t) as [k r]. case_decide; [done|]. cbn [fst snd] in Hw.
  destruct (skip_suffix r) as [p2 Hp2]. destruct (expect ":"%char (skip_space r)) as [u|] eqn:E; [|done]. cbn [mbind option_bind]. apply expect_inv in E.
  destruct (skip_suffix u) as [p3 Hp3]. destruct (expect_suffix (Ascii.ascii_of_nat 34) (skip_space u)) as [p4 Hp4].
  destruct (env_ref _) as [[n rr]|] eqn:E3; [|done]. cbn [mbind option_bind]. intros [= <- <- <-].
  exists (p1 +:+ k +:+ p2 +:+ String ":"%char (p3 +:+ p4)), (optional (Ascii.ascii_of_nat 34) (skip_space u)). split; [|done].
  rewrite Hp1, <-Hw, !string_app_assoc, string_app_cons, string_app_assoc, <-Hp4, <-Hp3, <-E, <-Hp2. done.
Qed.

Section preflight.
Context (ReadFile : string -> option string) (trim_uni : string -> string) (range : gmap string string -> list (string * string)).
Context (yaml_Unmarshal : string -> result string Node) (yaml_Marshal : Node -> result string string) (yaml_Decode : string -> result string Config).
Context (ParseDuration : string -> option Duration) (uni sha256_hex : string -> string).
Context (url_Parse : string -> option Httpx.URL) (ParseIP : string -> option Httpx.IP).

Definition load_in (env : Env) : string -> result string Config := Load (os_Getenv env) ReadFile trim_uni range yaml_Unmarshal yaml_Marshal yaml_Decode.
Definition load_bytes_in (env : Env) : string -> result string Config := LoadBytes (os_Getenv env) ReadFile trim_uni range yaml_Unmarshal yaml_Marshal yaml_Decode.

Definition knownSourceTypes : result string (gset string) := let? reg := registry ParseDuration trim_uni uni in Ok (Known reg).

Inductive PreflightErr := UnreadableFile | RegistryErr (e : string) | LoadErr (e : string) | InvalidConfig (errs : list ConfigErr).

(** The verdict, and the environment it leaves behind. *)
Definition ValidateConfigFile (path : string) (env : Env) : result PreflightErr unit * Env :=
  match ReadFile path with
  | None => (Err UnreadableFile, env)
  | Some raw =>
      let env := filled raw env in
      match load_in env path with
      | Err e => (Err (LoadErr e), env)
      | Ok cfg =>
          match knownSourceTypes with
          | Err e => (Err (RegistryErr e), env)
          | Ok known => match Validate url_Parse ParseIP cfg known with [] => (Ok tt, env) | errs => (Err (InvalidConfig errs), env) end
          end
      end
  end.

(** ** Filling in placeholders *)

Lemma placeholder_nonempty_for vars n : placeholder_for vars n <> "".
Proof. unfold placeholder_for. by destruct (_ || _). Qed.

Lemma fill_step_spec vars env n m :
  os_Getenv (fill_step vars env n) m =
  if bool_decide (m = n) && bool_decide (os_Getenv env n = "") then placeholder_for vars n else os_Getenv env m.
Proof.
  unfold fill_step. case_decide as He; rewrite ?(bool_decide_true _ He), ?(bool_decide_false _ He), ?andb_false_r, ?andb_true_r; [|done].
  unfold os_Getenv, os_Setenv. rewrite lookup_insert. case_decide; subst; [by rewrite bool_decide_true|by rewrite bool_decide_false].
Qed.

Lemma fill_spec vars names env m :
  os_Getenv (foldl (fill_step vars) env names) m =
  if bool_decide (m ∈ names) && bool_decide (os_Getenv env m = "") then placeholder_for vars m else os_Getenv env m.
Proof.
  revert env. induction names as [|n names IH]; intros env; [by rewrite bool_decide_false by set_solver|]. cbn [foldl].
  rewrite IH, fill_step_spec. destruct (decide (m = n)) as [->|Hmn].
  - rewrite (bool_decide_true (n = n)), (bool_decide_true (n ∈ n :: names)) by set_solver. cbn [andb].
    destruct (decide (os_Getenv env n = "")) as [He|He].
    + rewrite He, (bool_decide_true ("" = "")) by done. rewrite (bool_decide_false (placeholder_for _ _ = "")) by apply placeholder_nonempty_for. by rewrite andb_false_r.
    + rewrite !(bool_decide_false _ He). by destruct (bool_decide _).
  - rewrite (bool_decide_false (m = n)) by done. cbn [andb]. rewrite (bool_decide_ext (m ∈ names) (m ∈ n :: names)); [done|set_solver].
Qed.

Lemma fill_none vars names env : (forall n, n ∈ names -> os_Getenv env n <> "") -> foldl (fill_step vars) env names = env.
Proof.
  revert env. induction names as [|n names IH]; intros env Hset; [done|]. cbn [foldl]. unfold fill_step at 2. rewrite decide_False by (apply Hset; left).
  apply IH. intros m Hm. apply Hset. by right.
Qed.

Definition refs (raw : string) : list string := piece_names (env_pieces raw).

Lemma load_bytes_unset env raw e :
  (forall n, n ∈ refs raw -> os_Getenv env n <> "") -> injectEnvPlaceholders (os_Getenv env) raw <> Err e.
Proof.
  intros Hset Hin. pose proof (injectEnvPlaceholders_exact (os_Getenv env) raw) as Hx. cbv zeta in Hx. rewrite Hin in Hx.
  destruct Hx as (i & n & Hn & He & _). apply list_elem_of_lookup_2 in Hn. by apply (Hset n).
Qed.
Lemma preflight_env path env raw : ReadFile path = Some raw -> (ValidateConfigFile path env).2 = filled raw env.
Proof using Type.
  intros Hr. unfold ValidateConfigFile. rewrite Hr. destruct (load_in _ _); [|done]. destruct knownSourceTypes; [|done]. by destruct (Validate _ _ _ _).
Qed.

Lemma configure_err cfg sc ls errs : configure trim_uni sha256_hex cfg sc ls <> Err (ConfigInvalid errs).
Proof using Type.
  induction ls as [|l ls IH]; [done|]. cbn [configure]. destruct (_ && _); [done|]. destruct (configure _ _ _ _ ls) as [x|e]; [done|]. congruence.
Qed.

Lemma first_pass_err reg cfg l errs : first_pass trim_uni sha256_hex reg cfg l <> Err (ConfigInvalid errs).
Proof using Type.
  induction l as [|sc l IH]; [done|]. cbn [first_pass]. destruct (negb _); [done|]. destruct (Source.Build _ _ _ _) as [src|e]; [|done].
  destruct (unrecognised _ _ _); [done|]. destruct (configure _ _ _ _ _) as [x|e] eqn:E; [|intros [= ->]; by apply configure_err in E].
  destruct (first_pass _ _ _ _ _) as [[a b]|e]; [done|congruence].
Qed.

Context {W : Type} `{Checkpointer W} `{!Inhabited W}.

(** The gate of the process: it loads the file and [Build] does not find the
    configuration invalid. *)
Definition gate_accepts (env : Env) (path : string) : Prop :=
  exists cfg, load_in env path = Ok cfg /\
    forall coord (w : W) errs, (Build ParseDuration trim_uni uni sha256_hex url_Parse ParseIP cfg coord w).1 <> Err (ConfigInvalid errs).

Lemma gate_Validate cfg coord (w : W) : (exists errs, (Build ParseDuration trim_uni uni sha256_hex url_Parse ParseIP cfg coord w).1 = Err (ConfigInvalid errs)) <->
  (exists known, knownSourceTypes = Ok known /\ Validate url_Parse ParseIP cfg known <> []).
Proof.
  unfold Build, knownSourceTypes. rewrite registry_eq. cbv zeta. split.
  - intros [errs He]. eexists. split; [done|]. intros Hv. rewrite Hv in He. destruct (find _ _); [done|].
    destruct (first_pass _ _ _ _ _) as [[srcs loops]|e] eqn:E; [|cbn in He; injection He as ->; by apply first_pass_err in E].
    destruct (ValidateOwnership _ _); [done|]. by repeat case_match.
  - intros (known & [= <-] & Hv). destruct (Validate _ _ _ _); [done|]. eexists. done.
Qed.

(** C13: the configuration check asks what the process asks.  It never changes a
    variable that is set, resolves every reference of the file, and gives every
    variable some [endpoint], [url] or [base_url] key is assigned an https
    placeholder, wherever in the file the line is.  When the file's references
    are all set it leaves the environment alone and accepts exactly the files
    the start-up gate accepts. *)
Theorem preflight_exact path env raw :
  ReadFile path = Some raw ->
  let '(verdict, env') := ValidateConfigFile path env in
  (forall n, os_Getenv env n <> "" -> os_Getenv env' n = os_Getenv env n) /\
  (forall n, n ∈ refs raw -> os_Getenv env' n <> "") /\
  (forall pre L key name rest, raw = pre +:+ L -> pre = "" \/ ends_line pre = true -> url_key_at L = Some (key, name, rest) ->
     is_url_key key = true -> os_Getenv env name = "" -> os_Getenv env' name = "https://placeholder.example") /\
  ((forall n, n ∈ refs raw -> os_Getenv env n <> "") -> env' = env /\ (verdict = Ok tt <-> gate_accepts env path)).
Proof.
  intros Hr. pose proof (preflight_env path env raw Hr) as He. destruct (ValidateConfigFile path env) as [verdict env'] eqn:Hval. cbn [snd] in He. subst env'.
  unfold filled. fold (refs raw). split_and!.
  - intros n Hn. by rewrite fill_spec, (bool_decide_false _ Hn), andb_false_r.
  - intros n Hn. rewrite fill_spec, (bool_decide_true _ Hn). case_bool_decide; [apply placeholder_nonempty_for|done].
  - intros pre L key name rest -> Hpre HL Hk Hn. rewrite fill_spec, (bool_decide_true _ Hn), bool_decide_true.
    + cbn [andb]. unfold placeholder_for. rewrite bool_decide_true; [done|]. unfold urlVars. apply list_elem_of_fmap. exists (key, name). split; [done|].
      apply list_elem_of_filter. split; [done|]. eapply url_matches_complete; [done| |done]. case_decide; naive_solver.
    + destruct (url_key_at_ref _ _ _ _ HL) as (p & s' & -> & Hs). unfold refs, env_pieces. rewrite <-string_app_assoc. eapply env_scan_complete; done.
  - intros Hset. assert (filled raw env = env) as Hfe by (by apply fill_none). rewrite fill_none by done. split; [done|].
    unfold ValidateConfigFile in Hval. rewrite Hr, Hfe in Hval. unfold gate_accepts. destruct (load_in env path) as [cfg|e] eqn:Hl.
    2: { injection Hval as <-. split; [done|]. intros (c & ? & _). done. }
    assert (exists known, knownSourceTypes = Ok known) as [known Hk] by (unfold knownSourceTypes; rewrite registry_eq; eauto). rewrite Hk in Hval.
    transitivity (Validate url_Parse ParseIP cfg known = []).
    { destruct (Validate _ _ _ _); injection Hval as <-; done. }
    split.
    + intros Hv. exists cfg. split; [done|]. intros coord w0 errs Hb.
      destruct (proj1 (gate_Validate cfg coord w0)) as (k & Hk' & Hne); [by exists errs|]. congruence.
    + intros (c & [= <-] & Hb). destruct (Validate url_Parse ParseIP cfg known) eqn:Hv; [done|].
      destruct (proj2 (gate_Validate cfg OtherCoordinator inhabitant)) as [errs He]; [exists known; by rewrite Hv|]. by apply Hb in He.
Qed.
End preflight.

(** ** A check *)

Module PreflightDemo.
#[local] Existing Instance Coordinate.Sim.store.
Definition file : string := "emit:
  endpoint: ${COLLECTOR}
# rotated with ${TOKEN}".
Definition read (path : string) : option string := if decide (path = "config.yaml") then Some file else None.
Definition check (cfg : Config) (env : Env) : result PreflightErr unit * Env :=
  ValidateConfigFile read id map_to_list ConfigDemo.unmarshal ConfigDemo.marshal (fun _ => Ok cfg) (fun _ => None) id ConfigDemo.parse ConfigDemo.parse_ip "config.yaml" env.
Definition env : Env := {[ "TOKEN" := "t" ]}.
(** A configuration that names a loop its source does not have. *)
Definition misspelt : Config := AppDemo.config [plain_source "langsmith" "https://h" "ls-prod" {[ "session" := AppDemo.loop [] ]} [] "x-api-key" "k"].
Definition start (cfg : Config) : result AppErr App :=
  (Build (fun _ => None) id id rev_string ConfigDemo.parse ConfigDemo.parse_ip cfg (NoopCoordinator 1) (∅ : gmap CheckpointKey Watermark)).1.
End PreflightDemo.

(** The check stops at the validation gate: what [Build] rejects after it, a
    loop its source does not have here, passes. *)
Example preflight_passes_misspelt : (PreflightDemo.check PreflightDemo.misspelt PreflightDemo.env).1 = Ok tt.
Proof. vm_compute. reflexivity. Qed.
Example misspelt_refused : PreflightDemo.start PreflightDemo.misspelt = Err (UnknownLoop "ls-prod" "session").
Proof. vm_compute. reflexivity. Qed.

Lemma preflight_exact_witness :
  os_Getenv (PreflightDemo.check PreflightDemo.misspelt PreflightDemo.env).2 "COLLECTOR" = "https://placeholder.example" /\
  os_Getenv (PreflightDemo.check PreflightDemo.misspelt PreflightDemo.env).2 "TOKEN" = "t".
Proof.
  pose proof (preflight_exact (W := gmap CheckpointKey Watermark) PreflightDemo.read id map_to_list ConfigDemo.unmarshal ConfigDemo.marshal
    (fun _ => Ok PreflightDemo.misspelt) (fun _ => None) id rev_string ConfigDemo.parse ConfigDemo.parse_ip "config.yaml" PreflightDemo.env PreflightDemo.file eq_refl) as H.
  unfold PreflightDemo.check. destruct (ValidateConfigFile _ _ _ _ _ _ _ _ _ _ _ _) as [v env']. destruct H as (Hkeep & _ & Hurl & _). split.
  - eapply (Hurl "emit:
" "  endpoint: ${COLLECTOR}
# rotated with ${TOKEN}" "endpoint" "COLLECTOR"); [reflexivity|by right|vm_compute; reflexivity|reflexivity|reflexivity].
  - apply Hkeep. discriminate.
Defined.
