(* ===== verification/Process.v ===== *)
(** * The running process (internal/app/app.go [Run], cmd/genai-otel-bridge/main.go
      from [app.Run] on)

    The health server's goroutine, the coordinator and the main goroutine
    interleave; a step relation has one rule per statement that another
    goroutine can observe.  The coordinator is its contract: it calls the
    callback one term at a time, and returns when its context ends or when it
    fails.  The server fails when its address cannot be bound. *)

From S2P Require Import Prelude Model Health.

(** ** Data *)

Inductive SrvPC :=
| SrvServing                   (* in [ListenAndServe] *)
| SrvFailed                    (* it returned an error, logged *)
| SrvSent                      (* after [srvErr <- err] *)
| SrvDone.                     (* after [cancel()] *)

Inductive CoordErr := CoordCtx | CoordFailure.
Inductive RunErr := BindFailed | CoordReturned (e : CoordErr).

(** [gracefulShutdown]'s steps, in order. *)
Inductive ShutdownStep := ResetSignals | FlushMetrics | FlushTraces | StopProfiling.
Definition gracefulShutdown : list ShutdownStep := [ResetSignals; FlushMetrics; FlushTraces; StopProfiling].

(** A shutdown function is given at most this long; its error is logged. *)
Definition shutdownStepTimeout : Duration := (5 * Second)%Z.

Inductive MainPC :=
| MEntering                    (* before [markReady] *)
| MCoordinating                (* in [coord.Run], not leading *)
| MLeading                     (* in the callback *)
| MReturning (e : CoordErr)    (* at the select *)
| MReturned (e : RunErr)       (* back in [main] *)
| MExited (code : Z) (steps : list ShutdownStep).

Record Proc := mkProc {
  p_root : bool;               (* the signal context ended *)
  p_run : bool;                (* [runCtx] ended *)
  p_srv : SrvPC;
  p_srvErr : bool;             (* the channel holds the error *)
  p_health : Health;
  p_pc : MainPC
}.

Definition proc_start (threshold : Duration) : Proc := mkProc false false SrvServing false (NewHealth threshold) MEntering.

(** What [main] does with [Run]'s error. *)
Definition main_exit (root : bool) : MainPC := if root then MExited 0 gracefulShutdown else MExited 1 [].

(** ** Steps *)

(** What the process's own goroutines do next.  Nothing outside is needed: the
    health server's goroutine hands its failure over and cancels; the callback
    and the coordinator return once their context ended; [Run] takes its select
    and [main] exits. *)
Inductive own_step : Proc -> Proc -> Prop :=
| p_send r x c h pc : own_step (mkProc r x SrvFailed c h pc) (mkProc r x SrvSent true h pc)
| p_cancel r x c h pc : own_step (mkProc r x SrvSent c h pc) (mkProc r true SrvDone c h pc)
| p_ready r x s c h : own_step (mkProc r x s c h MEntering) (mkProc r x s c (MarkReady h) MCoordinating)
| p_stop r s c h : own_step (mkProc r true s c h MLeading) (mkProc r true s c (SetLeader false h) MCoordinating)
| p_ctx_ended r s c h : own_step (mkProc r true s c h MCoordinating) (mkProc r true s c h (MReturning CoordCtx))
| p_select_err r x s h e : own_step (mkProc r x s true h (MReturning e)) (mkProc r x s false h (MReturned BindFailed))
| p_select_default r x s h e : own_step (mkProc r x s false h (MReturning e)) (mkProc r x s false h (MReturned (CoordReturned e)))
| p_main r x s c h e : own_step (mkProc r x s c h (MReturned e)) (mkProc r x s c h (main_exit r)).

(** What happens to it: a signal, an address that cannot be bound, an election
    won or lost, the scheduler's ticks, a coordinator that fails. *)
Inductive env_step : Proc -> Proc -> Prop :=
| p_signal r x s c h pc : env_step (mkProc r x s c h pc) (mkProc true true s c h pc)
| p_bind_fails r x c h pc : env_step (mkProc r x SrvServing c h pc) (mkProc r x SrvFailed c h pc)
| p_elected r x s c h : env_step (mkProc r x s c h MCoordinating) (mkProc r x s c (SetLeader true h) MLeading)
| p_beat r x s c h now : env_step (mkProc r x s c h MLeading) (mkProc r x s c (Beat now h) MLeading)
| p_demoted r x s c h : env_step (mkProc r x s c h MLeading) (mkProc r x s c (SetLeader false h) MCoordinating)
| p_coord_fails r x s c h : env_step (mkProc r x s c h MCoordinating) (mkProc r x s c h (MReturning CoordFailure)).

Definition proc_step (p q : Proc) : Prop := own_step p q \/ env_step p q.

(** ** Invariant *)

(** The coordinator's call is over. *)
Definition over (pc : MainPC) : bool := match pc with MReturned _ | MExited _ _ => true | _ => false end.

Definition is_leading (pc : MainPC) : bool := match pc with MLeading => true | _ => false end.
Definition is_entering (pc : MainPC) : bool := match pc with MEntering => true | _ => false end.

(** What the main goroutine's position says of the contexts. *)
Definition pc_ok (root run : bool) (pc : MainPC) : Prop :=
  match pc with
  | MReturning CoordCtx => run = true
  | MReturned (CoordReturned CoordCtx) => root = true
  | MExited code steps => code = 1%Z /\ steps = [] \/ code = 0%Z /\ steps = gracefulShutdown /\ root = true
  | _ => True
  end.

Record proc_ok (p : Proc) : Prop := {
  po_sent : p_srv p = SrvSent \/ p_srv p = SrvDone -> over (p_pc p) = false -> p_srvErr p = true;
  po_run : p_run p = true -> p_root p = true \/ p_srv p = SrvDone;
  po_root : p_root p = true -> p_run p = true;
  po_done : p_srv p = SrvDone -> p_run p = true;
  po_pc : pc_ok (p_root p) (p_run p) (p_pc p);
  po_leader : h_leader (p_health p) = is_leading (p_pc p);
  po_ready : h_ready (p_health p) = negb (is_entering (p_pc p))
}.

Lemma pc_ok_mono root run root' run' pc : (root = true -> root' = true) -> (run = true -> run' = true) -> pc_ok root run pc -> pc_ok root' run' pc.
Proof. intros. destruct pc as [| | |[]|[|[]]|]; cbn in *; intuition auto. Qed.

Lemma proc_ok_start threshold : proc_ok (proc_start threshold).
Proof. split; cbn; naive_solver. Qed.

Lemma select_root r x s h : proc_ok (mkProc r x s false h (MReturning CoordCtx)) -> r = true.
Proof.
  intros [Hs Hr _ _ Hp _ _]. cbn in *. destruct (Hr Hp) as [|Hd]; [done|]. specialize (Hs (or_intror Hd) eq_refl). done.
Qed.

Lemma proc_step_ok p q : proc_ok p -> proc_step p q -> proc_ok q.
Proof.
  intros Hok [Hstep|Hstep]; pose proof Hok as [Hs Hr Hc Hd Hp Hl Hy]; destruct Hstep; cbn in *; split; cbn; auto;
    try (intros [|]; congruence); try (intros H; destruct (Hr H); (auto; congruence)); try (by eapply pc_ok_mono; [| |exact Hp]); try (by destruct r).
  - destruct e; [|done]. by eapply select_root.
  - destruct r; cbn; auto.
Qed.

Inductive proc_reach (threshold : Duration) : Proc -> Prop :=
| reach_start : proc_reach threshold (proc_start threshold)
| reach_step p q : proc_reach threshold p -> proc_step p q -> proc_reach threshold q.

Lemma proc_reach_ok threshold p : proc_reach threshold p -> proc_ok p.
Proof. induction 1; [apply proc_ok_start|by eapply proc_step_ok]. Qed.

(** ** Coming to an end *)

(** How many steps its goroutines have left, at most. *)
Definition srv_left (s : SrvPC) : nat := match s with SrvFailed => 2 | SrvSent => 1 | _ => 0 end.
Definition pc_left (pc : MainPC) : nat :=
  match pc with MEntering | MLeading => 4 | MCoordinating => 3 | MReturning _ => 2 | MReturned _ => 1 | MExited _ _ => 0 end.
Definition steps_left (p : Proc) : nat := (srv_left (p_srv p) + pc_left (p_pc p))%nat.

Lemma own_step_left p q : own_step p q -> (steps_left q < steps_left p)%nat.
Proof. destruct 1; unfold steps_left; cbn; try lia. destruct r; cbn; lia. Qed.

Lemma own_steps_left n p q : nsteps own_step n p q -> (n + steps_left q <= steps_left p)%nat.
Proof. induction 1 as [|n p q r Hs _ IH]; [lia|]. apply own_step_left in Hs. lia. Qed.

Definition exited (pc : MainPC) : bool := match pc with MExited _ _ => true | _ => false end.

(** What is to end it: a signal, or a server that could not bind. *)
Definition ending (p : Proc) : Prop := p_root p = true \/ p_srv p <> SrvServing.

Lemma own_step_ending p q : own_step p q -> (ending p -> ending q) /\ p_root q = p_root p.
Proof. unfold ending. destruct 1; cbn; split; try done; intros [|]; auto. Qed.

(** A process that is to end always has a step of its own to take. *)
Lemma ending_steps p : proc_ok p -> ending p -> exited (p_pc p) = false -> exists q, own_step p q.
Proof.
  intros [_ _ Hc Hd _ _ _] He Hx. destruct p as [r x s c h pc]. unfold ending in He. cbn in *.
  destruct s; [|eexists; apply p_send|eexists; apply p_cancel|];
    (assert (x = true) as -> by (destruct He as [|He]; [auto|first [done|auto]]));
    destruct pc; try done; try (eexists; constructor; fail); destruct c; eexists; constructor.
Qed.

Lemma own_steps_ending p q : rtc own_step p q -> (ending p -> ending q) /\ p_root q = p_root p.
Proof. induction 1 as [|p m q Hs _ [IH1 IH2]]; [done|]. destruct (own_step_ending _ _ Hs) as [H1 H2]. rewrite IH2. auto. Qed.

(** An exited process exits with what it exited with. *)
Lemma own_step_exited p q : own_step p q -> exited (p_pc p) = true -> p_pc q = p_pc p.
Proof. by destruct 1. Qed.

Lemma own_step_exit p q : own_step p q -> exited (p_pc p) = false -> exited (p_pc q) = true -> p_pc q = main_exit (p_root p).
Proof. destruct 1; cbn; congruence. Qed.

Lemma own_steps_exit p q : rtc own_step p q -> exited (p_pc p) = false -> exited (p_pc q) = true -> p_pc q = main_exit (p_root p).
Proof.
  intros Hr Hp. refine (rtc_ind_r (fun q => exited (p_pc q) = true -> p_pc q = main_exit (p_root p)) p _ _ q Hr); [congruence|].
  intros m q' Hrm Hs IH Hq.
  destruct (exited (p_pc m)) eqn:Hm; [rewrite (own_step_exited _ _ Hs Hm); auto|].
  rewrite (own_step_exit _ _ Hs Hm Hq). f_equal. apply (own_steps_ending _ _ Hrm).
Qed.

Lemma own_steps_reach threshold p q : proc_reach threshold p -> rtc own_step p q -> proc_reach threshold q.
Proof. intros Hp. induction 1 as [|p m q Hs _ IH]; [done|]. apply IH. eapply reach_step; [exact Hp|by left]. Qed.

(** Where its own steps stop, a process that was to end has exited. *)
Lemma ending_exits threshold p q :
  proc_reach threshold p -> ending p -> rtc own_step p q -> (forall q', ~ own_step q q') -> exited (p_pc q) = true.
Proof.
  intros Hp He Hr Hn. destruct (exited (p_pc q)) eqn:Hx; [done|]. exfalso.
  destruct (ending_steps q) as [q' Hq']; [by eapply proc_reach_ok, own_steps_reach|by apply (own_steps_ending _ _ Hr)|done|by eapply Hn].
Qed.

(** C26: however the goroutines of a running process interleave, it ends as it
    should.  It exits cleanly only after a signal, and then flushes its metrics
    before its traces and before it stops profiling; every other end has exit
    code 1, so it is restarted.  A health server that could not bind is never
    mistaken for a shutdown: when its failure has been sent, the select returns
    it, and the coordinator's context error only reaches [main] after a signal.
    A probe sees a leader exactly while the scheduler runs.  And a signal or a
    failed server always ends the process by itself, without anything else
    happening: its goroutines have at most six steps left, in whatever order
    they run, and where they have none left it has exited - with code 0 after a
    signal, with code 1 when only the server failed. *)
Theorem process_ends threshold p :
  proc_reach threshold p ->
  (forall code steps, p_pc p = MExited code steps -> code = 1%Z /\ steps = [] \/ code = 0%Z /\ steps = [ResetSignals; FlushMetrics; FlushTraces; StopProfiling] /\ p_root p = true) /\
  (p_pc p = MReturned (CoordReturned CoordCtx) -> p_root p = true) /\
  (forall q e, p_srv p <> SrvServing -> p_srv p <> SrvFailed -> p_pc p = MReturning e -> proc_step p q -> p_pc q = MReturning e \/ p_pc q = MReturned BindFailed) /\
  (h_leader (p_health p) = true <-> p_pc p = MLeading) /\
  (forall n q, nsteps own_step n p q -> (n <= 6)%nat) /\
  (p_root p = true \/ p_srv p <> SrvServing ->
   forall q, rtc own_step p q -> (forall q', ~ own_step q q') ->
   exists code steps, p_pc q = MExited code steps /\
     ((forall code' steps', p_pc p <> MExited code' steps') -> code = if p_root p then 0%Z else 1%Z)).
Proof.
  intros Hreach. pose proof (proc_reach_ok _ _ Hreach) as [Hs _ _ _ Hp Hl _]. split_and!.
  - intros code steps Hpc. by rewrite Hpc in Hp.
  - intros Hpc. by rewrite Hpc in Hp.
  - intros q e H1 H2 Hpc Hstep. assert (p_srvErr p = true) as Hc by (apply Hs; [destruct (p_srv p); auto; done|by rewrite Hpc]).
    destruct Hstep as [Hstep|Hstep]; destruct Hstep; cbn in *; try (injection Hpc as ->); auto; done.
  - rewrite Hl. destruct (p_pc p); done.
  - intros n q Hn%own_steps_left. unfold steps_left in Hn. destruct (p_srv p), (p_pc p); cbn in Hn; lia.
  - intros He q Hr Hn. pose proof (ending_exits _ _ _ Hreach He Hr Hn) as Hx.
    destruct (p_pc q) as [| | | | |code steps] eqn:Hq; try done. exists code, steps. split; [done|]. intros Hne.
    assert (exited (p_pc p) = false) as Hp' by (destruct (p_pc p); try done; by edestruct Hne).
    pose proof (own_steps_exit _ _ Hr Hp') as Hm. rewrite Hq in Hm. specialize (Hm eq_refl). destruct (p_root p); by injection Hm.
Qed.

(** A leader that was just elected, and the same one after its health server
    could not bind. *)
Definition elected (threshold : Duration) : Proc := mkProc false false SrvServing false (mkHealth threshold zeroTime true true) MLeading.
Definition unbound (threshold : Duration) : Proc := mkProc false false SrvFailed false (mkHealth threshold zeroTime true true) MLeading.

Lemma elected_reached threshold : proc_reach threshold (elected threshold).
Proof. eapply reach_step; [eapply reach_step; [apply reach_start|left; apply p_ready]|right; apply p_elected]. Qed.

Lemma unbound_reached threshold : proc_reach threshold (unbound threshold).
Proof. eapply reach_step; [apply elected_reached|right; apply p_bind_fails]. Qed.

(** Its goroutines run to the end: the failure is sent, the run context
    cancelled, the scheduler stops and [main] exits with code 1. *)
Definition unbound_end (threshold : Duration) : Proc :=
  mkProc false true SrvDone false (mkHealth threshold zeroTime true false) (MExited 1 []).

Lemma unbound_runs threshold : rtc own_step (unbound threshold) (unbound_end threshold).
Proof.
  eapply rtc_l; [apply p_send|]. eapply rtc_l; [apply p_cancel|]. eapply rtc_l; [apply p_stop|].
  eapply rtc_l; [apply p_ctx_ended|]. eapply rtc_l; [apply p_select_err|]. eapply rtc_l; [apply p_main|]. apply rtc_refl.
Qed.

Lemma process_ends_witness :
  (h_leader (p_health (elected Minute)) = true <-> p_pc (elected Minute) = MLeading) /\
  exists code steps, p_pc (unbound_end Minute) = MExited code steps /\
    ((forall code' steps', p_pc (unbound Minute) <> MExited code' steps') -> code = 1%Z).
Proof.
  split; [apply (process_ends Minute (elected Minute) (elected_reached Minute))|].
  apply (process_ends Minute (unbound Minute) (unbound_reached Minute)); [right; discriminate|apply unbound_runs|].
  intros q' Hq. inversion Hq.
Defined.
