(* ===== verification/Startup.v ===== *)
(** * The process (cmd/genai-otel-bridge/main.go, internal/logging/logging.go,
      internal/selfobs/provider.go and profiling.go)

    What [main] decides before it runs: where the configuration comes from,
    the log handler, the self-telemetry endpoint and interval, the profiling
    and tracing planes, the checkpoint store and the coordinator, and the order
    in which all that happens.  The clients it constructs are answers of the
    environment. *)

From S2P Require Import Prelude Model ConfigSecrets Config Checkpoint Coordinate Cleanup Source App AppGuard Health Probe Preflight.

(** ** logging.go *)

Inductive Handler := TextHandler | JSONHandler.
Inductive Level := LevelOf (name : string).

Definition parseLevel (level : string) : option Level :=
  if one_of level [""; "info"] then Some (LevelOf "INFO")
  else if decide (level = "debug") then Some (LevelOf "DEBUG")
  else if decide (level = "warn") then Some (LevelOf "WARN")
  else if decide (level = "error") then Some (LevelOf "ERROR") else None.

Definition NewHandler (format level : string) : option (Handler * Level) :=
  lvl ← parseLevel level;
  if one_of format [""; "logfmt"] then Some (TextHandler, lvl)
  else if decide (format = "json") then Some (JSONHandler, lvl) else None.

(** ** provider.go *)

Definition minSelfInterval (maxDPM : Z) : Duration := Z.quot Minute (if (maxDPM <? 1)%Z then 1%Z else maxDPM).

Definition effectiveSelfInterval (configured : Duration) (maxDPM : Z) : Duration :=
  let floor := minSelfInterval maxDPM in
  if (configured =? 0)%Z then (if (Minute <? floor)%Z then floor else Minute)
  else if (configured <? floor)%Z then floor else configured.

(** [basicAuth]; [base64] is the standard encoding. *)
Definition otlpAuthHeaders (base64 : string -> string) (id token : string) : gmap string string :=
  if bool_decide (id = "") && bool_decide (token = "") then ∅ else {[ "Authorization" := "Basic " +:+ base64 (id +:+ ":" +:+ token) ]}.

(** ** What [main] constructs *)

(** A plane of the process: its connection and its identity. *)
Inductive StartEv :=
| SSelfMetrics (conn : OTLPConn) (namespace instance : string) (interval : Duration)
| SProfilePush (endpoint id token : string)
| SProfilePull (addr : string)
| STracer (conn : OTLPConn) (namespace instance : string)
| SEmitter (conn : OTLPConn) (maxBytes : Z)
| SRun (healthThreshold : Duration).

Inductive CheckpointKind := CpConfigMap (ns name : string) | CpDynamo (table prefix : string) | CpFile (path : string).

Inductive CoordKind :=
| CoNoop
| CoLease (ns name identity : string) (lease renew retry : Duration)
| CoDynamo (table pk identity : string) (lease renew retry : Duration).

Definition leaseName : string := "genai-otel-bridge-leader".
Definition checkpointCMName : string := "genai-otel-bridge-checkpoints".

(** What the environment answers while the clients are built: the error, if
    any. *)
Record Clients := mkClients {
  cl_inCluster : option string; cl_k8s : option string; cl_aws : option string; cl_file : option string;
  cl_provider : OTLPConn -> option string; cl_metrics : option string;
  cl_pyroscope : string -> option string; cl_listen : string -> option string; cl_tracer : OTLPConn -> option string
}.

Definition needK8s (h : HAConfig) : bool := bool_decide (ha_Coordinator h = "lease") || bool_decide (ha_Checkpoint h = "configmap").

Definition checkpoint_of (h : HAConfig) (ns cpFile : string) : CheckpointKind :=
  if decide (ha_Checkpoint h = "configmap") then CpConfigMap ns checkpointCMName
  else if decide (ha_Checkpoint h = "dynamodb") then CpDynamo (dh_Table (ha_DynamoDB h)) (dh_KeyPrefix (ha_DynamoDB h) +:+ "ckpt#")
  else CpFile cpFile.

Definition coordinator_of (h : HAConfig) (ns identity : string) : CoordKind :=
  let d := ha_DynamoDB h in
  if decide (ha_Coordinator h = "lease") then CoLease ns leaseName identity (15 * Second) (10 * Second) (2 * Second)
  else if decide (ha_Coordinator h = "dynamodb") then
    CoDynamo (dh_Table d) (dh_KeyPrefix d +:+ "lock#" +:+ dh_LockName d) identity (dh_LeaseDuration d) (dh_RenewDeadline d) (dh_RetryPeriod d)
  else CoNoop.

(** The client timeout of the DynamoDB requests. *)
Definition dynamo_timeout (h : HAConfig) : Duration :=
  let t := dh_RenewDeadline (ha_DynamoDB h) in if (t <=? 0)%Z then (10 * Second)%Z else t.

Definition fails (e : option string) (what : string) : result string unit := match e with Some e => Err (what +:+ e) | None => Ok tt end.

Definition buildHA (cl : Clients) (h : HAConfig) (ns identity cpFile : string) : result string (CheckpointKind * CoordKind) :=
  let? _ := if needK8s h then let? _ := fails (cl_inCluster cl) "in-cluster k8s config: " in fails (cl_k8s cl) "k8s client: " else Ok tt in
  let? _ := if uses_dynamodb h then fails (cl_aws cl) "aws config: " else Ok tt in
  let cp := checkpoint_of h ns cpFile in
  let? _ := match cp with CpFile _ => fails (cl_file cl) "file checkpoint: " | _ => Ok tt end in
  match RequireIdentity (ha_Coordinator h) identity with
  | Some e => Err ("ha identity: " +:+ e)
  | None => Ok (cp, coordinator_of h ns identity)
  end.

(** The self-telemetry plane falls back to the product's endpoint. *)
Definition selfEP (cfg : Config) : OTLPConn := match ec_Self (c_Emit cfg) with Some t => ot_OTLP t | None => ot_OTLP (ec_Telemetry (c_Emit cfg)) end.
Definition selfInterval (cfg : Config) : Duration := match ec_Self (c_Emit cfg) with Some t => ot_MetricInterval t | None => 0%Z end.
Definition meta (cfg : Config) : string := ic_ServiceNamespace (c_Identity cfg) +:+ "-meta".

(** [StartProfiling]: what it starts, or the error. *)
Definition StartProfiling (cl : Clients) (p : ProfilingConfig) : result string (list StartEv) :=
  let push := pf_Push p in
  if negb (pf_Enabled p) then Ok []
  else if decide (pf_Mode p = "push") then
    match cl_pyroscope cl (ps_Endpoint push) with
    | Some e => Err ("selfobs profiling: start pyroscope: " +:+ e)
    | None => Ok [SProfilePush (ps_Endpoint push) (ps_InstanceID push) (ps_Token push)]
    end
  else match cl_listen cl (pl_Addr (pf_Pull p)) with
       | Some e => Err ("selfobs profiling: listen: " +:+ e)
       | None => Ok [SProfilePull (pl_Addr (pf_Pull p))]
       end.

(** ** main *)

Record Flags := mkFlags { fl_ns : string; fl_identity : string; fl_cpFile : string }.

(** Leader election is off, so more than one replica would all lead. *)
Definition too_many_replicas (cfg : Config) (replicas : string) : bool :=
  bool_decide (ha_Coordinator (c_HA cfg) = "none") &&
  match ParseInt replicas with Some n => (1 <? n)%Z | None => false end.

(** What a run of [main] leaves: the planes it started, in order, and how it
    ended; [Ok] when it reached [app.Run]. *)
Definition Outcome (A : Type) : Type := list StartEv * result string A.

Definition also {A B} (m : Outcome A) (k : A -> Outcome B) : Outcome B :=
  match m with (ev, Ok a) => let '(ev', r) := k a in (ev ++ ev', r) | (ev, Err e) => (ev, Err e) end.
Definition fatal_if (b : bool) (e : string) : Outcome unit := ([], if b then Err e else Ok tt).
Definition lift {A} (r : result string A) : Outcome A := ([], r).
Definition start_ev (e : StartEv) : Outcome unit := ([e], Ok tt).

Notation "m ;>> k" := (also m (fun _ => k)) (at level 60, right associativity).

Section accepted_start.
Context (url_Parse : string -> option Httpx.URL) (ParseIP : string -> option Httpx.IP).

(** ** What acceptance says of the choices *)

Lemma ha_accepted cfg known :
  Validate url_Parse ParseIP cfg known = [] ->
  let h := c_HA cfg in let d := ha_DynamoDB h in
  ha_Coordinator h ∈ ["lease"; "none"; "dynamodb"] /\ (ha_Checkpoint h ∈ ["configmap"; "file"; "dynamodb"]) /\
  (ha_Coordinator h = "lease" -> ha_Checkpoint h <> "file") /\
  (ha_Coordinator h = "dynamodb" -> ha_Checkpoint h = "dynamodb" /\ (0 < dh_RetryPeriod d < dh_RenewDeadline d)%Z /\ (dh_RenewDeadline d < dh_LeaseDuration d)%Z).
Proof.
  unfold Validate. rewrite !app_nil. intros (_ & _ & _ & _ & Hh & _). unfold validate_ha, one_of in Hh. cbv zeta in *.
  rewrite !app_nil, !err_when_nil in Hh. destruct Hh as (Hco & Hcp & Hlf & Hdc & _ & Hd).
  apply negb_false_iff, bool_decide_eq_true in Hco, Hcp. split_and!; [done|done| |].
  - intros Hl Hf. by rewrite Hl, Hf in Hlf.
  - intros Hdy. rewrite bool_decide_true in Hdc, Hd by done. cbn [andb] in Hdc. apply negb_false_iff, bool_decide_eq_true in Hdc.
    rewrite !app_nil, !err_when_nil in Hd. destruct Hd as (_ & H1 & H2 & H3). apply Z.leb_gt in H1, H2, H3. split_and!; [done|lia..].
Qed.

Lemma self_interval_honoured cfg known :
  Validate url_Parse ParseIP cfg known = [] ->
  effectiveSelfInterval (selfInterval cfg) (gc_MaxDPM (c_Governance cfg)) = if (selfInterval cfg =? 0)%Z then Minute else selfInterval cfg.
Proof.
  unfold Validate, validate_emit. rewrite !app_nil. intros (_ & _ & _ & _ & _ & (_ & _ & Hs) & _).
  unfold effectiveSelfInterval, selfInterval, minSelfInterval. set (m := if (gc_MaxDPM _ <? 1)%Z then _ else _).
  assert (Z.quot Minute m <= Minute)%Z as Hq.
  { assert (1 <= m)%Z by (unfold m; zbool; lia). rewrite Z.quot_div_nonneg by (unfold Minute; lia). apply Z.div_le_upper_bound; unfold Minute; lia. }
  destruct (ec_Self (c_Emit cfg)) as [t|]; cbn [Z.eqb]; [|by rewrite (proj2 (Z.ltb_ge _ _) Hq)].
  unfold validate_self in Hs. rewrite !app_nil, err_when_nil in Hs. destruct Hs as (_ & _ & Hs%err_when_nil). cbv zeta in Hs. fold m in Hs.
  destruct (ot_MetricInterval t =? 0)%Z; [by rewrite (proj2 (Z.ltb_ge _ _) Hq)|]. cbn [negb andb] in Hs. by rewrite Hs.
Qed.

Lemma conn_guarded cfg known conn :
  Validate url_Parse ParseIP cfg known = [] -> conn ∈ emit_conns cfg -> oc_Token conn <> "" \/ oc_InstanceID conn <> "" ->
  guarded url_Parse ParseIP (oc_Endpoint conn).
Proof.
  intros Hv Hin Hcred. destruct (emit_conns_valid _ _ _ _ _ Hv Hin) as (Hne & field & Hf).
  apply validateEmitEndpoint_nil in Hf; [|done]. naive_solver.
Qed.

Lemma selfEP_conn cfg : selfEP cfg ∈ emit_conns cfg.
Proof. unfold selfEP, emit_conns. destruct (ec_Self (c_Emit cfg)); [right; left|left]. Qed.

Lemma StartProfiling_push cl p evp ep id tok known cfg :
  so_Profiling (c_Selfobs cfg) = p -> Validate url_Parse ParseIP cfg known = [] -> StartProfiling cl p = Ok evp -> SProfilePush ep id tok ∈ evp ->
  guarded url_Parse ParseIP ep.
Proof.
  intros Hp Hv Hst Hin. assert (validate_profiling url_Parse ParseIP p = []) as Hvp
    by (rewrite <-Hp; revert Hv; unfold Validate; rewrite !app_nil; tauto).
  revert Hst. unfold StartProfiling. destruct (pf_Enabled p) eqn:He; cbn [negb]; [|intros [= <-]; by apply elem_of_nil in Hin].
  case_decide as Hm; [|destruct (cl_listen _ _); [done|]; intros [= <-]; by apply list_elem_of_singleton in Hin].
  destruct (cl_pyroscope _ _); [done|]. intros [= <-]. apply list_elem_of_singleton in Hin as [= -> -> ->].
  apply profiling_valid; [done|done|]. unfold validate_profiling, one_of in Hvp. rewrite He, Hm in Hvp. cbn [negb] in Hvp.
  rewrite bool_decide_false, decide_True, !app_nil, !err_when_nil in Hvp by set_solver. destruct Hvp as (_ & Hc & _).
  rewrite orb_false_iff, !bool_decide_eq_false in Hc. tauto.
Qed.

Lemma StartProfiling_kinds cl p evp : StartProfiling cl p = Ok evp -> forall e, e ∈ evp -> match e with SProfilePush _ _ _ | SProfilePull _ => True | _ => False end.
Proof.
  unfold StartProfiling. intros Hst e He. destruct (negb _); [injection Hst as <-; by apply elem_of_nil in He|].
  case_decide; [destruct (cl_pyroscope _ _)|destruct (cl_listen _ _)]; try done; injection Hst as <-; apply list_elem_of_singleton in He as ->; done.
Qed.

(** ** The keys of one table *)

Lemma lock_not_checkpoint prefix name k : prefix +:+ "lock#" +:+ name <> (prefix +:+ "ckpt#") +:+ key_String k.
Proof.
  rewrite string_app_assoc. intros Heq. apply string_app_inj_length in Heq as [_ Heq]; [|done]. discriminate Heq.
Qed.

(** What the coordinator and the store of a started process promise. *)
Definition ha_safe (identity replicas : string) (cp : CheckpointKind) (co : CoordKind) : Prop :=
  match co with
  | CoNoop => forall n, ParseInt replicas = Some n -> (n <= 1)%Z
  | CoLease _ _ id lease renew retry => id <> "" /\ (retry < renew < lease)%Z /\ (forall path, cp <> CpFile path)
  | CoDynamo table pk id lease renew retry => id <> "" /\ (0 < retry < renew)%Z /\ (renew < lease)%Z /\
      exists prefix, cp = CpDynamo table prefix /\ forall k, pk <> prefix +:+ key_String k
  end.

Lemma buildHA_safe cl cfg known ns identity cpFile replicas cp co :
  Validate url_Parse ParseIP cfg known = [] -> too_many_replicas cfg replicas = false ->
  buildHA cl (c_HA cfg) ns identity cpFile = Ok (cp, co) ->
  ha_safe identity replicas cp co /\ (co = CoNoop <-> ha_Coordinator (c_HA cfg) = "none").
Proof.
  intros Hv Hrep Hb. destruct (ha_accepted cfg known Hv) as (Hco & Hcp & Hlf & Hdy). unfold buildHA in Hb.
  repeat (match type of Hb with context [match ?x with Ok _ => _ | Err _ => _ end] => destruct x; [|done] end).
  destruct (RequireIdentity _ _) eqn:Hid; [done|]. injection Hb as <- <-. unfold RequireIdentity in Hid. unfold coordinator_of.
  unfold too_many_replicas in Hrep.
  assert (ha_Coordinator (c_HA cfg) = "lease" \/ ha_Coordinator (c_HA cfg) = "dynamodb" -> identity <> "") as Hne.
  { intros Hha ->. rewrite bool_decide_true in Hid by done. destruct Hha as [Hha|Hha]; rewrite Hha in Hid; done. }
  set_unfold in Hco. destruct Hco as [Hc|[Hc|[Hc|[]]]].
  - rewrite Hc. rewrite decide_True by done. split; [|done]. cbn [ha_safe]. split_and!; [auto|unfold Second; lia..|].
    intros path. specialize (Hlf Hc). unfold checkpoint_of. set_unfold in Hcp. destruct (decide _); [discriminate|]. destruct (decide _); [discriminate|]. naive_solver.
  - rewrite Hc in *. rewrite !decide_False by done. split; [|done]. cbn [ha_safe]. intros n Hn. rewrite Hn, bool_decide_true in Hrep by done.
    cbn [andb] in Hrep. by apply Z.ltb_ge in Hrep.
  - destruct (Hdy Hc) as (Hcpd & Hr1 & Hr2). rewrite Hc. rewrite decide_False, decide_True by done. split; [|done].
    cbn [ha_safe]. split_and!; [auto|lia..|]. unfold checkpoint_of. rewrite Hcpd. eexists. split; [done|]. apply lock_not_checkpoint.
Qed.
End accepted_start.

Section main.
Context (ParseDuration : string -> option Duration) (trim_uni uni sha256_hex : string -> string).
Context (url_Parse : string -> option Httpx.URL) (ParseIP : string -> option Httpx.IP).
Context {W : Type} `{Checkpointer W}.
(** The store a checkpoint kind gives access to. *)
Context (open_store : CheckpointKind -> W).

Definition noop_or_other (co : CoordKind) : CoordinatorKind := match co with CoNoop => NoopCoordinator 0 | _ => OtherCoordinator end.

Definition build_app (cfg : Config) (cp : CheckpointKind) (co : CoordKind) : result string App :=
  match (Build ParseDuration trim_uni uni sha256_hex url_Parse ParseIP cfg (noop_or_other co) (open_store cp)).1 with
  | Ok a => Ok a
  | Err _ => Err "build"
  end.

(** From the loaded configuration to [app.Run]. *)
Definition main_with (cl : Clients) (fl : Flags) (replicas : string) (cfg : Config) : Outcome (App * CheckpointKind * CoordKind) :=
  let conn := selfEP cfg in
  let self := meta cfg in
  let inst := fl_identity fl in
  fatal_if (too_many_replicas cfg replicas) "ha.coordinator=none with several replicas" ;>>
  fatal_if (match NewHandler (lg_Format (c_Log cfg)) (lg_Level (c_Log cfg)) with Some _ => false | None => true end) "log handler" ;>>
  lift (fails (cl_provider cl conn) "selfobs: ") ;>>
  start_ev (SSelfMetrics conn self inst (effectiveSelfInterval (selfInterval cfg) (gc_MaxDPM (c_Governance cfg)))) ;>>
  lift (fails (cl_metrics cl) "selfobs metrics: ") ;>>
  also (lift (StartProfiling cl (so_Profiling (c_Selfobs cfg)))) (fun ev => (ev, Ok tt)) ;>>
  (if tc_Enabled (so_Tracing (c_Selfobs cfg)) then lift (fails (cl_tracer cl conn) "selfobs tracing: ") ;>> start_ev (STracer conn self inst) else ([], Ok tt)) ;>>
  start_ev (SEmitter (ot_OTLP (ec_Telemetry (c_Emit cfg))) (qc_MaxBatchBytes (c_Queue cfg))) ;>>
  also (lift (buildHA cl (c_HA cfg) (fl_ns fl) inst (fl_cpFile fl))) (fun '(cp, co) =>
  also (lift (build_app cfg cp co)) (fun a =>
  ([SRun (livenessThreshold cfg)], Ok (a, cp, co)))).

(** ** What a process that runs went through *)

Lemma also_ok {A B} (m : Outcome A) (k : A -> Outcome B) ev b :
  also m k = (ev, Ok b) -> exists ev1 a ev2, m = (ev1, Ok a) /\ k a = (ev2, Ok b) /\ ev = ev1 ++ ev2.
Proof.
  destruct m as [ev1 [a|e]]; cbn; [|done]. destruct (k a) as [ev2 r] eqn:E. intros [= <- ->]. by exists ev1, a, ev2.
Qed.

Lemma Build_validated cfg coord w app w' :
  Build ParseDuration trim_uni uni sha256_hex url_Parse ParseIP cfg coord w = (Ok app, w') -> exists known, Validate url_Parse ParseIP cfg known = [].
Proof.
  unfold Build. destruct registry; [|done]. destruct (Validate _ _ _ _) eqn:Hv; [|done]. intros _. eauto.
Qed.

Record started (cl : Clients) (fl : Flags) (replicas : string) (cfg : Config) (ev : list StartEv) (a : App) (cp : CheckpointKind) (co : CoordKind) : Prop := {
  st_replicas : too_many_replicas cfg replicas = false;
  st_profiling : exists evp, StartProfiling cl (so_Profiling (c_Selfobs cfg)) = Ok evp /\
    ev = SSelfMetrics (selfEP cfg) (meta cfg) (fl_identity fl) (effectiveSelfInterval (selfInterval cfg) (gc_MaxDPM (c_Governance cfg)))
         :: evp ++ (if tc_Enabled (so_Tracing (c_Selfobs cfg)) then [STracer (selfEP cfg) (meta cfg) (fl_identity fl)] else [])
         ++ [SEmitter (ot_OTLP (ec_Telemetry (c_Emit cfg))) (qc_MaxBatchBytes (c_Queue cfg)); SRun (livenessThreshold cfg)];
  st_ha : buildHA cl (c_HA cfg) (fl_ns fl) (fl_identity fl) (fl_cpFile fl) = Ok (cp, co);
  st_app : exists w', Build ParseDuration trim_uni uni sha256_hex url_Parse ParseIP cfg (noop_or_other co) (open_store cp) = (Ok a, w')
}.

Lemma main_with_ok cl fl replicas cfg ev a cp co :
  main_with cl fl replicas cfg = (ev, Ok (a, cp, co)) -> started cl fl replicas cfg ev a cp co.
Proof.
  unfold main_with. cbv zeta. intros (e1 & [] & r1 & H1 & Hk & ->)%also_ok. unfold fatal_if in H1. destruct (too_many_replicas _ _) eqn:Hrep; [done|]. injection H1 as <-.
  apply also_ok in Hk as (e2 & [] & r2 & H2 & Hk & ->). unfold fatal_if in H2. injection H2 as <- _.
  apply also_ok in Hk as (e3 & [] & r3 & H3 & Hk & ->). injection H3 as <- _.
  apply also_ok in Hk as (e4 & [] & r4 & [= <-] & Hk & ->).
  apply also_ok in Hk as (e5 & [] & r5 & [= <- _] & Hk & ->).
  apply also_ok in Hk as (e6 & [] & r6 & H6 & Hk & ->). apply also_ok in H6 as (e6a & evp & e6b & [= <- Hprof] & [= <-] & ->).
  apply also_ok in Hk as (e7 & [] & r7 & H7 & Hk & ->).
  apply also_ok in Hk as (e8 & [] & r8 & [= <-] & Hk & ->).
  apply also_ok in Hk as (e9 & [cp' co'] & r9 & [= <- Hha] & Hk & ->).
  apply also_ok in Hk as (e10 & a' & r10 & [= <- Happ] & [= <- -> -> ->] & ->). split; [done| |done|].
  - exists evp. split; [done|]. cbn [app]. do 2 f_equal. destruct (tc_Enabled _).
    + apply also_ok in H7 as (e7a & [] & e7b & [= <- _] & [= <-] & ->). done.
    + injection H7 as <-. done.
  - revert Happ. unfold build_app. destruct (Build _ _ _ _ _ _ _ _ _) as [[a'|e] w'] eqn:Hb; cbn; [|done]. intros [= ->]. eauto.
Qed.
(** The credentials a plane sends, with the endpoint it sends them to. *)
Definition credentialed (e : StartEv) (url : string) : Prop :=
  match e with
  | SSelfMetrics conn _ _ _ | STracer conn _ _ | SEmitter conn _ => url = oc_Endpoint conn /\ (oc_Token conn <> "" \/ oc_InstanceID conn <> "")
  | SProfilePush endpoint _ _ => url = endpoint
  | SProfilePull _ | SRun _ => False
  end.

(** What a started process can rely on.  The configuration was accepted; no
    plane sends credentials to an endpoint the cleartext gate refuses; the
    application starts last, with the threshold of the liveness probe; the
    self-metrics reader keeps the configured interval; leadership is safe. *)
Record safe_start (cfg : Config) (identity replicas : string) (ev : list StartEv) (cp : CheckpointKind) (co : CoordKind) : Prop := {
  ss_accepted : exists known, Validate url_Parse ParseIP cfg known = [];
  ss_guarded : forall e url, e ∈ ev -> credentialed e url -> guarded url_Parse ParseIP url;
  ss_last : exists pre, ev = pre ++ [SRun (livenessThreshold cfg)] /\ forall t, SRun t ∉ pre;
  ss_interval : forall conn ns inst i, SSelfMetrics conn ns inst i ∈ ev -> i = if (selfInterval cfg =? 0)%Z then Minute else selfInterval cfg;
  ss_ha : ha_safe identity replicas cp co /\ (co = CoNoop <-> ha_Coordinator (c_HA cfg) = "none")
}.

Lemma main_with_safe cl fl replicas cfg ev a cp co :
  main_with cl fl replicas cfg = (ev, Ok (a, cp, co)) -> safe_start cfg (fl_identity fl) replicas ev cp co.
Proof.
  intros [Hrep (evp & Hprof & Hev) Hha [w' Happ]]%main_with_ok. destruct (Build_validated _ _ _ _ _ Happ) as [known Hv].
  pose proof (StartProfiling_kinds _ _ _ Hprof) as Hkinds.
  set (traced := if tc_Enabled _ then _ else _) in Hev. assert (forall e, e ∈ traced -> e = STracer (selfEP cfg) (meta cfg) (fl_identity fl)) as Htr.
  { unfold traced. intros e He. destruct (tc_Enabled _); [by apply list_elem_of_singleton in He|by apply elem_of_nil in He]. }
  split; [eauto| | | |by eapply buildHA_safe].
  - intros e url He Hc. rewrite Hev, elem_of_cons, !elem_of_app in He. set_unfold in He. destruct He as [->|[He|[He|[->| [->|[]]]]]].
    + destruct Hc as [-> Hc]. eapply conn_guarded; [done|apply selfEP_conn|done].
    + pose proof (Hkinds e He) as Hk. destruct e; try done. cbn in Hc. subst url. by eapply StartProfiling_push.
    + rewrite (Htr e He) in Hc. destruct Hc as [-> Hc]. eapply conn_guarded; [done|apply selfEP_conn|done].
    + destruct Hc as [-> Hc]. eapply conn_guarded; [done|unfold emit_conns; left|done].
    + destruct Hc.
  - rewrite Hev. eexists (_ :: evp ++ traced ++ [_]). split; [by cbn [app]; rewrite <-!(assoc_L (++))|].
    intros t Ht. rewrite elem_of_cons, !elem_of_app, list_elem_of_singleton in Ht.
    destruct Ht as [?|[Ht|[Ht%Htr|?]]]; try done. by apply Hkinds in Ht.
  - intros conn ns inst i Hin. rewrite <-(self_interval_honoured _ _ cfg known Hv). rewrite Hev, elem_of_cons, !elem_of_app in Hin.
    destruct Hin as [Hin|[Hin|[Hin|Hin]]]; [congruence|by apply Hkinds in Hin|by apply Htr in Hin|set_unfold in Hin; naive_solver].
Qed.
End main.

(** ** The command line *)

(** The parsed flags. *)
Record Args := mkArgs {
  ar_version : bool; ar_validate : bool; ar_cleanup : bool; ar_retain : bool; ar_healthcheck : bool;
  ar_config : string; ar_healthAddr : string; ar_ns : string; ar_identity : string; ar_cpFile : string
}.

(** How a run of the binary ends, or the application it started. *)
Inductive Ended :=
| EVersion
| EValidated (r : result PreflightErr unit)
| ECleaned (r : result (list string) unit)
| EProbed (code : Z)
| ERan (o : Outcome (App * CheckpointKind * CoordKind)).

(** The exit code of the runs that end by themselves. *)
Definition exit_code (e : Ended) : option Z :=
  match e with
  | EVersion | EValidated (Ok _) | ECleaned (Ok _) => Some 0%Z
  | EValidated (Err _) | ECleaned (Err _) | ERan (_, Err _) => Some 1%Z
  | EProbed code => Some code
  | ERan (_, Ok _) => None
  end.

Section entry.
Context (ReadFile : string -> option string) (trim_uni : string -> string) (range : gmap string string -> list (string * string)).
Context (yaml_Unmarshal : string -> result string Node) (yaml_Marshal : Node -> result string string) (yaml_Decode : string -> result string Config).
Context (ParseDuration : string -> option Duration) (uni sha256_hex : string -> string).
Context (url_Parse : string -> option Httpx.URL) (ParseIP : string -> option Httpx.IP).
Context {W : Type} `{Checkpointer W} (open_store : CheckpointKind -> W).
Context {K : Type} `{CleanupAPI K}.
(** The HTTP clients of the helpers, and the decoder of the task metadata. *)
Context (probe_Get : string -> option Z) (ecs_Get : string -> option (string * bool)) (TaskARN : string -> option string).

Definition runCleanup (cl : Clients) (ns : string) (retain : bool) (k : K) : result (list string) unit * K :=
  if decide (ns = "") then (Err ["namespace is required"], k)
  else match cl_inCluster cl with
       | Some e => (Err [e], k)
       | None =>
           match cl_k8s cl with
           | Some e => (Err [e], k)
           | None => match Cleanup.Run retain k with ([], k) => (Ok tt, k) | (errs, k) => (Err errs, k) end
           end
       end.

(** An inline configuration wins over the file. *)
Definition load_config (env : Env) (path : string) : result string Config :=
  let inline := os_Getenv env "GENAI_OTEL_BRIDGE_CONFIG" in
  if decide (inline = "") then load_in ReadFile trim_uni range yaml_Unmarshal yaml_Marshal yaml_Decode env path
  else load_bytes_in ReadFile trim_uni range yaml_Unmarshal yaml_Marshal yaml_Decode env inline.

(** An explicit identity wins over the task's. *)
Definition identity_of (env : Env) (explicit : string) : string :=
  if decide (explicit = "") then (resolveECSIdentity ecs_Get TaskARN (os_Getenv env "ECS_CONTAINER_METADATA_URI_V4")).1 else explicit.

Definition main_run (cl : Clients) (args : Args) (env : Env) : Outcome (App * CheckpointKind * CoordKind) :=
  also (lift (load_config env (ar_config args)))
    (main_with ParseDuration trim_uni uni sha256_hex url_Parse ParseIP open_store cl
       (mkFlags (ar_ns args) (identity_of env (ar_identity args)) (ar_cpFile args)) (os_Getenv env "GENAI_OTEL_BRIDGE_REPLICAS")).

Definition main (cl : Clients) (args : Args) (env : Env) (k : K) : Ended * K :=
  if ar_version args then (EVersion, k)
  else if ar_validate args then
    (EValidated (ValidateConfigFile ReadFile trim_uni range yaml_Unmarshal yaml_Marshal yaml_Decode ParseDuration uni url_Parse ParseIP (ar_config args) env).1, k)
  else if ar_cleanup args then let '(r, k) := runCleanup cl (ar_ns args) (ar_retain args) k in (ECleaned r, k)
  else if ar_healthcheck args then (EProbed (healthCheckCode probe_Get (localHealthURL (ar_healthAddr args))), k)
  else (ERan (main_run cl args env), k).

(** C10: a process that reaches [app.Run] went through every gate of [main].  It
    was started in none of the one-shot modes; the configuration it runs, the
    inline one or the file's, was loaded and accepted; no plane it started sends
    credentials to an endpoint the cleartext gate refuses; the self-metrics
    reader keeps the configured interval; and leadership is safe: without a
    coordinator the replica count is at most one; with one the replica has an
    identity, its renewal deadline lies between the retry period and the lease
    duration, checkpoints are shared, and the lock's item is no checkpoint's.
    The application starts last, with the threshold of the liveness probe, and
    only a cleanup deletes anything in the cluster. *)
Theorem started_safe cl args env k ev a cp co k' :
  main cl args env k = (ERan (ev, Ok (a, cp, co)), k') ->
  k' = k /\ ar_version args || ar_validate args || ar_cleanup args || ar_healthcheck args = false /\
  exists cfg, load_config env (ar_config args) = Ok cfg /\
    safe_start url_Parse ParseIP cfg (identity_of env (ar_identity args)) (os_Getenv env "GENAI_OTEL_BRIDGE_REPLICAS") ev cp co.
Proof.
  unfold main. destruct (ar_version args); [done|]. destruct (ar_validate args); [done|].
  destruct (ar_cleanup args); [by destruct (runCleanup _ _ _ _)|]. destruct (ar_healthcheck args); [done|].
  intros [= Hrun <-]. split; [done|]. split; [done|]. apply also_ok in Hrun as (e1 & cfg & ev2 & [= <- Hload] & Hrun & ->).
  exists cfg. split; [done|]. apply main_with_safe in Hrun. exact Hrun.
Qed.
End entry.

(** ** A start *)

Module StartDemo.
#[local] Existing Instance Coordinate.Sim.store.
Definition clients : Clients := mkClients None None None None (fun _ => None) None (fun _ => None) (fun _ => None) (fun _ => None).
Definition config (co cp : string) : Config := apply_defaults (ConfigDemo.with_sources co cp ConfigDemo.gateway [AppDemo.langsmith]).
Definition start (co cp identity replicas : string) : Outcome (App * CheckpointKind * CoordKind) :=
  main_with (fun _ => None) id id rev_string ConfigDemo.parse ConfigDemo.parse_ip (fun _ => ∅) clients (mkFlags "ns" identity "ckpt.yaml") replicas (config co cp).
Definition app : App := match (start "dynamodb" "dynamodb" "task/1" "3").2 with Ok (a, _, _) => a | Err _ => AppDemo.nothing end.
Definition events : list StartEv := (start "dynamodb" "dynamodb" "task/1" "3").1.

Lemma ha_started :
  start "dynamodb" "dynamodb" "task/1" "3" = (events, Ok (app, CpDynamo "table" "ckpt#", CoDynamo "table" "lock#genai-otel-bridge-leader" "task/1" (15 * Second) (10 * Second) (2 * Second))).
Proof.
  unfold app, events. assert (match (start "dynamodb" "dynamodb" "task/1" "3").2 with Ok (_, cp, co) => Some (cp, co) | Err _ => None end =
    Some (CpDynamo "table" "ckpt#", CoDynamo "table" "lock#genai-otel-bridge-leader" "task/1" (15 * Second) (10 * Second) (2 * Second))) as Hk
    by (vm_compute; reflexivity).
  destruct (start "dynamodb" "dynamodb" "task/1" "3") as [ev [[[a cp] co]|e]]; cbn in Hk |- *; [by injection Hk as -> ->|done].
Qed.
End StartDemo.

(** Without an identity, or with several replicas and no leadership, the
    process ends before the application is built. *)
Example no_identity : (StartDemo.start "dynamodb" "dynamodb" "" "3").2 = Err "ha identity: leader-election identity is empty".
Proof. vm_compute. reflexivity. Qed.
Example all_leaders : StartDemo.start "none" "file" "" "2" = ([], Err "ha.coordinator=none with several replicas").
Proof. vm_compute. reflexivity. Qed.

(** The same start from the command line, with the task's identity. *)
Module EntryDemo.
#[local] Existing Instance Coordinate.Sim.store.
Definition env : Env := {[ "ECS_CONTAINER_METADATA_URI_V4" := "http://169.254.170.2/v4"; "GENAI_OTEL_BRIDGE_REPLICAS" := "3" ]}.
Definition args : Args := mkArgs false false false false false "config.yaml" ":8080" "ns" "" "ckpt.yaml".
Definition metadata (url : string) : option (string * bool) := if decide (url = "http://169.254.170.2/v4/task") then Some ("task/1", false) else None.
Definition cluster : Cleanup.Sim.Cluster := Cleanup.Sim.mkCluster None None false.
Definition run : Ended * Cleanup.Sim.Cluster :=
  main (fun _ => Some "emit:") id map_to_list ConfigDemo.unmarshal ConfigDemo.marshal (fun _ => Ok (StartDemo.config "dynamodb" "dynamodb")) (fun _ => None) id
    rev_string ConfigDemo.parse ConfigDemo.parse_ip (fun _ => ∅) (fun _ => None) metadata Some StartDemo.clients args env cluster.
Definition events : list StartEv := match run.1 with ERan (ev, _) => ev | _ => [] end.
Definition app : App := match run.1 with ERan (_, Ok (a, _, _)) => a | _ => AppDemo.nothing end.
Lemma ran : run = (ERan (events, Ok (app, CpDynamo "table" "ckpt#", CoDynamo "table" "lock#genai-otel-bridge-leader" "task/1" (15 * Second) (10 * Second) (2 * Second))), cluster).
Proof.
  unfold app, events. assert (match run with (ERan (_, Ok (_, cp, co)), k) => Some (cp, co, k) | _ => None end =
    Some (CpDynamo "table" "ckpt#", CoDynamo "table" "lock#genai-otel-bridge-leader" "task/1" (15 * Second) (10 * Second) (2 * Second), cluster)) as Hk
    by (vm_compute; reflexivity).
  destruct run as [[| | | |[ev [[[a cp] co]|e]]] k]; cbn in Hk |- *; try done. by injection Hk as -> -> ->.
Qed.
End EntryDemo.

Lemma started_safe_witness :
  length EntryDemo.events = 4 /\ guarded ConfigDemo.parse ConfigDemo.parse_ip "https://otlp.example".
Proof.
  assert (exists e, e ∈ EntryDemo.events /\ credentialed e "https://otlp.example") as (e & He & Hc).
  { assert (head EntryDemo.events = Some (SSelfMetrics ConfigDemo.gateway "genai-otel-bridge-meta" "task/1" Minute)) as Hh by (vm_compute; reflexivity).
    destruct EntryDemo.events as [|e l]; [done|]. exists e. split; [left|]. injection Hh as ->. split; [reflexivity|]. left. discriminate. }
  split; [vm_compute; reflexivity|]. refine (_ (started_safe _ _ _ _ _ _ _ _ _ _ _ _ _ _ _ _ _ _ _ _ _ _ _ _ EntryDemo.ran)).
  intros (_ & _ & cfg & _ & [_ Hg _ _ _]). exact (Hg e _ He Hc).
Defined.
